(* ===== verification/_CoqProject ===== *)
-Q . S2P
Prelude.v
IntMath.v
Clocked.v
Consumer.v
WakeupRing.v
NetDest.v
Flit.v
RoutingUnit.v
VirtualChannel.v
NetworkLink.v
InputUnit.v
OutputUnit.v
SwitchAllocator.v
Router.v
Fairness.v
RouterFrame.v
Interleave.v
GarnetNetwork.v
Parallel.v
Conservation.v
CreditFlow.v
MessageBuffer.v
NetworkInterface.v
NiSteps.v
NiCredit.v
NiLedger.v
Injection.v
Ejection.v
NetworkBridge.v
SerDes.v
Fabric.v
FlowControl.v
Ledger.v
Topology.v
ShortestPaths.v
Construction.v
Wiring.v
Provision.v
Simulation.v
NetworkLevel.v
FaultModel.v
SimpleNetwork.v
SimpleRouting.v
SimpleFlow.v
Switching.v
Bandwidth.v
SimpleRun.v
SimpleBuild.v
SimpleDelivery.v
EventQueue.v
EventSpec.v
SyntheticTraffic.v
