(* ===== verification/Prelude.v ===== *)
(** * A verification of the Garnet network-on-chip with parallel router wakeups

    The repository (src/FinalProject) is a copy of the gem5 simulator whose
    Garnet network model was changed so that, in every active cycle, the routers
    with work to do are found in a ring of bit masks and run in parallel by an
    OpenMP team. This library models that network, in C++ under
    src/FinalProject/gem5/src/mem/ruby/network (directory garnet/, the simple
    network in simple/, the fault model in fault_model/, and the files Topology,
    MessageBuffer and Network beside them), together with the pieces of
    mem/ruby/common, sim (the event queue, clocks) and base it rests on, and
    proves the properties that make it correct. All source paths below are
    relative to src/FinalProject/gem5/src.

    ** The program

    A protocol controller puts messages into MessageBuffers. A network interface
    takes a message from them, cuts it into flits, and sends the flits over a
    NetworkLink to its router under credit flow control. A router has input units
    (virtual-channel buffers), output units (credits and states of the VCs
    downstream), a routing unit, a switch allocator and a crossbar; it passes
    flits on over further links, until a network interface takes them off and
    enqueues the message of each tail flit into a MessageBuffer of the receiver.
    Every such object is a Consumer: it keeps a sorted list of the ticks at which
    it wants to wake up. Links and interfaces are woken by the event queue.
    Routers are not: they register with GarnetNetwork, which keeps a ring of 128
    64-bit masks (one bit per router, one slot per cycle) with a 128-bit bitmap of
    the slots in use. GarnetNetwork::globalWakeup takes the mask of the current
    slot, runs its routers sequentially or, if there are enough of them, in a
    parallel region in which worker t runs the routers t, t + T, t + 2T, ..., and
    finally schedules itself for the next slot in use. While the region is
    active, a router that wants to schedule a link pushes the request onto its
    worker's deferred queue; the master drains the queues after the barrier.

    The simple network, the alternative to Garnet, carries whole messages. Each
    switch has a PerfectSwitch, which takes messages from the input buffers and
    puts one copy per output link, with the destinations that link is responsible
    for, into the buffers of a Throttle, which moves them on at the bandwidth of
    the link. It shares the message buffers, the topology and the consumers with
    Garnet.

    ** The files

    - Prelude: the error monad [res] (assert, panic, fatal, out-of-range access
      and use of an unset member are different errors), vectors, loops, words,
      list lemmas, automation.
    - IntMath: base/intmath.hh and the bit builtins. Clocked: the clock
      arithmetic of sim/clocked_object.hh. Consumer: mem/ruby/common/Consumer.
    - WakeupRing: the ring of GarnetNetwork (registerWakeup,
      computeNextWakeupTick, the slot exchange of globalWakeup).
    - NetDest: mem/ruby/common/Set.hh (Module NodeSet) and NetDest.
    - Flit: CommonTypes.hh, flit, Credit, flitBuffer. RoutingUnit: table and XY
      routing, and the configuration accessors. VirtualChannel: VirtualChannel
      and OutVcState. NetworkLink: NetworkLink and CreditLink.
    - InputUnit, OutputUnit, SwitchAllocator (with the record of the whole
      router), Router (crossbar, ports, wakeup, statistics, functional accesses).
    - Fairness: the rounds of the switch allocator over successive wakeups of a
      router. RouterFrame: which links a router reads and writes, and which calls
      it makes on objects shared with others. Interleave: threads
      whose steps commute, as the class [Threads]. GarnetNetwork: construction of
      the worker masks, the sequential and the parallel branch of globalWakeup.
      Parallel: the instance of [Threads] for the workers, the interface
      [LinkUser] that a router implements towards it, and the theorems about
      globalWakeup. Conservation: that it conserves flits. CreditFlow: what a
      router wakeup does to the credits of each port and VC.
    - MessageBuffer: network/MessageBuffer and Message.hh.
    - NetworkInterface: the network interface, definitions; Injection and
      Ejection: the theorems about its two directions; NiSteps: the wakeup as a
      sequence of elementary steps; NiCredit and NiLedger: what it does to credits
      and to flits.
    - NetworkBridge: bridges between clock domains and link widths,
      definitions; SerDes: the theorems about them.
    - Fabric: the whole network as one state ([System]) with a step relation: the
      event of any consumer, a global wakeup, an action of the protocol.
      FlowControl: hops (a sender, a receiver, a link and a credit link) and their
      credit balance under these steps. Ledger: what the steps do to the flits of
      the network and to the counters of the interfaces.
    - Topology: network/Topology (link map, shortest paths, routing entries,
      link requests), definitions; ShortestPaths: its theorems.
    - Construction: network/Network.cc (node numbers, queues), GarnetLink.cc, and
      the constructor, init and link makers of GarnetNetwork.cc; Wiring: that
      links and ports agree afterwards; Provision: that the network starts with
      empty buffers and full credits; Simulation: an executable schedule of the
      steps, a run of a small network, and the flow-control theorems.
      NetworkLevel: functional accesses and
      statistics of the whole network. FaultModel: network/fault_model (the
      databases, the declaration of routers in GarnetNetwork::init, the queries).
    - SimpleNetwork: the simple network (simple/WeightBased, Throttle,
      PerfectSwitch, Switch, SimpleNetwork), definitions. SimpleRouting: how
      destinations are split among links. SimpleFlow: the effect of an operation
      on the messages in the buffers. Switching: the effects of the wakeups of
      perfect switches and throttles. Bandwidth: throttles succeed, keep to the
      bandwidth and do not forget work. SimpleRun: steps and runs of the network
      and their invariant; SimpleBuild: that construction establishes it;
      SimpleDelivery: an executable schedule, an example, and the theorems on
      constructed networks.
    - EventQueue: sim/eventq (events in linked bins) and the loop of
      sim/simulate.cc, with what the pointers represent; EventSpec: the sorted
      list they refine. SyntheticTraffic: the tester that drives the network
      (cpu/testers/garnet_synthetic_traffic).

    Each record has the members of the class it models and each function its
    name, with a prefix (vc_, ovc_, iu_, ou_, sa_, xbar_, ni_, link_, router_,
    topo_, bridge_, network_, eq_, ev_, th_, ps_, sw_, sn_) where several classes have a method of that name; large methods are
    split into the functions that follow them in the same file.

    ** What the theorems show

    - Parallelism (Parallel): under every interleaving of the workers the
      parallel region ends, no worker fails, and what it can leave behind is
      exactly what the sequential branch can leave behind, over all answers of
      rand(); where no router asks rand() (every virtual network ordered) that is
      one outcome. The outcomes of globalWakeup therefore do not depend on the
      number of workers and the threshold; the worker masks partition the routers;
      the sequential branch runs the routers in ascending order.
    - Scheduling (WakeupRing, Consumer): the bitmap always agrees with the masks;
      the constant-time search for the next slot equals a scan of the ring; a
      registration up to 128 cycles ahead made in a global wakeup, or made between
      global wakeups for a tick from the pending one to 127 cycles later, is
      honoured at its tick, and any other is served at a wrong tick, which is
      given; a global wakeup does to the ring what these theorems assume
      (Parallel); a consumer is a set of ticks with an event that never fires too
      late.
    - Transport (Router, Conservation, NetworkLink, Flit, VirtualChannel,
      OutputUnit, SwitchAllocator, Fairness): a router wakeup, a global wakeup under every
      interleaving, and a link neither lose nor duplicate flits; width conversion is invertible; credits are exact; VC selection and
      switch arbitration are what they should be, without starvation from one
      wakeup of a router to the next.
    - Routing (RoutingUnit, Topology/ShortestPaths, NetDest): XY routing reaches
      the destination in the Manhattan distance; table lookup picks a link of
      minimal weight; the computed distances are the shortest-path distances; the
      routing entries are exact and lead to the destination without livelock;
      destination sets are sets.
    - End points (MessageBuffer, Injection, Ejection): a strict buffer is a FIFO;
      slots it grants are free, whatever is sent; each destination of a multicast gets exactly one
      packet; packets have the right flits; VC allocation is a round robin;
      stalled messages always have their callback.
    - Bridges (SerDes): between widths of an integral ratio, a packet whose flits
      come one after the other leaves a bridge as the same packet at the other
      width; credits are expanded and gathered exactly as the flits were; flits
      are spaced by cycles of the consumer.
    - Construction (Construction, Wiring): whatever the topology, the network
      that is built satisfies the conditions of the parallelism theorems, and
      every link wakes the object that reads it and reads the queue of the object
      that writes it.
    - Flow control (CreditFlow, NiCredit, FlowControl, Provision, Simulation): in
      every state a constructed network can reach, for each hop without a bridge
      and each VC, the sender's credits, the flits and credits on the way and the
      flits buffered by the receiver add up to the capacity of the buffer, so that
      buffers do not overflow and credit counters stay within their bounds. This
      composes the theorems on routers, interfaces, links, the parallel region and
      construction.
    - End to end (NiLedger, Ledger, Simulation): in every state a constructed
      network without bridges can reach, the flits the interfaces have counted as
      injected are those counted as received and those on their way, for each
      virtual network: nothing is lost or duplicated between the interfaces.
    - The whole network (NetworkLevel): functional accesses visit each place of
      the network that holds flits exactly once, except the stall queues of the
      interfaces and, for writes, the bridges; examples show what they and the
      statistics miss.
    - The fault model (FaultModel): the databases are read exactly; with the fault
      model enabled init succeeds exactly on supported configurations, and every
      router then gets the fault probabilities of the record init selects for it at
      every temperature, which are exactly 0 below the table; a second fault model in
      one simulation does not work, because of shared statics.
    - The simple network (SimpleRouting, Switching, Bandwidth, SimpleDelivery): a
      message is split so that every destination is in exactly one copy; in every
      state a constructed network can reach, for every machine the copies in
      buffers and those received are the messages sent to it, and controllers
      receive messages only over links that lead to all their destinations; the
      pending counts by which switches skip vnets are exact; a throttle between
      buffers in order, as construction leaves it, does not fail, exceed its
      bandwidth or go to sleep with work left, and neither
      does a perfect switch leave a buffer with a message that is ready without
      being scheduled.
    - Time (EventQueue, EventSpec): the linked bins refine a list sorted by time
      and priority, last in first out among equals, under every sequence of
      operations, with the same errors; an operation fails exactly if its
      precondition is violated; the simulation loop runs the events in this order
      and never finds one in the past.
    - Traffic (SyntheticTraffic): the deterministic traffic patterns are
      permutations of the nodes.

    ** How the code is modelled

    - Integers are [Z]; 32- and 64-bit unsigned arithmetic wraps where the source
      can reach the bound ([u32], [u64]). The [int] arithmetic of the throttles
      wraps too ([s32]); their theorems bound the values. Other [int]s (ports,
      identifiers, link weights and the sums of weights along paths, latencies)
      are taken to stay below 2^31. Statistics that the source keeps in
      doubles are exact counters. The source computes [divCeil] on floats with
      small integer arguments; the model uses the integer quotient, which agrees
      below 2^23. The probabilities of the fault model are IEEE numbers with the
      roundings of the source (SpecFloat of the Standard Library); an expression
      is taken to be evaluated in its own type, without fused operations.
    - A flit pointer is owned by one buffer at a time, so buffers hold flit
      values; where the source changes a flit it has just inserted, the model
      changes it first. Links, protocol buffers and in-flight messages are
      reached through handles into stores. The Consumer base objects of links
      and output units are kept in a store of their own, since routers schedule
      them while other routers own the derived objects.
    - The calls a router makes out of itself during a wakeup (registerWakeup and
      deferOrSchedule) are collected in order; no router reads what they change.
      In the parallel region each router run is one instruction, followed by one
      instruction per atomic operation or queue push. The OpenMP team is taken to
      have the m_num_threads workers it is asked for; the code does not check it.
      A router runs on the clock of its own clock domain, the global wakeup on
      that of the network.
    - In a step of the whole network the event served is any event that is due;
      the order among events of one tick, which the event queue fixes, is left
      open. Events of a step run at a tick of the step's own, so the theorems do
      not rely on time being monotone. The protocol may do anything to its message
      buffers. A hop with a bridge is excluded from the balance because bridges
      multiply or merge credits (SerDes has the exact counts).
    - In the simple network the calls a buffer makes on its consumer are collected
      in order and take effect at the end of the wakeup; no wakeup reads what they
      change. A step may be a wakeup of any switch or throttle at any tick, so the
      theorems do not rely on the order of events. The loops over messages get as
      many turns as the buffer has messages (and the throttle as it has units of
      bandwidth) and one more, which is shown to be enough.
    - [rand()] is one generator for the whole process, which the workers share, so
      the answers depend on the interleaving. A wakeup takes the answers its ports
      get as an argument (a port asks at most once in a wakeup), and in a global
      wakeup, sequential or parallel, every router run may get any answers.
      [random_time()] is an argument too. What the protocol compiler generates
      (machine types and their numbering, message classes) is the record
      [RubySystem] with the hypotheses [ruby_system_ok], and accessor functions.
    - Loops over vectors are structural. [runRoutersFromMask] gets 64 turns, the
      number of bits of its mask, and the theorems show that they are enough.
      The loops that read the databases of the fault model get as many turns as
      there are fields, which is shown to be enough.
      [extend_shortest_path] takes fuel; one more than the sum of the initial
      distances is shown to be enough. The searches in the event queue get as many
      turns as there are events, which is shown to be enough; [sim_loop] is the
      endless loop cut off after a number of events.
    - An event is a handle into a store, with its pointers as fields; deleting a
      managed event removes it from the store, and following a handle that is not
      in the store is an error. The [process] method of the events is a parameter;
      the theorem about the loop holds for every method whose effect on the queue
      does not depend on the pointers.

    ** What is not modelled

    The mutexes of Consumer (in the parallel region each is only taken by the
    worker that runs its owner) and of the event queue; several event queues with
    migration between them, and signals handled in the simulation loop;
    checkpoints; address maps; parameter objects and Python
    configuration; statistics registration and formulas, the utilisation of
    throttles (a floating point sum), printing and tracing; the rest of gem5,
    which this project uses unchanged.

    A theorem on the order in which the flits of a packet arrive across the whole
    network is not part of the library; within a link, a message buffer and a
    bridge the order is shown. *)

From Stdlib Require Export ZArith Lia Sorted.
From stdpp Require Export base numbers strings gmap list.

#[global] Open Scope Z_scope.

(** ** The error monad

    Every fallible piece of the C++ returns [res]: a failed [assert], a
    [panic], a [fatal], an out-of-range vector access and a read of an
    uninitialised member (undefined behaviour in the source) are different
    errors. *)

Inductive error :=
  | EAssert (where_ : string)
  | EPanic (where_ : string)
  | EFatal (where_ : string)
  | EOutOfRange
  | EUninit.

Inductive res (A : Type) :=
  | Ok (a : A)
  | Err (e : error).
Arguments Ok {A} a.
Arguments Err {A} e.

Definition rbind {A B} (m : res A) (k : A → res B) : res B :=
  match m with Ok a => k a | Err e => Err e end.

Declare Scope res_scope.
Delimit Scope res_scope with res.
#[global] Open Scope res_scope.

Notation "'let*' x ':=' m 'in' k" := (rbind m (fun x => k))
  (at level 10, x binder, m at level 100, k at level 200) : res_scope.
Notation "'let*' ' p ':=' m 'in' k" := (rbind m (fun p => k))
  (at level 10, p strict pattern, m at level 100, k at level 200) : res_scope.

(** [assert(b)] *)
Definition assert_ (site : string) (b : bool) : res unit :=
  if b then Ok tt else Err (EAssert site).

Definition is_ok {A} (r : res A) : bool :=
  match r with Ok _ => true | Err _ => false end.

Lemma rbind_ok {A B} (m : res A) (k : A → res B) (b : B) :
  rbind m k = Ok b ↔ ∃ a, m = Ok a ∧ k a = Ok b.
Proof. destruct m; naive_solver. Qed.

Lemma assert_ok site b u : assert_ site b = Ok u ↔ b = true.
Proof. unfold assert_. destruct b, u; naive_solver. Qed.

(** ** std::vector access by an [int] index *)

Definition vec_get {A} (l : list A) (i : Z) : res A :=
  if 0 <=? i then
    match l !! Z.to_nat i with Some x => Ok x | None => Err EOutOfRange end
  else Err EOutOfRange.

Definition vec_set {A} (l : list A) (i : Z) (x : A) : res (list A) :=
  if (0 <=? i) && (i <? Z.of_nat (length l)) then Ok (<[Z.to_nat i := x]> l)
  else Err EOutOfRange.

Definition vec_upd {A} (l : list A) (i : Z) (f : A → res A) : res (list A) :=
  let* x := vec_get l i in
  let* y := f x in
  vec_set l i y.

Lemma vec_get_ok {A} (l : list A) i x :
  vec_get l i = Ok x ↔ 0 ≤ i ∧ l !! Z.to_nat i = Some x.
Proof.
  unfold vec_get. destruct (Z.leb_spec 0 i); [|naive_solver lia].
  destruct (l !! _); naive_solver.
Qed.

Lemma vec_get_range {A} (l : list A) i x :
  vec_get l i = Ok x → 0 ≤ i < Z.of_nat (length l).
Proof. intros [? ?%lookup_lt_Some]%vec_get_ok. lia. Qed.

Lemma vec_get_in_range {A} (l : list A) i :
  0 ≤ i < Z.of_nat (length l) → ∃ x, vec_get l i = Ok x.
Proof.
  intros Hi. destruct (lookup_lt_is_Some_2 l (Z.to_nat i)) as [x Hx]; [lia|].
  exists x. apply vec_get_ok. split; [lia|done].
Qed.

Lemma vec_set_ok {A} (l l' : list A) i x :
  vec_set l i x = Ok l' ↔
  0 ≤ i < Z.of_nat (length l) ∧ l' = <[Z.to_nat i := x]> l.
Proof.
  unfold vec_set.
  destruct (Z.leb_spec 0 i), (Z.ltb_spec i (Z.of_nat (length l))); simpl;
    split; (intros [=] || intros [? ->]); subst; try lia; done.
Qed.

Lemma vec_set_in_range {A} (l : list A) i x :
  0 ≤ i < Z.of_nat (length l) → vec_set l i x = Ok (<[Z.to_nat i := x]> l).
Proof. intros. by apply vec_set_ok. Qed.

Lemma vec_set_length {A} (l l' : list A) i x :
  vec_set l i x = Ok l' → length l' = length l.
Proof. intros [_ ->]%vec_set_ok. apply length_insert. Qed.

Lemma vec_get_set_eq {A} (l l' : list A) i x :
  vec_set l i x = Ok l' → vec_get l' i = Ok x.
Proof.
  intros [? ->]%vec_set_ok. apply vec_get_ok. split; [lia|].
  apply list_lookup_insert_eq. lia.
Qed.

Lemma vec_get_set_ne {A} (l l' : list A) i j x :
  vec_set l i x = Ok l' → i ≠ j → vec_get l' j = vec_get l j.
Proof.
  intros [? ->]%vec_set_ok ?. unfold vec_get.
  destruct (Z.leb_spec 0 j); [|done]. by rewrite list_lookup_insert_ne by lia.
Qed.

Lemma vec_upd_ok {A} (l l' : list A) i f :
  vec_upd l i f = Ok l' ↔
  ∃ x y, vec_get l i = Ok x ∧ f x = Ok y ∧ l' = <[Z.to_nat i := y]> l.
Proof.
  unfold vec_upd. rewrite rbind_ok. split.
  - intros (x & Hx & (y & Hy & [_ ->]%vec_set_ok)%rbind_ok). eauto.
  - intros (x & y & Hx & Hy & ->). exists x. split; [done|].
    apply rbind_ok. exists y. split; [done|]. apply vec_set_in_range.
    by eapply vec_get_range.
Qed.

(** ** Loops

    [for_range lo n body s] is [for (i = lo; i < lo + n; i++) s = body(i)];
    [for_break] is the same loop whose body may [break] (it returns [true])
    or leave early. *)

Fixpoint for_range {S} (lo : Z) (n : nat) (body : Z → S → res S) (s : S) : res S :=
  match n with
  | O => Ok s
  | Datatypes.S n' => let* s' := body lo s in for_range (lo + 1) n' body s'
  end.

Fixpoint for_break {S} (lo : Z) (n : nat) (body : Z → S → res (S * bool)) (s : S) : res S :=
  match n with
  | O => Ok s
  | Datatypes.S n' =>
      let* ' (s', stop) := body lo s in
      if stop then Ok s' else for_break (lo + 1) n' body s'
  end.

Lemma for_range_inv {S} (P : Z → S → Prop) lo n body (s s' : S) :
  for_range lo n body s = Ok s' →
  P lo s →
  (∀ i t t', lo ≤ i < lo + Z.of_nat n → P i t → body i t = Ok t' → P (i + 1) t') →
  P (lo + Z.of_nat n) s'.
Proof.
  revert lo s. induction n as [|n IH]; intros lo s Hrun HP Hstep; simpl in Hrun.
  - injection Hrun as <-. by rewrite Z.add_0_r.
  - apply rbind_ok in Hrun as (t & Ht & Hrun).
    replace (lo + Z.of_nat (Datatypes.S n)) with (lo + 1 + Z.of_nat n) by lia.
    eapply IH; [exact Hrun| |].
    + eapply Hstep; [lia|done|done].
    + intros i u u' Hi. apply Hstep. lia.
Qed.

Lemma for_range_ok {S} (P : Z → S → Prop) lo n body (s : S) :
  P lo s →
  (∀ i t, lo ≤ i < lo + Z.of_nat n → P i t → ∃ t', body i t = Ok t' ∧ P (i + 1) t') →
  ∃ s', for_range lo n body s = Ok s' ∧ P (lo + Z.of_nat n) s'.
Proof.
  revert lo s. induction n as [|n IH]; intros lo s HP Hstep; simpl.
  - rewrite Z.add_0_r. eauto.
  - destruct (Hstep lo s) as (t & Ht & HPt); [lia|done|]. rewrite Ht. simpl.
    replace (lo + Z.of_nat (Datatypes.S n)) with (lo + 1 + Z.of_nat n) by lia.
    apply IH; [done|]. intros i u Hi. apply Hstep. lia.
Qed.

Lemma for_range_app {S} lo n m (body : Z → S → res S) (s : S) :
  for_range lo (n + m) body s = (let* s' := for_range lo n body s in for_range (lo + Z.of_nat n) m body s').
Proof.
  revert lo s. induction n as [|n IH]; intros lo s; simpl; [by rewrite Z.add_0_r|].
  destruct (body lo s) as [s1|]; simpl; [|done]. rewrite IH. by replace (lo + 1 + Z.of_nat n) with (lo + Z.of_nat (Datatypes.S n)) by lia.
Qed.

Lemma for_range_ext {S} lo n (f g : Z → S → res S) (s : S) :
  (∀ i t, f i t = g i t) → for_range lo n f s = for_range lo n g s.
Proof.
  intros Hfg. revert lo s. induction n as [|n IH]; intros lo s; simpl; [done|].
  rewrite Hfg. destruct (g lo s); simpl; auto.
Qed.

(** A range-based for loop over a vector. *)
Fixpoint fold_res {A S} (f : A → S → res S) (l : list A) (s : S) : res S :=
  match l with
  | [] => Ok s
  | x :: l' => let* s' := f x s in fold_res f l' s'
  end.

Lemma fold_res_app {A S} (f : A → S → res S) l1 l2 (s : S) :
  fold_res f (l1 ++ l2) s = (let* s' := fold_res f l1 s in fold_res f l2 s').
Proof. revert s. induction l1 as [|x l1 IH]; intros s; simpl; [done|]. destruct (f x s); simpl; auto. Qed.

Lemma fold_res_ok {A S} (P : nat → S → Prop) (f : A → S → res S) l (s : S) :
  P 0%nat s → (∀ i x t, l !! i = Some x → P i t → ∃ t', f x t = Ok t' ∧ P (Datatypes.S i) t') →
  ∃ s', fold_res f l s = Ok s' ∧ P (length l) s'.
Proof.
  revert P s. induction l as [|x l IH]; intros P s HP Hstep; simpl; [by eauto|].
  destruct (Hstep 0%nat x s eq_refl HP) as (t & Ht & HPt). rewrite Ht. simpl.
  apply (IH (fun i => P (Datatypes.S i))); [done|]. intros i y u Hy. by apply Hstep.
Qed.

(** Iterations that commute where an invariant holds may be reordered. *)
Lemma fold_res_perm {A S} (f : A → S → res S) (I : S → Prop) l1 l2 (s s' : S) :
  (∀ x t t', I t → f x t = Ok t' → I t') →
  (∀ x y t t1 t2, I t → f x t = Ok t1 → f y t1 = Ok t2 →
     ∃ t1', f y t = Ok t1' ∧ f x t1' = Ok t2) →
  l1 ≡ₚ l2 → I s → fold_res f l1 s = Ok s' → fold_res f l2 s = Ok s'.
Proof.
  intros HI HR Hp. revert s.
  induction Hp as [|x l1 l2 Hp IH|x y l|l1 l2 l3 Hp1 IH1 Hp2 IH2]; intros s Hs Hf; simpl in *; [done|..].
  - apply rbind_ok in Hf as (t & Ht & Hf). rewrite Ht. simpl. apply IH; [by eapply HI|done].
  - apply rbind_ok in Hf as (t & Ht & Hf). apply rbind_ok in Hf as (t2 & Ht2 & Hf).
    destruct (HR y x s t t2) as (t1 & Ht1 & Ht1'); [done..|]. rewrite Ht1. simpl. by rewrite Ht1'.
  - apply IH2; [done|by apply IH1].
Qed.

(** A loop whose body cannot fail is a fold over the indices. *)
Lemma for_range_pure {S} (f : Z → S → S) lo n body (s : S) :
  (∀ i t, lo ≤ i < lo + Z.of_nat n → body i t = Ok (f i t)) →
  for_range lo n body s = Ok (foldl (fun t i => f i t) s (seqZ lo (Z.of_nat n))).
Proof.
  revert lo s. induction n as [|n IH]; intros lo s Hbody; [done|].
  rewrite Nat2Z.inj_succ, seqZ_cons by lia. simpl. rewrite Hbody by lia. simpl.
  replace (Z.pred (Z.succ (Z.of_nat n))) with (Z.of_nat n) by lia.
  apply IH. intros. apply Hbody. lia.
Qed.

(** Element-wise combination of two vectors of the same length. *)
Fixpoint map2_res {A B C} (f : A → B → res C) (l1 : list A) (l2 : list B) : res (list C) :=
  match l1, l2 with
  | x :: l1', y :: l2' =>
      let* z := f x y in
      let* zs := map2_res f l1' l2' in
      Ok (z :: zs)
  | _, _ => Ok []
  end.

Lemma map2_res_ok {A B C} (f : A → B → res C) l1 l2 l :
  length l1 = length l2 →
  map2_res f l1 l2 = Ok l →
  length l = length l1 ∧
  ∀ i x y, l1 !! i = Some x → l2 !! i = Some y → ∃ z, f x y = Ok z ∧ l !! i = Some z.
Proof.
  revert l2 l. induction l1 as [|x l1 IH]; intros [|y l2] l Hl H; simpl in *; try lia.
  - injection H as <-. done.
  - apply rbind_ok in H as (z & Hz & (zs & Hzs & [= <-])%rbind_ok).
    destruct (IH l2 zs) as [Hlen IH']; [lia|done|]. split; [simpl; lia|].
    intros [|i] x' y' Hx Hy; simplify_eq/=; [eauto|]. by apply IH'.
Qed.

Lemma map2_res_succeeds {A B C} (f : A → B → res C) l1 l2 :
  length l1 = length l2 →
  (∀ i x y, l1 !! i = Some x → l2 !! i = Some y → ∃ z, f x y = Ok z) →
  ∃ l, map2_res f l1 l2 = Ok l.
Proof.
  revert l2. induction l1 as [|x l1 IH]; intros [|y l2] Hl H; simpl in *; try lia; [eauto|].
  destruct (H 0%nat x y) as [z Hz]; [done|done|]. rewrite Hz. simpl.
  destruct (IH l2) as [zs Hzs]; [lia| |]. { intros i. apply (H (S i)). }
  rewrite Hzs. simpl. eauto.
Qed.

(** ** Lists *)

Lemma filter_ext_elem {A} (P Q : A → Prop) `{∀ x, Decision (P x), ∀ x, Decision (Q x)}
    (l : list A) :
  (∀ x, x ∈ l → P x ↔ Q x) → filter P l = filter Q l.
Proof.
  induction l as [|x l IH]; intros HPQ; [done|].
  rewrite !filter_cons, IH by (intros; apply HPQ; set_solver).
  destruct (HPQ x ltac:(set_solver)). repeat case_decide; naive_solver.
Qed.

Lemma seqZ_sorted lo n : StronglySorted Z.lt (seqZ lo n).
Proof.
  destruct (decide (0 ≤ n)) as [Hn|]; [|rewrite seqZ_nil by lia; constructor].
  revert lo. pattern n. apply natlike_ind; [constructor| |done].
  intros k Hk IH lo. rewrite seqZ_cons by lia. rewrite Z.pred_succ. constructor; [apply IH|].
  apply Forall_forall. intros x Hx%elem_of_seqZ. lia.
Qed.

Lemma sorted_filter (P : Z → Prop) `{∀ x, Decision (P x)} l :
  StronglySorted Z.lt l → StronglySorted Z.lt (filter P l).
Proof.
  induction 1 as [|x l Hl IH Hx]; [constructor|]. rewrite filter_cons. case_decide; [|done].
  constructor; [done|]. apply Forall_forall. intros y [_ Hy]%list_elem_of_filter.
  rewrite Forall_forall in Hx. by apply Hx.
Qed.

(** The head of a filtered ascending list is its least element. *)
Lemma sorted_filter_head (P : Z → Prop) `{∀ x, Decision (P x)} l x t :
  StronglySorted Z.lt l → filter P l = x :: t → ∀ y, y ∈ l → P y → x ≤ y.
Proof.
  induction l as [|z l IH]; intros Hs Hf y Hy HP; [done|].
  apply StronglySorted_inv in Hs as [Hs Hz]. rewrite filter_cons in Hf. case_decide.
  - simplify_eq. apply elem_of_cons in Hy as [->|Hy]; [lia|].
    rewrite Forall_forall in Hz. specialize (Hz y Hy). lia.
  - apply elem_of_cons in Hy as [->|Hy]; [done|]. by apply IH.
Qed.

Lemma list_insert_middle {A} (l1 l2 : list A) x y :
  <[length l1 := y]> (l1 ++ x :: l2) = l1 ++ y :: l2.
Proof. induction l1 as [|z l1 IH]; simpl; [done|]. by rewrite IH. Qed.

Lemma NoDup_concat {A} (ls : list (list A)) :
  (∀ i l, ls !! i = Some l → NoDup l) →
  (∀ i j li lj x, i ≠ j → ls !! i = Some li → ls !! j = Some lj → x ∈ li → x ∈ lj → False) →
  NoDup (concat ls).
Proof.
  induction ls as [|l ls IH]; intros Hnd Hdis; simpl; [constructor|].
  apply NoDup_app. split_and!.
  - by apply (Hnd 0%nat).
  - intros x Hx Hin. apply list_elem_of_In, in_concat in Hin as (l' & Hl' & Hx').
    apply list_elem_of_In, list_elem_of_lookup in Hl' as [j Hj]. apply list_elem_of_In in Hx'.
    by eapply (Hdis 0%nat (S j)).
  - apply IH.
    + intros i. apply (Hnd (S i)).
    + intros i j li lj x Hij. apply (Hdis (S i) (S j)). lia.
Qed.

(** Sums over a vector. *)
Definition lsum {A} (g : A → Z) (l : list A) : Z := foldr (fun x n => g x + n) 0 l.

Lemma lsum_app {A} (g : A → Z) l1 l2 : lsum g (l1 ++ l2) = lsum g l1 + lsum g l2.
Proof. induction l1 as [|x l1 IH]; simpl; lia. Qed.

#[export] Instance lsum_perm {A} (g : A → Z) : Proper ((≡ₚ) ==> eq) (lsum g).
Proof. intros l1 l2. induction 1; simpl; lia. Qed.

Lemma lsum_ext {A} (g h : A → Z) l : (∀ x, x ∈ l → g x = h x) → lsum g l = lsum h l.
Proof.
  induction l as [|x l IH]; intros Hg; [done|]. simpl. rewrite IH by (intros; apply Hg; set_solver).
  by rewrite (Hg x) by set_solver.
Qed.

Lemma lsum_zero {A} (g : A → Z) l : Forall (fun x => g x = 0) l → lsum g l = 0.
Proof. induction 1 as [|x l Hx _ IH]; simpl; [done|]. lia. Qed.

Lemma lsum_nonneg {A} (g : A → Z) l : (∀ x, 0 ≤ g x) → 0 ≤ lsum g l.
Proof. intros Hg. induction l as [|x l IH]; simpl; [lia|]. specialize (Hg x). lia. Qed.

Lemma lsum_zero_each {A} (g : A → Z) l : (∀ x, 0 ≤ g x) → lsum g l ≤ 0 → Forall (fun x => g x = 0) l.
Proof.
  intros Hg. induction l as [|x l IH]; intros Hs; [constructor|]. simpl in Hs.
  pose proof (Hg x). pose proof (lsum_nonneg g l Hg). constructor; [lia|]. apply IH. lia.
Qed.

Lemma lsum_forall_ext {A} (g h : A → Z) l : Forall (fun x => g x = h x) l → lsum g l = lsum h l.
Proof. induction 1 as [|x l Hx _ IH]; simpl; lia. Qed.

Lemma lsum_vec_set {A} (g : A → Z) l i x y l' :
  vec_get l i = Ok x → vec_set l i y = Ok l' → lsum g l' = lsum g l - g x + g y.
Proof.
  intros [_ Hx]%vec_get_ok [_ ->]%vec_set_ok. revert Hx. generalize (Z.to_nat i). clear i.
  induction l as [|z l IH]; intros [|n] Hx; simplify_eq/=; [lia|]. rewrite (IH n) by done. lia.
Qed.

Lemma lsum_vec_upd {A} (g : A → Z) l i f l' :
  vec_upd l i f = Ok l' → ∃ x y, vec_get l i = Ok x ∧ f x = Ok y ∧ lsum g l' = lsum g l - g x + g y.
Proof.
  unfold vec_upd. intros (x & Hx & (y & Hy & Hs)%rbind_ok)%rbind_ok.
  exists x, y. split_and!; [done..|]. by eapply lsum_vec_set.
Qed.

(** ** Machine words *)

Definition u64 (x : Z) : Z := x mod 2 ^ 64.
Definition u32 (x : Z) : Z := x mod 2 ^ 32.

(** A 32-bit [int]. Signed overflow, undefined in C++, wraps here; theorems about
    such values bound them. *)
Definition s32 (x : Z) : Z := (x + 2 ^ 31) mod 2 ^ 32 - 2 ^ 31.

Lemma s32_small x : - 2 ^ 31 ≤ x < 2 ^ 31 → s32 x = x.
Proof. intros Hx. unfold s32. rewrite Z.mod_small by lia. lia. Qed.

Lemma u64_small x : 0 ≤ x < 2 ^ 64 → u64 x = x.
Proof. apply Z.mod_small. Qed.

Lemma u64_range x : 0 ≤ u64 x < 2 ^ 64.
Proof. apply Z.mod_pos_bound. lia. Qed.

Definition is_u64 (x : Z) : Prop := 0 ≤ x < 2 ^ 64.

(** ** Automation *)

Create HintDb garnet.
#[export] Hint Resolve u64_range : garnet.

(** Split a successful monadic computation into the values of its steps. *)
Ltac inv_res :=
  repeat match goal with
  | H : rbind _ _ = Ok _ |- _ =>
      let a := fresh "v" in let H1 := fresh "E" in let H2 := fresh "H" in
      apply rbind_ok in H as (a & H1 & H2)
  | H : assert_ _ _ = Ok _ |- _ => apply assert_ok in H
  | H : Ok _ = Ok _ |- _ => injection H as H; subst
  | H : Err _ = Ok _ |- _ => discriminate H
  | H : Ok _ = Err _ |- _ => discriminate H
  end; simplify_eq/=.

(** Turn boolean comparisons on [Z] into propositions. *)
Ltac zbool :=
  repeat match goal with
  | H : _ && _ = true |- _ => apply andb_true_iff in H as [? ?]
  | H : _ || _ = false |- _ => apply orb_false_iff in H as [? ?]
  | H : negb _ = true |- _ => apply negb_true_iff in H
  | H : negb _ = false |- _ => apply negb_false_iff in H
  | H : (_ <=? _) = true |- _ => apply Z.leb_le in H
  | H : (_ <=? _) = false |- _ => apply Z.leb_gt in H
  | H : (_ <? _) = true |- _ => apply Z.ltb_lt in H
  | H : (_ <? _) = false |- _ => apply Z.ltb_ge in H
  | H : (_ =? _) = true |- _ => apply Z.eqb_eq in H
  | H : (_ =? _) = false |- _ => apply Z.eqb_neq in H
  end.

(** Case split on a boolean comparison of the goal. *)
Ltac zcase :=
  match goal with
  | |- context [?a <=? ?b] => destruct (Z.leb_spec a b)
  | |- context [?a <? ?b] => destruct (Z.ltb_spec a b)
  | |- context [?a =? ?b] => destruct (Z.eqb_spec a b)
  end.
