(* ===== verification/IntMath.v ===== *)
(** * Integer helpers: base/intmath.hh and the GCC bit builtins

    [floorLog2], [ceilLog2], [isPowerOf2], [divCeil], [roundUp], [roundDown]
    of src/base/intmath.hh, and the builtins [__builtin_ctzll] and
    [__builtin_popcountll] the wakeup masks are scanned with. *)

From S2P Require Import Prelude.

(** ** intmath.hh *)

(** One [if (ts >= w && (ux & mask)) { y += k; ux >>= k; }] line; the mask
    covers bits [k, 2k). *)
Definition floorLog2_step (enabled : bool) (k : Z) (st : Z * Z) : Z * Z :=
  let '(ux, y) := st in
  if enabled && negb (Z.land ux (Z.shiftl (Z.ones k) k) =? 0)
  then (Z.shiftr ux k, y + k) else (ux, y).

#[global] Arguments floorLog2_step : simpl never.

(** [ts] is [sizeof(T)] in bytes. *)
Definition floorLog2 (ts x : Z) : res Z :=
  let* _ := assert_ "floorLog2: x > 0" (0 <? x) in
  let ux := x mod 2 ^ (8 * ts) in
  let st := (ux, 0) in
  let st := floorLog2_step (8 <=? ts) 32 st in
  let st := floorLog2_step (4 <=? ts) 16 st in
  let st := floorLog2_step (2 <=? ts) 8 st in
  let st := floorLog2_step true 4 st in
  let st := floorLog2_step true 2 st in
  let st := floorLog2_step true 1 st in
  Ok (snd st).

Definition ceilLog2 (ts n : Z) : res Z :=
  let* _ := assert_ "ceilLog2: n > 0" (0 <? n) in
  if n =? 1 then Ok 0
  else let* l := floorLog2 ts (n - 1) in Ok (l + 1).

Definition isPowerOf2 (n : Z) : bool := negb (n =? 0) && (Z.land n (n - 1) =? 0).

(** Integer [divCeil]; the float instances of the network code agree with it
    on operands below 2^24. *)
Definition divCeil (a b : Z) : Z := (a + b - 1) / b.

Definition roundUp (val align : Z) : res Z :=
  let* _ := assert_ "roundUp: power of 2" (isPowerOf2 align) in
  let mask := align - 1 in
  Ok (Z.land (val + mask) (Z.lnot mask)).

Definition roundDown (val align : Z) : res Z :=
  let* _ := assert_ "roundDown: power of 2" (isPowerOf2 align) in
  let mask := align - 1 in
  Ok (Z.land val (Z.lnot mask)).

(** ** Builtins *)

Fixpoint pos_tz (p : positive) : Z :=
  match p with xO q => Z.succ (pos_tz q) | _ => 0 end.

(** [__builtin_ctzll]; undefined at 0 (here 0). *)
Definition ctzll (m : Z) : Z := match m with Zpos p => pos_tz p | _ => 0 end.

Fixpoint pos_popcount (p : positive) : Z :=
  match p with
  | xH => 1
  | xO q => pos_popcount q
  | xI q => Z.succ (pos_popcount q)
  end.

(** [__builtin_popcountll] *)
Definition popcountll (m : Z) : Z := match m with Zpos p => pos_popcount p | _ => 0 end.

(** [m &= m - 1] *)
Definition clear_lowest (m : Z) : Z := Z.land m (m - 1).

(** The set bits of a 64-bit mask in increasing order. *)
Definition mask_bits (m : Z) : list Z := filter (fun i => Z.testbit m i = true) (seqZ 0 64).

(** ** Lemmas: lowest set bit *)

Lemma pos_tz_nonneg p : 0 ≤ pos_tz p.
Proof. induction p; simpl; lia. Qed.

Lemma ctzll_nonneg m : 0 ≤ ctzll m.
Proof. destruct m; simpl; try lia. apply pos_tz_nonneg. Qed.

Lemma ctzll_set m : 0 < m → Z.testbit m (ctzll m) = true.
Proof.
  destruct m as [|p|p]; try lia. intros _. simpl. induction p as [q IH|q IH|].
  - done.
  - simpl pos_tz. pose proof (pos_tz_nonneg q).
    rewrite Pos2Z.inj_xO, Z.double_bits_succ. done.
  - done.
Qed.

Lemma ctzll_lowest m i : 0 < m → 0 ≤ i < ctzll m → Z.testbit m i = false.
Proof.
  destruct m as [|p|p]; try lia. intros _. simpl. revert i.
  induction p as [q IH|q IH|]; intros i Hi; simpl in Hi; try lia.
  rewrite Pos2Z.inj_xO. destruct (decide (i = 0)) as [->|].
  - by rewrite Z.testbit_even_0.
  - replace i with (Z.succ (i - 1)) by lia. rewrite Z.double_bits_succ.
    apply IH. lia.
Qed.

Lemma ctzll_unique m i :
  0 < m → 0 ≤ i → Z.testbit m i = true →
  (∀ j, 0 ≤ j < i → Z.testbit m j = false) → ctzll m = i.
Proof.
  intros Hm Hi Hset Hlow. pose proof (ctzll_nonneg m).
  destruct (Z.lt_trichotomy (ctzll m) i) as [Hlt|[->|Hgt]]; [|done|].
  - pose proof (ctzll_set m Hm) as H1. rewrite Hlow in H1 by lia. done.
  - rewrite (ctzll_lowest m i) in Hset by lia. done.
Qed.

Lemma testbit_lt_log2 m n i : 0 ≤ m < 2 ^ n → 0 ≤ n → Z.testbit m i = true → 0 ≤ i < n.
Proof.
  intros [H0 Hm] Hn Hb. split.
  - destruct (decide (0 ≤ i)); [done|]. by rewrite Z.testbit_neg_r in Hb by lia.
  - destruct (decide (i < n)); [done|]. rewrite <-(Z.mod_small m (2 ^ n)) in Hb by lia.
    by rewrite Z.mod_pow2_bits_high in Hb by lia.
Qed.

Lemma ctzll_lt m n : 0 < m < 2 ^ n → 0 ≤ n → ctzll m < n.
Proof.
  intros Hm Hn. apply (testbit_lt_log2 m n); [lia|done|]. apply ctzll_set; lia.
Qed.

(** Clearing the lowest bit removes exactly it. *)
Lemma clear_lowest_testbit m i :
  0 < m → 0 ≤ i → Z.testbit (clear_lowest m) i = Z.testbit m i && negb (i =? ctzll m).
Proof.
  unfold clear_lowest. destruct m as [|p|p]; try lia. intros _. simpl ctzll. revert i.
  induction p as [q IH|q IH|]; intros i Hi.
  - rewrite Pos2Z.inj_xI, Z.land_spec. simpl pos_tz.
    replace (2 * Z.pos q + 1 - 1) with (2 * Z.pos q) by lia.
    destruct (decide (i = 0)) as [->|].
    + by rewrite Z.testbit_even_0, !andb_false_r.
    + replace i with (Z.succ (i - 1)) by lia.
      rewrite Z.testbit_odd_succ, Z.testbit_even_succ by lia.
      destruct (Z.eqb_spec (Z.succ (i - 1)) 0); [lia|]. by destruct (Z.testbit _ _).
  - rewrite Pos2Z.inj_xO, Z.land_spec. simpl pos_tz. pose proof (pos_tz_nonneg q).
    replace (2 * Z.pos q - 1) with (2 * (Z.pos q - 1) + 1) by lia.
    destruct (decide (i = 0)) as [->|].
    + by rewrite Z.testbit_even_0.
    + replace i with (Z.succ (i - 1)) by lia.
      rewrite Z.testbit_odd_succ, Z.testbit_even_succ by lia.
      rewrite <-Z.land_spec, IH by lia. f_equal. f_equal.
      destruct (Z.eqb_spec (i - 1) (pos_tz q)), (Z.eqb_spec (Z.succ (i - 1)) (Z.succ (pos_tz q))); lia.
  - destruct (decide (i = 0)) as [->|]; [done|].
    rewrite Z.land_spec, Z.testbit_0_l, andb_false_r.
    replace i with (Z.succ (i - 1)) by lia.
    change 1 with (2 * 0 + 1). rewrite Z.testbit_odd_succ, Z.testbit_0_l by lia. done.
Qed.

(** ** Lemmas: words *)

Lemma pow2_range_mod a n : 0 ≤ n → 0 ≤ a < 2 ^ n ↔ a mod 2 ^ n = a.
Proof.
  intros Hn. split; [apply Z.mod_small|]. intros <-.
  apply Z.mod_pos_bound. lia.
Qed.

Lemma land_lt_pow2 a b n : 0 ≤ n → 0 ≤ a < 2 ^ n → 0 ≤ Z.land a b < 2 ^ n.
Proof.
  intros Hn Ha. apply pow2_range_mod in Ha; [|done]. apply pow2_range_mod; [done|].
  rewrite <-Z.land_ones in * by done.
  by rewrite <-Z.land_assoc, (Z.land_comm b), Z.land_assoc, Ha.
Qed.

Lemma lor_lt_pow2 a b n :
  0 ≤ n → 0 ≤ a < 2 ^ n → 0 ≤ b < 2 ^ n → 0 ≤ Z.lor a b < 2 ^ n.
Proof.
  intros Hn Ha Hb. apply pow2_range_mod in Ha; [|done]. apply pow2_range_mod in Hb; [|done].
  apply pow2_range_mod; [done|]. rewrite <-Z.land_ones in * by done.
  by rewrite Z.land_lor_distr_l, Ha, Hb.
Qed.

Lemma shiftl1_lt_pow2 i n : 0 ≤ i < n → 0 ≤ Z.shiftl 1 i < 2 ^ n.
Proof.
  intros Hi. rewrite Z.shiftl_1_l. split; [lia|]. apply Z.pow_lt_mono_r; lia.
Qed.

Lemma shiftl1_testbit i j : 0 ≤ i → Z.testbit (Z.shiftl 1 i) j = (i =? j).
Proof.
  intros Hi. rewrite Z.shiftl_1_l. apply Z.pow2_bits_eqb. lia.
Qed.

Lemma nonzero_testbit m n : 0 ≤ m < 2 ^ n → 0 ≤ n → m ≠ 0 ↔ ∃ i, 0 ≤ i < n ∧ Z.testbit m i = true.
Proof.
  intros Hm Hn. split.
  - intros Hne. exists (ctzll m). assert (0 < m) by lia.
    pose proof (ctzll_nonneg m). pose proof (ctzll_lt m n). rewrite ctzll_set by lia. lia.
  - intros (i & _ & Hi) ->. by rewrite Z.testbit_0_l in Hi.
Qed.

Lemma clear_lowest_u64 m : is_u64 m → is_u64 (clear_lowest m).
Proof. apply land_lt_pow2. lia. Qed.

(** ** Lemmas: scanning a mask *)

Lemma elem_of_mask_bits m i : i ∈ mask_bits m ↔ Z.testbit m i = true ∧ 0 ≤ i < 64.
Proof. unfold mask_bits. rewrite list_elem_of_filter, elem_of_seqZ. done. Qed.

Lemma mask_bits_NoDup m : NoDup (mask_bits m).
Proof. apply NoDup_filter, NoDup_seqZ. Qed.

Lemma mask_bits_0 : mask_bits 0 = [].
Proof. done. Qed.

Lemma filter_testbit_none m lo n :
  (∀ i, lo ≤ i < lo + n → Z.testbit m i = false) →
  filter (fun i => Z.testbit m i = true) (seqZ lo n) = [].
Proof.
  intros H. rewrite (filter_ext_elem _ (fun _ => False)).
  - induction (seqZ lo n); [done|]. rewrite filter_cons. by rewrite decide_False by tauto.
  - intros i Hi%elem_of_seqZ. rewrite H; done.
Qed.

(** One iteration of [while (mask) { id = ctz(mask); ...; mask &= mask - 1; }]. *)
Lemma mask_bits_step m :
  0 < m < 2 ^ 64 → mask_bits m = ctzll m :: mask_bits (clear_lowest m).
Proof.
  intros Hm. pose proof (ctzll_nonneg m) as H0. pose proof (ctzll_lt m 64) as H1.
  set (c := ctzll m) in *. unfold mask_bits.
  replace 64 with (c + (64 - c)) by lia. rewrite seqZ_app by lia.
  rewrite (seqZ_cons _ (64 - c)) by lia. rewrite Z.add_0_l, !filter_app.
  rewrite !filter_cons, !(filter_testbit_none _ 0 c).
  - simpl. rewrite decide_True by (apply ctzll_set; lia).
    rewrite decide_False by (rewrite clear_lowest_testbit, Z.eqb_refl, andb_false_r by lia; done).
    f_equal. apply filter_ext_elem. intros i Hi. apply elem_of_seqZ in Hi.
    rewrite clear_lowest_testbit by lia. fold c.
    destruct (Z.eqb_spec i c); [lia|]. by rewrite andb_true_r.
  - intros i Hi. rewrite clear_lowest_testbit by lia. rewrite ctzll_lowest by (fold c; lia). done.
  - intros i Hi. apply ctzll_lowest; [lia|fold c; lia].
Qed.

(** ** Lemmas: intmath.hh *)

Lemma land_field_zero ux k :
  0 ≤ k → 0 ≤ ux < 2 ^ (2 * k) → Z.land ux (Z.shiftl (Z.ones k) k) = 0 ↔ ux < 2 ^ k.
Proof.
  intros Hk Hux. assert (Z.land ux (Z.shiftl (Z.ones k) k) = Z.shiftl (Z.shiftr ux k) k) as ->.
  { apply Z.bits_inj'. intros i Hi. rewrite Z.land_spec, !Z.shiftl_spec by lia.
    destruct (decide (i < k)).
    - rewrite !(Z.testbit_neg_r _ (i - k)) by lia. by rewrite andb_false_r.
    - rewrite Z.shiftr_spec by lia. replace (i - k + k) with i by lia.
      destruct (decide (i - k < k)).
      + rewrite Z.ones_spec_low by lia. by rewrite andb_true_r.
      + rewrite Z.ones_spec_high by lia. rewrite andb_false_r.
        destruct (Z.testbit ux i) eqn:E; [|done]. apply (testbit_lt_log2 ux (2 * k)) in E; lia. }
  rewrite Z.shiftl_mul_pow2, Z.shiftr_div_pow2 by lia.
  pose proof (Z.pow_pos_nonneg 2 k). rewrite Z.eq_mul_0.
  rewrite Z.div_small_iff by lia. lia.
Qed.

Lemma floorLog2_step_spec enabled k ux y :
  0 ≤ k → 0 < ux < 2 ^ (2 * k) → (enabled = false → ux < 2 ^ k) →
  let '(ux', y') := floorLog2_step enabled k (ux, y) in
  0 < ux' < 2 ^ k ∧ y' + Z.log2 ux' = y + Z.log2 ux.
Proof.
  intros Hk Hux Hen. unfold floorLog2_step.
  pose proof (land_field_zero ux k Hk ltac:(lia)) as Hiff.
  destruct enabled; simpl; [|split; [specialize (Hen eq_refl); lia|done]].
  destruct (Z.eqb_spec (Z.land ux (Z.shiftl (Z.ones k) k)) 0) as [E|E]; simpl.
  - split; [|done]. apply Hiff in E. lia.
  - assert (2 ^ k ≤ ux) by lia. rewrite Z.log2_shiftr by lia.
    assert (k ≤ Z.log2 ux) by (apply Z.log2_le_pow2; lia).
    split; [|lia]. rewrite Z.shiftr_div_pow2 by lia. split.
    + apply Z.div_str_pos. lia.
    + apply Z.div_lt_upper_bound; [lia|].
      rewrite <-Z.pow_add_r by lia. replace (k + k) with (2 * k) by lia. lia.
Qed.

(** The bit-twiddling logarithm is exact: for every unsigned type of 1, 2, 4
    or 8 bytes and every non-zero value of it, the branch-per-half-width search
    of [floorLog2] returns the floor of the base-2 logarithm. *)
Theorem floorLog2_log2 ts x :
  ts = 1 ∨ ts = 2 ∨ ts = 4 ∨ ts = 8 → 0 < x < 2 ^ (8 * ts) → floorLog2 ts x = Ok (Z.log2 x).
Proof.
  intros Hts Hx. unfold floorLog2. rewrite (proj2 (Z.ltb_lt 0 x)) by lia. simpl.
  rewrite Z.mod_small by lia.
  assert (∀ n, 8 * ts ≤ n → x < 2 ^ n) as Hlt.
  { intros n Hn. eapply Z.lt_le_trans; [apply Hx|]. apply Z.pow_le_mono_r; lia. }
  pose proof (floorLog2_step_spec (8 <=? ts) 32 x 0) as H32.
  destruct (floorLog2_step (8 <=? ts) 32 (x, 0)) as [u1 y1] eqn:E1.
  destruct H32 as [Hu1 Hy1]; [lia|split; [lia|apply Hlt; lia]|intros; apply Hlt; lia|].
  assert (ts ≤ 2 → u1 = x) as Hsame1.
  { intros. unfold floorLog2_step in E1. destruct (Z.leb_spec 8 ts); [lia|]. by simplify_eq/=. }
  pose proof (floorLog2_step_spec (4 <=? ts) 16 u1 y1) as H16.
  destruct (floorLog2_step (4 <=? ts) 16 (u1, y1)) as [u2 y2] eqn:E2.
  destruct H16 as [Hu2 Hy2]; [lia|lia|intros; rewrite Hsame1 by lia; apply Hlt; lia|].
  assert (ts ≤ 1 → u2 = x) as Hsame2.
  { intros. rewrite <-(Hsame1 ltac:(lia)).
    unfold floorLog2_step in E2. destruct (Z.leb_spec 4 ts); [lia|]. by simplify_eq/=. }
  pose proof (floorLog2_step_spec (2 <=? ts) 8 u2 y2) as H8.
  destruct (floorLog2_step (2 <=? ts) 8 (u2, y2)) as [u3 y3].
  destruct H8 as [Hu3 Hy3]; [lia|lia|intros; rewrite Hsame2 by lia; apply Hlt; lia|].
  pose proof (floorLog2_step_spec true 4 u3 y3) as H4.
  destruct (floorLog2_step true 4 (u3, y3)) as [u4 y4].
  destruct H4 as [Hu4 Hy4]; [lia|lia|done|].
  pose proof (floorLog2_step_spec true 2 u4 y4) as H2.
  destruct (floorLog2_step true 2 (u4, y4)) as [u5 y5].
  destruct H2 as [Hu5 Hy5]; [lia|lia|done|].
  pose proof (floorLog2_step_spec true 1 u5 y5) as H1.
  destruct (floorLog2_step true 1 (u5, y5)) as [u6 y6].
  destruct H1 as [Hu6 Hy6]; [lia|lia|done|].
  simpl. f_equal. assert (u6 = 1) by lia. subst u6. rewrite Z.log2_1 in Hy6. lia.
Qed.

Lemma floorLog2_log2_witness : floorLog2 8 (2 ^ 63 + 12345) = Ok 63.
Proof. rewrite (floorLog2_log2 8 (2 ^ 63 + 12345)); [vm_compute; reflexivity|by right; right; right|split; vm_compute; reflexivity]. Defined.

Lemma isPowerOf2_iff n : 0 ≤ n → isPowerOf2 n = true ↔ ∃ k, 0 ≤ k ∧ n = 2 ^ k.
Proof.
  intros Hn. unfold isPowerOf2. rewrite andb_true_iff, negb_true_iff, Z.eqb_neq, Z.eqb_eq. split.
  - intros [Hne Hz]. exists (ctzll n). pose proof (ctzll_nonneg n). split; [done|].
    apply Z.bits_inj'. intros i Hi. rewrite Z.pow2_bits_eqb by lia.
    pose proof (clear_lowest_testbit n i) as Hc. unfold clear_lowest in Hc.
    rewrite Hz, Z.testbit_0_l in Hc. specialize (Hc ltac:(lia) Hi).
    rewrite (Z.eqb_sym _ i). destruct (Z.eqb_spec i (ctzll n)) as [->|].
    + apply ctzll_set. lia.
    + by rewrite andb_true_r in Hc.
  - intros (k & Hk & ->). split; [lia|].
    replace (2 ^ k - 1) with (Z.ones k) by (rewrite Z.ones_equiv; lia).
    rewrite Z.land_ones by lia. apply Z.mod_same. lia.
Qed.

Lemma divCeil_least a b q : 0 < b → a ≤ q * b ↔ divCeil a b ≤ q.
Proof.
  intros Hb. unfold divCeil. split; intros H.
  - apply Z.lt_succ_r, Z.div_lt_upper_bound; nia.
  - pose proof (Z.mul_div_le (a + b - 1) b Hb).
    pose proof (Z.mod_pos_bound (a + b - 1) b Hb).
    pose proof (Z.div_mod (a + b - 1) b ltac:(lia)). nia.
Qed.

Lemma divCeil_pos a b : 0 < a → 0 < b → 0 < divCeil a b.
Proof.
  intros. apply Z.nle_gt. rewrite <-divCeil_least by done. lia.
Qed.

Lemma divCeil_aligned a b : 0 < b → a mod b = 0 → divCeil a b * b = a.
Proof.
  intros Hb Ha. assert (a = a / b * b) as Hd by (pose proof (Z.div_mod a b); lia).
  assert (divCeil a b ≤ a / b) by (apply divCeil_least; lia).
  assert (a ≤ divCeil a b * b) by (by apply divCeil_least). nia.
Qed.

Lemma mask_lnot_floor v k : 0 ≤ k → Z.land v (Z.lnot (2 ^ k - 1)) = v - v mod 2 ^ k.
Proof.
  intros Hk. replace (2 ^ k - 1) with (Z.ones k) by (rewrite Z.ones_equiv; lia).
  rewrite <-Z.ldiff_land, Z.ldiff_ones_r by done.
  rewrite Z.shiftl_mul_pow2, Z.shiftr_div_pow2 by done.
  pose proof (Z.div_mod v (2 ^ k)). lia.
Qed.

(** [roundDown] and [roundUp] give the nearest multiples of the alignment. *)
Lemma roundDown_floor v k : 0 ≤ k → roundDown v (2 ^ k) = Ok (v - v mod 2 ^ k).
Proof.
  intros Hk. unfold roundDown. rewrite (proj2 (isPowerOf2_iff (2 ^ k) ltac:(lia))) by eauto.
  simpl. by rewrite mask_lnot_floor.
Qed.

Lemma roundUp_ceil v k : 0 ≤ k → roundUp v (2 ^ k) = Ok (divCeil v (2 ^ k) * 2 ^ k).
Proof.
  intros Hk. unfold roundUp. rewrite (proj2 (isPowerOf2_iff (2 ^ k) ltac:(lia))) by eauto.
  simpl. rewrite mask_lnot_floor by done. f_equal. unfold divCeil.
  replace (v + (2 ^ k - 1)) with (v + 2 ^ k - 1) by lia.
  pose proof (Z.div_mod (v + 2 ^ k - 1) (2 ^ k)). lia.
Qed.
