(* ===== verification/Clocked.v ===== *)
(** * Clocked objects: sim/clocked_object.hh

    The cached [tick]/[cycle] pair of [Clocked] and the reference function it
    computes: the next clock edge at or after the current tick. Ticks and
    cycles are 64-bit and wrap. *)

From S2P Require Import Prelude IntMath.

(** The clock an object sees: the current tick of the event queue and the
    period of the object's clock domain. *)
Record ClockEnv := { curTick : Z; clockPeriod : Z }.

(** The two mutable members of [Clocked]. *)
Record Clocked := { ck_tick : Z; ck_cycle : Z }.

(** [divCeil] on [Tick]. *)
Definition divCeil64 (a b : Z) : Z := u64 (a + b - 1) / b.

Definition update (env : ClockEnv) (c : Clocked) : Clocked :=
  if curTick env <=? ck_tick c then c else
  let c1 := {| ck_tick := u64 (ck_tick c + clockPeriod env); ck_cycle := u64 (ck_cycle c + 1) |} in
  if curTick env <=? ck_tick c1 then c1 else
  let elapsedCycles := divCeil64 (u64 (curTick env - ck_tick c1)) (clockPeriod env) in
  {| ck_tick := u64 (ck_tick c1 + u64 (elapsedCycles * clockPeriod env));
     ck_cycle := u64 (ck_cycle c1 + elapsedCycles) |}.

(** [clockEdge] updates the cached pair and returns a tick. *)
Definition Clocked_clockEdge (env : ClockEnv) (cycles : Z) (c : Clocked) : Z * Clocked :=
  let c' := update env c in (u64 (ck_tick c' + u64 (clockPeriod env * cycles)), c').

Definition curCycle (env : ClockEnv) (c : Clocked) : Z * Clocked :=
  let c' := update env c in (ck_cycle c', c').

Definition resetClock (env : ClockEnv) (c : Clocked) : Clocked :=
  let elapsedCycles := divCeil64 (curTick env) (clockPeriod env) in
  {| ck_tick := u64 (elapsedCycles * clockPeriod env); ck_cycle := elapsedCycles |}.

Definition ticksToCycles (env : ClockEnv) (t : Z) : Z := divCeil64 t (clockPeriod env).
Definition cyclesToTicks (env : ClockEnv) (c : Z) : Z := u64 (clockPeriod env * c).

(** ** Reference *)

(** The smallest multiple of the period at or after the current tick. *)
Definition edge (env : ClockEnv) : Z := divCeil (curTick env) (clockPeriod env) * clockPeriod env.

Definition clockEdge (env : ClockEnv) (cycles : Z) : Z :=
  u64 (edge env + clockPeriod env * cycles).

(** No 64-bit overflow within two periods of the current tick. *)
Definition clock_ok (env : ClockEnv) : Prop :=
  0 < clockPeriod env ∧ 0 ≤ curTick env ∧ curTick env + 2 * clockPeriod env < 2 ^ 64.

(** The cached pair is a clock edge not more than one period in the future. *)
Definition clocked_inv (env : ClockEnv) (c : Clocked) : Prop :=
  ck_tick c = ck_cycle c * clockPeriod env ∧ 0 ≤ ck_cycle c
  ∧ ck_tick c < curTick env + clockPeriod env.

Lemma edge_spec env :
  0 < clockPeriod env →
  curTick env ≤ edge env < curTick env + clockPeriod env
  ∧ edge env mod clockPeriod env = 0.
Proof.
  intros Hp. unfold edge. split; [|by apply Z.mod_mul; lia].
  pose proof (proj2 (divCeil_least (curTick env) _ (divCeil (curTick env) (clockPeriod env)) Hp)).
  pose proof (proj1 (divCeil_least (curTick env) _ (divCeil (curTick env) (clockPeriod env) - 1) Hp)).
  nia.
Qed.

Lemma edge_unique env t :
  0 < clockPeriod env → curTick env ≤ t < curTick env + clockPeriod env →
  t mod clockPeriod env = 0 → t = edge env.
Proof.
  intros Hp Ht Hm. destruct (edge_spec env Hp) as [He Hem].
  apply Z.mod_divide in Hm as [q Hq]; [|lia]. apply Z.mod_divide in Hem as [r Hr]; [|lia].
  assert (q < r + 1) by nia. assert (r < q + 1) by nia. nia.
Qed.

Lemma update_edge env c :
  clock_ok env → clocked_inv env c →
  ck_tick (update env c) = edge env ∧ clocked_inv env (update env c).
Proof.
  intros (Hp & Hc & Hov) (Ht & Hcyc & Hb). unfold update. set (p := clockPeriod env) in *.
  assert (∀ d, ck_tick d = ck_cycle d * p → 0 ≤ ck_cycle d →
    curTick env ≤ ck_tick d < curTick env + p →
    ck_tick d = edge env ∧ clocked_inv env d) as Hdone.
  { intros d H1 H2 H3. split; [|by repeat split; try lia].
    apply edge_unique; [done|done|]. fold p. rewrite H1. apply Z.mod_mul. lia. }
  zcase; [by apply Hdone|]. simpl.
  assert (0 ≤ ck_cycle c * p) by nia. assert (ck_cycle c ≤ ck_tick c) by nia.
  rewrite (u64_small (ck_tick c + p)), (u64_small (ck_cycle c + 1)) by lia.
  zcase; [apply Hdone; simpl; nia|].
  rewrite (u64_small (curTick env - (ck_tick c + p))) by lia.
  set (t1 := ck_tick c + p) in *. set (e := divCeil (curTick env - t1) p).
  assert (divCeil64 (curTick env - t1) p = e) as ->.
  { unfold divCeil64, e, divCeil. rewrite u64_small; [done|lia]. }
  pose proof (proj2 (divCeil_least (curTick env - t1) p e Hp) ltac:(lia)).
  pose proof (proj1 (divCeil_least (curTick env - t1) p (e - 1) Hp)).
  assert (0 < e) by (apply divCeil_pos; lia).
  assert (e * p < curTick env - t1 + p) by nia.
  assert (e ≤ e * p) by nia.
  rewrite (u64_small (e * p)), (u64_small (t1 + _)), (u64_small (_ + e)) by lia. apply Hdone; simpl; nia.
Qed.

(** The cached implementation computes the reference clock edge. *)
Lemma Clocked_clockEdge_ref env n c :
  clock_ok env → clocked_inv env c → fst (Clocked_clockEdge env n c) = clockEdge env n.
Proof.
  intros Hok Hinv. unfold Clocked_clockEdge, clockEdge. simpl.
  destruct (update_edge env c Hok Hinv) as [-> _]. unfold u64. by rewrite Zplus_mod_idemp_r.
Qed.

(** On a clock edge, [clockEdge] of 0 cycles is the current tick. *)
Lemma clockEdge_aligned env n :
  0 < clockPeriod env → 0 ≤ curTick env → curTick env mod clockPeriod env = 0 →
  clockEdge env n = u64 (curTick env + clockPeriod env * n).
Proof.
  intros Hp Hc Ha. unfold clockEdge. f_equal.
  rewrite <-(edge_unique env (curTick env)); [done|lia..].
Qed.

(** The cached clock is exact. If the cached (tick, cycle) pair is an edge at
    most one period ahead of the current tick, as it is after construction and
    as every call leaves it, then [clockEdge(n)] returns the first clock edge at
    or after the current tick plus [n] periods, whichever of the three paths of
    [update] is taken, and the pair stays valid as time advances. *)
Theorem cached_clock_exact env n c tick :
  clock_ok env → clocked_inv env c → curTick env ≤ tick →
  fst (Clocked_clockEdge env n c) = clockEdge env n ∧
  clocked_inv {| curTick := tick; clockPeriod := clockPeriod env |} (snd (Clocked_clockEdge env n c)).
Proof.
  intros Hok Hinv Ht. split; [by apply Clocked_clockEdge_ref|].
  destruct (update_edge env c Hok Hinv) as [_ (H1 & H2 & H3)]. unfold clocked_inv. simpl.
  unfold Clocked_clockEdge. simpl. lia.
Qed.

(** Several periods have passed since the pair was cached. *)
Lemma cached_clock_exact_witness :
  fst (Clocked_clockEdge {| curTick := 7300; clockPeriod := 500 |} 2 {| ck_tick := 1000; ck_cycle := 2 |}) = 8500.
Proof.
  destruct (cached_clock_exact {| curTick := 7300; clockPeriod := 500 |} 2 {| ck_tick := 1000; ck_cycle := 2 |} 7300)
    as [-> _]; [unfold clock_ok; simpl; lia|unfold clocked_inv; simpl; lia|simpl; lia|vm_compute; reflexivity].
Defined.
