(* ===== verification/Consumer.v ===== *)
(** * Consumers: mem/ruby/common/Consumer.{hh,cc}

    A [Consumer] keeps the ticks it must be woken at in a sorted vector
    without duplicates and one event in the event queue. The vector replaces
    a [std::set<Tick>]; the lemmas below show that it refines one. *)

From S2P Require Import Prelude IntMath Clocked.

(** ** The sorted vector *)

(** [std::lower_bound]: the index of the first element not below [tick]. *)
Fixpoint lower_bound (v : list Z) (tick : Z) : nat :=
  match v with
  | [] => O
  | x :: v' => if x <? tick then S (lower_bound v' tick) else O
  end.

(** [it != v.end() && *it == tick] for an iterator at index [i]. *)
Definition at_is (v : list Z) (i : nat) (tick : Z) : bool :=
  match v !! i with Some x => x =? tick | None => false end.

Definition insertSorted (v : list Z) (tick : Z) : list Z * bool :=
  let it := lower_bound v tick in
  if at_is v it tick then (v, false) else (take it v ++ tick :: drop it v, true).

Definition containsSorted (v : list Z) (tick : Z) : bool := at_is v (lower_bound v tick) tick.

Definition eraseSorted (v : list Z) (tick : Z) : list Z :=
  let it := lower_bound v tick in if at_is v it tick then delete it v else v.

(** ** The Consumer *)

(** [m_wakeup_event] is [Some when] while the event is scheduled. *)
Record Consumer := { m_wakeup_ticks : list Z; m_wakeup_event : option Z }.

Definition new_Consumer : Consumer := {| m_wakeup_ticks := []; m_wakeup_event := None |}.

Definition with_ticks (c : Consumer) (v : list Z) : Consumer :=
  {| m_wakeup_ticks := v; m_wakeup_event := m_wakeup_event c |}.

Definition with_event (c : Consumer) (e : option Z) : Consumer :=
  {| m_wakeup_ticks := m_wakeup_ticks c; m_wakeup_event := e |}.

Definition alreadyScheduled (c : Consumer) (time : Z) : bool :=
  containsSorted (m_wakeup_ticks c) time.

(** [em->schedule] and [em->reschedule] refuse a tick in the past. *)
Definition scheduleNextWakeup (env : ClockEnv) (c : Consumer) : res Consumer :=
  let now := clockEdge env 0 in
  match m_wakeup_ticks c !! lower_bound (m_wakeup_ticks c) now with
  | None => Ok c
  | Some when_ =>
      let* _ := assert_ "scheduleNextWakeup: when >= now" (now <=? when_) in
      match m_wakeup_event c with
      | Some w =>
          if when_ <? w then
            let* _ := assert_ "reschedule: when >= curTick" (curTick env <=? when_) in
            Ok (with_event c (Some when_))
          else Ok c
      | None =>
          let* _ := assert_ "schedule: when >= curTick" (curTick env <=? when_) in
          Ok (with_event c (Some when_))
      end
  end.

(** The tick rounded up to the consumer's clock. *)
Definition align_tick (env : ClockEnv) (evt_time : Z) : Z :=
  u64 (divCeil64 evt_time (clockPeriod env) * clockPeriod env).

Definition scheduleEvent (env : ClockEnv) (timeDelta : Z) (c : Consumer) : res Consumer :=
  scheduleNextWakeup env
    (with_ticks c (fst (insertSorted (m_wakeup_ticks c) (clockEdge env timeDelta)))).

Definition scheduleEventAbsolute (env : ClockEnv) (evt_time : Z) (c : Consumer) : res Consumer :=
  scheduleNextWakeup env
    (with_ticks c (fst (insertSorted (m_wakeup_ticks c) (align_tick env evt_time)))).

Definition recordEvent (env : ClockEnv) (timeDelta : Z) (c : Consumer) : Consumer :=
  with_ticks c (fst (insertSorted (m_wakeup_ticks c) (clockEdge env timeDelta))).

Definition recordEventAbsolute (env : ClockEnv) (evt_time : Z) (c : Consumer) : Consumer :=
  with_ticks c (fst (insertSorted (m_wakeup_ticks c) (align_tick env evt_time))).

Definition descheduleTick (tick : Z) (c : Consumer) : Consumer :=
  with_ticks c (eraseSorted (m_wakeup_ticks c) tick).

Definition tryConsumeTick (tick : Z) (c : Consumer) : Consumer * bool :=
  match m_wakeup_ticks c with
  | [] => (c, false)
  | front :: rest =>
      if front =? tick then (with_ticks c rest, true) else
      let it := lower_bound (m_wakeup_ticks c) tick in
      if at_is (m_wakeup_ticks c) it tick
      then (with_ticks c (delete it (m_wakeup_ticks c)), true)
      else (c, false)
  end.

(** [processCurrentEvent], for an object [X] with a Consumer base and a
    virtual [wakeup]. The event has left the queue when it runs. *)
Class HasConsumer (X : Type) := {
  consumer_of : X → Consumer;
  set_consumer : Consumer → X → X;
  consumer_of_set c x : consumer_of (set_consumer c x) = c
}.

Definition processCurrentEvent `{HasConsumer X} (wakeup : X → res X) (env : ClockEnv) (x : X) : res X :=
  let c := consumer_of x in
  let current_tick := clockEdge env 0 in
  let '(v, was_pending) :=
    match m_wakeup_ticks c with
    | front :: rest =>
        if front =? current_tick then (rest, true) else
        let it := lower_bound (m_wakeup_ticks c) current_tick in
        if at_is (m_wakeup_ticks c) it current_tick
        then (delete it (m_wakeup_ticks c), true)
        else (m_wakeup_ticks c, false)
    | [] => ([], false)
    end in
  let x := set_consumer {| m_wakeup_ticks := v; m_wakeup_event := None |} x in
  let* x := (if was_pending then wakeup x else Ok x) in
  let* c := scheduleNextWakeup env (consumer_of x) in
  Ok (set_consumer c x).

(** ** Lemmas *)

(** The header's contract: sorted ascending, no duplicates. *)
Definition ticks_sorted (v : list Z) : Prop := StronglySorted Z.lt v.

Definition consumer_inv (c : Consumer) : Prop := ticks_sorted (m_wakeup_ticks c).

Lemma ticks_sorted_nil : ticks_sorted [].
Proof. constructor. Qed.

Lemma ticks_sorted_cons x v :
  ticks_sorted (x :: v) ↔ ticks_sorted v ∧ (∀ y, y ∈ v → x < y).
Proof.
  unfold ticks_sorted. split.
  - intros [? Hf]%StronglySorted_inv. by rewrite Forall_forall in Hf.
  - intros [? ?]. constructor; [done|]. by rewrite Forall_forall.
Qed.

(** A sorted vector without duplicates is determined by its elements. *)
Lemma ticks_sorted_ext v1 v2 :
  ticks_sorted v1 → ticks_sorted v2 → (∀ t, t ∈ v1 ↔ t ∈ v2) → v1 = v2.
Proof.
  revert v2. induction v1 as [|x v1 IH]; intros [|y v2] H1 H2 Hext; [done| | |].
  - destruct (Hext y). set_solver.
  - destruct (Hext x). set_solver.
  - apply ticks_sorted_cons in H1 as [H1 Hx]. apply ticks_sorted_cons in H2 as [H2 Hy].
    assert (x = y) as ->.
    { destruct (proj1 (elem_of_cons _ _ _) (proj1 (Hext x) ltac:(set_solver))) as [|Hxv]; [done|].
      destruct (proj1 (elem_of_cons _ _ _) (proj2 (Hext y) ltac:(set_solver))) as [|Hyv]; [done|].
      pose proof (Hx _ Hyv). pose proof (Hy _ Hxv). lia. }
    f_equal. apply IH; [done|done|]. intros t. split; intros Ht.
    + destruct (proj1 (elem_of_cons _ _ _) (proj1 (Hext t) ltac:(set_solver))) as [->|]; [|done].
      pose proof (Hx _ Ht). lia.
    + destruct (proj1 (elem_of_cons _ _ _) (proj2 (Hext t) ltac:(set_solver))) as [->|]; [|done].
      pose proof (Hy _ Ht). lia.
Qed.

Lemma containsSorted_elem v t : ticks_sorted v → containsSorted v t = true ↔ t ∈ v.
Proof.
  unfold containsSorted, at_is. induction v as [|x v IH]; intros Hs; simpl.
  - split; [done|]. set_solver.
  - apply ticks_sorted_cons in Hs as [Hs Hx]. rewrite elem_of_cons.
    zcase; simpl.
    + rewrite IH by done. split; [by right|]. intros [->|]; [lia|done].
    + rewrite Z.eqb_eq. split; [by left|]. intros [->|Ht]; [done|].
      pose proof (Hx _ Ht). lia.
Qed.

Lemma insertSorted_elem v t u :
  ticks_sorted v → u ∈ fst (insertSorted v t) ↔ u = t ∨ u ∈ v.
Proof.
  intros Hs. unfold insertSorted. destruct (at_is v (lower_bound v t) t) eqn:E; simpl.
  - apply containsSorted_elem in E; [|done]. naive_solver.
  - assert (u ∈ v ↔ u ∈ take (lower_bound v t) v ∨ u ∈ drop (lower_bound v t) v) as ->
      by (by rewrite <-elem_of_app, take_drop).
    rewrite elem_of_app, elem_of_cons. naive_solver.
Qed.

Lemma insertSorted_cons x v t :
  x < t → fst (insertSorted (x :: v) t) = x :: fst (insertSorted v t).
Proof.
  intros. unfold insertSorted, at_is. simpl. rewrite (proj2 (Z.ltb_lt x t)) by lia. simpl.
  by destruct (match v !! lower_bound v t with Some _ => _ | None => _ end).
Qed.

Lemma insertSorted_sorted v t : ticks_sorted v → ticks_sorted (fst (insertSorted v t)).
Proof.
  induction v as [|x v IH]; intros Hs; [by repeat constructor|].
  destruct (decide (x < t)) as [Hlt|Hge].
  - rewrite insertSorted_cons by done. apply ticks_sorted_cons in Hs as [Hs Hx].
    apply ticks_sorted_cons. split; [by apply IH|]. intros y.
    rewrite insertSorted_elem by done. intros [->|]; [done|]. by apply Hx.
  - unfold insertSorted, at_is. simpl. rewrite (proj2 (Z.ltb_ge x t)) by lia. simpl.
    destruct (Z.eqb_spec x t); [done|]. simpl. apply ticks_sorted_cons. split; [done|].
    apply ticks_sorted_cons in Hs as [Hs Hx].
    intros y [->|Hy]%elem_of_cons; [lia|]. pose proof (Hx _ Hy). lia.
Qed.

Lemma eraseSorted_cons x v t :
  x < t → eraseSorted (x :: v) t = x :: eraseSorted v t.
Proof.
  intros. unfold eraseSorted, at_is. simpl. rewrite (proj2 (Z.ltb_lt x t)) by lia. simpl.
  by destruct (match v !! lower_bound v t with Some _ => _ | None => _ end).
Qed.

Lemma eraseSorted_elem v t u :
  ticks_sorted v → u ∈ eraseSorted v t ↔ u ∈ v ∧ u ≠ t.
Proof.
  induction v as [|x v IH]; intros Hs; [unfold eraseSorted, at_is; simpl; set_solver|].
  apply ticks_sorted_cons in Hs as [Hs Hx]. destruct (decide (x < t)) as [Hlt|Hge].
  - rewrite eraseSorted_cons, !elem_of_cons, IH by done. naive_solver lia.
  - unfold eraseSorted, at_is. simpl. rewrite (proj2 (Z.ltb_ge x t)) by lia. simpl.
    destruct (Z.eqb_spec x t) as [->|]; simpl; rewrite ?elem_of_cons.
    + split; [intros Hu|naive_solver]. split; [by right|]. intros ->. pose proof (Hx _ Hu). lia.
    + split; [|naive_solver]. intros Hu. split; [done|]. intros ->.
      destruct Hu as [->|Hu]; [done|]. pose proof (Hx _ Hu). lia.
Qed.

Lemma eraseSorted_sorted v t : ticks_sorted v → ticks_sorted (eraseSorted v t).
Proof.
  induction v as [|x v IH]; intros Hs; [done|].
  destruct (decide (x < t)) as [Hlt|Hge].
  - rewrite eraseSorted_cons by done. apply ticks_sorted_cons in Hs as [Hs Hx].
    apply ticks_sorted_cons. split; [by apply IH|]. intros y.
    rewrite eraseSorted_elem by done. intros [? ?]. by apply Hx.
  - unfold eraseSorted, at_is. simpl. rewrite (proj2 (Z.ltb_ge x t)) by lia. simpl.
    apply ticks_sorted_cons in Hs as Hs'. destruct (Z.eqb_spec x t); [by destruct Hs'|done].
Qed.

(** The order in which ticks are inserted does not matter. *)
Lemma insertSorted_comm v t1 t2 :
  ticks_sorted v →
  fst (insertSorted (fst (insertSorted v t1)) t2) = fst (insertSorted (fst (insertSorted v t2)) t1).
Proof.
  intros Hs. pose proof (insertSorted_sorted v t1 Hs). pose proof (insertSorted_sorted v t2 Hs).
  apply ticks_sorted_ext; [by apply insertSorted_sorted..|].
  intros t. rewrite !insertSorted_elem by done. naive_solver.
Qed.

(** The fast path of [tryConsumeTick] is the general path. *)
Lemma tryConsumeTick_eq tick c :
  consumer_inv c →
  tryConsumeTick tick c = (descheduleTick tick c, alreadyScheduled c tick).
Proof.
  destruct c as [v e]. unfold consumer_inv, tryConsumeTick, descheduleTick, alreadyScheduled,
    containsSorted, eraseSorted, with_ticks. simpl. intros Hs.
  destruct v as [|x v]; [done|].
  destruct (Z.eqb_spec x tick) as [->|Hne]; simpl.
  - unfold at_is. simpl. rewrite Z.ltb_irrefl. simpl. by rewrite Z.eqb_refl.
  - by destruct (at_is (x :: v) _ tick).
Qed.

(** [lower_bound] finds the earliest pending tick not before [now]. *)
Lemma lower_bound_Some v now w :
  ticks_sorted v → v !! lower_bound v now = Some w →
  now ≤ w ∧ w ∈ v ∧ ∀ t, t ∈ v → now ≤ t → w ≤ t.
Proof.
  induction v as [|x v IH]; intros Hs Hw; simpl in *; [done|].
  apply ticks_sorted_cons in Hs as [Hs Hx]. destruct (Z.ltb_spec x now).
  - destruct (IH Hs Hw) as (? & ? & Hmin). split; [done|]. split; [set_solver|].
    intros t [->|?]%elem_of_cons ?; [lia|by apply Hmin].
  - simplify_eq/=. split; [done|]. split; [set_solver|].
    intros t [->|Ht]%elem_of_cons ?; [lia|]. pose proof (Hx _ Ht). lia.
Qed.

Lemma lower_bound_None v now :
  v !! lower_bound v now = None → ∀ t, t ∈ v → t < now.
Proof.
  induction v as [|x v IH]; intros Hw t Ht; simpl in *; [set_solver|].
  destruct (Z.ltb_spec x now); [|done]. apply elem_of_cons in Ht as [->|]; [done|].
  by apply IH.
Qed.

(** Every pending tick from the current edge on is preceded by the event. *)
Definition covered (env : ClockEnv) (c : Consumer) : Prop :=
  ∀ t, t ∈ m_wakeup_ticks c → clockEdge env 0 ≤ t →
  ∃ w, m_wakeup_event c = Some w ∧ w ≤ t.

Lemma clockEdge0_ge env : clock_ok env → curTick env ≤ clockEdge env 0.
Proof.
  intros (Hp & Hc & Hov). unfold clockEdge. destruct (edge_spec env Hp) as [? _].
  rewrite u64_small by lia. lia.
Qed.

Lemma scheduleNextWakeup_covers env c :
  clock_ok env → consumer_inv c →
  ∃ c', scheduleNextWakeup env c = Ok c' ∧ m_wakeup_ticks c' = m_wakeup_ticks c ∧ covered env c'.
Proof.
  intros Hck Hinv. pose proof (clockEdge0_ge env Hck). unfold scheduleNextWakeup.
  destruct (m_wakeup_ticks c !! lower_bound _ _) as [w|] eqn:E.
  - apply lower_bound_Some in E as (Hge & Hin & Hmin); [|done].
    rewrite (proj2 (Z.leb_le _ w)) by done. simpl.
    destruct (m_wakeup_event c) as [ev|] eqn:Eev.
    + destruct (Z.ltb_spec w ev); rewrite ?(proj2 (Z.leb_le (curTick env) w)) by lia;
        eexists; split; try done; split; try done; intros t Ht Hle; simpl in *;
        specialize (Hmin t Ht Hle); [by eauto|]. exists ev. split; [done|lia].
    + rewrite (proj2 (Z.leb_le (curTick env) w)) by lia. eexists; split; [done|]. split; [done|].
      intros t Ht Hle. simpl in *. eauto.
  - exists c. split; [done|]. split; [done|]. intros t Ht Hle.
    pose proof (lower_bound_None _ _ E t Ht). lia.
Qed.

(** The event after [scheduleNextWakeup] for the ticks [v]. *)
Definition event_after (now : Z) (v : list Z) (ev : option Z) : option Z :=
  match v !! lower_bound v now, ev with
  | None, _ => ev
  | Some w, Some e => if w <? e then Some w else Some e
  | Some w, None => Some w
  end.

Lemma scheduleEventAbsolute_eq env t c :
  clock_ok env → consumer_inv c →
  scheduleEventAbsolute env t c =
    (let v := fst (insertSorted (m_wakeup_ticks c) (align_tick env t)) in
     Ok {| m_wakeup_ticks := v; m_wakeup_event := event_after (clockEdge env 0) v (m_wakeup_event c) |}).
Proof.
  intros Hck Hinv. unfold scheduleEventAbsolute, scheduleNextWakeup, event_after, with_ticks. simpl.
  pose proof (insertSorted_sorted _ (align_tick env t) Hinv) as Hs.
  set (v := fst (insertSorted _ _)) in *. pose proof (clockEdge0_ge env Hck).
  destruct (v !! lower_bound v (clockEdge env 0)) as [w|] eqn:E; [|done].
  apply lower_bound_Some in E as (Hge & _ & _); [|done]. unfold assert_.
  rewrite (proj2 (Z.leb_le _ w)) by done. simpl.
  destruct (m_wakeup_event c) as [e|]; [destruct (w <? e); [|done]|];
    by rewrite (proj2 (Z.leb_le _ w)) by lia.
Qed.

(** Scheduling for more ticks supersedes scheduling for fewer. *)
Lemma event_after_absorb now v1 v2 e :
  ticks_sorted v1 → ticks_sorted v2 → (∀ t, t ∈ v1 → t ∈ v2) →
  event_after now v2 (event_after now v1 e) = event_after now v2 e.
Proof.
  intros H1 H2 Hsub. unfold event_after.
  destruct (v1 !! lower_bound v1 now) as [w1|] eqn:E1; [|done].
  apply lower_bound_Some in E1 as (Hge1 & Hin1 & _); [|done].
  destruct (v2 !! lower_bound v2 now) as [w2|] eqn:E2.
  - apply lower_bound_Some in E2 as (_ & _ & Hmin); [|done].
    specialize (Hmin w1 (Hsub _ Hin1) Hge1).
    destruct e as [e|]; repeat zcase; repeat f_equal; lia.
  - pose proof (lower_bound_None _ _ E2 w1 (Hsub _ Hin1)). lia.
Qed.

(** The order in which a consumer is scheduled for two ticks does not matter. *)
Lemma scheduleEventAbsolute_swap env t u c c1 c2 :
  clock_ok env → consumer_inv c →
  scheduleEventAbsolute env t c = Ok c1 → scheduleEventAbsolute env u c1 = Ok c2 →
  ∃ c1', scheduleEventAbsolute env u c = Ok c1' ∧ scheduleEventAbsolute env t c1' = Ok c2.
Proof.
  intros Hck Hinv H1 H2.
  rewrite scheduleEventAbsolute_eq in H1 by done. cbv zeta in H1. simplify_eq.
  pose proof (insertSorted_sorted _ (align_tick env t) Hinv) as Ht.
  pose proof (insertSorted_sorted _ (align_tick env u) Hinv) as Hu.
  rewrite scheduleEventAbsolute_eq in H2 by done. cbv zeta in H2. simplify_eq/=.
  eexists. split; [by apply scheduleEventAbsolute_eq|]. cbv zeta.
  rewrite scheduleEventAbsolute_eq by done. cbv zeta. simpl. rewrite insertSorted_comm by done.
  do 2 f_equal. rewrite !event_after_absorb; try done.
  - by apply insertSorted_sorted.
  - intros x Hx. apply insertSorted_elem; [done|by right].
  - by apply insertSorted_sorted.
  - intros x Hx. rewrite <-insertSorted_comm by done. apply insertSorted_elem; [done|by right].
Qed.

(** ** Properties *)

(** The set of pending ticks. *)
Definition pending (c : Consumer) : gset Z := list_to_set (m_wakeup_ticks c).

Lemma elem_of_pending c t : t ∈ pending c ↔ t ∈ m_wakeup_ticks c.
Proof. unfold pending. by rewrite elem_of_list_to_set. Qed.

Lemma alreadyScheduled_pending c t :
  consumer_inv c → alreadyScheduled c t = bool_decide (t ∈ pending c).
Proof.
  intros Hinv. apply eq_true_iff_eq. rewrite bool_decide_eq_true, elem_of_pending.
  by apply containsSorted_elem.
Qed.

(** C23: The sorted vector refines the [std::set<Tick>] it replaces: every
    operation keeps the vector strictly sorted, and insertion, membership,
    removal and the combined test-and-remove act on the set of pending ticks
    as set insertion, membership and removal. *)
Theorem consumer_refines_set env n t c :
  consumer_inv c →
  consumer_inv (recordEvent env n c) ∧ consumer_inv (recordEventAbsolute env t c)
  ∧ consumer_inv (descheduleTick t c) ∧ consumer_inv (fst (tryConsumeTick t c))
  ∧ pending (recordEvent env n c) = {[clockEdge env n]} ∪ pending c
  ∧ pending (recordEventAbsolute env t c) = {[align_tick env t]} ∪ pending c
  ∧ alreadyScheduled c t = bool_decide (t ∈ pending c)
  ∧ pending (descheduleTick t c) = pending c ∖ {[t]}
  ∧ tryConsumeTick t c = (descheduleTick t c, bool_decide (t ∈ pending c)).
Proof.
  intros Hinv.
  rewrite tryConsumeTick_eq, alreadyScheduled_pending by done. simpl.
  assert (∀ u, pending (with_ticks c (fst (insertSorted (m_wakeup_ticks c) u))) = {[u]} ∪ pending c) as Hins.
  { intros u. apply set_eq. intros x. rewrite elem_of_pending. simpl.
    rewrite insertSorted_elem, elem_of_union, elem_of_singleton, elem_of_pending by done. done. }
  repeat split; try done; try (by apply insertSorted_sorted); try (by apply eraseSorted_sorted);
    try apply Hins.
  apply set_eq. intros x. rewrite elem_of_pending. simpl.
  rewrite eraseSorted_elem, elem_of_difference, elem_of_singleton, elem_of_pending by done. done.
Qed.

Definition ex_consumer : Consumer := {| m_wakeup_ticks := [500; 1500]; m_wakeup_event := None |}.
Definition ex_clock : ClockEnv := {| curTick := 500; clockPeriod := 500 |}.

Lemma ex_consumer_inv : consumer_inv ex_consumer.
Proof. repeat constructor; lia. Qed.

Lemma consumer_refines_set_witness :
  consumer_inv ex_consumer ∧ tryConsumeTick 1500 ex_consumer = (descheduleTick 1500 ex_consumer, true).
Proof.
  split; [exact ex_consumer_inv|].
  destruct (consumer_refines_set ex_clock 1 1500 ex_consumer ex_consumer_inv)
    as (_ & _ & _ & _ & _ & _ & _ & _ & H).
  rewrite H. vm_compute. reflexivity.
Defined.

(** C24: A wakeup scheduled through the Consumer is never lost: scheduling
    succeeds (no assertion fires), the rounded tick becomes pending, no other
    pending tick is dropped, and the consumer's event fires no later than any
    pending tick from the current edge on. *)
Theorem scheduleEventAbsolute_covers env t c :
  clock_ok env → consumer_inv c →
  ∃ c', scheduleEventAbsolute env t c = Ok c'
      ∧ pending c' = {[align_tick env t]} ∪ pending c
      ∧ consumer_inv c' ∧ covered env c'.
Proof.
  intros Hck Hinv. unfold scheduleEventAbsolute.
  destruct (scheduleNextWakeup_covers env
    (with_ticks c (fst (insertSorted (m_wakeup_ticks c) (align_tick env t))))) as (c' & Hc' & Hv & Hcov);
    [done|by apply insertSorted_sorted|].
  exists c'. split; [done|]. simpl in Hv. unfold pending, consumer_inv. rewrite Hv.
  split; [|split; [by apply insertSorted_sorted|done]].
  apply set_eq. intros x. rewrite elem_of_list_to_set, insertSorted_elem by done. set_solver.
Qed.

Lemma scheduleEventAbsolute_covers_witness :
  clock_ok ex_clock ∧
  ∃ c', scheduleEventAbsolute ex_clock 700 ex_consumer = Ok c'
      ∧ pending c' = {[align_tick ex_clock 700]} ∪ pending ex_consumer
      ∧ consumer_inv c' ∧ covered ex_clock c'.
Proof.
  assert (clock_ok ex_clock) as H by (unfold clock_ok; simpl; lia).
  split; [exact H|].
  apply (scheduleEventAbsolute_covers ex_clock 700 ex_consumer H ex_consumer_inv).
Defined.

(** A bare Consumer with a wakeup that does nothing. *)
#[export] Instance consumer_self : HasConsumer Consumer :=
  {| consumer_of c := c; set_consumer c _ := c; consumer_of_set c _ := eq_refl |}.

(** The tick test at the head of [processCurrentEvent] is [tryConsumeTick]. *)
Lemma processCurrentEvent_eq `{HasConsumer X} (wakeup : X → res X) env x :
  consumer_inv (consumer_of x) →
  processCurrentEvent wakeup env x =
    (let t := clockEdge env 0 in
     let x1 := set_consumer (with_event (descheduleTick t (consumer_of x)) None) x in
     let* x2 := (if alreadyScheduled (consumer_of x) t then wakeup x1 else Ok x1) in
     let* c := scheduleNextWakeup env (consumer_of x2) in
     Ok (set_consumer c x2)).
Proof.
  intros Hinv. unfold processCurrentEvent, alreadyScheduled, containsSorted, descheduleTick,
    eraseSorted, with_event, with_ticks. simpl. set (t := clockEdge env 0).
  destruct (m_wakeup_ticks (consumer_of x)) as [|y v]; [done|].
  destruct (Z.eqb_spec y t) as [->|Hne].
  - unfold at_is. simpl. rewrite Z.ltb_irrefl. simpl. rewrite Z.eqb_refl. done.
  - by destruct (at_is (y :: v) _ t).
Qed.

(** The Consumer event runs [wakeup] exactly when the current tick is
    still pending, after removing it, and then re-arms the event; hence a tick
    that [globalWakeup] already serviced (and removed by [tryConsumeTick]) does
    not run the object a second time: its event behaves as one whose [wakeup]
    does nothing. *)
Theorem processCurrentEvent_exact `{HasConsumer X} (wakeup : X → res X) env x :
  consumer_inv (consumer_of x) →
  processCurrentEvent wakeup env x =
    (let t := clockEdge env 0 in
     let x1 := set_consumer (with_event (descheduleTick t (consumer_of x)) None) x in
     let* x2 := (if bool_decide (t ∈ pending (consumer_of x)) then wakeup x1 else Ok x1) in
     let* c := scheduleNextWakeup env (consumer_of x2) in
     Ok (set_consumer c x2))
  ∧ (let serviced := set_consumer (fst (tryConsumeTick (clockEdge env 0) (consumer_of x))) x in
     processCurrentEvent wakeup env serviced = processCurrentEvent Ok env serviced).
Proof.
  intros Hinv. split.
  { rewrite processCurrentEvent_eq by done. cbv zeta. by rewrite alreadyScheduled_pending by done. }
  rewrite tryConsumeTick_eq by done. simpl. set (t := clockEdge env 0).
  assert (consumer_inv (descheduleTick t (consumer_of x))) by by apply eraseSorted_sorted.
  rewrite !processCurrentEvent_eq by (by rewrite consumer_of_set). cbv zeta.
  rewrite consumer_of_set, alreadyScheduled_pending by done.
  rewrite bool_decide_eq_false_2; [done|].
  rewrite elem_of_pending. unfold descheduleTick. simpl. rewrite eraseSorted_elem by done. tauto.
Qed.

Lemma processCurrentEvent_exact_witness :
  processCurrentEvent (fun c => Err (EPanic "ran twice")) ex_clock
    (fst (tryConsumeTick 500 ex_consumer))
  = Ok {| m_wakeup_ticks := [1500]; m_wakeup_event := Some 1500 |}.
Proof.
  destruct (processCurrentEvent_exact (X:=Consumer) (H:=consumer_self)
    (fun c => Err (EPanic "ran twice")) ex_clock ex_consumer ex_consumer_inv) as [_ H].
  transitivity (processCurrentEvent Ok ex_clock (fst (tryConsumeTick 500 ex_consumer)));
    [exact H|vm_compute; reflexivity].
Defined.
