(* ===== verification/WakeupRing.v ===== *)
(** * The wakeup ring of GarnetNetwork

    src/mem/ruby/network/garnet/GarnetNetwork.{hh,cc}: the 128-slot ring of
    64-bit router masks [m_wakeup_mask] with its companion bitmap
    [m_active_lo]/[m_active_hi], [registerWakeup], [computeNextWakeupTick] and
    the slot exchange at the head of [globalWakeup]. *)

From S2P Require Import Prelude IntMath.

(** ** State *)

Record Ring := {
  m_wakeup_mask : list Z;  (* 128 words *)
  m_active_lo : Z;         (* slots 0..63 *)
  m_active_hi : Z          (* slots 64..127 *)
}.

Definition empty_ring : Ring :=
  {| m_wakeup_mask := replicate 128 0; m_active_lo := 0; m_active_hi := 0 |}.

Definition slot (r : Ring) (i : Z) : Z := m_wakeup_mask r !!! Z.to_nat i.

(** ** Operations *)

(** [(tick / clockPeriod()) % 128] *)
Definition slot_index (period tick : Z) : Z := (tick / period) mod 128.

(** [slot.fetch_or(bit)], and the plain load/store form of the sequential
    branch, which leaves the same word. *)
Definition or_slot (idx bit : Z) (r : Ring) : Ring :=
  {| m_wakeup_mask := <[Z.to_nat idx := Z.lor (slot r idx) bit]> (m_wakeup_mask r);
     m_active_lo := m_active_lo r; m_active_hi := m_active_hi r |}.

(** [active.fetch_or(active_bit)] on the half that holds [idx]. *)
Definition or_active (idx : Z) (r : Ring) : Ring :=
  let active_bit := u64 (Z.shiftl 1 (Z.land idx 63)) in
  if idx <? 64
  then {| m_wakeup_mask := m_wakeup_mask r; m_active_lo := Z.lor (m_active_lo r) active_bit;
          m_active_hi := m_active_hi r |}
  else {| m_wakeup_mask := m_wakeup_mask r; m_active_lo := m_active_lo r;
          m_active_hi := Z.lor (m_active_hi r) active_bit |}.

Definition registerWakeup (period router_id tick : Z) (r : Ring) : Ring :=
  let idx := slot_index period tick in
  let bit := u64 (Z.shiftl 1 router_id) in
  or_active idx (or_slot idx bit r).

(** The lambda of [computeNextWakeupTick]: the lowest set bit above
    [after_idx], or -1. *)
Definition first_bit_after (lo hi after_idx : Z) : Z :=
  if after_idx <? 63 then
    let sh := after_idx + 1 in
    let lo_masked := u64 (Z.shiftl (Z.shiftr lo sh) sh) in
    if negb (lo_masked =? 0) then ctzll lo_masked
    else if negb (hi =? 0) then 64 + ctzll hi else -1
  else if after_idx =? 63 then
    if negb (hi =? 0) then 64 + ctzll hi else -1
  else if after_idx <? 127 then
    let sh := (after_idx - 64) + 1 in
    let hi_masked := u64 (Z.shiftl (Z.shiftr hi sh) sh) in
    if negb (hi_masked =? 0) then 64 + ctzll hi_masked else -1
  else -1.

Definition computeNextWakeupTick (current_idx current_tick clock_period : Z) (r : Ring) : Z :=
  let lo := m_active_lo r in
  let hi := m_active_hi r in
  let idx := first_bit_after lo hi current_idx in
  if 0 <=? idx then u64 (current_tick + u64 ((idx - current_idx) * clock_period))
  else if negb (lo =? 0) then
    u64 (current_tick + u64 ((128 - (current_idx - ctzll lo)) * clock_period))
  else if negb (hi =? 0) then
    u64 (current_tick + u64 ((128 - (current_idx - (64 + ctzll hi))) * clock_period))
  else u64 (current_tick + clock_period).

(** [mask.exchange(0)] and, if the slot was not empty, clearing the active
    bit; returns the old mask. *)
Definition take_slot (current_idx : Z) (r : Ring) : Z * Ring :=
  let mask := slot r current_idx in
  let cleared := <[Z.to_nat current_idx := 0]> (m_wakeup_mask r) in
  if mask =? 0 then
    (mask, {| m_wakeup_mask := cleared; m_active_lo := m_active_lo r; m_active_hi := m_active_hi r |})
  else if current_idx <? 64 then
    (mask, {| m_wakeup_mask := cleared;
              m_active_lo := Z.land (m_active_lo r) (Z.lnot (Z.shiftl 1 current_idx));
              m_active_hi := m_active_hi r |})
  else
    (mask, {| m_wakeup_mask := cleared; m_active_lo := m_active_lo r;
              m_active_hi := Z.land (m_active_hi r) (Z.lnot (Z.shiftl 1 (current_idx - 64))) |}).

(** ** Abstract view *)

(** The bitmap's bit for slot [i]. *)
Definition slot_active (r : Ring) (i : Z) : bool :=
  if i <? 64 then Z.testbit (m_active_lo r) i else Z.testbit (m_active_hi r) (i - 64).

(** The header's invariant: bit [i] is 1 iff [m_wakeup_mask[i]] is not 0. *)
Record ring_inv (r : Ring) : Prop := {
  ri_length : length (m_wakeup_mask r) = 128%nat;
  ri_masks : ∀ i, 0 ≤ i < 128 → is_u64 (slot r i);
  ri_lo : is_u64 (m_active_lo r);
  ri_hi : is_u64 (m_active_hi r);
  ri_active : ∀ i, 0 ≤ i < 128 → slot_active r i = true ↔ slot r i ≠ 0
}.

(** Reference search: walk the ring one slot at a time. *)
Fixpoint scan_next (active : Z → bool) (cur d : Z) (n : nat) : option Z :=
  match n with
  | O => None
  | S n' => if active ((cur + d) mod 128) then Some d else scan_next active cur (d + 1) n'
  end.

Definition next_dist (active : Z → bool) (cur : Z) : option Z := scan_next active cur 1 128.

(** A router is registered for the slot of [tick]. *)
Definition registered (period router_id tick : Z) (r : Ring) : bool :=
  Z.testbit (slot r (slot_index period tick)) router_id.

(** ** Lemmas *)

Lemma slot_index_range period tick : 0 ≤ slot_index period tick < 128.
Proof. apply Z.mod_pos_bound. lia. Qed.
#[export] Hint Resolve slot_index_range : garnet.

Lemma slot_insert_eq r i x :
  length (m_wakeup_mask r) = 128%nat → 0 ≤ i < 128 →
  (<[Z.to_nat i := x]> (m_wakeup_mask r)) !!! Z.to_nat i = x.
Proof. intros. apply list_lookup_total_insert_eq. lia. Qed.

Lemma slot_insert_ne r i j x :
  0 ≤ i → 0 ≤ j → i ≠ j →
  (<[Z.to_nat i := x]> (m_wakeup_mask r)) !!! Z.to_nat j = slot r j.
Proof. intros. apply list_lookup_total_insert_ne. lia. Qed.

Lemma or_slot_slot idx bit r j :
  length (m_wakeup_mask r) = 128%nat → 0 ≤ idx < 128 → 0 ≤ j < 128 →
  slot (or_slot idx bit r) j = if decide (j = idx) then Z.lor (slot r idx) bit else slot r j.
Proof.
  intros. unfold or_slot. unfold slot at 1. simpl. case_decide as Hd.
  - subst. by apply slot_insert_eq.
  - apply slot_insert_ne; lia.
Qed.

Lemma or_active_slot idx r j : slot (or_active idx r) j = slot r j.
Proof. unfold or_active. by destruct (idx <? 64). Qed.

Lemma or_slot_active idx bit r i : slot_active (or_slot idx bit r) i = slot_active r i.
Proof. done. Qed.

Lemma land_63 idx : 0 ≤ idx → Z.land idx 63 = idx mod 64.
Proof. intros. apply (Z.land_ones idx 6). lia. Qed.

Lemma or_active_active idx r i :
  0 ≤ idx < 128 → 0 ≤ i < 128 →
  slot_active (or_active idx r) i = slot_active r i || (i =? idx).
Proof.
  intros Hidx Hi. unfold or_active, slot_active. rewrite land_63 by lia.
  destruct (Z.ltb_spec idx 64); simpl.
  - rewrite (Z.mod_small idx 64) by lia. rewrite u64_small by (apply shiftl1_lt_pow2; lia).
    destruct (Z.ltb_spec i 64).
    + rewrite Z.lor_spec, shiftl1_testbit by lia. by rewrite Z.eqb_sym.
    + destruct (Z.eqb_spec i idx); [lia|]. by rewrite orb_false_r.
  - replace (idx mod 64) with (idx - 64) by (rewrite (Z.mod_eq idx 64); lia || (Z.div_mod_to_equations; lia)).
    rewrite u64_small by (apply shiftl1_lt_pow2; lia).
    destruct (Z.ltb_spec i 64).
    + destruct (Z.eqb_spec i idx); [lia|]. by rewrite orb_false_r.
    + rewrite Z.lor_spec, shiftl1_testbit by lia. f_equal.
      destruct (Z.eqb_spec (idx - 64) (i - 64)), (Z.eqb_spec i idx); lia.
Qed.

Lemma or_active_u64 idx r :
  0 ≤ idx < 128 → is_u64 (m_active_lo r) → is_u64 (m_active_hi r) →
  is_u64 (m_active_lo (or_active idx r)) ∧ is_u64 (m_active_hi (or_active idx r)).
Proof.
  intros ? Hlo Hhi. unfold or_active.
  pose proof (u64_range (Z.shiftl 1 (Z.land idx 63))).
  destruct (idx <? 64); simpl; split; try done; by apply lor_lt_pow2.
Qed.

Lemma lor_bit_nonzero m b id : Z.testbit b id = true → Z.lor m b ≠ 0.
Proof.
  intros Hb Hz. apply (f_equal (fun x => Z.testbit x id)) in Hz.
  by rewrite Z.lor_spec, Hb, orb_true_r, Z.testbit_0_l in Hz.
Qed.

Lemma router_bit id j : 0 ≤ id < 64 → Z.testbit (u64 (Z.shiftl 1 id)) j = (id =? j).
Proof.
  intros. rewrite u64_small by (apply shiftl1_lt_pow2; lia). apply shiftl1_testbit. lia.
Qed.

Lemma registerWakeup_slot period id tick r j :
  length (m_wakeup_mask r) = 128%nat → 0 ≤ j < 128 →
  slot (registerWakeup period id tick r) j =
    if decide (j = slot_index period tick)
    then Z.lor (slot r j) (u64 (Z.shiftl 1 id)) else slot r j.
Proof.
  intros Hl Hj. unfold registerWakeup. rewrite or_active_slot, or_slot_slot by auto with garnet.
  case_decide; by subst.
Qed.

Lemma registerWakeup_active period id tick r i :
  0 ≤ i < 128 →
  slot_active (registerWakeup period id tick r) i
  = slot_active r i || (i =? slot_index period tick).
Proof. intros. unfold registerWakeup. by rewrite or_active_active by auto with garnet. Qed.

Lemma registerWakeup_inv period id tick r :
  0 ≤ id < 64 → ring_inv r → ring_inv (registerWakeup period id tick r).
Proof.
  intros Hid [Hl Hm Hlo Hhi Hact].
  destruct (or_active_u64 (slot_index period tick)
    (or_slot (slot_index period tick) (u64 (Z.shiftl 1 id)) r)) as [Hlo' Hhi'];
    [apply slot_index_range|done|done|].
  split; [|intros i Hi; rewrite registerWakeup_slot by done|done|done|].
  - unfold registerWakeup, or_active, or_slot. destruct (_ <? 64); simpl; by rewrite length_insert.
  - case_decide; [|by apply Hm]. apply lor_lt_pow2; [lia|by apply Hm|apply u64_range].
  - intros i Hi. rewrite registerWakeup_active, registerWakeup_slot by done.
    rewrite orb_true_iff, Hact, Z.eqb_eq by done. case_decide as Hd; [|naive_solver].
    split; [intros _|by right]. apply lor_bit_nonzero with id. by rewrite router_bit, Z.eqb_refl.
Qed.

Lemma take_slot_slot idx r j :
  length (m_wakeup_mask r) = 128%nat → 0 ≤ idx < 128 → 0 ≤ j < 128 →
  slot (snd (take_slot idx r)) j = if decide (j = idx) then 0 else slot r j.
Proof.
  intros. unfold take_slot. destruct (slot r idx =? 0), (idx <? 64); simpl; unfold slot at 1; simpl;
    (case_decide; [subst; by apply slot_insert_eq|apply slot_insert_ne; lia]).
Qed.

Lemma land_lnot_bit m k i :
  0 ≤ k → 0 ≤ i → Z.testbit (Z.land m (Z.lnot (Z.shiftl 1 k))) i = Z.testbit m i && negb (i =? k).
Proof.
  intros. rewrite Z.land_spec, Z.lnot_spec, shiftl1_testbit by lia. by rewrite Z.eqb_sym.
Qed.

Lemma take_slot_active idx r i :
  ring_inv r → 0 ≤ idx < 128 → 0 ≤ i < 128 →
  slot_active (snd (take_slot idx r)) i = slot_active r i && negb (i =? idx).
Proof.
  intros Hinv Hidx Hi. unfold take_slot. destruct (Z.eqb_spec (slot r idx) 0) as [Hz|Hnz].
  - simpl. change (slot_active {| m_wakeup_mask := _; m_active_lo := m_active_lo r;
      m_active_hi := m_active_hi r |} i) with (slot_active r i).
    destruct (Z.eqb_spec i idx) as [->|]; [|by rewrite andb_true_r].
    rewrite andb_false_r. apply not_true_iff_false. rewrite ri_active by done. tauto.
  - unfold slot_active. destruct (Z.ltb_spec idx 64); simpl; destruct (Z.ltb_spec i 64);
      rewrite ?land_lnot_bit by lia; try done.
    + destruct (Z.eqb_spec i idx); [lia|]. by rewrite andb_true_r.
    + destruct (Z.eqb_spec i idx); [lia|]. by rewrite andb_true_r.
    + f_equal. f_equal. destruct (Z.eqb_spec (i - 64) (idx - 64)), (Z.eqb_spec i idx); lia.
Qed.

Lemma take_slot_inv idx r : 0 ≤ idx < 128 → ring_inv r → ring_inv (snd (take_slot idx r)).
Proof.
  intros Hidx Hinv. pose proof Hinv as [Hl Hm Hlo Hhi Hact].
  split; [|intros i Hi; rewrite take_slot_slot by done| | |].
  - unfold take_slot. destruct (slot r idx =? 0), (idx <? 64); simpl; by rewrite length_insert.
  - case_decide; [unfold is_u64; lia|by apply Hm].
  - unfold take_slot. destruct (slot r idx =? 0), (idx <? 64); simpl; try done.
    by apply land_lt_pow2.
  - unfold take_slot. destruct (slot r idx =? 0), (idx <? 64); simpl; try done.
    by apply land_lt_pow2.
  - intros i Hi. rewrite take_slot_active, take_slot_slot by done.
    rewrite andb_true_iff, Hact, negb_true_iff, Z.eqb_neq by done. case_decide; naive_solver.
Qed.

Lemma take_slot_mask idx r : fst (take_slot idx r) = slot r idx.
Proof. unfold take_slot. destruct (slot r idx =? 0), (idx <? 64); done. Qed.

(** *** The next active slot *)

(** [d] is the distance to the first active slot after [cur]. *)
Definition is_next (active : Z → bool) (cur d : Z) : Prop :=
  1 ≤ d ≤ 128 ∧ active ((cur + d) mod 128) = true
  ∧ ∀ d', 1 ≤ d' < d → active ((cur + d') mod 128) = false.

Lemma scan_next_spec active cur d n :
  match scan_next active cur d n with
  | Some e => d ≤ e < d + Z.of_nat n ∧ active ((cur + e) mod 128) = true
              ∧ ∀ d', d ≤ d' < e → active ((cur + d') mod 128) = false
  | None => ∀ d', d ≤ d' < d + Z.of_nat n → active ((cur + d') mod 128) = false
  end.
Proof.
  revert d. induction n as [|n IH]; intros d; simpl; [intros; lia|].
  destruct (active ((cur + d) mod 128)) eqn:E.
  - split; [lia|]. split; [done|]. intros; lia.
  - specialize (IH (d + 1)). destruct (scan_next active cur (d + 1) n) as [e|].
    + destruct IH as (? & ? & IH). split; [lia|]. split; [done|]. intros d' ?.
      destruct (decide (d' = d)) as [->|]; [done|]. apply IH. lia.
    + intros d' ?. destruct (decide (d' = d)) as [->|]; [done|]. apply IH. lia.
Qed.

Lemma is_next_dist active cur d : is_next active cur d → next_dist active cur = Some d.
Proof.
  intros (Hd & Ha & Hmin). unfold next_dist. pose proof (scan_next_spec active cur 1 128) as H.
  destruct (scan_next active cur 1 128) as [e|].
  - destruct H as (He & Hae & Hmine). f_equal.
    destruct (Z.lt_trichotomy d e) as [Hlt|[->|Hgt]]; [|done|].
    + rewrite Hmine in Ha by lia. done.
    + rewrite Hmin in Hae by lia. done.
  - rewrite H in Ha by lia. done.
Qed.

Lemma next_dist_none active cur :
  0 ≤ cur < 128 → (∀ i, 0 ≤ i < 128 → active i = false) → next_dist active cur = None.
Proof.
  intros Hc Ha. unfold next_dist. pose proof (scan_next_spec active cur 1 128) as H.
  destruct (scan_next active cur 1 128) as [e|]; [|done].
  destruct H as (_ & Hae & _). rewrite Ha in Hae; [done|]. apply Z.mod_pos_bound. lia.
Qed.

(** [(w >> sh) << sh] keeps the bits from [sh] on. *)
Lemma mask_from_testbit w sh i :
  is_u64 w → 0 ≤ sh → 0 ≤ i →
  Z.testbit (u64 (Z.shiftl (Z.shiftr w sh) sh)) i = (sh <=? i) && Z.testbit w i.
Proof.
  intros Hw Hsh Hi. unfold u64. destruct (decide (i < 64)).
  - rewrite Z.mod_pow2_bits_low, Z.shiftl_spec by lia. destruct (Z.leb_spec sh i).
    + rewrite Z.shiftr_spec by lia. simpl. f_equal. lia.
    + by rewrite Z.testbit_neg_r by lia.
  - rewrite Z.mod_pow2_bits_high by lia. destruct (Z.testbit w i) eqn:E; [|by rewrite andb_false_r].
    apply (testbit_lt_log2 w 64) in E; [lia|done|lia].
Qed.

Lemma mask_from_ctz w sh :
  is_u64 w → 0 ≤ sh →
  let w' := u64 (Z.shiftl (Z.shiftr w sh) sh) in
  (w' = 0 → ∀ i, sh ≤ i → Z.testbit w i = false) ∧
  (w' ≠ 0 → sh ≤ ctzll w' < 64 ∧ Z.testbit w (ctzll w') = true
            ∧ ∀ i, sh ≤ i < ctzll w' → Z.testbit w i = false).
Proof.
  intros Hw Hsh w'. split.
  - intros Hz i Hi. pose proof (mask_from_testbit w sh i Hw Hsh ltac:(lia)) as Ht.
    fold w' in Ht. rewrite Hz, Z.testbit_0_l in Ht.
    rewrite (proj2 (Z.leb_le sh i)) in Ht by lia. done.
  - intros Hnz. assert (is_u64 w') as Hw' by apply u64_range.
    assert (0 < w') by (unfold is_u64 in *; lia). pose proof (ctzll_nonneg w').
    pose proof (ctzll_set w' ltac:(lia)) as Hs. unfold w' in Hs.
    rewrite mask_from_testbit in Hs by (done || apply ctzll_nonneg). fold w' in Hs.
    apply andb_true_iff in Hs as [Hle Hs]. apply Z.leb_le in Hle.
    pose proof (ctzll_lt w' 64). split; [unfold is_u64 in *; lia|]. split; [done|].
    intros i Hi. pose proof (mask_from_testbit w sh i Hw Hsh ltac:(lia)) as Ht. fold w' in Ht.
    rewrite ctzll_lowest, (proj2 (Z.leb_le sh i)) in Ht by lia. done.
Qed.

Lemma word_ctz w :
  is_u64 w →
  (w = 0 → ∀ i, Z.testbit w i = false) ∧
  (w ≠ 0 → 0 ≤ ctzll w < 64 ∧ Z.testbit w (ctzll w) = true
           ∧ ∀ i, 0 ≤ i < ctzll w → Z.testbit w i = false).
Proof.
  intros Hw. split.
  - intros -> i. apply Z.testbit_0_l.
  - intros Hnz. assert (0 < w) by (unfold is_u64 in *; lia). pose proof (ctzll_lt w 64).
    pose proof (ctzll_nonneg w). split; [unfold is_u64 in *; lia|].
    split; [by apply ctzll_set|]. intros. by apply ctzll_lowest.
Qed.

(** [first_bit_after] finds the first active slot strictly above [a], if any. *)
Lemma first_bit_after_spec r a :
  ring_inv r → 0 ≤ a < 128 →
  let f := first_bit_after (m_active_lo r) (m_active_hi r) a in
  (f = -1 ∧ ∀ i, a < i < 128 → slot_active r i = false) ∨
  (a < f < 128 ∧ slot_active r f = true ∧ ∀ i, a < i < f → slot_active r i = false).
Proof.
  intros [_ _ Hlo Hhi _] Ha. unfold first_bit_after, slot_active.
  destruct (word_ctz _ Hhi) as [Hhi0 Hhi1].
  assert (∀ i, m_active_hi r ≠ 0 → 64 ≤ i < 64 + ctzll (m_active_hi r) →
    (if i <? 64 then Z.testbit (m_active_lo r) i else Z.testbit (m_active_hi r) (i - 64)) = false) as Hup.
  { intros i Hnz Hi. rewrite (proj2 (Z.ltb_ge i 64)) by lia. apply Hhi1; [done|lia]. }
  destruct (Z.ltb_spec a 63).
  { destruct (mask_from_ctz (m_active_lo r) (a + 1) Hlo ltac:(lia)) as [Hm0 Hm1].
    set (w := u64 _) in *. destruct (Z.eqb_spec w 0) as [Hw|Hw]; simpl.
    - specialize (Hm0 Hw). destruct (Z.eqb_spec (m_active_hi r) 0) as [Hz|Hz]; simpl.
      + left. split; [done|]. intros i Hi. destruct (Z.ltb_spec i 64); [apply Hm0; lia|by apply Hhi0].
      + right. destruct (Hhi1 Hz) as (? & Hs & _). split; [lia|]. split.
        * rewrite (proj2 (Z.ltb_ge _ 64)) by lia. by replace (64 + _ - 64) with (ctzll (m_active_hi r)) by lia.
        * intros i Hi. destruct (Z.ltb_spec i 64) as [|H64]; [apply Hm0; lia|].
          specialize (Hup i Hz ltac:(lia)). by rewrite (proj2 (Z.ltb_ge i 64)) in Hup by lia.
    - right. destruct (Hm1 Hw) as (? & Hs & Hmin). split; [lia|].
      rewrite (proj2 (Z.ltb_lt _ 64)) by lia. split; [done|]. intros i Hi.
      rewrite (proj2 (Z.ltb_lt i 64)) by lia. apply Hmin. lia. }
  destruct (Z.eqb_spec a 63) as [->|].
  { destruct (Z.eqb_spec (m_active_hi r) 0) as [Hz|Hz]; simpl.
    - left. split; [done|]. intros i Hi. rewrite (proj2 (Z.ltb_ge i 64)) by lia. by apply Hhi0.
    - right. destruct (Hhi1 Hz) as (? & Hs & _). split; [lia|]. split.
      + rewrite (proj2 (Z.ltb_ge _ 64)) by lia. by replace (64 + _ - 64) with (ctzll (m_active_hi r)) by lia.
      + intros i Hi. apply Hup; [done|lia]. }
  destruct (Z.ltb_spec a 127); [|left; split; [done|]; intros; lia].
  destruct (mask_from_ctz (m_active_hi r) (a - 64 + 1) Hhi ltac:(lia)) as [Hm0 Hm1].
  set (w := u64 _) in *. destruct (Z.eqb_spec w 0) as [Hw|Hw]; simpl.
  - left. split; [done|]. intros i Hi. rewrite (proj2 (Z.ltb_ge i 64)) by lia. apply Hm0; [done|lia].
  - right. destruct (Hm1 Hw) as (? & Hs & Hmin). split; [lia|].
    rewrite (proj2 (Z.ltb_ge _ 64)) by lia. split; [by replace (64 + _ - 64) with (ctzll w) by lia|].
    intros i Hi. rewrite (proj2 (Z.ltb_ge i 64)) by lia. apply Hmin. lia.
Qed.

(** The smallest set bit of the whole bitmap, as the wrap case picks it. *)
Definition lowest_active (lo hi : Z) : option Z :=
  if negb (lo =? 0) then Some (ctzll lo)
  else if negb (hi =? 0) then Some (64 + ctzll hi) else None.

Lemma lowest_active_spec r :
  ring_inv r →
  match lowest_active (m_active_lo r) (m_active_hi r) with
  | Some f => 0 ≤ f < 128 ∧ slot_active r f = true ∧ ∀ i, 0 ≤ i < f → slot_active r i = false
  | None => ∀ i, 0 ≤ i < 128 → slot_active r i = false
  end.
Proof.
  intros [_ _ Hlo Hhi _]. unfold lowest_active, slot_active.
  destruct (word_ctz _ Hlo) as [Hlo0 Hlo1], (word_ctz _ Hhi) as [Hhi0 Hhi1].
  destruct (Z.eqb_spec (m_active_lo r) 0) as [Hz|Hz]; simpl.
  - destruct (Z.eqb_spec (m_active_hi r) 0) as [Hz'|Hz']; simpl.
    + intros i Hi. destruct (i <? 64); [by apply Hlo0|by apply Hhi0].
    + destruct (Hhi1 Hz') as (? & Hs & Hmin). split; [lia|]. split.
      * rewrite (proj2 (Z.ltb_ge _ 64)) by lia. by replace (64 + _ - 64) with (ctzll (m_active_hi r)) by lia.
      * intros i Hi. destruct (Z.ltb_spec i 64); [by apply Hlo0|apply Hmin; lia].
  - destruct (Hlo1 Hz) as (? & Hs & Hmin). split; [lia|].
    rewrite (proj2 (Z.ltb_lt _ 64)) by lia. split; [done|]. intros i Hi.
    rewrite (proj2 (Z.ltb_lt i 64)) by lia. apply Hmin. lia.
Qed.

Lemma is_next_forward active a f :
  0 ≤ a → a < f < 128 → active f = true → (∀ i, a < i < f → active i = false) →
  is_next active a (f - a).
Proof.
  intros Ha Hf Hact Hmin. split; [lia|]. split.
  - rewrite Z.mod_small by lia. by replace (a + (f - a)) with f by lia.
  - intros d Hd. rewrite Z.mod_small by lia. apply Hmin. lia.
Qed.

Lemma is_next_wrap active a f :
  0 ≤ f ≤ a → a < 128 → active f = true →
  (∀ i, a < i < 128 → active i = false) → (∀ i, 0 ≤ i < f → active i = false) →
  is_next active a (128 - (a - f)).
Proof.
  intros Hf Ha Hact Hhigh Hlow. split; [lia|].
  assert (∀ x, 128 ≤ x < 256 → x mod 128 = x - 128) as Hmod.
  { intros x Hx. symmetry. apply (Z.mod_unique_pos x 128 1); lia. }
  split.
  - rewrite Hmod by lia. by replace (a + (128 - (a - f)) - 128) with f by lia.
  - intros d Hd. destruct (Z.lt_ge_cases (a + d) 128).
    + rewrite Z.mod_small by lia. apply Hhigh. lia.
    + rewrite Hmod by lia. apply Hlow. lia.
Qed.

Lemma u64_add_u64 x y : u64 (x + u64 y) = u64 (x + y).
Proof. unfold u64. by rewrite Zplus_mod_idemp_r. Qed.

(** ** Properties *)

Lemma computeNextWakeupTick_next cur tick period r :
  ring_inv r → 0 ≤ cur < 128 →
  computeNextWakeupTick cur tick period r
  = u64 (tick + default 1 (next_dist (fun i => negb (slot r i =? 0)) cur) * period).
Proof.
  intros Hinv Hcur.
  assert (∀ d, is_next (slot_active r) cur d →
    next_dist (fun i => negb (slot r i =? 0)) cur = Some d) as Hnext.
  { intros d (Hd & Ha & Hmin). apply is_next_dist.
    assert (∀ e, negb (slot r ((cur + e) mod 128) =? 0) = slot_active r ((cur + e) mod 128)) as Heq.
    { intros e. apply eq_true_iff_eq. rewrite ri_active, negb_true_iff, Z.eqb_neq; [done|done|].
      apply Z.mod_pos_bound. lia. }
    split; [done|]. split; [by rewrite Heq|]. intros d' Hd'. rewrite Heq. by apply Hmin. }
  unfold computeNextWakeupTick.
  pose proof (first_bit_after_spec r cur Hinv Hcur) as Hf. cbv zeta in Hf.
  set (f := first_bit_after _ _ _) in *. destruct Hf as [[-> Hnone]|(Hf & Hact & Hmin)].
  - assert (∀ g, 0 ≤ g < 128 → slot_active r g = true → (∀ i, 0 ≤ i < g → slot_active r i = false) →
      next_dist (fun i => negb (slot r i =? 0)) cur = Some (128 - (cur - g))) as Hwrap.
    { intros g Hg Hact Hlow. destruct (Z.le_gt_cases g cur); [|by rewrite Hnone in Hact by lia].
      apply Hnext, is_next_wrap; done || lia. }
    simpl. pose proof (lowest_active_spec r Hinv) as Hl. unfold lowest_active in Hl.
    destruct (negb (m_active_lo r =? 0)); [|destruct (negb (m_active_hi r =? 0))].
    1,2: destruct Hl as (Hr & Hact & Hlow); by rewrite (Hwrap _ Hr Hact Hlow), u64_add_u64.
    rewrite next_dist_none; [simpl; by rewrite Z.mul_1_l|done|].
    intros i Hi. apply negb_false_iff, Z.eqb_eq.
    destruct (decide (slot r i = 0)) as [|Hnz]; [done|].
    apply (ri_active r Hinv i Hi) in Hnz. rewrite Hl in Hnz by done. done.
  - rewrite (proj2 (Z.leb_le 0 f)) by lia.
    rewrite (Hnext (f - cur)) by (apply is_next_forward; done || lia).
    by rewrite u64_add_u64.
Qed.

(** *** Reachable rings *)

(** What happens to the ring: a router registers a wakeup, or a global wakeup
    empties a slot. *)
Inductive ring_step : Ring → Ring → Prop :=
  | step_register period id tick r :
      0 ≤ id < 64 → ring_step r (registerWakeup period id tick r)
  | step_take idx r :
      0 ≤ idx < 128 → ring_step r (snd (take_slot idx r)).

Lemma empty_ring_slot i : 0 ≤ i < 128 → slot empty_ring i = 0.
Proof. intros Hi. unfold slot, empty_ring. apply lookup_total_replicate_2. lia. Qed.

Lemma empty_ring_inv : ring_inv empty_ring.
Proof.
  pose proof empty_ring_slot as Hs.
  split; [done|intros i Hi; rewrite Hs by done; unfold is_u64; lia|unfold is_u64; simpl; lia..|].
  intros i Hi. rewrite Hs by done. unfold slot_active. simpl.
  destruct (i <? 64); rewrite Z.testbit_0_l; naive_solver.
Qed.

(** The companion bitmap mirrors the ring in every reachable state: bit i
    is set exactly when slot i is not empty, all words stay 64 bits wide and
    the ring keeps its 128 slots. *)
Theorem ring_reachable_inv r : rtc ring_step empty_ring r → ring_inv r.
Proof.
  apply (rtc_ind_r ring_inv); [exact empty_ring_inv|].
  intros r1 r2 _ Hstep IH. destruct Hstep; [by apply registerWakeup_inv|by apply take_slot_inv].
Qed.

Definition ex_ring : Ring := registerWakeup 500 5 1500 empty_ring.

Lemma ring_reachable_inv_witness : ring_inv (snd (take_slot 3 ex_ring)) ∧ fst (take_slot 3 ex_ring) = 32.
Proof.
  split; [|vm_compute; reflexivity].
  apply (ring_reachable_inv (snd (take_slot 3 ex_ring))).
  apply rtc_l with ex_ring; [apply step_register; lia|]. apply rtc_once, step_take. lia.
Defined.

(** *** Successive global wakeups

    [ring_cycle] is the part of [globalWakeup] that touches the ring: it
    empties the slot of the current tick, lets the routers that run register
    [regs], and computes the tick of the next global wakeup. That every global
    wakeup, sequential or parallel, is such a turn is shown in Parallel
    ([globalWakeup_ring_cycle]). *)

Definition ring_cycle (period : Z) (regs : list (Z * Z)) (tick : Z) (r : Ring) : Z * Z * Ring :=
  let idx := slot_index period tick in
  let '(mask, r) := take_slot idx r in
  let r := foldl (fun r '(id, u) => registerWakeup period id u r) r regs in
  (mask, computeNextWakeupTick idx tick period r, r).

(** The ticks and masks of [n] successive global wakeups from the pending one at
    [tick] on. [during t] are the registrations made by the routers that the
    wakeup at [t] runs, [before t] those made by other events since the previous
    wakeup: by interfaces and by routers woken by their own events. These do not
    move the pending global wakeup. *)
Fixpoint ring_run (period : Z) (before during : Z → list (Z * Z)) (n : nat) (tick : Z) (r : Ring) : list (Z * Z) :=
  match n with
  | O => []
  | S n' =>
      let r := foldl (fun r '(id, u) => registerWakeup period id u r) r (before tick) in
      let '(mask, next, r') := ring_cycle period (during tick) tick r in
      (tick, mask) :: ring_run period before during n' next r'
  end.

(** What [schedule_wakeup] promises: the router exists. *)
Definition reg_ok (p : Z * Z) : Prop := 0 ≤ fst p < 64.

Lemma foldl_register_inv period regs r :
  Forall reg_ok regs → ring_inv r →
  ring_inv (foldl (fun r '(id, u) => registerWakeup period id u r) r regs).
Proof.
  revert r. induction regs as [|[id u] regs IH]; intros r Hf Hinv; simpl; [done|].
  apply Forall_cons in Hf as [Hok Hf]. apply IH; [done|]. by apply registerWakeup_inv.
Qed.

Lemma registerWakeup_mono period id tick r j b :
  ring_inv r → 0 ≤ j < 128 → Z.testbit (slot r j) b = true →
  Z.testbit (slot (registerWakeup period id tick r) j) b = true.
Proof.
  intros Hinv Hj Hb. rewrite registerWakeup_slot; [|apply Hinv|done]. case_decide; [|done].
  by rewrite Z.lor_spec, Hb.
Qed.

Lemma foldl_register_mono period regs r j b :
  Forall reg_ok regs → ring_inv r → 0 ≤ j < 128 → Z.testbit (slot r j) b = true →
  Z.testbit (slot (foldl (fun r '(id, u) => registerWakeup period id u r) r regs) j) b = true.
Proof.
  revert r. induction regs as [|[id u] regs IH]; intros r Hf Hinv Hj Hb; simpl; [done|].
  apply Forall_cons in Hf as [Hok Hf].
  apply IH; [done|by apply registerWakeup_inv|done|by apply registerWakeup_mono].
Qed.

Lemma foldl_register_in period regs r id u :
  Forall reg_ok regs → ring_inv r → (id, u) ∈ regs →
  registered period id u (foldl (fun r '(id, u) => registerWakeup period id u r) r regs) = true.
Proof.
  revert r. induction regs as [|[id' u'] regs IH]; intros r Hf Hinv Hin; [set_solver|].
  apply Forall_cons in Hf as [Hok Hf]. simpl.
  apply elem_of_cons in Hin as [[= <- <-]|Hin]; [|by apply IH; [|apply registerWakeup_inv|]].
  apply foldl_register_mono; [done|by apply registerWakeup_inv|apply slot_index_range|].
  rewrite registerWakeup_slot by (apply Hinv || apply slot_index_range).
  rewrite decide_True by done. unfold reg_ok in Hok. simpl in Hok.
  by rewrite Z.lor_spec, router_bit, Z.eqb_refl, orb_true_r.
Qed.

(** The slot of the tick [d] cycles ahead. *)
Lemma slot_index_ahead period tick d :
  0 < period → tick mod period = 0 →
  slot_index period (tick + d * period) = (slot_index period tick + d) mod 128.
Proof.
  intros Hp Hm. unfold slot_index. rewrite Z.div_add by lia.
  by rewrite Zplus_mod_idemp_l.
Qed.

(** The next global wakeup is never later than a registered tick. *)
Lemma next_not_after period tick d r id :
  ring_inv r → 0 < period → 0 ≤ tick → tick mod period = 0 → 1 ≤ d ≤ 128 →
  tick + 128 * period < 2 ^ 64 →
  registered period id (tick + d * period) r = true →
  ∃ e, 1 ≤ e ≤ d ∧
    computeNextWakeupTick (slot_index period tick) tick period r = tick + e * period.
Proof.
  intros Hinv Hp Ht Hm Hd Hov Hreg. set (cur := slot_index period tick).
  rewrite computeNextWakeupTick_next by (done || apply slot_index_range).
  set (act := fun i => negb (slot r i =? 0)).
  assert (act ((cur + d) mod 128) = true) as Hact.
  { apply negb_true_iff, Z.eqb_neq. intros Hz. unfold registered in Hreg.
    rewrite slot_index_ahead in Hreg by done. fold cur in Hreg.
    by rewrite Hz, Z.testbit_0_l in Hreg. }
  unfold next_dist. pose proof (scan_next_spec act cur 1 128) as Hscan.
  destruct (scan_next act cur 1 128) as [e|]; simpl.
  - destruct Hscan as (He & Hae & Hmin). exists e. assert (e ≤ d).
    { destruct (Z.le_gt_cases e d); [done|]. by rewrite Hmin in Hact by lia. }
    split; [lia|]. apply u64_small. nia.
  - by rewrite Hscan in Hact by lia.
Qed.

(** One global wakeup before the registered tick keeps the registration and
    moves to a wakeup tick not beyond it. *)
Lemma ring_cycle_keeps period regs tick d r id :
  ring_inv r → Forall reg_ok regs → 0 < period → 0 ≤ tick → tick mod period = 0 →
  1 ≤ d ≤ 128 → tick + 128 * period < 2 ^ 64 →
  (d < 128 ∧ registered period id (tick + d * period) r = true ∨
   ∃ u, slot_index period (tick + d * period) = slot_index period u ∧ (id, u) ∈ regs) →
  ∃ mask e r', ring_cycle period regs tick r = (mask, tick + e * period, r')
    ∧ 1 ≤ e ≤ d ∧ ring_inv r' ∧ registered period id (tick + d * period) r' = true.
Proof.
  intros Hinv Hregs Hp Ht Hm Hd Hov Hreg. unfold ring_cycle.
  destruct (take_slot (slot_index period tick) r) as [mask r1] eqn:E.
  pose proof (slot_index_range period tick) as Hidx.
  assert (ring_inv r1) as Hinv1 by (replace r1 with (snd (take_slot (slot_index period tick) r))
    by (by rewrite E); by apply take_slot_inv).
  set (r2 := foldl _ r1 regs).
  assert (ring_inv r2) as Hinv2 by by apply foldl_register_inv.
  assert (registered period id (tick + d * period) r2 = true) as Hreg2.
  { destruct Hreg as [[Hlt Hr]|(u & Hu & Hin)]; [|unfold registered; rewrite Hu; by apply foldl_register_in].
    apply foldl_register_mono; [done|done|apply slot_index_range|].
    replace r1 with (snd (take_slot (slot_index period tick) r)) by (by rewrite E).
    rewrite take_slot_slot by (apply Hinv || apply slot_index_range).
    rewrite decide_False; [done|]. rewrite slot_index_ahead by done. intros Heq.
    apply (f_equal (fun x => (x - slot_index period tick) mod 128)) in Heq.
    rewrite Zminus_mod_idemp_l, Z.sub_diag, Z.mod_0_l in Heq by lia.
    replace (slot_index period tick + d - slot_index period tick) with d in Heq by lia.
    rewrite Z.mod_small in Heq by lia. lia. }
  destruct (next_not_after period tick d r2 id) as (e & He & Hnext); [done..|].
  exists mask, e, r2. by rewrite Hnext.
Qed.

Lemma ring_run_reaches period before during n tick d r id :
  ring_inv r → (∀ t, Forall reg_ok (before t)) → (∀ t, Forall reg_ok (during t)) →
  0 < period → 0 ≤ tick → tick mod period = 0 →
  0 ≤ d < 128 → tick + (d + 128) * period < 2 ^ 64 → d < Z.of_nat n →
  (registered period id (tick + d * period) r = true ∨
   ∃ u, slot_index period (tick + d * period) = slot_index period u ∧ (id, u) ∈ before tick) →
  ∃ mask, (tick + d * period, mask) ∈ ring_run period before during n tick r ∧ Z.testbit mask id = true.
Proof.
  revert tick d r. induction n as [|n IH]; intros tick d r Hinv Hbef Hdur Hp Ht Hm Hd Hov Hn Hreg; [lia|].
  cbn [ring_run]. set (r0 := foldl _ r (before tick)).
  assert (ring_inv r0) as Hinv0 by by apply foldl_register_inv.
  assert (registered period id (tick + d * period) r0 = true) as Hreg0.
  { destruct Hreg as [Hreg|(u & Hu & Hin)]; [|unfold registered; rewrite Hu; by apply foldl_register_in].
    apply foldl_register_mono; [done|done|apply slot_index_range|done]. }
  destruct (decide (d = 0)) as [->|Hne].
  - unfold ring_cycle. destruct (take_slot _ r0) as [mask r1] eqn:E.
    exists mask. split; [rewrite Z.mul_0_l, Z.add_0_r; set_solver|].
    replace mask with (fst (take_slot (slot_index period tick) r0)) by (by rewrite E).
    rewrite take_slot_mask. by rewrite Z.mul_0_l, Z.add_0_r in Hreg0.
  - destruct (ring_cycle_keeps period (during tick) tick d r0 id) as (mask & e & r' & Hc & He & Hinv' & Hr');
      [done|done|done|done|done|lia|nia|left; split; [lia|done]|].
    rewrite Hc.
    replace (tick + d * period) with (tick + e * period + (d - e) * period) in Hr' |- * by lia.
    destruct (IH (tick + e * period) (d - e) r') as (m & Hm' & Hb); try done; try lia; try nia; [|by left|].
    + rewrite Z.mod_add by lia. done.
    + exists m. split; [set_solver|done].
Qed.

(** A router registered for a tick in the slot of the wakeup [d] cycles ahead is in
    the mask of that wakeup. *)
Lemma ring_run_serves period before during tick u d r id n :
  ring_inv r → (∀ t, Forall reg_ok (before t)) → (∀ t, Forall reg_ok (during t)) →
  0 < period → 0 ≤ tick → tick mod period = 0 → tick + (d + 129) * period < 2 ^ 64 → d < Z.of_nat n →
  slot_index period (tick + d * period) = slot_index period u →
  ((id, u) ∈ during tick ∧ 1 ≤ d ≤ 128 ∨ (id, u) ∈ before tick ∧ 0 ≤ d ≤ 127) →
  ∃ mask, (tick + d * period, mask) ∈ ring_run period before during n tick r ∧ Z.testbit mask id = true.
Proof.
  intros Hinv Hbef Hdur Hp Ht Hm Hov Hn Hu Hor.
  destruct Hor as [[Hin Hd]|[Hin Hd]]; [|eapply ring_run_reaches; try done; try nia; right; by exists u].
  destruct n as [|n]; [lia|]. cbn [ring_run]. set (r0 := foldl _ r (before tick)).
  destruct (ring_cycle_keeps period (during tick) tick d r0 id) as (mask & e & r' & Hc & He & Hinv' & Hr');
    [by apply foldl_register_inv|done|done|done|done|done|nia|right; by exists u|].
  rewrite Hc.
  replace (tick + d * period) with (tick + e * period + (d - e) * period) in Hr' |- * by lia.
  destruct (ring_run_reaches period before during n (tick + e * period) (d - e) r' id) as (m & Hm' & Hb);
    try done; try lia; try nia; [|by left|].
  - rewrite Z.mod_add by lia. done.
  - exists m. split; [set_solver|done].
Qed.

(** *** A router that registers once *)

(** The router is in no slot but, while [there], in the slot of [u]. *)
Definition only_at (period id u : Z) (there : bool) (r : Ring) : Prop :=
  ∀ j, 0 ≤ j < 128 → Z.testbit (slot r j) id = there && (j =? slot_index period u).

Lemma registers_only period regs r id u there :
  Forall reg_ok regs → ring_inv r → (∀ v, (id, v) ∈ regs → v = u) → only_at period id u there r →
  only_at period id u (there || bool_decide ((id, u) ∈ regs))
    (foldl (fun r '(id, u) => registerWakeup period id u r) r regs).
Proof.
  revert r there. induction regs as [|[i v] regs IH]; intros r there Hf Hinv Hno Hat; simpl.
  { by rewrite orb_false_r. }
  apply Forall_cons in Hf as [Hok Hf]. unfold reg_ok in Hok. simpl in Hok.
  replace (there || bool_decide ((id, u) ∈ (i, v) :: regs)) with ((there || (i =? id)) || bool_decide ((id, u) ∈ regs)).
  - apply IH; [done|by apply registerWakeup_inv|intros w Hw; apply Hno; by right|].
    intros j Hj. rewrite registerWakeup_slot by (apply Hinv || done).
    assert (i = id → v = u) as Hv by (intros ->; apply Hno; by left).
    destruct (decide (j = slot_index period v)) as [Hd|Hd];
      [rewrite Z.lor_spec, router_bit by done|]; rewrite Hat by done; destruct (Z.eqb_spec i id) as [Hi|Hi].
    + rewrite (Hv Hi) in Hd. rewrite Hd, Z.eqb_refl. by destruct there.
    + by rewrite !orb_false_r.
    + rewrite (Hv Hi) in Hd. rewrite (proj2 (Z.eqb_neq j (slot_index period u))) by congruence. by rewrite !andb_false_r.
    + by rewrite orb_false_r.
  - rewrite <-orb_assoc. f_equal. apply eq_true_iff_eq. rewrite orb_true_iff, Z.eqb_eq, !bool_decide_eq_true, elem_of_cons.
    assert (i = id → v = u) as Hv by (intros ->; apply Hno; by left). naive_solver.
Qed.

Lemma take_only_at period id u there idx r :
  ring_inv r → 0 ≤ idx < 128 → only_at period id u there r →
  only_at period id u (there && negb (idx =? slot_index period u)) (snd (take_slot idx r)).
Proof.
  intros Hinv Hidx Hat j Hj. rewrite take_slot_slot by (apply Hinv || done). case_decide as Hd.
  - subst j. rewrite Z.testbit_0_l. destruct there, (idx =? slot_index period u); done.
  - rewrite Hat by done. destruct there; simpl; [|done].
    destruct (Z.eqb_spec j (slot_index period u)) as [->|]; [|by rewrite andb_false_r].
    by rewrite (proj2 (Z.eqb_neq idx (slot_index period u))).
Qed.

Lemma slot_ahead_here period tick u d :
  0 ≤ d < 128 → slot_index period u = (slot_index period tick + d) mod 128 →
  slot_index period tick = slot_index period u ↔ d = 0.
Proof.
  intros Hd ->. pose proof (slot_index_range period tick) as Hi. set (i := slot_index period tick) in *.
  destruct (Z.lt_ge_cases (i + d) 128); [rewrite Z.mod_small by lia; lia|].
  replace (i + d) with (i + d - 128 + 1 * 128) by lia. rewrite Z.mod_add, Z.mod_small by lia. lia.
Qed.

(** One global wakeup, as seen by the router. *)
Lemma ring_cycle_only period regs tick u r id there :
  ring_inv r → Forall reg_ok regs → 0 < period → 0 ≤ tick → tick mod period = 0 → tick + 128 * period < 2 ^ 64 →
  (∀ v, (id, v) ∈ regs → v = u) → only_at period id u there r →
  let idx := slot_index period tick in
  let left := there && negb (idx =? slot_index period u) || bool_decide ((id, u) ∈ regs) in
  ∃ mask e r', ring_cycle period regs tick r = (mask, tick + e * period, r') ∧ ring_inv r' ∧
    Z.testbit mask id = there && (idx =? slot_index period u) ∧ only_at period id u left r' ∧ 1 ≤ e ≤ 128 ∧
    (∀ D, left = true → 1 ≤ D ≤ 128 → slot_index period u = (idx + D) mod 128 → e ≤ D).
Proof.
  intros Hinv Hregs Hp Ht Hm Hov Hno Hat idx left. unfold ring_cycle. fold idx.
  pose proof (slot_index_range period tick : 0 ≤ idx < 128) as Hidx.
  pose proof (take_only_at period id u there idx r Hinv Hidx Hat) as Hat1.
  pose proof (take_slot_inv idx r Hidx Hinv) as Hinv1. pose proof (take_slot_mask idx r) as Hmask.
  destruct (take_slot idx r) as [mask r1]. cbn [fst snd] in *. subst mask. set (r2 := foldl _ r1 regs).
  assert (ring_inv r2) as Hinv2 by by apply foldl_register_inv.
  assert (only_at period id u left r2) as Hat2 by by apply registers_only.
  rewrite computeNextWakeupTick_next by done. set (e := default 1 _).
  assert (1 ≤ e ≤ 128 ∧ ∀ D, left = true → 1 ≤ D ≤ 128 → slot_index period u = (idx + D) mod 128 → e ≤ D) as [He HD].
  { unfold e, next_dist. set (act := fun i => negb (slot r2 i =? 0)).
    pose proof (scan_next_spec act idx 1 128) as Hscan.
    destruct (scan_next act idx 1 128) as [k|]; simpl; [|split; [lia|intros; lia]].
    destruct Hscan as (Hk & _ & Hmin). split; [lia|]. intros D HL HD Hu. destruct (Z.le_gt_cases k D); [done|].
    specialize (Hmin D ltac:(lia)). unfold act in Hmin. rewrite <-Hu in Hmin.
    specialize (Hat2 (slot_index period u) (slot_index_range _ _)). rewrite HL, Z.eqb_refl in Hat2.
    destruct (Z.eqb_spec (slot r2 (slot_index period u)) 0) as [Hz|]; [by rewrite Hz, Z.testbit_0_l in Hat2|done]. }
  rewrite u64_small by nia. eexists _, e, r2. split_and!; [done|done|by apply Hat|done|lia|lia|done].
Qed.

(** If the router registers no more from the wakeup at [tick] on, it is in the mask
    of the first wakeup whose slot it is in, and in no other. *)
Section once.
Context (period : Z) (before during : Z → list (Z * Z)) (id u : Z).
Hypothesis Hbef : ∀ t, Forall reg_ok (before t).
Hypothesis Hdur : ∀ t, Forall reg_ok (during t).
Hypothesis Hper : 0 < period.

Lemma ring_run_once n tick d r there :
  ring_inv r → 0 ≤ tick → tick mod period = 0 → tick + (Z.of_nat n + 1) * 128 * period < 2 ^ 64 →
  (∀ v, (id, v) ∈ before tick → v = u) →
  (∀ t v, tick < t → (id, v) ∉ before t) → (∀ t v, tick ≤ t → (id, v) ∉ during t) →
  only_at period id u there r → 0 ≤ d < 128 → slot_index period u = (slot_index period tick + d) mod 128 →
  ∀ t mask, (t, mask) ∈ ring_run period before during n tick r → Z.testbit mask id = true →
    there || bool_decide ((id, u) ∈ before tick) = true ∧ t = tick + d * period.
Proof using Hbef Hdur Hper.
  revert tick d r there. induction n as [|n IH]; intros tick d r there Hinv Ht Hm Hov Hb0 Hnb Hnd Hat Hd Hu t mask; [set_solver|].
  cbn [ring_run]. set (r0 := foldl _ r (before tick)).
  assert (ring_inv r0) as Hinv0 by by apply foldl_register_inv.
  pose proof (registers_only period (before tick) r id u there (Hbef tick) Hinv Hb0 Hat) as Hat0. fold r0 in Hat0.
  set (there' := there || _) in *.
  destruct (ring_cycle_only period (during tick) tick u r0 id there') as (mk & e & r2 & -> & Hinv2 & Hmk & Hat2 & He & HD);
    try done; try nia; [intros v Hv; by apply Hnd in Hv|].
  rewrite bool_decide_eq_false_2, orb_false_r in Hat2, HD by (by apply Hnd).
  pose proof (slot_ahead_here period tick u d Hd Hu) as Hhere.
  intros [[= -> ->]|Hin]%elem_of_cons Hb.
  { rewrite Hmk in Hb. apply andb_true_iff in Hb as [-> Hb%Z.eqb_eq]. split; [done|]. rewrite (proj1 Hhere Hb). lia. }
  set (left := there' && negb (slot_index period tick =? slot_index period u)) in *.
  assert (slot_index period u = (slot_index period (tick + e * period) + (d - e) mod 128) mod 128) as Hu'.
  { rewrite slot_index_ahead by done. rewrite Hu, Zplus_mod_idemp_l, Zplus_mod_idemp_r. f_equal. lia. }
  assert (∀ v, (id, v) ∉ before (tick + e * period)) as Hnone by (intros v; apply Hnb; nia).
  destruct (IH (tick + e * period) ((d - e) mod 128) r2 left) with (t := t) (mask := mask) as [Hleft ->]; try done; try nia.
  - by rewrite Z.mod_add by lia.
  - intros v Hv. by apply Hnone in Hv.
  - intros t' v Ht'. apply Hnb. nia.
  - intros t' v Ht'. apply Hnd. nia.
  - apply Z.mod_pos_bound. lia.
  - rewrite bool_decide_eq_false_2, orb_false_r in Hleft by done.
    assert (there' = true ∧ d ≠ 0) as [-> Hdn].
    { unfold left in Hleft. apply andb_true_iff in Hleft as [-> Hl%negb_true_iff]. split; [done|].
      intros ->. apply Z.eqb_neq in Hl. by apply Hl, Hhere. }
    assert (e ≤ d) by (apply HD; [done|lia|done]). split; [done|]. rewrite Z.mod_small by lia. lia.
Qed.

(** The same for a router that registers in the wakeup at [tick] and is not in the
    ring before it. *)
Lemma ring_run_once_during n tick d r :
  ring_inv r → 0 ≤ tick → tick mod period = 0 → tick + (Z.of_nat n + 1) * 128 * period < 2 ^ 64 →
  (∀ t v, tick ≤ t → (id, v) ∉ before t) →
  (∀ t v, (id, v) ∈ during t → t = tick ∧ v = u) → (id, u) ∈ during tick →
  only_at period id u false r → 1 ≤ d ≤ 128 → slot_index period u = (slot_index period tick + d) mod 128 →
  ∀ t mask, (t, mask) ∈ ring_run period before during n tick r → Z.testbit mask id = true → t = tick + d * period.
Proof using Hbef Hdur Hper.
  destruct n as [|n]; [set_solver|]. intros Hinv Ht Hm Hov Hnb Hnd Hin Hat Hd Hu t mask.
  cbn [ring_run]. set (r0 := foldl _ r (before tick)).
  assert (ring_inv r0) as Hinv0 by by apply foldl_register_inv.
  pose proof (registers_only period (before tick) r id u false (Hbef tick) Hinv) as Hat0.
  rewrite bool_decide_eq_false_2 in Hat0 by (by apply Hnb). fold r0 in Hat0.
  destruct (ring_cycle_only period (during tick) tick u r0 id false) as (mk & e & r2 & -> & Hinv2 & Hmk & Hat2 & He & HD);
    try done; try nia; [intros v Hv; by destruct (Hnd tick v Hv)|apply Hat0; [intros v Hv; by apply Hnb in Hv|done]|].
  rewrite bool_decide_eq_true_2 in Hat2, HD by done. simpl in Hmk, Hat2, HD.
  intros [[= -> ->]|Hrest]%elem_of_cons Hb; [congruence|].
  assert (e ≤ d) by (apply HD; [done|lia|done]).
  assert (∀ t v, tick < t → (id, v) ∉ during t) as Hlater by (intros t' v Hlt Hv; apply Hnd in Hv; lia).
  destruct (ring_run_once n (tick + e * period) (d - e) r2 true) with (t := t) (mask := mask) as [_ ->]; try done; try nia.
  - by rewrite Z.mod_add by lia.
  - intros v Hv. apply Hnb in Hv; [done|nia].
  - intros t' v Ht'. apply Hnb. nia.
  - intros t' v Ht'. apply Hlater. nia.
  - rewrite slot_index_ahead, Hu, Zplus_mod_idemp_l by done. f_equal. lia.
Qed.

End once.

(** C17: The constant-time bitmap search returns what a slot-by-slot walk of
    the ring from the slot after the current one returns: the tick of the first
    non-empty slot, at a distance of 1 to 128 cycles, and one cycle ahead when
    the ring is empty. *)
Theorem computeNextWakeupTick_scan cur tick period r :
  ring_inv r → 0 ≤ cur < 128 →
  computeNextWakeupTick cur tick period r
  = u64 (tick + default 1 (next_dist (fun i => negb (slot r i =? 0)) cur) * period).
Proof. apply computeNextWakeupTick_next. Qed.

(** Only the slot behind the current one is in use: the search wraps around. *)
Lemma computeNextWakeupTick_scan_witness :
  let r := registerWakeup 500 2 (5 * 500) empty_ring in
  computeNextWakeupTick 100 (100 * 500) 500 r = 133 * 500 ∧
  next_dist (fun i => negb (slot r i =? 0)) 100 = Some 33.
Proof.
  intros r. split; [|by vm_compute].
  rewrite (computeNextWakeupTick_scan 100 (100 * 500) 500 r); [by vm_compute| |lia].
  apply registerWakeup_inv; [lia|apply empty_ring_inv].
Defined.

(** C6: No wakeup within the window of the ring is lost. Consider the pending
    global wakeup at [tick] and those that follow it, with any registrations
    during and between them. A router that is registered for [d] cycles after
    [tick], either by a router run in this wakeup and with 1 <= d <= 128, or by
    another event since the previous wakeup and with 0 <= d <= 127 (not before the
    pending wakeup), is in the mask of a global wakeup at exactly that tick, at most
    [d] wakeups later. Outside this window see C31. *)
Theorem ring_no_lost_wakeup period before during tick d r id n :
  ring_inv r → (∀ t, Forall reg_ok (before t)) → (∀ t, Forall reg_ok (during t)) →
  0 < period → 0 ≤ tick → tick mod period = 0 → tick + (d + 129) * period < 2 ^ 64 → d < Z.of_nat n →
  ((id, tick + d * period) ∈ during tick ∧ 1 ≤ d ≤ 128 ∨ (id, tick + d * period) ∈ before tick ∧ 0 ≤ d ≤ 127) →
  ∃ mask, (tick + d * period, mask) ∈ ring_run period before during n tick r ∧ Z.testbit mask id = true.
Proof. intros. by apply ring_run_serves with (tick + d * period). Qed.

(** Router 3 registers at tick 500 for [d] cycles ahead, router 0 every cycle. *)
Definition ex_regs (d t : Z) : list (Z * Z) :=
  if t =? 500 then [(0, t + 500); (3, t + d * 500)] else [(0, t + 500)].

(** Router 5 is registered by an event before tick 500 for the tick 1000. *)
Definition ex_before (t : Z) : list (Z * Z) := if t =? 500 then [(5, 1000)] else [].

Lemma ex_regs_ok d t : Forall reg_ok (ex_regs d t).
Proof. unfold ex_regs. destruct (t =? 500); repeat constructor; simpl; lia. Qed.

Lemma ex_before_ok t : Forall reg_ok (ex_before t).
Proof. unfold ex_before. destruct (t =? 500); repeat constructor; simpl; lia. Qed.

Lemma ring_no_lost_wakeup_witness :
  (∃ mask, (500 + 128 * 500, mask) ∈ ring_run 500 ex_before (ex_regs 128) 130 500 empty_ring ∧ Z.testbit mask 3 = true) ∧
  (∃ mask, (500 + 1 * 500, mask) ∈ ring_run 500 ex_before (ex_regs 128) 130 500 empty_ring ∧ Z.testbit mask 5 = true).
Proof.
  split.
  - apply (ring_no_lost_wakeup 500 ex_before (ex_regs 128) 500 128 empty_ring 3 130);
      try lia; try (exact empty_ring_inv); try (exact ex_before_ok); try (exact (ex_regs_ok 128)); [reflexivity|].
    left. split; [|lia]. apply list_elem_of_lookup_2 with 1%nat. reflexivity.
  - apply (ring_no_lost_wakeup 500 ex_before (ex_regs 128) 500 1 empty_ring 5 130);
      try lia; try (exact empty_ring_inv); try (exact ex_before_ok); try (exact (ex_regs_ok 128)); [reflexivity|].
    right. split; [|lia]. apply list_elem_of_lookup_2 with 0%nat. reflexivity.
Defined.

(** The distance at which a registration [d] cycles ahead is served: at least [k]
    cycles ahead and in the slot of the tick it is meant for. *)
Definition served_after (k d : Z) : Z := k + (d - k) mod 128.

(** C31: The window is sharp. A router not in the ring registers once, for [d] cycles
    after the pending global wakeup at [tick]: in this wakeup (k = 1) or before it
    (k = 0). Then among the following wakeups exactly the one [served_after k d]
    cycles after [tick] has the router in its mask. So a registration outside of
    the window [k, k + 127] is in no mask at its own tick: one more than 128
    cycles ahead is taken a multiple of 128 cycles early, and one made between
    wakeups for a tick before the pending wakeup is taken that much late. *)
Theorem ring_window_sharp period before during tick d r id n k :
  ring_inv r → (∀ t, Forall reg_ok (before t)) → (∀ t, Forall reg_ok (during t)) →
  0 < period → 0 ≤ tick → tick mod period = 0 → 0 ≤ tick + d * period →
  tick + (Z.of_nat n + 1) * 128 * period < 2 ^ 64 → 129 ≤ Z.of_nat n →
  (∀ j, 0 ≤ j < 128 → Z.testbit (slot r j) id = false) →
  (∀ t v, (id, v) ∈ before t → k = 0 ∧ t = tick ∧ v = tick + d * period) →
  (∀ t v, (id, v) ∈ during t → k = 1 ∧ t = tick ∧ v = tick + d * period) →
  (k = 0 ∧ (id, tick + d * period) ∈ before tick ∨ k = 1 ∧ (id, tick + d * period) ∈ during tick) →
  (∃ mask, (tick + served_after k d * period, mask) ∈ ring_run period before during n tick r ∧ Z.testbit mask id = true) ∧
  (∀ t mask, (t, mask) ∈ ring_run period before during n tick r → Z.testbit mask id = true →
     t = tick + served_after k d * period) ∧
  (¬ k ≤ d ≤ k + 127 → ∀ mask, (tick + d * period, mask) ∈ ring_run period before during n tick r → Z.testbit mask id = false).
Proof.
  intros Hinv Hbef Hdur Hp Ht Hm Hu Hov Hn Hnot Hb1 Hd1 Hmine. set (u := tick + d * period) in *. set (D := served_after k d).
  assert (0 ≤ (d - k) mod 128 < 128) as Hmod by (apply Z.mod_pos_bound; lia).
  assert (slot_index period u = (slot_index period tick + D) mod 128) as HuD.
  { unfold u, D, served_after. rewrite slot_index_ahead by done.
    rewrite !Z.add_assoc, Zplus_mod_idemp_r. f_equal. lia. }
  assert (slot_index period (tick + D * period) = slot_index period u) as HD by (by rewrite slot_index_ahead).
  assert (only_at period id u false r) as Hat by exact Hnot.
  assert (1 ≤ k + 127 - D + 1) as HDk by (unfold D, served_after; lia).
  assert (∀ t mask, (t, mask) ∈ ring_run period before during n tick r → Z.testbit mask id = true → t = tick + D * period) as Honly.
  { intros t mask Hin Hb. destruct Hmine as [[-> Hmine]|[-> Hmine]].
    - apply (ring_run_once period before during id u Hbef Hdur Hp n tick D r false) with (mask := mask); try done; try (unfold D, served_after; lia).
      + intros v Hv. by destruct (Hb1 tick v Hv) as (_ & _ & ->).
      + intros t' v Ht' Hv. destruct (Hb1 t' v Hv). lia.
      + intros t' v Ht' Hv. by destruct (Hd1 t' v Hv).
    - apply (ring_run_once_during period before during id u Hbef Hdur Hp n tick D r) with (mask := mask); try done; try (unfold D, served_after; lia).
      + intros t' v Ht' Hv. by destruct (Hb1 t' v Hv).
      + intros t' v Hv. by destruct (Hd1 t' v Hv) as (_ & -> & ->). }
  split_and!; [|exact Honly|].
  - apply ring_run_serves with u; try done; try nia.
    destruct Hmine as [[-> Hmine]|[-> Hmine]]; [right|left]; (split; [done|]); unfold D, served_after; lia.
  - intros Hout mask Hin. destruct (Z.testbit mask id) eqn:E; [|done]. apply (Honly u mask) in E; [|done].
    exfalso. apply Hout. assert (d = D) as HdD by (unfold u in E; nia). unfold D, served_after in HdD. lia.
Qed.

(** A registration 129 cycles ahead made in the wakeup at tick 500 is taken 128
    cycles early, in the wakeup of the next cycle. *)
Lemma ring_window_sharp_witness :
  (∃ mask, (500 + 1 * 500, mask) ∈ ring_run 500 ex_before (ex_regs 129) 130 500 empty_ring ∧ Z.testbit mask 3 = true) ∧
  (∀ mask, (500 + 129 * 500, mask) ∈ ring_run 500 ex_before (ex_regs 129) 130 500 empty_ring → Z.testbit mask 3 = false).
Proof.
  destruct (ring_window_sharp 500 ex_before (ex_regs 129) 500 129 empty_ring 3 130 1) as (Hex & _ & Hno);
    try lia; try (exact empty_ring_inv); try (exact ex_before_ok); try (exact (ex_regs_ok 129)).
  - reflexivity.
  - intros j Hj. rewrite empty_ring_slot by done. reflexivity.
  - intros t v. unfold ex_before. destruct (Z.eqb_spec t 500); set_solver.
  - intros t v. unfold ex_regs. destruct (Z.eqb_spec t 500) as [->|]; set_solver.
  - right. split; [reflexivity|]. apply list_elem_of_lookup_2 with 1%nat. reflexivity.
  - split; [exact Hex|]. apply Hno. lia.
Defined.
