(* ===== verification/NetDest.v ===== *)
(** * Destination sets: mem/ruby/common/Set.hh and NetDest.{hh,cc}

    A [NetDest] is the set of machines a message goes to: one bit set per
    machine type. *)

From S2P Require Import Prelude IntMath.

(** What the protocol compiler generates and the build configures: the number
    of machine types, how many machines of each type there are, the global
    number of the first machine of a type, the level of a type in a NetDest and
    the capacity of a [Set]. *)
Record RubySystem := {
  MachineType_NUM : Z;
  MachineType_base_count : Z → Z;
  MachineType_base_number : Z → Z;
  MachineType_base_level : Z → Z;
  MachineType_from_base_level : Z → Z;
  NUMBER_BITS_PER_SET : Z
}.

(** The documented layout: levels are the types in order, the global numbers
    of a type's machines follow those of the types before it, and every count
    fits a set. *)
Record ruby_system_ok (rs : RubySystem) : Prop := {
  rs_num : 0 < MachineType_NUM rs;
  rs_level m : 0 ≤ m ≤ MachineType_NUM rs → MachineType_base_level rs m = m;
  rs_unlevel m : 0 ≤ m < MachineType_NUM rs → MachineType_from_base_level rs m = m;
  rs_count m : 0 ≤ m < MachineType_NUM rs →
    0 ≤ MachineType_base_count rs m ≤ NUMBER_BITS_PER_SET rs;
  rs_base_0 : MachineType_base_number rs 0 = 0;
  rs_base_succ m : 0 ≤ m < MachineType_NUM rs →
    MachineType_base_number rs (m + 1) = MachineType_base_number rs m + MachineType_base_count rs m
}.

Record MachineID := { mach_type : Z; mach_num : Z }.

(** ** Set *)

Module NodeSet.

Record t := { m_nSize : Z; bits : Z }.

Definition make (rs : RubySystem) (size : Z) : res t :=
  if NUMBER_BITS_PER_SET rs <? size then Err (EFatal "Set: number of bits < size specified")
  else Ok {| m_nSize := size; bits := 0 |}.

Definition with_bits (s : t) (b : Z) : t := {| m_nSize := m_nSize s; bits := b |}.

(** [bits.set(index)] and the like throw when the index is not a bit of the set. *)
Definition check_bit (rs : RubySystem) (index : Z) : res unit :=
  if (0 <=? index) && (index <? NUMBER_BITS_PER_SET rs) then Ok tt else Err EOutOfRange.

Definition add (rs : RubySystem) (index : Z) (s : t) : res t :=
  let* _ := check_bit rs index in
  Ok (with_bits s (Z.lor (bits s) (Z.shiftl 1 index))).

Definition addSet (obj s : t) : res t :=
  let* _ := assert_ "addSet: m_nSize" (m_nSize s =? m_nSize obj) in
  Ok (with_bits s (Z.lor (bits s) (bits obj))).

Definition remove (rs : RubySystem) (index : Z) (s : t) : res t :=
  let* _ := check_bit rs index in
  Ok (with_bits s (Z.land (bits s) (Z.lnot (Z.shiftl 1 index)))).

Definition removeSet (obj s : t) : res t :=
  let* _ := assert_ "removeSet: m_nSize" (m_nSize s =? m_nSize obj) in
  Ok (with_bits s (Z.land (bits s) (Z.lnot (bits obj)))).

Definition clear (s : t) : t := with_bits s 0.

(** All bits set, then every bit from [m_nSize] on cleared. *)
Definition broadcast (rs : RubySystem) (s : t) : t :=
  with_bits s
    (foldl (fun b j => Z.land b (Z.lnot (Z.shiftl 1 j))) (Z.ones (NUMBER_BITS_PER_SET rs))
       (seqZ (m_nSize s) (NUMBER_BITS_PER_SET rs - m_nSize s))).

Definition count (s : t) : Z := popcountll (bits s).

Definition isEqual (obj s : t) : res bool :=
  let* _ := assert_ "isEqual: m_nSize" (m_nSize s =? m_nSize obj) in
  Ok (bits s =? bits obj).

Definition OR (rs : RubySystem) (obj s : t) : res t :=
  let* _ := assert_ "OR: m_nSize" (m_nSize s =? m_nSize obj) in
  let* r := make rs (m_nSize s) in
  Ok (with_bits r (Z.lor (bits s) (bits obj))).

Definition AND (rs : RubySystem) (obj s : t) : res t :=
  let* _ := assert_ "AND: m_nSize" (m_nSize s =? m_nSize obj) in
  let* r := make rs (m_nSize s) in
  Ok (with_bits r (Z.land (bits s) (bits obj))).

Definition intersectionIsEmpty (obj s : t) : bool := Z.land (bits s) (bits obj) =? 0.

Definition isSuperset (test s : t) : res bool :=
  let* _ := assert_ "isSuperset: m_nSize" (m_nSize s =? m_nSize test) in
  Ok (Z.lor (bits s) (bits test) =? bits s).

Definition isSubset (test s : t) : res bool := isSuperset s test.

Definition isElement (rs : RubySystem) (element : Z) (s : t) : res bool :=
  let* _ := check_bit rs element in
  Ok (Z.testbit (bits s) element).

Definition isBroadcast (s : t) : bool := count s =? m_nSize s.

Definition isEmpty (s : t) : bool := bits s =? 0.

Fixpoint smallest_from (rs : RubySystem) (i : Z) (n : nat) (s : t) : res Z :=
  match n with
  | O => Err (EPanic "No smallest element of an empty set.")
  | S n' =>
      let* b := isElement rs i s in
      if b then Ok i else smallest_from rs (i + 1) n' s
  end.

Definition smallestElement (rs : RubySystem) (s : t) : res Z :=
  smallest_from rs 0 (Z.to_nat (m_nSize s)) s.

Definition setSize (rs : RubySystem) (size : Z) (s : t) : res t := make rs size.

(** Only the bits in use are set. *)
Definition wf (rs : RubySystem) (n : Z) (s : t) : Prop :=
  m_nSize s = n ∧ 0 ≤ n ≤ NUMBER_BITS_PER_SET rs ∧ 0 ≤ bits s < 2 ^ n.

End NodeSet.

(** ** NetDest *)

Abbreviation NetDest := (list NodeSet.t).

Section netdest.
Context (rs : RubySystem).

Definition resize : res NetDest :=
  let n := MachineType_base_level rs (MachineType_NUM rs) in
  let* _ := assert_ "resize: m_bits.size() == MachineType_NUM" (n =? MachineType_NUM rs) in
  for_range 0 (Z.to_nat n) (fun i d =>
    let* s := NodeSet.make rs (MachineType_base_count rs i) in Ok (d ++ [s])) [].

Definition not_empty (d : NetDest) : res unit :=
  assert_ "m_bits.size() > 0" (0 <? Z.of_nat (length d)).

Definition same_size (d e : NetDest) : res unit :=
  assert_ "m_bits.size() == netDest.getSize()" (Nat.eqb (length d) (length e)).

Definition vecIndex (m : MachineID) (d : NetDest) : res Z :=
  let vec_index := MachineType_base_level rs (mach_type m) in
  let* _ := assert_ "vecIndex" (vec_index <? Z.of_nat (length d)) in
  Ok vec_index.

Definition bitIndex (index : Z) : Z := index.

Definition add (newElement : MachineID) (d : NetDest) : res NetDest :=
  let* _ := not_empty d in
  let* v := vecIndex newElement d in
  let* s := vec_get d v in
  let* _ := assert_ "add: bitIndex < getSize" (bitIndex (mach_num newElement) <? NodeSet.m_nSize s) in
  let* s' := NodeSet.add rs (bitIndex (mach_num newElement)) s in
  vec_set d v s'.

Definition addNetDest (netDest d : NetDest) : res NetDest :=
  let* _ := not_empty d in
  let* _ := same_size d netDest in
  map2_res (fun s o => NodeSet.addSet o s) d netDest.

Definition setNetDest (machine : Z) (set : NodeSet.t) (d : NetDest) : res NetDest :=
  let* _ := assert_ "setNetDest: one set per machine type"
    (MachineType_base_level rs (machine + 1) - MachineType_base_level rs machine =? 1) in
  vec_set d (MachineType_base_level rs machine) set.

Definition remove (oldElement : MachineID) (d : NetDest) : res NetDest :=
  let* _ := not_empty d in
  let* v := vecIndex oldElement d in
  vec_upd d v (NodeSet.remove rs (bitIndex (mach_num oldElement))).

Definition removeNetDest (netDest d : NetDest) : res NetDest :=
  let* _ := not_empty d in
  let* _ := same_size d netDest in
  map2_res (fun s o => NodeSet.removeSet o s) d netDest.

Definition clear (d : NetDest) : res NetDest :=
  let* _ := not_empty d in
  Ok (map NodeSet.clear d).

Definition broadcast_type (machineType : Z) (d : NetDest) : res NetDest :=
  for_range 0 (Z.to_nat (MachineType_base_count rs machineType))
    (fun i d => add {| mach_type := machineType; mach_num := i |} d) d.

Definition broadcast (d : NetDest) : res NetDest :=
  for_range 0 (Z.to_nat (MachineType_NUM rs)) broadcast_type d.

(** The global node numbers of the destinations, ascending. *)
Definition getAllDest (d : NetDest) : res (list Z) :=
  let* _ := not_empty d in
  for_range 0 (length d) (fun i dest =>
    let* s := vec_get d i in
    for_range 0 (Z.to_nat (NodeSet.m_nSize s)) (fun j dest =>
      let* b := NodeSet.isElement rs j s in
      Ok (if b then dest ++ [MachineType_base_number rs i + j] else dest)) dest) [].

Definition count (d : NetDest) : res Z :=
  let* _ := not_empty d in
  Ok (foldl (fun c s => c + NodeSet.count s) 0 d).

Definition elementAt (index : MachineID) (d : NetDest) : res bool :=
  let* _ := not_empty d in
  let* v := vecIndex index d in
  let* s := vec_get d v in
  NodeSet.isElement rs (bitIndex (mach_num index)) s.

(** The double loop of [smallestElement]. *)
Fixpoint smallest_in (j : Z) (n : nat) (s : NodeSet.t) : res (option Z) :=
  match n with
  | O => Ok None
  | S n' =>
      let* b := NodeSet.isElement rs j s in
      if b then Ok (Some j) else smallest_in (j + 1) n' s
  end.

Fixpoint smallest_loop (i : Z) (d : NetDest) : res MachineID :=
  match d with
  | [] => Err (EPanic "No smallest element of an empty set.")
  | s :: d' =>
      let* r := smallest_in 0 (Z.to_nat (NodeSet.m_nSize s)) s in
      match r with
      | Some j => Ok {| mach_type := MachineType_from_base_level rs i; mach_num := j |}
      | None => smallest_loop (i + 1) d'
      end
  end.

Definition smallestElement (d : NetDest) : res MachineID :=
  let* _ := not_empty d in
  let* c := count d in
  let* _ := assert_ "count() > 0" (0 <? c) in
  smallest_loop 0 d.

Definition smallestElement_of (machine : Z) (d : NetDest) : res MachineID :=
  let* _ := not_empty d in
  let* s := vec_get d (MachineType_base_level rs machine) in
  let* r := smallest_in 0 (Z.to_nat (NodeSet.m_nSize s)) s in
  match r with
  | Some j => Ok {| mach_type := machine; mach_num := j |}
  | None => Err (EPanic "No smallest element of given MachineType.")
  end.

Definition isBroadcast (d : NetDest) : res bool :=
  let* _ := not_empty d in Ok (forallb NodeSet.isBroadcast d).

Definition isEmpty (d : NetDest) : res bool :=
  let* _ := not_empty d in Ok (forallb NodeSet.isEmpty d).

Definition OR (orNetDest d : NetDest) : res NetDest :=
  let* _ := not_empty d in
  let* _ := same_size d orNetDest in
  let* _ := resize in
  map2_res (fun s o => NodeSet.OR rs o s) d orNetDest.

Definition AND (andNetDest d : NetDest) : res NetDest :=
  let* _ := not_empty d in
  let* _ := same_size d andNetDest in
  let* _ := resize in
  map2_res (fun s o => NodeSet.AND rs o s) d andNetDest.

Definition intersectionIsNotEmpty (other d : NetDest) : res bool :=
  let* _ := not_empty d in
  let* _ := same_size d other in
  Ok (existsb (fun p => negb (NodeSet.intersectionIsEmpty (snd p) (fst p))) (zip d other)).

(** A loop that leaves at the first set for which the test is false. *)
Fixpoint all2_res (f : NodeSet.t → NodeSet.t → res bool) (d e : NetDest) : res bool :=
  match d, e with
  | s :: d', o :: e' =>
      let* b := f s o in
      if b then all2_res f d' e' else Ok false
  | _, _ => Ok true
  end.

Definition isSuperset (test d : NetDest) : res bool :=
  let* _ := not_empty d in
  let* _ := same_size d test in
  all2_res (fun s o => NodeSet.isSuperset o s) d test.

Definition isElement (element : MachineID) (d : NetDest) : res bool :=
  let* _ := not_empty d in
  let* v := vecIndex element d in
  let* s := vec_get d v in
  NodeSet.isElement rs (bitIndex (mach_num element)) s.

Definition isEqual (n d : NetDest) : res bool :=
  let* _ := not_empty d in
  let* _ := same_size d n in
  all2_res (fun s o => NodeSet.isEqual o s) d n.

End netdest.

(** ** Lemmas *)

(** Machine [j] of type [i] is a destination. *)
Definition has (d : NetDest) (i j : Z) : bool :=
  match d !! Z.to_nat i with Some s => Z.testbit (NodeSet.bits s) j | None => false end.

Definition netdest_wf (rs : RubySystem) (d : NetDest) : Prop :=
  length d = Z.to_nat (MachineType_NUM rs) ∧
  ∀ i s, d !! i = Some s → NodeSet.wf rs (MachineType_base_count rs (Z.of_nat i)) s.

(** [c] holds what the bit operation makes of [a] and [b]. *)
Definition combines (op : bool → bool → bool) (a b c : NetDest) : Prop :=
  ∀ i j, 0 ≤ j → has c i j = op (has a i j) (has b i j).

Section lemmas.
Context (rs : RubySystem) (Hrs : ruby_system_ok rs).

Lemma wf_not_empty d : netdest_wf rs d → not_empty d = Ok tt.
Proof.
  intros [Hl _]. unfold not_empty, assert_. pose proof (rs_num rs Hrs).
  by rewrite (proj2 (Z.ltb_lt _ _)) by lia.
Qed.

Lemma wf_same_size d e : netdest_wf rs d → netdest_wf rs e → same_size d e = Ok tt.
Proof.
  intros [Hd _] [He _]. unfold same_size, assert_. by rewrite (proj2 (Nat.eqb_eq _ _)) by congruence.
Qed.

Lemma wf_size_eq i a b s o :
  netdest_wf rs a → netdest_wf rs b → a !! i = Some s → b !! i = Some o →
  NodeSet.m_nSize s = NodeSet.m_nSize o.
Proof. intros [_ Ha] [_ Hb] Hs Ho. destruct (Ha i s Hs) as [-> _], (Hb i o Ho) as [-> _]. done. Qed.

(** An element-wise bit operation that keeps the sets in shape acts on the
    destinations as the boolean operation. *)
Lemma map2_combines f opb op a b :
  netdest_wf rs a → netdest_wf rs b → op false false = false →
  (∀ x y j, 0 ≤ j → Z.testbit (opb x y) j = op (Z.testbit x j) (Z.testbit y j)) →
  (∀ x y n, 0 ≤ n → 0 ≤ x < 2 ^ n → 0 ≤ y < 2 ^ n → 0 ≤ opb x y < 2 ^ n) →
  (∀ n s o, NodeSet.wf rs n s → NodeSet.wf rs n o →
     f s o = Ok (NodeSet.with_bits s (opb (NodeSet.bits s) (NodeSet.bits o)))) →
  ∃ c, map2_res f a b = Ok c ∧ netdest_wf rs c ∧ combines op a b c.
Proof.
  intros [Hla Ha] [Hlb Hb] Hop Hbit Hran Hf.
  destruct (map2_res_succeeds f a b) as [c Hc]; [congruence| |].
  { intros i x y Hx Hy. eexists. apply (Hf _ _ _ (Ha i x Hx) (Hb i y Hy)). }
  exists c. split; [done|].
  destruct (map2_res_ok f a b c) as [Hl Hlook]; [congruence|done|].
  assert (∀ i z, c !! i = Some z → ∃ x y, a !! i = Some x ∧ b !! i = Some y
    ∧ z = NodeSet.with_bits x (opb (NodeSet.bits x) (NodeSet.bits y))) as Hinv.
  { intros i z Hz. apply lookup_lt_Some in Hz as Hlt.
    destruct (lookup_lt_is_Some_2 a i) as [x Hx]; [lia|].
    destruct (lookup_lt_is_Some_2 b i) as [y Hy]; [lia|].
    destruct (Hlook i x y Hx Hy) as (z' & Hz' & Hz''). exists x, y.
    rewrite (Hf _ _ _ (Ha i x Hx) (Hb i y Hy)) in Hz'. by simplify_eq. }
  split.
  - split; [lia|]. intros i z (x & y & Hx & Hy & ->)%Hinv.
    destruct (Ha i x Hx) as (H1 & H2 & H3), (Hb i y Hy) as (_ & _ & H4).
    split; [done|]. split; [done|]. simpl. apply Hran; [lia|done|done].
  - intros i j Hj. unfold has. destruct (c !! Z.to_nat i) as [z|] eqn:Hz.
    + apply Hinv in Hz as (x & y & -> & -> & ->). simpl. by apply Hbit.
    + apply lookup_ge_None in Hz.
      rewrite (proj2 (lookup_ge_None a _)), (proj2 (lookup_ge_None b _)) by lia. done.
Qed.

Lemma wf_make n s : NodeSet.wf rs n s → NodeSet.make rs (NodeSet.m_nSize s) = Ok (NodeSet.clear s).
Proof.
  intros (Hn & Hr & _). unfold NodeSet.make. by rewrite (proj2 (Z.ltb_ge _ _)) by lia.
Qed.

Lemma resize_ok : ∃ d, resize rs = Ok d.
Proof.
  unfold resize. rewrite (rs_level rs Hrs) by (pose proof (rs_num rs Hrs); lia).
  rewrite Z.eqb_refl. simpl.
  destruct (for_range_ok (fun _ _ => True) 0 (Z.to_nat (MachineType_NUM rs)) (fun i d =>
    let* s := NodeSet.make rs (MachineType_base_count rs i) in Ok (d ++ [s])) []) as (d & Hd & _);
    [done| |by eauto].
  intros i d Hi _. unfold NodeSet.make. destruct (rs_count rs Hrs i); [lia|].
  rewrite (proj2 (Z.ltb_ge _ _)) by lia. simpl. eauto.
Qed.

Ltac same_nsize :=
  match goal with
  | H1 : NodeSet.wf _ _ ?s, H2 : NodeSet.wf _ _ ?o |- _ =>
      let E1 := fresh in let E2 := fresh in
      pose proof (proj1 H1) as E1; pose proof (proj1 H2) as E2; rewrite E1, E2, Z.eqb_refl; simpl
  end.

Lemma addNetDest_combines a b :
  netdest_wf rs a → netdest_wf rs b →
  ∃ c, addNetDest b a = Ok c ∧ netdest_wf rs c ∧ combines orb a b c.
Proof.
  intros Ha Hb. unfold addNetDest. rewrite wf_not_empty, wf_same_size by done. simpl.
  apply (map2_combines _ Z.lor); [done|done|done|intros; apply Z.lor_spec| |].
  - intros. by apply lor_lt_pow2.
  - intros n s o Hs Ho. unfold NodeSet.addSet, assert_. same_nsize. done.
Qed.

Lemma removeNetDest_combines a b :
  netdest_wf rs a → netdest_wf rs b →
  ∃ c, removeNetDest b a = Ok c ∧ netdest_wf rs c ∧ combines (fun x y => x && negb y) a b c.
Proof.
  intros Ha Hb. unfold removeNetDest. rewrite wf_not_empty, wf_same_size by done. simpl.
  apply (map2_combines _ (fun x y => Z.land x (Z.lnot y))); [done|done|done| | |].
  - intros x y j Hj. by rewrite Z.land_spec, Z.lnot_spec by done.
  - intros x y n Hn Hx _. by apply land_lt_pow2.
  - intros n s o Hs Ho. unfold NodeSet.removeSet, assert_. same_nsize. done.
Qed.

Lemma OR_combines a b :
  netdest_wf rs a → netdest_wf rs b →
  ∃ c, OR rs b a = Ok c ∧ netdest_wf rs c ∧ combines orb a b c.
Proof.
  intros Ha Hb. unfold OR. rewrite wf_not_empty, wf_same_size by done. simpl.
  destruct resize_ok as [d ->]. simpl.
  apply (map2_combines _ Z.lor); [done|done|done|intros; apply Z.lor_spec| |].
  - intros. by apply lor_lt_pow2.
  - intros n s o Hs Ho. unfold NodeSet.OR, assert_.
    rewrite (wf_make n) by done. same_nsize. done.
Qed.

Lemma AND_combines a b :
  netdest_wf rs a → netdest_wf rs b →
  ∃ c, AND rs b a = Ok c ∧ netdest_wf rs c ∧ combines andb a b c.
Proof.
  intros Ha Hb. unfold AND. rewrite wf_not_empty, wf_same_size by done. simpl.
  destruct resize_ok as [d ->]. simpl.
  apply (map2_combines _ Z.land); [done|done|done|intros; apply Z.land_spec| |].
  - intros. by apply land_lt_pow2.
  - intros n s o Hs Ho. unfold NodeSet.AND, assert_.
    rewrite (wf_make n) by done. same_nsize. done.
Qed.

Lemma intersection_spec a b :
  netdest_wf rs a → netdest_wf rs b →
  ∃ r, intersectionIsNotEmpty b a = Ok r ∧
       (r = true ↔ ∃ i j, 0 ≤ j ∧ has a i j = true ∧ has b i j = true).
Proof.
  intros Ha Hb. unfold intersectionIsNotEmpty. rewrite wf_not_empty, wf_same_size by done. simpl.
  eexists. split; [done|]. rewrite existsb_exists. unfold NodeSet.intersectionIsEmpty. split.
  - intros ([s o] & Hin & Hne). simpl in Hne. apply negb_true_iff, Z.eqb_neq in Hne.
    apply list_elem_of_In, list_elem_of_lookup in Hin as [i Hi].
    apply lookup_zip_Some in Hi as [Hs Ho].
    destruct Ha as [_ Ha], (Ha i s Hs) as (_ & Hn & Hs').
    pose proof (land_lt_pow2 (NodeSet.bits s) (NodeSet.bits o) _ (proj1 Hn) Hs').
    apply nonzero_testbit with (n := MachineType_base_count rs (Z.of_nat i)) in Hne as (j & Hj & Hb');
      [|lia..].
    rewrite Z.land_spec in Hb'. apply andb_true_iff in Hb' as [H1 H2].
    exists (Z.of_nat i), j. unfold has. rewrite Nat2Z.id, Hs, Ho. split_and!; [lia|done|done].
  - intros (i & j & Hj & H1 & H2). unfold has in *.
    destruct (a !! Z.to_nat i) as [s|] eqn:Hs; [|done].
    destruct (b !! Z.to_nat i) as [o|] eqn:Ho; [|done].
    exists (s, o). split.
    + apply list_elem_of_In, list_elem_of_lookup. exists (Z.to_nat i). by apply lookup_zip_Some.
    + simpl. apply negb_true_iff, Z.eqb_neq. intros Hz.
      apply (f_equal (fun x => Z.testbit x j)) in Hz.
      by rewrite Z.land_spec, H1, H2, Z.testbit_0_l in Hz.
Qed.

Lemma lookup_machine m d :
  netdest_wf rs d → 0 ≤ mach_type m < MachineType_NUM rs →
  ∃ s, vecIndex rs m d = Ok (mach_type m) ∧ vec_get d (mach_type m) = Ok s
       ∧ d !! Z.to_nat (mach_type m) = Some s
       ∧ NodeSet.wf rs (MachineType_base_count rs (mach_type m)) s.
Proof.
  intros [Hl Hd] Hm. destruct (vec_get_in_range d (mach_type m)) as [s Hs]; [lia|].
  exists s. pose proof (proj2 (proj1 (vec_get_ok _ _ _) Hs)) as Hlook. split_and!; [|done|done|].
  - unfold vecIndex, assert_. rewrite (rs_level rs Hrs) by lia.
    by rewrite (proj2 (Z.ltb_lt _ _)) by lia.
  - rewrite <-(Z2Nat.id (mach_type m)) by lia. by apply Hd.
Qed.

Lemma isElement_has m d :
  netdest_wf rs d → 0 ≤ mach_type m < MachineType_NUM rs →
  0 ≤ mach_num m < MachineType_base_count rs (mach_type m) →
  isElement rs m d = Ok (has d (mach_type m) (mach_num m)).
Proof.
  intros Hd Hm Hj. destruct (lookup_machine m d Hd Hm) as (s & Hv & Hg & Hlook & Hwf).
  unfold isElement. rewrite wf_not_empty by done. simpl. rewrite Hv. simpl. rewrite Hg. simpl.
  unfold NodeSet.isElement, NodeSet.check_bit, bitIndex. destruct Hwf as (_ & ? & _).
  rewrite (proj2 (Z.leb_le 0 _)), (proj2 (Z.ltb_lt _ _)) by lia. simpl.
  unfold has. by rewrite Hlook.
Qed.

Lemma has_insert d i s j k :
  0 ≤ i < Z.of_nat (length d) → 0 ≤ k →
  has (<[Z.to_nat i := s]> d) k j = if decide (k = i) then Z.testbit (NodeSet.bits s) j else has d k j.
Proof.
  intros Hi Hk. unfold has. case_decide as Hd.
  - subst. by rewrite list_lookup_insert_eq by lia.
  - by rewrite list_lookup_insert_ne by lia.
Qed.

Lemma wf_insert d i s :
  netdest_wf rs d → 0 ≤ i < MachineType_NUM rs → NodeSet.wf rs (MachineType_base_count rs i) s →
  netdest_wf rs (<[Z.to_nat i := s]> d).
Proof.
  intros [Hl Hd] Hi Hs. split; [by rewrite length_insert|]. intros k z Hz.
  apply list_lookup_insert_Some in Hz as [(<- & <- & _)|[_ Hz]]; [|by apply Hd].
  by rewrite Z2Nat.id by lia.
Qed.

(** Adding a machine sets its bit and no other. *)
Lemma add_has m d :
  netdest_wf rs d → 0 ≤ mach_type m < MachineType_NUM rs →
  0 ≤ mach_num m < MachineType_base_count rs (mach_type m) →
  ∃ d', add rs m d = Ok d' ∧ netdest_wf rs d' ∧
    ∀ i j, 0 ≤ i → 0 ≤ j →
      has d' i j = has d i j || ((i =? mach_type m) && (j =? mach_num m)).
Proof.
  intros Hd Hm Hj. destruct (lookup_machine m d Hd Hm) as (s & Hv & Hg & Hlook & Hwf).
  unfold add. rewrite wf_not_empty by done. simpl. rewrite Hv. simpl. rewrite Hg. simpl.
  pose proof Hwf as (Hn & Hr & Hb).
  unfold NodeSet.add, NodeSet.check_bit, bitIndex, assert_. rewrite Hn.
  rewrite (proj2 (Z.leb_le 0 _)), !(proj2 (Z.ltb_lt _ _)) by lia. simpl.
  assert (length d = Z.to_nat (MachineType_NUM rs)) as Hl by apply Hd.
  rewrite vec_set_in_range by lia.
  eexists. split; [done|]. split.
  - apply wf_insert; [done|done|]. split; [done|]. split; [done|]. simpl.
    apply lor_lt_pow2; [lia|done|]. apply shiftl1_lt_pow2. lia.
  - intros i j Hi Hjj. rewrite has_insert by lia. case_decide as Hdec.
    + subst i. simpl. rewrite Z.lor_spec, shiftl1_testbit, Z.eqb_refl by lia. simpl.
      unfold has. rewrite Hlook. f_equal. apply Z.eqb_sym.
    + rewrite (proj2 (Z.eqb_neq _ _)) by lia. simpl. by rewrite orb_false_r.
Qed.

End lemmas.

(** ** The nodes of a destination set *)

Section nodes.
Context (rs : RubySystem) (Hrs : ruby_system_ok rs).

(** All machines of one type, of some types, and of the system. *)
Definition type_nodes (i : Z) : list (Z * Z) := pair i <$> seqZ 0 (MachineType_base_count rs i).
Definition nodes_from (lo : Z) (n : nat) : list (Z * Z) := concat (type_nodes <$> seqZ lo (Z.of_nat n)).
Definition all_nodes : list (Z * Z) := nodes_from 0 (Z.to_nat (MachineType_NUM rs)).

Definition node_number (x : Z * Z) : Z := MachineType_base_number rs (fst x) + snd x.
Definition in_dest (d : NetDest) (x : Z * Z) : Prop := has d (fst x) (snd x) = true.
#[global] Instance in_dest_dec d x : Decision (in_dest d x) := decide (has d (fst x) (snd x) = true).

Lemma elem_of_type_nodes i x :
  x ∈ type_nodes i ↔ fst x = i ∧ 0 ≤ snd x < MachineType_base_count rs i.
Proof using Type.
  clear Hrs. unfold type_nodes. rewrite list_elem_of_fmap. split.
  - intros (j & -> & Hj%elem_of_seqZ). simpl. lia.
  - intros [<- Hj]. exists (snd x). split; [by destruct x|]. apply elem_of_seqZ. lia.
Qed.

Lemma nodes_from_S lo n : nodes_from lo (S n) = type_nodes lo ++ nodes_from (lo + 1) n.
Proof using Type.
  clear Hrs. unfold nodes_from. rewrite Nat2Z.inj_succ, seqZ_cons by lia.
  rewrite Z.pred_succ. by rewrite <-Z.add_1_r.
Qed.

Lemma elem_of_nodes_from lo n x :
  x ∈ nodes_from lo n ↔
  lo ≤ fst x < lo + Z.of_nat n ∧ 0 ≤ snd x < MachineType_base_count rs (fst x).
Proof using Type.
  clear Hrs. revert lo. induction n as [|n IH]; intros lo.
  - unfold nodes_from. simpl. rewrite elem_of_nil. lia.
  - rewrite nodes_from_S, elem_of_app, elem_of_type_nodes, IH. split.
    + intros [[<- ?]|?]; lia.
    + intros [? ?]. destruct (decide (fst x = lo)); [left; subst; lia|right; lia].
Qed.

Lemma NoDup_nodes_from lo n : NoDup (nodes_from lo n).
Proof using Type.
  clear Hrs. revert lo. induction n as [|n IH]; intros lo; [constructor|].
  rewrite nodes_from_S. apply NoDup_app. split_and!; [|..|done].
  - apply NoDup_fmap_2; [by intros ? ? [=]|apply NoDup_seqZ].
  - intros x [<- _]%elem_of_type_nodes [? _]%elem_of_nodes_from. lia.
Qed.

(** The numbers of the machines of a type lie below those of later types. *)
Lemma base_number_mono i j :
  0 ≤ i ≤ j → j ≤ MachineType_NUM rs → MachineType_base_number rs i ≤ MachineType_base_number rs j.
Proof.
  intros [Hi Hij]. revert j Hij. apply (Zlt_lower_bound_ind (fun j => j ≤ MachineType_NUM rs → _)).
  intros j IH Hij Hj. destruct (decide (i = j)) as [->|Hne]; [lia|].
  pose proof (rs_base_succ rs Hrs (j - 1) ltac:(lia)) as Hs. pose proof (rs_count rs Hrs (j - 1) ltac:(lia)).
  rewrite Z.sub_add in Hs. specialize (IH (j - 1) ltac:(lia) ltac:(lia)). lia.
Qed.

Lemma node_number_range a b :
  0 ≤ a < MachineType_NUM rs → 0 ≤ b < MachineType_base_count rs a →
  0 ≤ node_number (a, b) < MachineType_base_number rs (MachineType_NUM rs).
Proof.
  intros Ha Hb. unfold node_number. simpl. pose proof (base_number_mono 0 a ltac:(lia) ltac:(lia)) as H0.
  rewrite (rs_base_0 rs Hrs) in H0. pose proof (rs_base_succ rs Hrs a Ha).
  pose proof (base_number_mono (a + 1) (MachineType_NUM rs) ltac:(lia) ltac:(lia)). lia.
Qed.

(** [getAllDest] lists the nodes of the set in order. *)
Lemma getAllDest_filter d :
  netdest_wf rs d → getAllDest rs d = Ok (node_number <$> filter (in_dest d) all_nodes).
Proof.
  intros Hd. unfold getAllDest. rewrite (wf_not_empty rs Hrs) by done. cbn [rbind].
  pose proof Hd as [Hlen Hsets]. unfold all_nodes. rewrite <-Hlen.
  assert (∀ n lo acc, 0 ≤ lo → (Z.to_nat lo + n ≤ length d)%nat →
    for_range lo n (fun i dest =>
      let* s := vec_get d i in
      for_range 0 (Z.to_nat (NodeSet.m_nSize s)) (fun j dest =>
        let* b := NodeSet.isElement rs j s in
        Ok (if b then dest ++ [MachineType_base_number rs i + j] else dest)) dest) acc
    = Ok (acc ++ (node_number <$> filter (in_dest d) (nodes_from lo n)))) as Hgen.
  2:{ rewrite (Hgen (length d) 0 []); [done|lia|lia]. }
  induction n as [|n IH]; intros lo acc Hlo Hn; [by rewrite app_nil_r|].
  cbn [for_range]. destruct (lookup_lt_is_Some_2 d (Z.to_nat lo)) as [s Hs]; [lia|].
  assert (vec_get d lo = Ok s) as -> by (apply vec_get_ok; done). cbn [rbind].
  destruct (Hsets _ _ Hs) as (Hsz & Hcap & _). rewrite Z2Nat.id in Hsz, Hcap by done.
  rewrite (for_range_pure (fun j dest =>
    if Z.testbit (NodeSet.bits s) j then dest ++ [MachineType_base_number rs lo + j] else dest)).
  2:{ intros j dest Hj. unfold NodeSet.isElement, NodeSet.check_bit.
      rewrite (proj2 (Z.leb_le 0 j)), (proj2 (Z.ltb_lt j _)) by lia. done. }
  cbn [rbind]. rewrite IH by lia. rewrite nodes_from_S, filter_app, fmap_app, app_assoc. do 2 f_equal.
  rewrite Hsz, Z2Nat.id by lia. unfold type_nodes. clear -Hs.
  generalize (seqZ 0 (MachineType_base_count rs lo)). intros l. revert acc.
  induction l as [|j l IHl]; intros acc; simpl; [by rewrite app_nil_r|].
  rewrite IHl, filter_cons.
  assert (in_dest d (lo, j) ↔ Z.testbit (NodeSet.bits s) j = true) as Hin.
  { unfold in_dest, has. simpl. by rewrite Hs. }
  destruct (Z.testbit (NodeSet.bits s) j); case_decide; try (exfalso; intuition congruence); simpl;
    [by rewrite <-app_assoc|done].
Qed.

(** The empty set that a constructed NetDest is. *)
Definition no_dest : NetDest :=
  (fun i => {| NodeSet.m_nSize := MachineType_base_count rs i; NodeSet.bits := 0 |})
    <$> seqZ 0 (MachineType_NUM rs).

Lemma resize_empty : resize rs = Ok no_dest.
Proof.
  unfold resize. rewrite (rs_level rs Hrs) by (pose proof (rs_num rs Hrs); lia).
  rewrite Z.eqb_refl. cbn [assert_ rbind]. pose proof (rs_num rs Hrs).
  rewrite (for_range_pure (fun i d => d ++ [{| NodeSet.m_nSize := MachineType_base_count rs i; NodeSet.bits := 0 |}])).
  2:{ intros i d Hi. unfold NodeSet.make. destruct (rs_count rs Hrs i); [lia|].
      by rewrite (proj2 (Z.ltb_ge _ _)) by lia. }
  rewrite Z2Nat.id by lia. f_equal. unfold no_dest. generalize (seqZ 0 (MachineType_NUM rs)). intros l.
  induction l as [|i l IH] using rev_ind; [done|]. by rewrite foldl_app, fmap_app, IH.
Qed.

Lemma no_dest_wf : netdest_wf rs no_dest.
Proof.
  pose proof (rs_num rs Hrs). split; [unfold no_dest; by rewrite length_fmap, length_seqZ|].
  intros i s Hs. unfold no_dest in Hs. rewrite list_lookup_fmap in Hs.
  apply fmap_Some in Hs as (z & [-> Hz]%lookup_seqZ & ->). rewrite Z.add_0_l.
  destruct (rs_count rs Hrs (Z.of_nat i)); [lia|]. repeat split; simpl; [lia..|].
  apply Z.pow_pos_nonneg; lia.
Qed.

Lemma no_dest_has i j : has no_dest i j = false.
Proof using Type.
  clear Hrs. unfold has, no_dest. rewrite list_lookup_fmap.
  destruct (seqZ 0 _ !! Z.to_nat i); simpl; [apply Z.testbit_0_l|done].
Qed.

Lemma clear_no_dest : clear no_dest = Ok no_dest.
Proof.
  unfold clear. rewrite (wf_not_empty rs Hrs) by apply no_dest_wf. cbn [rbind]. f_equal.
  unfold no_dest. generalize (seqZ 0 (MachineType_NUM rs)).
  intros l. induction l as [|i l IH]; [done|]. rewrite fmap_cons. cbn [map]. by rewrite IH.
Qed.

(** Removing the first node of the list leaves its tail. *)
Lemma filter_remove_head {A} (P Q : A → Prop) `{∀ x, Decision (P x), ∀ x, Decision (Q x)} l x t :
  NoDup l → filter P l = x :: t → (∀ y, y ∈ l → Q y ↔ P y ∧ y ≠ x) → filter Q l = t.
Proof using Type.
  clear Hrs. intros Hnd Hf HQ. induction l as [|z l IH]; [done|]. apply NoDup_cons in Hnd as [Hz Hnd].
  rewrite filter_cons in Hf |- *. pose proof (HQ z ltac:(by left)) as HQz. case_decide as HP.
  - simplify_eq. rewrite decide_False by (rewrite HQz; naive_solver).
    apply filter_ext_elem. intros y Hy. rewrite HQ by (by right). split; [naive_solver|].
    intros ?. split; [done|]. by intros ->.
  - rewrite decide_False by (rewrite HQz; naive_solver). apply IH; [done|done|]. intros y Hy. apply HQ. by right.
Qed.

End nodes.

(** ** Properties *)

(** A NetDest behaves as a set of machines: on destination sets of the
    system's shape no assertion of [addNetDest], [removeNetDest], [OR] or
    [AND] fires, the shape is kept, and they are union, difference, union and
    intersection; [intersectionIsNotEmpty] decides whether two sets share a
    machine. *)
Theorem netdest_set_algebra rs a b :
  ruby_system_ok rs → netdest_wf rs a → netdest_wf rs b →
  (∃ c, addNetDest b a = Ok c ∧ netdest_wf rs c ∧ combines orb a b c) ∧
  (∃ c, removeNetDest b a = Ok c ∧ netdest_wf rs c ∧ combines (fun x y => x && negb y) a b c) ∧
  (∃ c, OR rs b a = Ok c ∧ netdest_wf rs c ∧ combines orb a b c) ∧
  (∃ c, AND rs b a = Ok c ∧ netdest_wf rs c ∧ combines andb a b c) ∧
  (∃ r, intersectionIsNotEmpty b a = Ok r ∧
        (r = true ↔ ∃ i j, 0 ≤ j ∧ has a i j = true ∧ has b i j = true)).
Proof.
  intros. split_and!; [by apply addNetDest_combines|by apply removeNetDest_combines|
    by apply OR_combines|by apply AND_combines|by apply (intersection_spec rs)].
Qed.

(** Two machine types, four machines of the first and two of the second. *)
Definition ex_rs : RubySystem := {|
  MachineType_NUM := 2;
  MachineType_base_count m := if m =? 0 then 4 else 2;
  MachineType_base_number m := if m =? 0 then 0 else if m =? 1 then 4 else 6;
  MachineType_base_level m := m;
  MachineType_from_base_level m := m;
  NUMBER_BITS_PER_SET := 64 |}.

Lemma ex_rs_ok : ruby_system_ok ex_rs.
Proof.
  split; simpl; try done; try lia.
  - intros m Hm. destruct (m =? 0); lia.
  - intros m Hm. assert (m = 0 ∨ m = 1) as [-> | ->] by lia; reflexivity.
Qed.

Definition ex_dest (x y : Z) : NetDest :=
  [{| NodeSet.m_nSize := 4; NodeSet.bits := x |}; {| NodeSet.m_nSize := 2; NodeSet.bits := y |}].

Lemma ex_dest_wf x y : 0 ≤ x < 16 → 0 ≤ y < 4 → netdest_wf ex_rs (ex_dest x y).
Proof.
  intros Hx Hy. split; [done|]. intros [|[|i]] s Hs; simplify_eq/=.
  - repeat split; simpl; lia.
  - repeat split; simpl; lia.
Qed.

Lemma netdest_set_algebra_witness :
  ∃ r, intersectionIsNotEmpty (ex_dest 4 1) (ex_dest 2 3) = Ok r ∧
       (r = true ↔ ∃ i j, 0 ≤ j ∧ has (ex_dest 2 3) i j = true ∧ has (ex_dest 4 1) i j = true).
Proof.
  destruct (netdest_set_algebra ex_rs (ex_dest 2 3) (ex_dest 4 1) ex_rs_ok) as (_ & _ & _ & _ & H);
    [apply ex_dest_wf; lia|apply ex_dest_wf; lia|exact H].
Defined.
