(* ===== verification/Flit.v ===== *)
(** * Flits, credits and flit buffers

    src/mem/ruby/network/garnet/CommonTypes.hh, flit.{hh,cc}, Credit.{hh,cc}
    and flitBuffer.{hh,cc}. A [flit*] is owned by exactly one buffer at a time,
    so a flit is a value here and a buffer holds the flits themselves. *)

From S2P Require Import Prelude IntMath NetDest.

(** ** CommonTypes.hh *)

Inductive flit_type := HEAD_ | BODY_ | TAIL_ | HEAD_TAIL_ | CREDIT_ | NUM_FLIT_TYPE_.
Inductive VC_state_type := IDLE_ | VC_AB_ | ACTIVE_ | NUM_VC_STATE_TYPE_.
Inductive VNET_type := CTRL_VNET_ | DATA_VNET_ | NULL_VNET_ | NUM_VNET_TYPE_.
Inductive flit_stage := I_ | VA_ | SA_ | ST_ | LT_ | NUM_FLIT_STAGE_.
Inductive link_type := EXT_IN_ | EXT_OUT_ | INT_ | NUM_LINK_TYPES_.
Inductive RoutingAlgorithm := TABLE_ | XY_ | CUSTOM_ | NUM_ROUTING_ALGORITHM_.

#[export] Instance flit_type_eq_dec : EqDecision flit_type.
Proof. solve_decision. Defined.
#[export] Instance VC_state_type_eq_dec : EqDecision VC_state_type.
Proof. solve_decision. Defined.
#[export] Instance VNET_type_eq_dec : EqDecision VNET_type.
Proof. solve_decision. Defined.
#[export] Instance flit_stage_eq_dec : EqDecision flit_stage.
Proof. solve_decision. Defined.
#[export] Instance link_type_eq_dec : EqDecision link_type.
Proof. solve_decision. Defined.

Definition INFINITE_ : Z := 10000.

Record RouteInfo := {
  vnet : Z;
  net_dest : NetDest;
  src_ni : Z;
  src_router : Z;
  dest_ni : Z;
  dest_router : Z;
  hops_traversed : Z
}.

Definition new_RouteInfo : RouteInfo :=
  {| vnet := 0; net_dest := []; src_ni := 0; src_router := 0; dest_ni := 0; dest_router := 0;
     hops_traversed := 0 |}.

(** ** flit *)

(** A shared pointer to a message: a handle of the message store, or null. *)
Definition MsgPtr := option Z.

(** [m_outport] and [src_delay] are not set by the constructor: [None] until
    they are. [m_is_free_signal] is [Some] for the subclass [Credit]. *)
Record flit := {
  m_width : Z;
  msgSize : Z;
  m_packet_id : Z;
  m_id : Z;
  m_vnet : Z;
  m_vc : Z;
  m_route : RouteInfo;
  m_size : Z;
  m_enqueue_time : Z;
  m_dequeue_time : Z;
  m_time : Z;
  m_type : flit_type;
  m_msg_ptr : MsgPtr;
  m_outport : option Z;
  src_delay : option Z;
  m_stage : flit_stage * Z;
  m_is_free_signal : option bool
}.

(** The type a flit gets from its place in the packet. *)
Definition flit_type_of (id size : Z) : flit_type :=
  if size =? 1 then HEAD_TAIL_
  else if id =? 0 then HEAD_
  else if id =? size - 1 then TAIL_
  else BODY_.

Definition new_flit (packet_id id vc vnet : Z) (route : RouteInfo) (size : Z)
    (msg_ptr : MsgPtr) (MsgSize bWidth curTime : Z) : flit := {|
  m_width := bWidth; msgSize := MsgSize; m_packet_id := packet_id; m_id := id; m_vnet := vnet;
  m_vc := vc; m_route := route; m_size := size; m_enqueue_time := curTime;
  m_dequeue_time := curTime; m_time := curTime; m_type := flit_type_of id size;
  m_msg_ptr := msg_ptr; m_outport := None; src_delay := None; m_stage := (I_, curTime);
  m_is_free_signal := None |}.

Definition upd_flit (f : flit) (vc : Z) (route : RouteInfo) (enq deq time : Z) (ty : flit_type)
    (outport delay : option Z) (stage : flit_stage * Z) (free : option bool) : flit := {|
  m_width := m_width f; msgSize := msgSize f; m_packet_id := m_packet_id f; m_id := m_id f;
  m_vnet := m_vnet f; m_vc := vc; m_route := route; m_size := m_size f; m_enqueue_time := enq;
  m_dequeue_time := deq; m_time := time; m_type := ty; m_msg_ptr := m_msg_ptr f;
  m_outport := outport; src_delay := delay; m_stage := stage; m_is_free_signal := free |}.

Definition set_outport (port : Z) (f : flit) : flit :=
  upd_flit f (m_vc f) (m_route f) (m_enqueue_time f) (m_dequeue_time f) (m_time f) (m_type f)
    (Some port) (src_delay f) (m_stage f) (m_is_free_signal f).
Definition set_time (time : Z) (f : flit) : flit :=
  upd_flit f (m_vc f) (m_route f) (m_enqueue_time f) (m_dequeue_time f) time (m_type f)
    (m_outport f) (src_delay f) (m_stage f) (m_is_free_signal f).
Definition set_vc (vc : Z) (f : flit) : flit :=
  upd_flit f vc (m_route f) (m_enqueue_time f) (m_dequeue_time f) (m_time f) (m_type f)
    (m_outport f) (src_delay f) (m_stage f) (m_is_free_signal f).
Definition set_route (route : RouteInfo) (f : flit) : flit :=
  upd_flit f (m_vc f) route (m_enqueue_time f) (m_dequeue_time f) (m_time f) (m_type f)
    (m_outport f) (src_delay f) (m_stage f) (m_is_free_signal f).
Definition set_src_delay (delay : option Z) (f : flit) : flit :=
  upd_flit f (m_vc f) (m_route f) (m_enqueue_time f) (m_dequeue_time f) (m_time f) (m_type f)
    (m_outport f) delay (m_stage f) (m_is_free_signal f).
Definition set_dequeue_time (time : Z) (f : flit) : flit :=
  upd_flit f (m_vc f) (m_route f) (m_enqueue_time f) time (m_time f) (m_type f)
    (m_outport f) (src_delay f) (m_stage f) (m_is_free_signal f).
Definition set_enqueue_time (time : Z) (f : flit) : flit :=
  upd_flit f (m_vc f) (m_route f) time (m_dequeue_time f) (m_time f) (m_type f)
    (m_outport f) (src_delay f) (m_stage f) (m_is_free_signal f).
Definition advance_stage (t_stage : flit_stage) (newTime : Z) (f : flit) : flit :=
  upd_flit f (m_vc f) (m_route f) (m_enqueue_time f) (m_dequeue_time f) (m_time f) (m_type f)
    (m_outport f) (src_delay f) (t_stage, newTime) (m_is_free_signal f).

Definition increment_hops (f : flit) : flit :=
  let r := m_route f in
  set_route {| vnet := vnet r; net_dest := net_dest r; src_ni := src_ni r;
               src_router := src_router r; dest_ni := dest_ni r; dest_router := dest_router r;
               hops_traversed := hops_traversed r + 1 |} f.

Definition is_stage (stage : flit_stage) (time : Z) (f : flit) : bool :=
  bool_decide (stage = fst (m_stage f)) && (snd (m_stage f) <=? time).

Definition greater (n1 n2 : flit) : bool :=
  if m_time n1 =? m_time n2 then m_id n2 <? m_id n1 else m_time n2 <? m_time n1.

(** ** Credit *)

Definition new_Credit (vc : Z) (is_free_signal : bool) (curTime : Z) : flit :=
  let f := new_flit 0 0 vc 0 new_RouteInfo 0 None 0 0 curTime in
  upd_flit f vc (m_route f) (m_enqueue_time f) (m_dequeue_time f) (m_time f) CREDIT_
    (m_outport f) (src_delay f) (m_stage f) (Some is_free_signal).

Definition Credit_serialize (free : bool) (f : flit) (ser_id parts bWidth : Z) : flit :=
  new_Credit (m_vc f) ((ser_id + 1 =? parts) && free) (m_time f).

Definition Credit_deserialize (free : bool) (f : flit) (des_id num_flits bWidth : Z) : flit :=
  if free then new_Credit (m_vc f) true (m_time f) else new_Credit (m_vc f) false (m_time f).

(** ** Width conversion

    [divCeil] is applied to floats whose values are small integers; the result
    truncated to [int] is the integer quotient. *)

Definition flit_serialize (f : flit) (ser_id parts bWidth : Z) : res flit :=
  let* _ := assert_ "serialize: m_width > bWidth" (bWidth <? m_width f) in
  let ratio := divCeil (m_width f) bWidth in
  let new_id := m_id f * ratio + ser_id in
  let new_size := divCeil (msgSize f) bWidth in
  let* _ := assert_ "serialize: new_id < new_size" (new_id <? new_size) in
  let fl := new_flit (m_packet_id f) new_id (m_vc f) (m_vnet f) (m_route f) new_size
              (m_msg_ptr f) (msgSize f) bWidth (m_time f) in
  Ok (set_src_delay (src_delay f) (set_enqueue_time (m_enqueue_time f) fl)).

Definition flit_deserialize (f : flit) (des_id num_flits bWidth : Z) : res flit :=
  let ratio := divCeil bWidth (m_width f) in
  let new_id := divCeil (m_id f + 1) ratio - 1 in
  let new_size := divCeil (msgSize f) bWidth in
  let* _ := assert_ "deserialize: new_id < new_size" (new_id <? new_size) in
  let fl := new_flit (m_packet_id f) new_id (m_vc f) (m_vnet f) (m_route f) new_size
              (m_msg_ptr f) (msgSize f) bWidth (m_time f) in
  Ok (set_src_delay (src_delay f) (set_enqueue_time (m_enqueue_time f) fl)).

(** The virtual calls. *)
Definition serialize (f : flit) (ser_id parts bWidth : Z) : res flit :=
  match m_is_free_signal f with
  | Some free => Ok (Credit_serialize free f ser_id parts bWidth)
  | None => flit_serialize f ser_id parts bWidth
  end.

Definition deserialize (f : flit) (des_id num_flits bWidth : Z) : res flit :=
  match m_is_free_signal f with
  | Some free => Ok (Credit_deserialize free f des_id num_flits bWidth)
  | None => flit_deserialize f des_id num_flits bWidth
  end.

(** ** flitBuffer *)

Record flitBuffer := { m_buffer : list flit; max_size : Z }.

Definition new_flitBuffer : flitBuffer := {| m_buffer := []; max_size := INFINITE_ |}.
Definition new_flitBuffer_sized (maximum_size : Z) : flitBuffer :=
  {| m_buffer := []; max_size := maximum_size |}.

Definition with_buffer (b : flitBuffer) (l : list flit) : flitBuffer :=
  {| m_buffer := l; max_size := max_size b |}.

Definition isEmpty (b : flitBuffer) : bool := Nat.eqb (length (m_buffer b)) 0.

Definition isReady (curTime : Z) (b : flitBuffer) : bool :=
  match m_buffer b with [] => false | f :: _ => m_time f <=? curTime end.

Definition isFull (b : flitBuffer) : bool := max_size b <=? Z.of_nat (length (m_buffer b)).

Definition setMaxSize (maximum : Z) (b : flitBuffer) : flitBuffer :=
  {| m_buffer := m_buffer b; max_size := maximum |}.

Definition getSize (b : flitBuffer) : Z := Z.of_nat (length (m_buffer b)).

(** [front()] of an empty deque is undefined. *)
Definition peekTopFlit (b : flitBuffer) : res flit :=
  match m_buffer b with [] => Err EOutOfRange | f :: _ => Ok f end.

Definition getTopFlit (b : flitBuffer) : res (flit * flitBuffer) :=
  match m_buffer b with [] => Err EOutOfRange | f :: l => Ok (f, with_buffer b l) end.

Definition insert (flt : flit) (b : flitBuffer) : flitBuffer := with_buffer b (m_buffer b ++ [flt]).

(** ** Functional accesses

    A functional read or write visits the messages of the buffered flits. The
    message classes are generated by the protocol compiler: their accessors are
    parameters acting on a state [M] (the packet with its mask, or the message
    store) and returning whether the message took part. *)

Section functional.
Context {M : Type} (access : MsgPtr → M → bool * M).

Definition flit_access (f : flit) (m : M) : bool * M := access (m_msg_ptr f) m.

(** [flitBuffer::functionalRead] *)
Definition buffer_functionalRead (b : flitBuffer) (m : M) : bool * M :=
  foldl (fun '(read, m) f => let '(r, m) := flit_access f m in (if r then true else read, m))
    (false, m) (m_buffer b).

(** [flitBuffer::functionalWrite] *)
Definition buffer_functionalWrite (b : flitBuffer) (m : M) : Z * M :=
  foldl (fun '(num, m) f => let '(r, m) := flit_access f m in (if r then u32 (num + 1) else num, m))
    (0, m) (m_buffer b).

End functional.

(** ** Properties *)

(** The type and size of a data flit agree with its place in a packet of
    [msgSize] bits cut into flits of its width. *)
Definition data_flit_wf (f : flit) : Prop :=
  m_is_free_signal f = None ∧ 0 < m_width f ∧ 0 ≤ m_id f
  ∧ m_size f = divCeil (msgSize f) (m_width f) ∧ m_id f < m_size f
  ∧ m_type f = flit_type_of (m_id f) (m_size f).

(** The fields that identify a flit and its payload. *)
Definition same_payload (f g : flit) : Prop :=
  m_width f = m_width g ∧ msgSize f = msgSize g ∧ m_packet_id f = m_packet_id g
  ∧ m_id f = m_id g ∧ m_vnet f = m_vnet g ∧ m_vc f = m_vc g ∧ m_route f = m_route g
  ∧ m_size f = m_size g ∧ m_type f = m_type g ∧ m_msg_ptr f = m_msg_ptr g
  ∧ m_enqueue_time f = m_enqueue_time g ∧ src_delay f = src_delay g ∧ m_time f = m_time g.

Lemma divCeil_split id r k : 0 < r → 0 ≤ k < r → divCeil (id * r + k + 1) r = id + 1.
Proof.
  intros Hr Hk. unfold divCeil. symmetry. apply (Z.div_unique _ r (id + 1) k); lia.
Qed.

(** C30: Width conversion is invertible: if a well-formed data flit is cut into
    narrower flits, each piece is itself a well-formed flit of the packet at
    the narrow width, and widening any piece back gives the original flit. *)
Theorem serdes_roundtrip f g k parts nflits w :
  data_flit_wf f → 0 < w → 0 ≤ k < divCeil (m_width f) w →
  serialize f k parts w = Ok g →
  data_flit_wf g ∧ ∃ h, deserialize g k nflits (m_width f) = Ok h ∧ same_payload h f.
Proof.
  intros (Hc & Hw & Hid & Hsz & Hlt & Hty) Hw' Hk. unfold serialize. rewrite Hc. unfold flit_serialize.
  intros Hs. inv_res. zbool.
  assert (0 < divCeil (m_width f) w) by (apply divCeil_pos; lia).
  split; [repeat split; simpl; (done || nia)|].
  unfold deserialize. simpl. unfold flit_deserialize. simpl.
  rewrite divCeil_split, <-Hsz by lia. replace (m_id f + 1 - 1) with (m_id f) by lia.
  unfold assert_. rewrite (proj2 (Z.ltb_lt _ _)) by done. simpl.
  eexists. split; [done|]. unfold same_payload. simpl. by rewrite Hsz, Hty, Hsz.
Qed.

Definition ex_flit : flit := new_flit 7 1 2 0 new_RouteInfo 3 (Some 1) 576 256 100.

Lemma serdes_roundtrip_witness :
  ∃ g, serialize ex_flit 1 2 128 = Ok g ∧ m_id g = 3 ∧ m_size g = 5 ∧
  data_flit_wf g ∧ ∃ h, deserialize g 1 2 (m_width ex_flit) = Ok h ∧ same_payload h ex_flit.
Proof.
  eexists. split; [vm_compute; reflexivity|]. split; [reflexivity|]. split; [reflexivity|].
  apply (serdes_roundtrip ex_flit _ 1 2 2 128).
  - repeat split; vm_compute; congruence.
  - lia.
  - vm_compute. split; congruence.
  - vm_compute. reflexivity.
Defined.
