(* ===== verification/RoutingUnit.v ===== *)
(** * Routing: garnet/RoutingUnit.{hh,cc}

    Table routing with weights, XY routing on a mesh, and the configuration of
    [GarnetNetwork] that the routers read. *)

From S2P Require Import Prelude IntMath NetDest Flit.

(** The configuration accessors of GarnetNetwork.hh. *)
Record NetConfig := {
  getNumRows : Z;
  getNumCols : Z;
  getNiFlitSize : Z;
  getBuffersPerDataVC : Z;
  getBuffersPerCtrlVC : Z;
  getRoutingAlgorithm : Z;
  m_ordered : list bool;
  m_vnet_type : list VNET_type
}.

Definition isVNetOrdered (cfg : NetConfig) (vnet : Z) : res bool := vec_get (m_ordered cfg) vnet.
Definition get_vnet_type (cfg : NetConfig) (vnet : Z) : res VNET_type := vec_get (m_vnet_type cfg) vnet.

(** A port direction is a string in the source. *)
Definition PortDirection := string.

Record RoutingUnit := {
  m_routing_table : list (list NetDest);
  m_weight_table : list Z;
  m_inports_dirn2idx : gmap PortDirection Z;
  m_inports_idx2dirn : gmap Z PortDirection;
  m_outports_idx2dirn : gmap Z PortDirection;
  m_outports_dirn2idx : gmap PortDirection Z
}.

Definition new_RoutingUnit : RoutingUnit :=
  {| m_routing_table := []; m_weight_table := []; m_inports_dirn2idx := ∅; m_inports_idx2dirn := ∅;
     m_outports_idx2dirn := ∅; m_outports_dirn2idx := ∅ |}.

Definition with_table (ru : RoutingUnit) (t : list (list NetDest)) : RoutingUnit :=
  {| m_routing_table := t; m_weight_table := m_weight_table ru;
     m_inports_dirn2idx := m_inports_dirn2idx ru; m_inports_idx2dirn := m_inports_idx2dirn ru;
     m_outports_idx2dirn := m_outports_idx2dirn ru; m_outports_dirn2idx := m_outports_dirn2idx ru |}.

Definition with_out_dirn (ru : RoutingUnit) (d : gmap PortDirection Z) : RoutingUnit :=
  {| m_routing_table := m_routing_table ru; m_weight_table := m_weight_table ru;
     m_inports_dirn2idx := m_inports_dirn2idx ru; m_inports_idx2dirn := m_inports_idx2dirn ru;
     m_outports_idx2dirn := m_outports_idx2dirn ru; m_outports_dirn2idx := d |}.

(** One NetDest per vnet is appended to that vnet's column. *)
Definition addRoute (routing_table_entry : list NetDest) (ru : RoutingUnit) : res RoutingUnit :=
  let table :=
    if Nat.ltb (length (m_routing_table ru)) (length routing_table_entry)
    then m_routing_table ru
         ++ replicate (length routing_table_entry - length (m_routing_table ru)) []
    else m_routing_table ru in
  let* t := for_range 0 (length routing_table_entry) (fun v t =>
    let* e := vec_get routing_table_entry v in
    vec_upd t v (fun l => Ok (l ++ [e]))) table in
  Ok (with_table ru t).

Definition addWeight (link_weight : Z) (ru : RoutingUnit) : RoutingUnit :=
  {| m_routing_table := m_routing_table ru; m_weight_table := m_weight_table ru ++ [link_weight];
     m_inports_dirn2idx := m_inports_dirn2idx ru; m_inports_idx2dirn := m_inports_idx2dirn ru;
     m_outports_idx2dirn := m_outports_idx2dirn ru; m_outports_dirn2idx := m_outports_dirn2idx ru |}.

Definition supportsVnet (vnet : Z) (sVnets : list Z) : bool :=
  if Nat.eqb (length sVnets) 0 then true else existsb (Z.eqb vnet) sVnets.

(** [rnd] is the value [rand()] returns if it is called. *)
Definition lookupRoutingTable (cfg : NetConfig) (rnd vnet : Z) (msg_destination : NetDest)
    (ru : RoutingUnit) : res Z :=
  let* links := vec_get (m_routing_table ru) vnet in
  (* the minimum weight among the candidate output links *)
  let* min_weight := for_range 0 (length links) (fun link min_weight =>
    let* e := vec_get links link in
    let* meets := intersectionIsNotEmpty e msg_destination in
    if meets then
      let* w := vec_get (m_weight_table ru) link in
      Ok (if w <=? min_weight then w else min_weight)
    else Ok min_weight) INFINITE_ in
  (* all candidate output links with this minimum weight *)
  let* output_link_candidates := for_range 0 (length links) (fun link cands =>
    let* e := vec_get links link in
    let* meets := intersectionIsNotEmpty e msg_destination in
    if meets then
      let* w := vec_get (m_weight_table ru) link in
      Ok (if w =? min_weight then cands ++ [link] else cands)
    else Ok cands) [] in
  if Nat.eqb (length output_link_candidates) 0 then
    Err (EFatal "No Route exists from this Router.")
  else
    let* ordered := isVNetOrdered cfg vnet in
    let candidate :=
      if ordered then 0 else rnd mod Z.of_nat (length output_link_candidates) in
    vec_get output_link_candidates candidate.

Definition addInDirection (inport_dirn : PortDirection) (inport_idx : Z) (ru : RoutingUnit) : RoutingUnit :=
  {| m_routing_table := m_routing_table ru; m_weight_table := m_weight_table ru;
     m_inports_dirn2idx := <[inport_dirn := inport_idx]> (m_inports_dirn2idx ru);
     m_inports_idx2dirn := <[inport_idx := inport_dirn]> (m_inports_idx2dirn ru);
     m_outports_idx2dirn := m_outports_idx2dirn ru; m_outports_dirn2idx := m_outports_dirn2idx ru |}.

Definition addOutDirection (outport_dirn : PortDirection) (outport_idx : Z) (ru : RoutingUnit) : RoutingUnit :=
  {| m_routing_table := m_routing_table ru; m_weight_table := m_weight_table ru;
     m_inports_dirn2idx := m_inports_dirn2idx ru; m_inports_idx2dirn := m_inports_idx2dirn ru;
     m_outports_idx2dirn := <[outport_idx := outport_dirn]> (m_outports_idx2dirn ru);
     m_outports_dirn2idx := <[outport_dirn := outport_idx]> (m_outports_dirn2idx ru) |}.

(** The direction [outportComputeXY] picks. *)
Definition xy_direction (cfg : NetConfig) (my_id : Z) (route : RouteInfo) (inport_dirn : PortDirection)
    : res PortDirection :=
  let num_rows := getNumRows cfg in
  let num_cols := getNumCols cfg in
  let* _ := assert_ "num_rows > 0 && num_cols > 0" ((0 <? num_rows) && (0 <? num_cols)) in
  let my_x := Z.rem my_id num_cols in
  let my_y := Z.quot my_id num_cols in
  let dest_id := dest_router route in
  let dest_x := Z.rem dest_id num_cols in
  let dest_y := Z.quot dest_id num_cols in
  let x_hops := Z.abs (dest_x - my_x) in
  let y_hops := Z.abs (dest_y - my_y) in
  let x_dirn := my_x <=? dest_x in
  let y_dirn := my_y <=? dest_y in
  let* _ := assert_ "!(x_hops == 0 && y_hops == 0)" (negb ((x_hops =? 0) && (y_hops =? 0))) in
  if 0 <? x_hops then
    if x_dirn then
      let* _ := assert_ "XY: from Local or West"
        (String.eqb inport_dirn "Local" || String.eqb inport_dirn "West") in
      Ok "East"
    else
      let* _ := assert_ "XY: from Local or East"
        (String.eqb inport_dirn "Local" || String.eqb inport_dirn "East") in
      Ok "West"
  else if 0 <? y_hops then
    if y_dirn then
      let* _ := assert_ "XY: not from North" (negb (String.eqb inport_dirn "North")) in
      Ok "North"
    else
      let* _ := assert_ "XY: not from South" (negb (String.eqb inport_dirn "South")) in
      Ok "South"
  else Err (EPanic "x_hops == y_hops == 0").

(** [std::map::operator[]]: a missing key is inserted with value 0. *)
Definition map_index (k : PortDirection) (m : gmap PortDirection Z) : Z * gmap PortDirection Z :=
  match m !! k with Some v => (v, m) | None => (0, <[k := 0]> m) end.

Definition outportComputeXY (cfg : NetConfig) (my_id : Z) (route : RouteInfo) (inport : Z)
    (inport_dirn : PortDirection) (ru : RoutingUnit) : res (Z * RoutingUnit) :=
  let* outport_dirn := xy_direction cfg my_id route inport_dirn in
  let '(idx, m) := map_index outport_dirn (m_outports_dirn2idx ru) in
  Ok (idx, with_out_dirn ru m).

Definition outportComputeCustom (route : RouteInfo) (inport : Z) (inport_dirn : PortDirection) : res Z :=
  Err (EPanic "outportComputeCustom placeholder executed").

Definition outportCompute (cfg : NetConfig) (rnd my_id : Z) (route : RouteInfo) (inport : Z)
    (inport_dirn : PortDirection) (ru : RoutingUnit) : res (Z * RoutingUnit) :=
  if dest_router route =? my_id then
    let* outport := lookupRoutingTable cfg rnd (vnet route) (net_dest route) ru in
    Ok (outport, ru)
  else
    let* ' (outport, ru) :=
      match getRoutingAlgorithm cfg with
      | 1 => outportComputeXY cfg my_id route inport inport_dirn ru
      | 2 => let* o := outportComputeCustom route inport inport_dirn in Ok (o, ru)
      | _ => let* o := lookupRoutingTable cfg rnd (vnet route) (net_dest route) ru in Ok (o, ru)
      end in
    let* _ := assert_ "outport != -1" (negb (outport =? -1)) in
    Ok (outport, ru).

(** ** Table routing *)

(** Whether a routing-table entry shares a destination with the message. *)
Definition meets (dest e : NetDest) : bool :=
  match intersectionIsNotEmpty e dest with Ok b => b | Err _ => false end.

Definition link_meets (dest : NetDest) (links : list NetDest) (l : Z) : bool :=
  match links !! Z.to_nat l with Some e => meets dest e | None => false end.

Definition weight (ru : RoutingUnit) (l : Z) : Z := m_weight_table ru !!! Z.to_nat l.

(** The routing table of a vnet as topology creation leaves it: one entry of
    the system's shape and one weight per output link. *)
Record table_ok (rs : RubySystem) (ru : RoutingUnit) (vnet : Z) (dest : NetDest) (links : list NetDest)
    : Prop := {
  to_rs : ruby_system_ok rs;
  to_links : vec_get (m_routing_table ru) vnet = Ok links;
  to_weights : length (m_weight_table ru) = length links;
  to_entries : Forall (netdest_wf rs) links;
  to_dest : netdest_wf rs dest
}.

Section table.
Context (rs : RubySystem) (ru : RoutingUnit) (vnet : Z) (dest : NetDest) (links : list NetDest).
Context (Hok : table_ok rs ru vnet dest links).

Lemma table_entry l :
  0 ≤ l < Z.of_nat (length links) →
  ∃ e, vec_get links l = Ok e ∧ intersectionIsNotEmpty e dest = Ok (link_meets dest links l)
       ∧ vec_get (m_weight_table ru) l = Ok (weight ru l).
Proof.
  intros Hl. destruct Hok as [Hrs _ Hw He Hd].
  destruct (vec_get_in_range links l Hl) as [e Hg]. exists e. split; [done|].
  apply vec_get_ok in Hg as [_ Hlook].
  assert (netdest_wf rs e) as Hewf by (by eapply Forall_lookup_1).
  split.
  - unfold link_meets, meets. rewrite Hlook.
    destruct (intersection_spec rs Hrs dest e Hd Hewf) as (r & -> & _). done.
  - apply vec_get_ok. split; [lia|]. apply list_lookup_lookup_total_lt. lia.
Qed.

(** A link is a route when its entry shares a machine with the destination. *)
Lemma link_meets_iff l :
  link_meets dest links l = true ↔
  ∃ e i j, links !! Z.to_nat l = Some e ∧ 0 ≤ j ∧ has dest i j = true ∧ has e i j = true.
Proof.
  destruct Hok as [Hrs _ _ He Hd]. unfold link_meets, meets.
  destruct (links !! Z.to_nat l) as [e|] eqn:Hlook; [|naive_solver].
  assert (netdest_wf rs e) as Hewf by (by eapply Forall_lookup_1).
  destruct (intersection_spec rs Hrs dest e Hd Hewf) as (r & -> & Hr). rewrite Hr. naive_solver.
Qed.

Definition min_step (l mn : Z) : Z :=
  if link_meets dest links l then if weight ru l <=? mn then weight ru l else mn else mn.

Definition cand_step (mn l : Z) (cands : list Z) : list Z :=
  if link_meets dest links l then if weight ru l =? mn then cands ++ [l] else cands else cands.

(** The table lookup with its loops as folds. *)
Lemma lookupRoutingTable_folds cfg rnd :
  lookupRoutingTable cfg rnd vnet dest ru =
    (let idxs := seqZ 0 (Z.of_nat (length links)) in
     let mn := foldl (fun mn l => min_step l mn) INFINITE_ idxs in
     let cands := foldl (fun c l => cand_step mn l c) [] idxs in
     if Nat.eqb (length cands) 0 then Err (EFatal "No Route exists from this Router.")
     else let* ordered := isVNetOrdered cfg vnet in
          vec_get cands (if ordered then 0 else rnd mod Z.of_nat (length cands))).
Proof.
  unfold lookupRoutingTable. rewrite (to_links _ _ _ _ _ Hok). simpl.
  rewrite (for_range_pure min_step); simpl.
  - rewrite (for_range_pure (cand_step (foldl (fun mn l => min_step l mn) INFINITE_
      (seqZ 0 (Z.of_nat (length links)))))); simpl; [done|].
    intros l t Hl. destruct (table_entry l) as (e & He & Hm & Hw); [lia|].
    rewrite He. simpl. rewrite Hm. simpl. unfold cand_step.
    destruct (link_meets dest links l); [|done]. rewrite Hw. simpl. done.
  - intros l t Hl. destruct (table_entry l) as (e & He & Hm & Hw); [lia|].
    rewrite He. simpl. rewrite Hm. simpl. unfold min_step.
    destruct (link_meets dest links l); [|done]. rewrite Hw. simpl. done.
Qed.

Lemma foldl_min idxs m0 :
  let mn := foldl (fun mn l => min_step l mn) m0 idxs in
  mn ≤ m0 ∧ (∀ l, l ∈ idxs → link_meets dest links l = true → mn ≤ weight ru l)
  ∧ (mn = m0 ∨ ∃ l, l ∈ idxs ∧ link_meets dest links l = true ∧ weight ru l = mn).
Proof using Type.
  clear Hok. revert m0. induction idxs as [|l idxs IH]; intros m0; simpl.
  - split; [lia|]. split; [set_solver|by left].
  - destruct (IH (min_step l m0)) as (H1 & H2 & H3). revert H1 H2 H3.
    set (mn := foldl _ _ idxs). intros.
    assert (min_step l m0 ≤ m0 ∧ (link_meets dest links l = true → min_step l m0 ≤ weight ru l)
      ∧ (min_step l m0 = m0 ∨ link_meets dest links l = true ∧ weight ru l = min_step l m0)) as (?&?&Hs).
    { unfold min_step. destruct (link_meets dest links l); [|naive_solver lia]. zcase; naive_solver lia. }
    split; [lia|]. split.
    + intros k [->|Hk]%elem_of_cons Hm; [|by apply H2]. specialize (H0 Hm). lia.
    + destruct H3 as [H3|(k & Hk & Hm & Hw)]; [|right; exists k; set_solver].
      rewrite H3. destruct Hs as [->|[Hm Hw]]; [by left|]. right. exists l. set_solver.
Qed.

Lemma foldl_cands mn idxs c0 :
  foldl (fun c l => cand_step mn l c) c0 idxs
  = c0 ++ filter (fun l => link_meets dest links l = true ∧ weight ru l = mn) idxs.
Proof using Type.
  clear Hok. revert c0. induction idxs as [|l idxs IH]; intros c0; simpl; [by rewrite app_nil_r|].
  rewrite IH, filter_cons. unfold cand_step. destruct (link_meets dest links l) eqn:E.
  - destruct (Z.eqb_spec (weight ru l) mn).
    + rewrite decide_True by done. by rewrite <-app_assoc.
    + rewrite decide_False by naive_solver. done.
  - rewrite decide_False by naive_solver. done.
Qed.

End table.

(** Table routing picks an output link whose entry shares a machine with
    the message's destinations and whose weight is the least among those links;
    on an ordered vnet it is the first such link, so packets of an ordered vnet
    cannot take different routes. The lookup is fatal exactly when no link that
    leads to a destination has a weight within INFINITE_. *)
Theorem lookupRoutingTable_min_weight rs ru vnet dest links cfg rnd ordered :
  table_ok rs ru vnet dest links → isVNetOrdered cfg vnet = Ok ordered →
  match lookupRoutingTable cfg rnd vnet dest ru with
  | Ok l =>
      link_meets dest links l = true ∧ weight ru l ≤ INFINITE_
      ∧ (∀ k, 0 ≤ k < Z.of_nat (length links) → link_meets dest links k = true →
           weight ru l ≤ weight ru k ∧ (ordered = true → weight ru k = weight ru l → l ≤ k))
  | Err e =>
      e = EFatal "No Route exists from this Router."
      ∧ ∀ k, 0 ≤ k < Z.of_nat (length links) → link_meets dest links k = true → INFINITE_ < weight ru k
  end.
Proof.
  intros Hok Hord. rewrite (lookupRoutingTable_folds rs _ _ _ links) by done. cbv zeta.
  set (idxs := seqZ 0 (Z.of_nat (length links))).
  set (mn := foldl _ INFINITE_ idxs).
  rewrite foldl_cands. simpl.
  set (P := fun l => link_meets dest links l = true ∧ weight ru l = mn).
  destruct (foldl_min ru dest links idxs INFINITE_) as (Hle & Hmin & Hex). fold mn in Hle, Hmin, Hex.
  assert (∀ k, 0 ≤ k < Z.of_nat (length links) → k ∈ idxs) as Hidx
    by (intros; apply elem_of_seqZ; lia).
  destruct (filter P idxs) as [|c cands] eqn:Hf; simpl.
  - split; [done|]. intros k Hk Hm. specialize (Hmin k (Hidx k Hk) Hm).
    assert (weight ru k ≠ mn).
    { intros Hw. assert (k ∈ filter P idxs) as Hin by (apply list_elem_of_filter; unfold P; auto).
      rewrite Hf in Hin. set_solver. }
    destruct Hex as [Hex|(l & Hl & Hlm & Hlw)]; [lia|].
    assert (l ∈ filter P idxs) as Hin by (apply list_elem_of_filter; unfold P; auto).
    rewrite Hf in Hin. set_solver.
  - rewrite Hord. simpl.
    set (n := Z.of_nat (S (length cands))).
    destruct (vec_get_in_range (c :: cands) (if ordered then 0 else rnd mod n)) as [l Hl].
    { destruct ordered; [simpl; lia|]. apply Z.mod_pos_bound. simpl. lia. }
    rewrite Hl. apply vec_get_ok in Hl as [_ Hl].
    assert (l ∈ filter P idxs) as Hin by (rewrite Hf; by eapply list_elem_of_lookup_2).
    apply list_elem_of_filter in Hin as [[Hlm Hlw] _]. split; [done|]. split; [lia|].
    intros k Hk Hkm. specialize (Hmin k (Hidx k Hk) Hkm). split; [lia|].
    intros -> Hkw. simplify_eq/=. eapply (sorted_filter_head P idxs); [apply seqZ_sorted|exact Hf| |].
    + by apply Hidx.
    + split; [done|lia].
Qed.

Definition ex_ru : RoutingUnit :=
  {| m_routing_table := [[ex_dest 3 0; ex_dest 12 1; ex_dest 12 2]]; m_weight_table := [1; 2; 1];
     m_inports_dirn2idx := ∅; m_inports_idx2dirn := ∅; m_outports_idx2dirn := ∅;
     m_outports_dirn2idx := ∅ |}.

Definition ex_cfg : NetConfig :=
  {| getNumRows := 2; getNumCols := 3; getNiFlitSize := 16; getBuffersPerDataVC := 4;
     getBuffersPerCtrlVC := 1; getRoutingAlgorithm := 0; m_ordered := [true];
     m_vnet_type := [DATA_VNET_] |}.

Lemma lookupRoutingTable_min_weight_witness :
  lookupRoutingTable ex_cfg 5 0 (ex_dest 4 0) ex_ru = Ok 2
  ∧ ∀ k, 0 ≤ k < 3 →
      link_meets (ex_dest 4 0) [ex_dest 3 0; ex_dest 12 1; ex_dest 12 2] k = true →
      weight ex_ru 2 ≤ weight ex_ru k.
Proof.
  assert (lookupRoutingTable ex_cfg 5 0 (ex_dest 4 0) ex_ru = Ok 2) as E by (vm_compute; reflexivity).
  split; [exact E|].
  pose proof (lookupRoutingTable_min_weight ex_rs ex_ru 0 (ex_dest 4 0)
    [ex_dest 3 0; ex_dest 12 1; ex_dest 12 2] ex_cfg 5 true) as H.
  rewrite E in H. destruct H as (_ & _ & H).
  - split; [exact ex_rs_ok|reflexivity|reflexivity| |apply ex_dest_wf; lia].
    rewrite !Forall_cons. split_and!; [apply ex_dest_wf; lia..|apply Forall_nil_2].
  - reflexivity.
  - intros k Hk Hm. apply (H k Hk Hm).
Defined.

(** ** XY routing on a mesh

    Router [y * cols + x] sits at column [x], row [y]. Leaving eastwards a flit
    enters the neighbour's West port, and so on. *)

Definition neighbour (cols : Z) (d : PortDirection) (id : Z) : Z :=
  if String.eqb d "East" then id + 1
  else if String.eqb d "West" then id - 1
  else if String.eqb d "North" then id + cols
  else id - cols.

Definition opposite (d : PortDirection) : PortDirection :=
  if String.eqb d "East" then "West"
  else if String.eqb d "West" then "East"
  else if String.eqb d "North" then "South"
  else "North".

(** One hop: the router computes the outport, the link behind it leads to the
    neighbour in the port's direction. *)
Definition xy_hop (cfg : NetConfig) (ru : Z → RoutingUnit) (route : RouteInfo) (p : Z * PortDirection)
    : res (Z * PortDirection) :=
  let '(id, inport_dirn) := p in
  let* ' (outport, _) := outportComputeXY cfg id route 0 inport_dirn (ru id) in
  match m_outports_idx2dirn (ru id) !! outport with
  | Some d => Ok (neighbour (getNumCols cfg) d id, opposite d)
  | None => Err EOutOfRange
  end.

Fixpoint xy_walk (cfg : NetConfig) (ru : Z → RoutingUnit) (route : RouteInfo) (n : nat)
    (p : Z * PortDirection) : res (Z * PortDirection) :=
  match n with
  | O => Ok p
  | S n' => let* p' := xy_hop cfg ru route p in xy_walk cfg ru route n' p'
  end.

(** The direction leads to another router of the mesh. *)
Definition in_mesh (cfg : NetConfig) (d : PortDirection) (x y : Z) : bool :=
  if String.eqb d "East" then x + 1 <? getNumCols cfg
  else if String.eqb d "West" then 0 <=? x - 1
  else if String.eqb d "North" then y + 1 <? getNumRows cfg
  else if String.eqb d "South" then 0 <=? y - 1
  else false.

(** Every router has an outport for each direction that stays in the mesh. *)
Definition mesh_wired (cfg : NetConfig) (ru : Z → RoutingUnit) : Prop :=
  ∀ x y d, 0 ≤ x < getNumCols cfg → 0 ≤ y < getNumRows cfg → in_mesh cfg d x y = true →
  ∃ i, m_outports_dirn2idx (ru (y * getNumCols cfg + x)) !! d = Some i
     ∧ m_outports_idx2dirn (ru (y * getNumCols cfg + x)) !! i = Some d.

(** The port a flit came in by is one XY routing allows at this point. *)
Definition xy_inport_ok (x y dx dy : Z) (d : PortDirection) : Prop :=
  if decide (x = dx)
  then y = dy ∨ d ≠ (if y <=? dy then "North" else "South")
  else d = "Local" ∨ d = (if x <=? dx then "West" else "East").

Section xy.
Context (cfg : NetConfig) (ru : Z → RoutingUnit) (route : RouteInfo) (dx dy : Z).
Context (Hwired : mesh_wired cfg ru).
Context (Hdx : 0 ≤ dx < getNumCols cfg) (Hdy : 0 ≤ dy < getNumRows cfg).
Context (Hdest : dest_router route = dy * getNumCols cfg + dx).

Lemma mesh_coords x y :
  0 ≤ x < getNumCols cfg → 0 ≤ y →
  Z.rem (y * getNumCols cfg + x) (getNumCols cfg) = x
  ∧ Z.quot (y * getNumCols cfg + x) (getNumCols cfg) = y.
Proof using Type.
  clear Hwired Hdx Hdy Hdest. intros Hx Hy. rewrite Z.rem_mod_nonneg, Z.quot_div_nonneg by nia. split.
  - rewrite Z.add_comm, Z.mod_add by lia. apply Z.mod_small. lia.
  - symmetry. apply (Z.div_unique _ _ y x); lia.
Qed.

(** The direction XY routing takes from (x, y). *)
Definition xy_dir (x y : Z) : PortDirection :=
  if decide (x = dx) then (if y <=? dy then "North" else "South")
  else if x <=? dx then "East" else "West".

Lemma xy_direction_eq x y d :
  0 ≤ x < getNumCols cfg → 0 ≤ y < getNumRows cfg → (x, y) ≠ (dx, dy) → xy_inport_ok x y dx dy d →
  xy_direction cfg (y * getNumCols cfg + x) route d = Ok (xy_dir x y).
Proof using Hdx Hdy Hdest.
  clear Hwired. intros Hx Hy Hne Hin. unfold xy_direction. rewrite Hdest.
  destruct (mesh_coords x y) as [-> ->]; [done|lia|].
  destruct (mesh_coords dx dy) as [-> ->]; [done|lia|].
  unfold assert_. rewrite !(proj2 (Z.ltb_lt _ _)) by lia. simpl.
  unfold xy_inport_ok in Hin. unfold xy_dir. case_decide as Hxd.
  - subst x. rewrite Z.sub_diag. simpl.
    assert (y ≠ dy) by congruence. rewrite (proj2 (Z.eqb_neq _ _)) by lia. simpl.
    rewrite (proj2 (Z.ltb_lt _ _)) by lia.
    destruct Hin as [|Hin]; [done|].
    destruct (y <=? dy); by rewrite (proj2 (String.eqb_neq _ _)) by done.
  - rewrite (proj2 (Z.eqb_neq _ _)) by lia. simpl. rewrite (proj2 (Z.ltb_lt _ _)) by lia.
    destruct (x <=? dx), Hin as [-> | ->]; done.
Qed.

(** One hop brings the flit one step nearer, along x first. *)
Lemma xy_hop_nearer x y d :
  0 ≤ x < getNumCols cfg → 0 ≤ y < getNumRows cfg → (x, y) ≠ (dx, dy) → xy_inport_ok x y dx dy d →
  ∃ x' y' d', xy_hop cfg ru route (y * getNumCols cfg + x, d) = Ok (y' * getNumCols cfg + x', d')
    ∧ 0 ≤ x' < getNumCols cfg ∧ 0 ≤ y' < getNumRows cfg ∧ xy_inport_ok x' y' dx dy d'
    ∧ Z.abs (dx - x') + Z.abs (dy - y') = Z.abs (dx - x) + Z.abs (dy - y) - 1.
Proof using All.
  intros Hx Hy Hne Hin. unfold xy_hop, outportComputeXY. rewrite xy_direction_eq by done. simpl.
  assert (∃ i, m_outports_dirn2idx (ru (y * getNumCols cfg + x)) !! xy_dir x y = Some i
     ∧ m_outports_idx2dirn (ru (y * getNumCols cfg + x)) !! i = Some (xy_dir x y)) as (i & Hi & Hi').
  { apply Hwired; [done|done|]. unfold xy_dir. case_decide as Hxd; zcase; unfold in_mesh; simpl;
      apply Z.ltb_lt || apply Z.leb_le; try lia; assert (y ≠ dy) by congruence; lia. }
  unfold map_index. rewrite Hi. simpl. rewrite Hi'.
  unfold xy_dir, xy_inport_ok. destruct (decide (x = dx)) as [->|Hxd].
  - assert (y ≠ dy) by congruence. destruct (Z.leb_spec y dy).
    + exists dx, (y + 1), "South". split; [unfold neighbour, opposite; simpl; do 2 f_equal; lia|].
      rewrite decide_True, (proj2 (Z.leb_le _ _)) by lia. split_and!; try lia. by right.
    + exists dx, (y - 1), "North". split; [unfold neighbour, opposite; simpl; do 2 f_equal; lia|].
      rewrite decide_True by done. split_and!; try lia.
      destruct (Z.leb_spec (y - 1) dy); [left; lia|by right].
  - destruct (Z.leb_spec x dx).
    + exists (x + 1), y, "West". split; [unfold neighbour, opposite; simpl; do 2 f_equal; lia|].
      split_and!; try lia. case_decide; [right; by zcase|]. right. by rewrite (proj2 (Z.leb_le _ _)) by lia.
    + exists (x - 1), y, "East". split; [unfold neighbour, opposite; simpl; do 2 f_equal; lia|].
      split_and!; try lia. case_decide; [right; by zcase|]. right. by rewrite (proj2 (Z.leb_gt _ _)) by lia.
Qed.

(** From any point with an allowed inport, the walk reaches the destination in
    as many hops as the distance, and not before. *)
Lemma xy_walk_arrives n x y d :
  0 ≤ x < getNumCols cfg → 0 ≤ y < getNumRows cfg → xy_inport_ok x y dx dy d →
  Z.abs (dx - x) + Z.abs (dy - y) = Z.of_nat n →
  (∃ d', xy_walk cfg ru route n (y * getNumCols cfg + x, d) = Ok (dest_router route, d')) ∧
  ∀ k, (k < n)%nat → ∃ x' y' d',
    xy_walk cfg ru route k (y * getNumCols cfg + x, d) = Ok (y' * getNumCols cfg + x', d')
    ∧ 0 ≤ x' < getNumCols cfg ∧ 0 ≤ y' < getNumRows cfg
    ∧ y' * getNumCols cfg + x' ≠ dest_router route.
Proof using All.
  revert x y d. induction n as [|n IH]; intros x y d Hx Hy Hin Hdist.
  - split; [|lia]. exists d. simpl. rewrite Hdest. do 2 f_equal. nia.
  - assert ((x, y) ≠ (dx, dy)) as Hne by (intros [= -> ->]; lia).
    destruct (xy_hop_nearer x y d Hx Hy Hne Hin) as (x' & y' & d' & Hhop & Hx' & Hy' & Hin' & Hd').
    destruct (IH x' y' d' Hx' Hy' Hin') as [Hend Hmid]; [lia|].
    assert (∀ k, xy_walk cfg ru route (S k) (y * getNumCols cfg + x, d)
      = xy_walk cfg ru route k (y' * getNumCols cfg + x', d')) as Hunf
      by (intros k; cbn [xy_walk]; by rewrite Hhop).
    split; [by rewrite Hunf|]. intros [|k] Hk; [|rewrite Hunf; apply Hmid; lia].
    exists x, y, d. split_and!; [done|lia..|]. rewrite Hdest. intros Heq. apply Hne.
    assert (y = dy) by nia. subst. f_equal; lia.
Qed.

End xy.

(** C19: XY routing delivers: on a wired mesh a packet injected at any router
    reaches its destination router after exactly |dx| + |dy| hops, never
    leaves the mesh, never visits the destination earlier, and no assertion or
    panic of [outportComputeXY] fires on the way. *)
Theorem xy_routing_delivers cfg ru route sx sy dx dy :
  mesh_wired cfg ru →
  0 ≤ sx < getNumCols cfg → 0 ≤ sy < getNumRows cfg →
  0 ≤ dx < getNumCols cfg → 0 ≤ dy < getNumRows cfg →
  dest_router route = dy * getNumCols cfg + dx →
  let hops := Z.to_nat (Z.abs (dx - sx) + Z.abs (dy - sy)) in
  let src := sy * getNumCols cfg + sx in
  (∃ d, xy_walk cfg ru route hops (src, "Local") = Ok (dest_router route, d)) ∧
  ∀ k, (k < hops)%nat → ∃ x y d,
    xy_walk cfg ru route k (src, "Local") = Ok (y * getNumCols cfg + x, d)
    ∧ 0 ≤ x < getNumCols cfg ∧ 0 ≤ y < getNumRows cfg
    ∧ y * getNumCols cfg + x ≠ dest_router route.
Proof.
  intros Hwired Hsx Hsy Hdx Hdy Hdest hops src.
  apply (xy_walk_arrives cfg ru route dx dy Hwired Hdx Hdy Hdest); [done|done| |lia].
  unfold xy_inport_ok. case_decide; [right|by left]. by zcase.
Qed.

(** A routing unit with all four mesh outports. *)
Definition ex_mesh_ru (id : Z) : RoutingUnit :=
  addOutDirection "North" 1 (addOutDirection "East" 2 (addOutDirection "South" 3
    (addOutDirection "West" 4 new_RoutingUnit))).

Lemma ex_mesh_wired : mesh_wired ex_cfg ex_mesh_ru.
Proof.
  intros x y d _ _. unfold in_mesh.
  destruct (String.eqb_spec d "East") as [->|]; [intros _; by exists 2|].
  destruct (String.eqb_spec d "West") as [->|]; [intros _; by exists 4|].
  destruct (String.eqb_spec d "North") as [->|]; [intros _; by exists 1|].
  destruct (String.eqb_spec d "South") as [->|]; [intros _; by exists 3|]. done.
Qed.

Definition ex_route : RouteInfo :=
  {| vnet := 0; net_dest := []; src_ni := 0; src_router := 2; dest_ni := 0; dest_router := 3;
     hops_traversed := 0 |}.

(** From (2, 0) to (0, 1) of a mesh with 3 columns: three hops. *)
Lemma xy_routing_delivers_witness :
  ∃ d, xy_walk ex_cfg ex_mesh_ru ex_route 3 (2, "Local") = Ok (3, d).
Proof.
  destruct (xy_routing_delivers ex_cfg ex_mesh_ru ex_route 2 0 0 1 ex_mesh_wired) as [H _];
    [simpl; lia..|reflexivity|exact H].
Defined.
