(* ===== verification/VirtualChannel.v ===== *)
(** * Virtual channels: garnet/VirtualChannel.{hh,cc} and OutVcState.{hh,cc}

    The input VC buffers a packet's flits at a router; [OutVcState] mirrors, at
    the upstream router, the state and the free buffers of that input VC. *)

From S2P Require Import Prelude IntMath NetDest Flit RoutingUnit.

(** ** VirtualChannel *)

Record VirtualChannel := {
  inputBuffer : flitBuffer;
  m_vc_state : VC_state_type * Z;
  m_output_port : Z;
  vc_enqueue_time : Z;
  m_output_vc : Z
}.

Definition new_VirtualChannel : VirtualChannel :=
  {| inputBuffer := new_flitBuffer; m_vc_state := (IDLE_, 0); m_output_port := -1;
     vc_enqueue_time := INFINITE_; m_output_vc := -1 |}.

Definition vc_set_idle (curTime : Z) (v : VirtualChannel) : VirtualChannel :=
  {| inputBuffer := inputBuffer v; m_vc_state := (IDLE_, curTime); m_output_port := -1;
     vc_enqueue_time := INFINITE_; m_output_vc := -1 |}.

Definition vc_set_active (curTime : Z) (v : VirtualChannel) : VirtualChannel :=
  {| inputBuffer := inputBuffer v; m_vc_state := (ACTIVE_, curTime);
     m_output_port := m_output_port v; vc_enqueue_time := curTime; m_output_vc := m_output_vc v |}.

Definition vc_set_outvc (outvc : Z) (v : VirtualChannel) : VirtualChannel :=
  {| inputBuffer := inputBuffer v; m_vc_state := m_vc_state v; m_output_port := m_output_port v;
     vc_enqueue_time := vc_enqueue_time v; m_output_vc := outvc |}.

Definition vc_set_outport (outport : Z) (v : VirtualChannel) : VirtualChannel :=
  {| inputBuffer := inputBuffer v; m_vc_state := m_vc_state v; m_output_port := outport;
     vc_enqueue_time := vc_enqueue_time v; m_output_vc := m_output_vc v |}.

Definition with_inputBuffer (v : VirtualChannel) (b : flitBuffer) : VirtualChannel :=
  {| inputBuffer := b; m_vc_state := m_vc_state v; m_output_port := m_output_port v;
     vc_enqueue_time := vc_enqueue_time v; m_output_vc := m_output_vc v |}.

Definition vc_insertFlit (f : flit) (v : VirtualChannel) : VirtualChannel :=
  with_inputBuffer v (insert f (inputBuffer v)).

Definition vc_getTopFlit (v : VirtualChannel) : res (flit * VirtualChannel) :=
  let* ' (f, b) := getTopFlit (inputBuffer v) in Ok (f, with_inputBuffer v b).

Definition vc_isReady (curTime : Z) (v : VirtualChannel) : bool := isReady curTime (inputBuffer v).

Definition vc_need_stage (stage : flit_stage) (time : Z) (v : VirtualChannel) : res bool :=
  if isReady time (inputBuffer v) then
    let* _ := assert_ "need_stage: m_vc_state.first == ACTIVE_ && m_vc_state.second <= time"
      (bool_decide (fst (m_vc_state v) = ACTIVE_) && (snd (m_vc_state v) <=? time)) in
    let* t_flit := peekTopFlit (inputBuffer v) in
    Ok (is_stage stage time t_flit)
  else Ok false.

(** ** OutVcState *)

Record OutVcState := {
  ovc_id : Z;
  ovc_time : Z;
  ovc_state : VC_state_type;
  m_credit_count : Z;
  m_max_credit_count : Z
}.

Definition new_OutVcState (cfg : NetConfig) (id consumerVcs : Z) : res OutVcState :=
  let vnet := id / consumerVcs in
  let* ty := get_vnet_type cfg vnet in
  let max := if bool_decide (ty = DATA_VNET_) then getBuffersPerDataVC cfg
             else getBuffersPerCtrlVC cfg in
  let* _ := assert_ "m_credit_count >= 1" (1 <=? max) in
  Ok {| ovc_id := id; ovc_time := 0; ovc_state := IDLE_; m_credit_count := max;
        m_max_credit_count := max |}.

Definition with_credits (o : OutVcState) (n : Z) : OutVcState :=
  {| ovc_id := ovc_id o; ovc_time := ovc_time o; ovc_state := ovc_state o; m_credit_count := n;
     m_max_credit_count := m_max_credit_count o |}.

Definition ovc_increment_credit (o : OutVcState) : res OutVcState :=
  let o := with_credits o (m_credit_count o + 1) in
  let* _ := assert_ "m_credit_count <= m_max_credit_count" (m_credit_count o <=? m_max_credit_count o) in
  Ok o.

Definition ovc_decrement_credit (o : OutVcState) : res OutVcState :=
  let o := with_credits o (m_credit_count o - 1) in
  let* _ := assert_ "m_credit_count >= 0" (0 <=? m_credit_count o) in
  Ok o.

Definition ovc_has_credit (o : OutVcState) : bool := 0 <? m_credit_count o.

Definition ovc_isInState (state : VC_state_type) (request_time : Z) (o : OutVcState) : bool :=
  bool_decide (ovc_state o = state) && (ovc_time o <=? request_time).

Definition ovc_setState (state : VC_state_type) (time : Z) (o : OutVcState) : OutVcState :=
  {| ovc_id := ovc_id o; ovc_time := time; ovc_state := state; m_credit_count := m_credit_count o;
     m_max_credit_count := m_max_credit_count o |}.

(** ** Credit bounds *)

(** 0 <= credits <= capacity, and the capacity is not 0. *)
Definition credit_inv (o : OutVcState) : Prop :=
  0 ≤ m_credit_count o ≤ m_max_credit_count o ∧ 1 ≤ m_max_credit_count o.

Inductive ovc_op := Inc | Dec | SetState (state : VC_state_type) (time : Z).

Definition ovc_apply (op : ovc_op) (o : OutVcState) : res OutVcState :=
  match op with
  | Inc => ovc_increment_credit o
  | Dec => ovc_decrement_credit o
  | SetState s t => Ok (ovc_setState s t o)
  end.

Fixpoint ovc_run (ops : list ovc_op) (o : OutVcState) : res OutVcState :=
  match ops with
  | [] => Ok o
  | op :: ops' => let* o' := ovc_apply op o in ovc_run ops' o'
  end.

(** Returned minus consumed credits. *)
Definition net_credits (ops : list ovc_op) : Z :=
  foldr (fun op n => match op with Inc => n + 1 | Dec => n - 1 | SetState _ _ => n end) 0 ops.

Lemma ovc_apply_ok op o o' :
  credit_inv o → ovc_apply op o = Ok o' →
  credit_inv o' ∧ m_max_credit_count o' = m_max_credit_count o
  ∧ m_credit_count o' = m_credit_count o + net_credits [op].
Proof.
  unfold credit_inv. destruct op; simpl; unfold ovc_increment_credit, ovc_decrement_credit; intros Hi Hr;
    inv_res; zbool; simpl; lia.
Qed.

Lemma new_OutVcState_inv cfg id n o :
  new_OutVcState cfg id n = Ok o → credit_inv o ∧ m_credit_count o = m_max_credit_count o.
Proof. unfold new_OutVcState. intros H. inv_res. zbool. unfold credit_inv. simpl. lia. Qed.

(** C29: Credit accounting is exact and bounded: along any sequence of
    operations on a fresh OutVcState the count is the capacity plus the credits
    returned minus those consumed and stays within 0 and the capacity; an
    operation is refused (an assertion fires) exactly when it would leave that
    range. *)
Theorem credits_exact_bounded cfg id n ops o op :
  match new_OutVcState cfg id n with
  | Ok o0 =>
      ovc_run ops o0 = Ok o →
      credit_inv o ∧ m_credit_count o = m_max_credit_count o0 + net_credits ops
      ∧ (is_ok (ovc_apply op o) = true ↔
         0 ≤ m_credit_count o + net_credits [op] ≤ m_max_credit_count o0)
  | Err _ => True
  end.
Proof.
  destruct (new_OutVcState cfg id n) as [o0|] eqn:E; [|done]. intros Hrun.
  apply new_OutVcState_inv in E as [Hinv Hmax].
  assert (credit_inv o ∧ m_max_credit_count o = m_max_credit_count o0
    ∧ m_credit_count o = m_credit_count o0 + net_credits ops) as (Ho & Hm & Hc).
  { clear Hmax. revert o0 Hinv Hrun. induction ops as [|p ops IH]; intros o0 Hinv Hrun; simpl in *.
    - inv_res. split_and!; [done|done|lia].
    - inv_res. destruct (ovc_apply_ok p o0 v) as (Hv & Hvm & Hvc); [done|done|].
      destruct (IH v Hv) as (? & ? & Hc); [done|]. split_and!; [done|congruence|].
      rewrite Hc, Hvc. destruct p; simpl; lia. }
  split; [done|]. split; [lia|]. unfold credit_inv in Ho.
  destruct op; simpl; unfold ovc_increment_credit, ovc_decrement_credit, assert_; simpl;
    try (zcase; simpl); split; intros; try lia; done.
Qed.

Definition ex_cfg2 : NetConfig :=
  {| getNumRows := 2; getNumCols := 3; getNiFlitSize := 16; getBuffersPerDataVC := 4;
     getBuffersPerCtrlVC := 1; getRoutingAlgorithm := 0; m_ordered := [false; true];
     m_vnet_type := [CTRL_VNET_; DATA_VNET_] |}.

Lemma credits_exact_bounded_witness :
  ∃ o0 o, new_OutVcState ex_cfg2 5 4 = Ok o0 ∧ ovc_run [Dec; Dec; Inc; Dec] o0 = Ok o
  ∧ credit_inv o ∧ m_credit_count o = 2.
Proof.
  eexists. eexists. split; [reflexivity|]. split; [reflexivity|].
  destruct (credits_exact_bounded ex_cfg2 5 4 [Dec; Dec; Inc; Dec]
    {| ovc_id := 5; ovc_time := 0; ovc_state := IDLE_; m_credit_count := 2; m_max_credit_count := 4 |}
    Inc eq_refl) as (H & _).
  split; [exact H|reflexivity].
Defined.
