(* ===== verification/NetworkLink.v ===== *)
(** * Links: garnet/NetworkLink.{hh,cc} and CreditLink.hh

    A link moves flits from the queue of the object at its tail to its own
    [linkBuffer], from which the object at its head consumes them. A
    [CreditLink] is a [NetworkLink] that carries credits. *)

From S2P Require Import Prelude IntMath Clocked Consumer NetDest Flit RoutingUnit.

(** ** References between objects

    Links are reached through handles. A consumer is a router, the output unit
    of a router, a network interface or a link; a source queue is the output
    buffer or the credit queue of a router port, or a queue of a network
    interface or bridge. The Consumer base object of a link or output unit is
    kept apart from it, in the store of consumers of the network. *)

Inductive consumer_ref :=
  | ConsRouter (id : Z)
  | ConsOutputUnit (router outport : Z)
  | ConsNI (id : Z)
  | ConsLink (handle : Z).

Inductive queue_ref :=
  | QRouterOut (router outport : Z)
  | QRouterCredit (router inport : Z)
  | QNIOut (ni port : Z)
  | QNICredit (ni port : Z)
  | QLink (handle : Z).

#[export] Instance consumer_ref_eq_dec : EqDecision consumer_ref.
Proof. solve_decision. Defined.

#[export] Instance consumer_ref_countable : Countable consumer_ref.
Proof.
  apply (inj_countable'
    (fun c => match c with
              | ConsRouter i => inl (inl i)
              | ConsOutputUnit r o => inl (inr (r, o))
              | ConsNI i => inr (inl i)
              | ConsLink h => inr (inr h)
              end)
    (fun x => match x with
              | inl (inl i) => ConsRouter i
              | inl (inr (r, o)) => ConsOutputUnit r o
              | inr (inl i) => ConsNI i
              | inr (inr h) => ConsLink h
              end)).
  by intros [].
Defined.

(** ** NetworkLink *)

Record NetworkLink := {
  nl_id : Z;
  nl_type : link_type;
  nl_latency : Z;
  m_link_utilized : Z;
  m_vc_load : list Z;
  nl_virt_nets : Z;
  linkBuffer : flitBuffer;
  link_consumer : option consumer_ref;
  link_srcQueue : option queue_ref;
  mVnets : list Z;
  bitWidth : Z
}.

Definition new_NetworkLink (link_id latency virt_nets : Z) (supported_vnets : list Z) (width : Z) : NetworkLink :=
  {| nl_id := link_id; nl_type := NUM_LINK_TYPES_; nl_latency := latency;
     m_link_utilized := 0; m_vc_load := []; nl_virt_nets := virt_nets;
     linkBuffer := new_flitBuffer; link_consumer := None; link_srcQueue := None;
     mVnets := supported_vnets; bitWidth := width |}.

Definition upd_link (l : NetworkLink) (ty : link_type) (util : Z) (load : list Z)
    (b : flitBuffer) (cons : option consumer_ref) (src : option queue_ref) : NetworkLink :=
  {| nl_id := nl_id l; nl_type := ty; nl_latency := nl_latency l;
     m_link_utilized := util; m_vc_load := load; nl_virt_nets := nl_virt_nets l; linkBuffer := b;
     link_consumer := cons; link_srcQueue := src; mVnets := mVnets l; bitWidth := bitWidth l |}.

Definition setLinkConsumer (consumer : consumer_ref) (l : NetworkLink) : NetworkLink :=
  upd_link l (nl_type l) (m_link_utilized l) (m_vc_load l) (linkBuffer l)
    (Some consumer) (link_srcQueue l).

Definition setSourceQueue (q : queue_ref) (l : NetworkLink) : NetworkLink :=
  upd_link l (nl_type l) (m_link_utilized l) (m_vc_load l) (linkBuffer l)
    (link_consumer l) (Some q).

Definition setType (ty : link_type) (l : NetworkLink) : NetworkLink :=
  upd_link l ty (m_link_utilized l) (m_vc_load l) (linkBuffer l)
    (link_consumer l) (link_srcQueue l).

(** [vector::resize]: the old entries are kept, new ones are 0. *)
Definition resize_vec {A} (n : Z) (x : A) (v : list A) : list A :=
  take (Z.to_nat n) v ++ replicate (Z.to_nat n - length v) x.

Definition setVcsPerVnet (consumerVcs : Z) (l : NetworkLink) : NetworkLink :=
  upd_link l (nl_type l) (m_link_utilized l)
    (resize_vec (u32 (nl_virt_nets l * consumerVcs)) 0 (m_vc_load l)) (linkBuffer l)
    (link_consumer l) (link_srcQueue l).

Definition with_linkBuffer (l : NetworkLink) (b : flitBuffer) : NetworkLink :=
  upd_link l (nl_type l) (m_link_utilized l) (m_vc_load l) b
    (link_consumer l) (link_srcQueue l).

Definition link_isReady (curTime : Z) (l : NetworkLink) : bool := isReady curTime (linkBuffer l).
Definition peekLink (l : NetworkLink) : res flit := peekTopFlit (linkBuffer l).
Definition consumeLink (l : NetworkLink) : res (flit * NetworkLink) :=
  let* ' (f, b) := getTopFlit (linkBuffer l) in Ok (f, with_linkBuffer l b).

(** [NetworkLink::wakeup]: [c] is the link's own Consumer base object, [srcq]
    the queue [link_srcQueue] points to. The result holds both, the link and,
    when a flit was sent, its consumer with the tick that is scheduled for. *)
Definition link_wakeup (env : ClockEnv) (c : Consumer) (l : NetworkLink) (srcq : flitBuffer)
    : res (Consumer * NetworkLink * flitBuffer * option (consumer_ref * Z)) :=
  let* _ := assert_ "link_srcQueue != nullptr" (bool_decide (is_Some (link_srcQueue l))) in
  let* _ := assert_ "curTick() == clockEdge()" (curTick env =? clockEdge env 0) in
  let* ' (l, srcq, sched) :=
    (if isReady (curTick env) srcq then
      let* ' (t_flit, srcq) := getTopFlit srcq in
      let* _ :=
        (if bool_decide (nl_type l = NUM_LINK_TYPES_) then Ok tt
         else
           let* _ := assert_ "t_flit->m_width == bitWidth" (m_width t_flit =? bitWidth l) in
           assert_ "vnet is supported"
             (existsb (Z.eqb (m_vnet t_flit)) (mVnets l) || Nat.eqb (length (mVnets l)) 0)) in
      let arrival := clockEdge env (nl_latency l) in
      let t_flit := set_time arrival t_flit in
      let* consumer := match link_consumer l with Some c => Ok c | None => Err EUninit end in
      let* load := vec_upd (m_vc_load l) (m_vc t_flit) (fun n => Ok (u32 (n + 1))) in
      Ok (upd_link l (nl_type l) (u32 (m_link_utilized l + 1)) load
            (insert t_flit (linkBuffer l)) (link_consumer l) (link_srcQueue l),
          srcq, Some (consumer, arrival))
     else Ok (l, srcq, None)) in
  let* c := (if isEmpty srcq then Ok c else scheduleEvent env 1 c) in
  Ok (c, l, srcq, sched).

Definition link_resetStats (l : NetworkLink) : NetworkLink :=
  upd_link l (nl_type l) 0 (map (fun _ => 0) (m_vc_load l)) (linkBuffer l)
    (link_consumer l) (link_srcQueue l).

(** ** Properties *)

(** The flits on a link and in the queue behind it, oldest first. *)
Definition link_flits (l : NetworkLink) (srcq : flitBuffer) : list flit :=
  m_buffer (linkBuffer l) ++ m_buffer srcq.

(** A link neither loses, duplicates nor reorders flits: its wakeup moves
    at most the oldest ready flit of the source queue to the end of the link's
    buffer, stamped with the arrival tick one link latency ahead, and it
    schedules the consumer for exactly that tick; when flits are left behind,
    the link has a wakeup pending for the next cycle and an event that fires by
    then. *)
Theorem link_wakeup_moves_one env c l srcq c' l' srcq' sched :
  clock_ok env → consumer_inv c →
  link_wakeup env c l srcq = Ok (c', l', srcq', sched) →
  (if isReady (curTick env) srcq
   then ∃ f rest k, m_buffer srcq = f :: rest ∧ m_buffer srcq' = rest
        ∧ m_buffer (linkBuffer l') = m_buffer (linkBuffer l) ++ [set_time (clockEdge env (nl_latency l)) f]
        ∧ link_consumer l = Some k ∧ sched = Some (k, clockEdge env (nl_latency l))
   else srcq' = srcq ∧ linkBuffer l' = linkBuffer l ∧ sched = None)
  ∧ consumer_inv c'
  ∧ (m_buffer srcq' ≠ [] → clockEdge env 1 ∈ pending c' ∧ covered env c').
Proof.
  intros Hck Hinv. unfold link_wakeup.
  intros (_ & _ & (_ & _ & ([[l1 q1] s1] & Hmove & (c1 & Hc1 & H)%rbind_ok)%rbind_ok)%rbind_ok)%rbind_ok.
  simplify_eq. split.
  - destruct (isReady (curTick env) srcq) eqn:Er; [|by simplify_eq].
    apply rbind_ok in Hmove as ([f q] & Hget & Hmove). unfold getTopFlit in Hget. unfold isReady in Er.
    destruct (m_buffer srcq) as [|f0 rest]; [done|]. simplify_eq.
    apply rbind_ok in Hmove as (_ & _ & Hmove). cbv zeta in Hmove.
    destruct (link_consumer l) as [k|] eqn:Ek; [|done]. cbn [rbind] in Hmove.
    apply rbind_ok in Hmove as (load & _ & Hmove). simplify_eq. exists f, rest, k. done.
  - unfold isEmpty in Hc1. destruct (m_buffer srcq') as [|f0 rest]; cbn in Hc1; [by simplify_eq|].
    unfold scheduleEvent in Hc1. set (c0 := with_ticks _ _) in Hc1.
    assert (consumer_inv c0) by by apply insertSorted_sorted.
    destruct (scheduleNextWakeup_covers env c0) as (c2 & Hc2 & Hv & Hcov); [done..|].
    rewrite Hc1 in Hc2. simplify_eq. split; [unfold consumer_inv; by rewrite Hv|].
    intros _. split; [|done].
    apply elem_of_pending. rewrite Hv. simpl. apply insertSorted_elem; [done|by left].
Qed.

Definition ex_link : NetworkLink :=
  setVcsPerVnet 4 (setLinkConsumer (ConsRouter 3) (setSourceQueue (QRouterOut 2 1)
    (new_NetworkLink 9 2 1 [] 128))).
Definition ex_lflit (id : Z) : flit := new_flit 1 id 0 0 new_RouteInfo 2 None 256 128 500.
Definition ex_queue : flitBuffer := {| m_buffer := [ex_lflit 0; ex_lflit 1]; max_size := INFINITE_ |}.

Lemma link_wakeup_moves_one_witness :
  ∃ c' l' q', link_wakeup ex_clock new_Consumer ex_link ex_queue = Ok (c', l', q', Some (ConsRouter 3, 1500))
  ∧ m_buffer q' = [ex_lflit 1] ∧ clockEdge ex_clock 1 ∈ pending c'.
Proof.
  eexists. eexists. eexists. split; [vm_compute; reflexivity|]. split; [reflexivity|].
  destruct (link_wakeup_moves_one ex_clock new_Consumer ex_link ex_queue _ _ _ (Some (ConsRouter 3, 1500))
    ltac:(unfold clock_ok; simpl; lia) ltac:(constructor)
    ltac:(vm_compute; reflexivity)) as (_ & _ & H).
  apply H. discriminate.
Defined.
