(* ===== verification/InputUnit.v ===== *)
(** * Input units: garnet/InputUnit.{hh,cc}

    An input unit buffers the flits that arrive on its link in the virtual
    channel they name and returns credits upstream. The members of [Router] that
    its units use are gathered in [RouterCore]; calls that leave the router
    while it runs (registering a wakeup in the network's ring, deferring the
    schedule of a link) are recorded, in order, as effects. *)

From S2P Require Import Prelude IntMath Clocked Consumer NetDest Flit RoutingUnit VirtualChannel NetworkLink.

(** ** The router as its units see it *)

Inductive effect :=
  | RegisterWakeup (router_id tick : Z)             (* GarnetNetwork::registerWakeup *)
  | DeferOrSchedule (c : consumer_ref) (tick : Z).  (* GarnetNetwork::deferOrSchedule *)

Record RouterCore := {
  r_id : Z;
  r_latency : Z;
  r_virtual_networks : Z;
  r_vc_per_vnet : Z;
  r_num_vcs : Z;
  r_bit_width : Z;
  routingUnit : RoutingUnit;
  r_consumer : Consumer;
  r_effects : list effect
}.

Definition with_core (c : RouterCore) (ru : RoutingUnit) (k : Consumer) (e : list effect) : RouterCore :=
  {| r_id := r_id c; r_latency := r_latency c; r_virtual_networks := r_virtual_networks c;
     r_vc_per_vnet := r_vc_per_vnet c; r_num_vcs := r_num_vcs c; r_bit_width := r_bit_width c;
     routingUnit := ru; r_consumer := k; r_effects := e |}.

Definition emit (e : effect) (c : RouterCore) : RouterCore :=
  with_core c (routingUnit c) (r_consumer c) (r_effects c ++ [e]).

(** [Router::schedule_wakeup] *)
Definition schedule_wakeup (env : ClockEnv) (time : Z) (c : RouterCore) : RouterCore :=
  let target_tick := clockEdge env time in
  let c := with_core c (routingUnit c) (recordEvent env time (r_consumer c)) (r_effects c) in
  emit (RegisterWakeup (r_id c) target_tick) c.

(** [Router::route_compute] *)
Definition route_compute (cfg : NetConfig) (rnd : Z) (route : RouteInfo) (inport : Z)
    (inport_dirn : PortDirection) (c : RouterCore) : res (Z * RouterCore) :=
  let* ' (o, ru) := outportCompute cfg rnd (r_id c) route inport inport_dirn (routingUnit c) in
  Ok (o, with_core c ru (r_consumer c) (r_effects c)).

(** ** InputUnit *)

Record InputUnit := {
  iu_id : Z;
  iu_direction : PortDirection;
  iu_vc_per_vnet : Z;
  iu_in_link : Z;        (* handle of m_in_link *)
  iu_credit_link : Z;    (* handle of m_credit_link *)
  creditQueue : flitBuffer;
  virtualChannels : list VirtualChannel;
  m_num_buffer_writes : list Z;
  m_num_buffer_reads : list Z;
  m_local_buffer_writes : list Z;
  m_local_buffer_reads : list Z
}.

Definition new_InputUnit (id : Z) (direction : PortDirection) (c : RouterCore) (in_link credit_link : Z)
    : InputUnit :=
  let n := Z.to_nat (r_num_vcs c / r_vc_per_vnet c) in
  {| iu_id := id; iu_direction := direction; iu_vc_per_vnet := r_vc_per_vnet c; iu_in_link := in_link;
     iu_credit_link := credit_link; creditQueue := new_flitBuffer;
     virtualChannels := replicate (Z.to_nat (r_num_vcs c)) new_VirtualChannel;
     m_num_buffer_writes := replicate n 0; m_num_buffer_reads := replicate n 0;
     m_local_buffer_writes := replicate n 0; m_local_buffer_reads := replicate n 0 |}.

Definition with_vcs (u : InputUnit) (vcs : list VirtualChannel) : InputUnit :=
  {| iu_id := iu_id u; iu_direction := iu_direction u; iu_vc_per_vnet := iu_vc_per_vnet u;
     iu_in_link := iu_in_link u; iu_credit_link := iu_credit_link u; creditQueue := creditQueue u;
     virtualChannels := vcs; m_num_buffer_writes := m_num_buffer_writes u;
     m_num_buffer_reads := m_num_buffer_reads u; m_local_buffer_writes := m_local_buffer_writes u;
     m_local_buffer_reads := m_local_buffer_reads u |}.

Definition with_creditQueue (u : InputUnit) (q : flitBuffer) : InputUnit :=
  {| iu_id := iu_id u; iu_direction := iu_direction u; iu_vc_per_vnet := iu_vc_per_vnet u;
     iu_in_link := iu_in_link u; iu_credit_link := iu_credit_link u; creditQueue := q;
     virtualChannels := virtualChannels u; m_num_buffer_writes := m_num_buffer_writes u;
     m_num_buffer_reads := m_num_buffer_reads u; m_local_buffer_writes := m_local_buffer_writes u;
     m_local_buffer_reads := m_local_buffer_reads u |}.

Definition with_stats (u : InputUnit) (nw nr lw lr : list Z) : InputUnit :=
  {| iu_id := iu_id u; iu_direction := iu_direction u; iu_vc_per_vnet := iu_vc_per_vnet u;
     iu_in_link := iu_in_link u; iu_credit_link := iu_credit_link u; creditQueue := creditQueue u;
     virtualChannels := virtualChannels u; m_num_buffer_writes := nw; m_num_buffer_reads := nr;
     m_local_buffer_writes := lw; m_local_buffer_reads := lr |}.

(** The inline accessors of InputUnit.hh. *)
Definition upd_vc (vc : Z) (f : VirtualChannel → res VirtualChannel) (u : InputUnit) : res InputUnit :=
  let* vcs := vec_upd (virtualChannels u) vc f in Ok (with_vcs u vcs).

Definition set_vc_idle (vc curTime : Z) : InputUnit → res InputUnit :=
  upd_vc vc (fun v => Ok (vc_set_idle curTime v)).
Definition set_vc_active (vc curTime : Z) : InputUnit → res InputUnit :=
  upd_vc vc (fun v => Ok (vc_set_active curTime v)).
Definition grant_outport (vc outport : Z) : InputUnit → res InputUnit :=
  upd_vc vc (fun v => Ok (vc_set_outport outport v)).
Definition grant_outvc (vc outvc : Z) : InputUnit → res InputUnit :=
  upd_vc vc (fun v => Ok (vc_set_outvc outvc v)).

Definition get_outport (invc : Z) (u : InputUnit) : res Z :=
  let* v := vec_get (virtualChannels u) invc in Ok (m_output_port v).
Definition get_outvc (invc : Z) (u : InputUnit) : res Z :=
  let* v := vec_get (virtualChannels u) invc in Ok (m_output_vc v).
Definition get_enqueue_time (invc : Z) (u : InputUnit) : res Z :=
  let* v := vec_get (virtualChannels u) invc in Ok (vc_enqueue_time v).
Definition need_stage (vc : Z) (stage : flit_stage) (time : Z) (u : InputUnit) : res bool :=
  let* v := vec_get (virtualChannels u) vc in vc_need_stage stage time v.
Definition iu_isReady (invc curTime : Z) (u : InputUnit) : res bool :=
  let* v := vec_get (virtualChannels u) invc in Ok (vc_isReady curTime v).
Definition iu_getTopFlit (vc : Z) (u : InputUnit) : res (flit * InputUnit) :=
  let* v := vec_get (virtualChannels u) vc in
  let* ' (f, v) := vc_getTopFlit v in
  let* vcs := vec_set (virtualChannels u) vc v in
  Ok (f, with_vcs u vcs).

(** The head of a packet activates its VC and gets a route; a later flit
    finds its VC active. *)
Definition admit_flit (cfg : NetConfig) (env : ClockEnv) (rnd : Z) (t_flit : flit) (c : RouterCore)
    (u : InputUnit) : res (RouterCore * InputUnit) :=
  let vc := m_vc t_flit in
  let* v := vec_get (virtualChannels u) vc in
  if bool_decide (m_type t_flit = HEAD_) || bool_decide (m_type t_flit = HEAD_TAIL_) then
    let* _ := assert_ "virtualChannels[vc].get_state() == IDLE_"
      (bool_decide (fst (m_vc_state v) = IDLE_)) in
    let* u := set_vc_active vc (curTick env) u in
    let* ' (outport, c) := route_compute cfg rnd (m_route t_flit) (iu_id u) (iu_direction u) c in
    let* u := grant_outport vc outport u in
    Ok (c, u)
  else
    let* _ := assert_ "virtualChannels[vc].get_state() == ACTIVE_"
      (bool_decide (fst (m_vc_state v) = ACTIVE_)) in
    Ok (c, u).

(** When the flit may compete for the switch, and the wakeup that needs. *)
Definition stage_flit (env : ClockEnv) (t_flit : flit) (c : RouterCore) : res (flit * RouterCore) :=
  let pipe_stages := r_latency c in
  if pipe_stages =? 1 then Ok (advance_stage SA_ (curTick env) t_flit, c)
  else
    let* _ := assert_ "pipe_stages > 1" (1 <? pipe_stages) in
    let wait_time := pipe_stages - 1 in
    Ok (advance_stage SA_ (clockEdge env wait_time) t_flit, schedule_wakeup env wait_time c).

(** [InputUnit::wakeup]. The flit is written into its VC after its stage is
    set; the source inserts the pointer first and sets the stage through it. *)
Definition input_wakeup (cfg : NetConfig) (env : ClockEnv) (rnd : Z) (c : RouterCore) (u : InputUnit)
    (in_link : NetworkLink) : res (RouterCore * InputUnit * NetworkLink) :=
  if link_isReady (curTick env) in_link then
    let* ' (t_flit, in_link) := consumeLink in_link in
    let* _ := assert_ "t_flit->m_width == m_router->getBitWidth()" (m_width t_flit =? r_bit_width c) in
    let vc := m_vc t_flit in
    let t_flit := increment_hops t_flit in
    let* ' (c, u) := admit_flit cfg env rnd t_flit c u in
    let* ' (t_flit, c) := stage_flit env t_flit c in
    let* u := upd_vc vc (fun v => Ok (vc_insertFlit t_flit v)) u in
    let vnet := Z.quot vc (iu_vc_per_vnet u) in
    let* lw := vec_upd (m_local_buffer_writes u) vnet (fun n => Ok (u64 (n + 1))) in
    let* lr := vec_upd (m_local_buffer_reads u) vnet (fun n => Ok (u64 (n + 1))) in
    let u := with_stats u (m_num_buffer_writes u) (m_num_buffer_reads u) lw lr in
    let c := if link_isReady (curTick env) in_link then schedule_wakeup env 1 c else c in
    Ok (c, u, in_link)
  else Ok (c, u, in_link).

(** [InputUnit::increment_credit] *)
Definition increment_credit (env : ClockEnv) (in_vc : Z) (free_signal : bool) (curTime : Z)
    (c : RouterCore) (u : InputUnit) : RouterCore * InputUnit :=
  let t_credit := new_Credit in_vc free_signal curTime in
  (emit (DeferOrSchedule (ConsLink (iu_credit_link u)) (clockEdge env 1)) c,
   with_creditQueue u (insert t_credit (creditQueue u))).

(** ** Statistics *)

Definition iu_resetStats (u : InputUnit) : InputUnit :=
  let zeros := map (fun _ => 0) (m_num_buffer_reads u) in with_stats u zeros zeros zeros zeros.

(** Adds the local counters to the reported ones and returns their sums; the
    local counters are left as they are. *)
Definition iu_collateStats (u : InputUnit) : InputUnit * (Z * Z) :=
  (with_stats u (zip_with Z.add (m_num_buffer_writes u) (m_local_buffer_writes u))
     (zip_with Z.add (m_num_buffer_reads u) (m_local_buffer_reads u))
     (m_local_buffer_writes u) (m_local_buffer_reads u),
   (foldl (fun s n => u64 (s + n)) 0 (m_local_buffer_reads u),
    foldl (fun s n => u64 (s + n)) 0 (m_local_buffer_writes u))).

(** ** Functional accesses *)

Section functional.
Context {M : Type} (access : MsgPtr → M → bool * M).

Definition iu_functionalRead (u : InputUnit) (m : M) : bool * M :=
  foldl (fun '(read, m) v =>
    let '(r, m) := buffer_functionalRead access (inputBuffer v) m in (if r then true else read, m))
    (false, m) (virtualChannels u).

Definition iu_functionalWrite (u : InputUnit) (m : M) : Z * M :=
  foldl (fun '(num, m) v =>
    let '(n, m) := buffer_functionalWrite access (inputBuffer v) m in (u32 (num + n), m))
    (0, m) (virtualChannels u).

End functional.
