(* ===== verification/OutputUnit.v ===== *)
(** * Output units: garnet/OutputUnit.{hh,cc}

    An output unit tracks the VCs of the downstream input port, holds the flits
    waiting for the output link and consumes the credits that come back. *)

From S2P Require Import Prelude IntMath Clocked Consumer NetDest Flit RoutingUnit VirtualChannel NetworkLink InputUnit.

Record OutputUnit := {
  ou_id : Z;
  ou_direction : PortDirection;
  ou_vc_per_vnet : Z;
  ou_out_link : Z;       (* handle of m_out_link *)
  ou_credit_link : Z;    (* handle of m_credit_link *)
  outBuffer : flitBuffer;
  outVcState : list OutVcState
}.

Definition new_OutputUnit (cfg : NetConfig) (id : Z) (direction : PortDirection) (c : RouterCore)
    (consumerVcs out_link credit_link : Z) : res OutputUnit :=
  let m_num_vcs := consumerVcs * r_virtual_networks c in
  let* vcs := for_range 0 (Z.to_nat m_num_vcs) (fun i vcs =>
    let* o := new_OutVcState cfg i consumerVcs in Ok (vcs ++ [o])) [] in
  Ok {| ou_id := id; ou_direction := direction; ou_vc_per_vnet := consumerVcs;
        ou_out_link := out_link; ou_credit_link := credit_link; outBuffer := new_flitBuffer;
        outVcState := vcs |}.

Definition with_outVcState (o : OutputUnit) (s : list OutVcState) : OutputUnit :=
  {| ou_id := ou_id o; ou_direction := ou_direction o; ou_vc_per_vnet := ou_vc_per_vnet o;
     ou_out_link := ou_out_link o; ou_credit_link := ou_credit_link o; outBuffer := outBuffer o;
     outVcState := s |}.

Definition with_outBuffer (o : OutputUnit) (b : flitBuffer) : OutputUnit :=
  {| ou_id := ou_id o; ou_direction := ou_direction o; ou_vc_per_vnet := ou_vc_per_vnet o;
     ou_out_link := ou_out_link o; ou_credit_link := ou_credit_link o; outBuffer := b;
     outVcState := outVcState o |}.

Definition upd_ovc (vc : Z) (f : OutVcState → res OutVcState) (o : OutputUnit) : res OutputUnit :=
  let* s := vec_upd (outVcState o) vc f in Ok (with_outVcState o s).

Definition decrement_credit (out_vc : Z) : OutputUnit → res OutputUnit :=
  upd_ovc out_vc ovc_decrement_credit.
Definition ou_increment_credit (out_vc : Z) : OutputUnit → res OutputUnit :=
  upd_ovc out_vc ovc_increment_credit.
Definition set_vc_state (state : VC_state_type) (vc curTime : Z) : OutputUnit → res OutputUnit :=
  upd_ovc vc (fun s => Ok (ovc_setState state curTime s)).

Definition is_vc_idle (vc curTime : Z) (o : OutputUnit) : res bool :=
  let* s := vec_get (outVcState o) vc in Ok (ovc_isInState IDLE_ curTime s).

Definition has_credit (curTime out_vc : Z) (o : OutputUnit) : res bool :=
  let* s := vec_get (outVcState o) out_vc in
  let* _ := assert_ "outVcState[out_vc].isInState(ACTIVE_, curTick())" (ovc_isInState ACTIVE_ curTime s) in
  Ok (ovc_has_credit s).

(** The loop shared by [has_free_vc] and [select_free_vc]: the first idle VC
    among [n] VCs from [vc] on. *)
Fixpoint first_idle (curTime vc : Z) (n : nat) (o : OutputUnit) : res (option Z) :=
  match n with
  | O => Ok None
  | S n' =>
      let* idle := is_vc_idle vc curTime o in
      if idle then Ok (Some vc) else first_idle curTime (vc + 1) n' o
  end.

Definition has_free_vc (curTime vnet : Z) (o : OutputUnit) : res bool :=
  let vc_base := vnet * ou_vc_per_vnet o in
  let* r := first_idle curTime vc_base (Z.to_nat (ou_vc_per_vnet o)) o in
  Ok (bool_decide (is_Some r)).

Definition select_free_vc (curTime vnet : Z) (o : OutputUnit) : res (Z * OutputUnit) :=
  let vc_base := vnet * ou_vc_per_vnet o in
  let* r := first_idle curTime vc_base (Z.to_nat (ou_vc_per_vnet o)) o in
  match r with
  | Some vc => let* o := set_vc_state ACTIVE_ vc curTime o in Ok (vc, o)
  | None => Ok (-1, o)
  end.

(** [OutputUnit::wakeup] *)
Definition output_wakeup (env : ClockEnv) (outport : Z) (c : RouterCore) (o : OutputUnit)
    (credit_link : NetworkLink) : res (RouterCore * OutputUnit * NetworkLink) :=
  if link_isReady (curTick env) credit_link then
    let* ' (t_credit, credit_link) := consumeLink credit_link in
    let* o := ou_increment_credit (m_vc t_credit) o in
    let* free := match m_is_free_signal t_credit with Some b => Ok b | None => Err EUninit end in
    let* o := (if free then set_vc_state IDLE_ (m_vc t_credit) (curTick env) o else Ok o) in
    let c := if link_isReady (curTick env) credit_link
             then emit (DeferOrSchedule (ConsOutputUnit (r_id c) outport) (clockEdge env 1)) c
             else c in
    Ok (c, o, credit_link)
  else Ok (c, o, credit_link).

(** [OutputUnit::insert_flit] *)
Definition insert_flit (env : ClockEnv) (t_flit : flit) (c : RouterCore) (o : OutputUnit)
    : RouterCore * OutputUnit :=
  (emit (DeferOrSchedule (ConsLink (ou_out_link o)) (clockEdge env 1)) c,
   with_outBuffer o (insert t_flit (outBuffer o))).

(** ** Lemmas *)

Lemma first_idle_spec curTime vc n o r :
  first_idle curTime vc n o = Ok r →
  match r with
  | Some v => vc ≤ v < vc + Z.of_nat n ∧ is_vc_idle v curTime o = Ok true
              ∧ ∀ w, vc ≤ w < v → is_vc_idle w curTime o = Ok false
  | None => ∀ w, vc ≤ w < vc + Z.of_nat n → is_vc_idle w curTime o = Ok false
  end.
Proof.
  revert vc. induction n as [|n IH]; intros vc H; cbn [first_idle] in H.
  - inv_res. intros; lia.
  - apply rbind_ok in H as (b & Hb & H). destruct b.
    + inv_res. split; [lia|]. split; [done|]. intros; lia.
    + specialize (IH (vc + 1) H). destruct r as [v|].
      * destruct IH as (? & ? & IH). split; [lia|]. split; [done|]. intros w Hw.
        destruct (decide (w = vc)) as [->|]; [done|]. apply IH. lia.
      * intros w Hw. destruct (decide (w = vc)) as [->|]; [done|]. apply IH. lia.
Qed.

(** Reading the VC states of a vnet cannot fail when they are all there. *)
Lemma first_idle_total curTime vc n o :
  0 ≤ vc → vc + Z.of_nat n ≤ Z.of_nat (length (outVcState o)) → ∃ r, first_idle curTime vc n o = Ok r.
Proof.
  revert vc. induction n as [|n IH]; intros vc Hvc Hn; cbn [first_idle]; [eauto|].
  unfold is_vc_idle. destruct (vec_get_in_range (outVcState o) vc) as [s ->]; [lia|]. simpl.
  destruct (ovc_isInState IDLE_ curTime s); [eauto|]. apply IH; lia.
Qed.

(** The VCs of [vnet] are VCs of the port. *)
Definition vnet_in_range (vnet : Z) (o : OutputUnit) : Prop :=
  0 ≤ vnet ∧ 0 < ou_vc_per_vnet o
  ∧ (vnet + 1) * ou_vc_per_vnet o ≤ Z.of_nat (length (outVcState o)).

(** ** Properties *)

(** VC selection agrees with the check made before it: on the VCs of a
    vnet of the port, [select_free_vc] returns a VC exactly when [has_free_vc]
    says there is one; the VC returned belongs to the vnet, was idle, is the
    lowest idle one, becomes active at the current tick, and no other VC's
    state changes. Otherwise it returns -1 and changes nothing. *)
Theorem select_free_vc_spec t vnet o :
  vnet_in_range vnet o →
  ∃ free vc o', has_free_vc t vnet o = Ok free ∧ select_free_vc t vnet o = Ok (vc, o') ∧
  if free
  then vnet * ou_vc_per_vnet o ≤ vc < (vnet + 1) * ou_vc_per_vnet o
       ∧ is_vc_idle vc t o = Ok true
       ∧ (∀ w, vnet * ou_vc_per_vnet o ≤ w < vc → is_vc_idle w t o = Ok false)
       ∧ is_vc_idle vc t o' = Ok false
       ∧ has_credit t vc o' = (let* s := vec_get (outVcState o) vc in Ok (ovc_has_credit s))
       ∧ (∀ w, w ≠ vc → vec_get (outVcState o') w = vec_get (outVcState o) w)
  else vc = -1 ∧ o' = o
       ∧ ∀ w, vnet * ou_vc_per_vnet o ≤ w < (vnet + 1) * ou_vc_per_vnet o → is_vc_idle w t o = Ok false.
Proof.
  intros (Hv & Hp & Hl). unfold has_free_vc, select_free_vc.
  destruct (first_idle_total t (vnet * ou_vc_per_vnet o) (Z.to_nat (ou_vc_per_vnet o)) o) as [r Hr]; [nia..|].
  pose proof (first_idle_spec _ _ _ _ _ Hr) as Hspec. rewrite Hr. simpl.
  rewrite Z2Nat.id in Hspec by lia.
  replace (vnet * ou_vc_per_vnet o + ou_vc_per_vnet o) with ((vnet + 1) * ou_vc_per_vnet o) in Hspec by lia.
  destruct r as [vc|]; simpl.
  - destruct Hspec as (Hrange & Hidle & Hmin).
    pose proof Hidle as Hget. unfold is_vc_idle in Hget. apply rbind_ok in Hget as (s & Hs & Hi).
    unfold set_vc_state, upd_ovc, vec_upd. rewrite Hs. simpl.
    apply vec_get_range in Hs as Hrng. rewrite vec_set_in_range by done. simpl.
    eexists true, vc, _. split; [done|]. split; [done|].
    set (s' := ovc_setState ACTIVE_ t s).
    pose proof (vec_set_in_range (outVcState o) vc s' Hrng) as Hset.
    split_and!; [lia|lia|done|done| | |].
    + unfold is_vc_idle. simpl. by rewrite (vec_get_set_eq _ _ _ _ Hset).
    + unfold has_credit. simpl. rewrite (vec_get_set_eq _ _ _ _ Hset). simpl.
      unfold ovc_isInState. simpl. rewrite Z.leb_refl, Hs. done.
    + intros w Hw. simpl. by rewrite (vec_get_set_ne _ _ _ _ _ Hset).
  - eexists false, (-1), o. done.
Qed.

Definition ex_ovc (i : Z) (st : VC_state_type) : OutVcState :=
  {| ovc_id := i; ovc_time := 0; ovc_state := st; m_credit_count := 1; m_max_credit_count := 1 |}.
Definition ex_ou : OutputUnit :=
  {| ou_id := 0; ou_direction := "East"; ou_vc_per_vnet := 2; ou_out_link := 0; ou_credit_link := 1;
     outBuffer := new_flitBuffer;
     outVcState := [ex_ovc 0 IDLE_; ex_ovc 1 IDLE_; ex_ovc 2 ACTIVE_; ex_ovc 3 IDLE_] |}.

Lemma select_free_vc_spec_witness :
  ∃ o', select_free_vc 500 1 ex_ou = Ok (3, o') ∧ is_vc_idle 3 500 o' = Ok false.
Proof.
  destruct (select_free_vc_spec 500 1 ex_ou) as (free & vc & o' & Hf & Hs & H).
  - split; [lia|]. split; vm_compute; congruence.
  - vm_compute in Hf. injection Hf as <-. exists o'.
    assert (vc = 3) as -> by (vm_compute in Hs; injection Hs; congruence).
    destruct H as (_ & _ & _ & H & _). split; [exact Hs|exact H].
Defined.

(** ** Functional accesses *)

Section functional.
Context {M : Type} (access : MsgPtr → M → bool * M).

Definition ou_functionalRead (o : OutputUnit) (m : M) : bool * M :=
  buffer_functionalRead access (outBuffer o) m.
Definition ou_functionalWrite (o : OutputUnit) (m : M) : Z * M :=
  buffer_functionalWrite access (outBuffer o) m.

End functional.
