(* ===== verification/SwitchAllocator.v ===== *)
(** * Switch allocation: garnet/SwitchAllocator.{hh,cc}

    Two-stage separable allocation: every input port nominates one virtual
    channel, every output port picks one of the inputs that request it, both
    round robin. The state of the whole router, on which the allocator works,
    is defined here too. *)

From S2P Require Import Prelude IntMath Clocked Consumer NetDest Flit RoutingUnit VirtualChannel NetworkLink InputUnit OutputUnit.

(** ** State *)

Record SwitchAllocator := {
  sa_num_inports : Z;
  sa_num_outports : Z;
  sa_num_vcs : Z;
  sa_vc_per_vnet : Z;
  m_input_arbiter_activity : Z;
  m_output_arbiter_activity : Z;
  m_round_robin_invc : list Z;
  m_round_robin_inport : list Z;
  m_port_requests : list Z;
  m_vc_winners : list Z
}.

Record CrossbarSwitch := {
  xb_num_vcs : Z;
  m_crossbar_activity : Z;
  switchBuffers : list flitBuffer
}.

Record Router := {
  core : RouterCore;
  m_input_unit : list InputUnit;
  m_output_unit : list OutputUnit;
  switchAllocator : SwitchAllocator;
  crossbarSwitch : CrossbarSwitch
}.

Definition with_units (r : Router) (c : RouterCore) (ius : list InputUnit) (ous : list OutputUnit) : Router :=
  {| core := c; m_input_unit := ius; m_output_unit := ous; switchAllocator := switchAllocator r;
     crossbarSwitch := crossbarSwitch r |}.

Definition with_sa (r : Router) (s : SwitchAllocator) : Router :=
  {| core := core r; m_input_unit := m_input_unit r; m_output_unit := m_output_unit r;
     switchAllocator := s; crossbarSwitch := crossbarSwitch r |}.

Definition with_xbar (r : Router) (x : CrossbarSwitch) : Router :=
  {| core := core r; m_input_unit := m_input_unit r; m_output_unit := m_output_unit r;
     switchAllocator := switchAllocator r; crossbarSwitch := x |}.

Definition with_core_of (r : Router) (c : RouterCore) : Router :=
  with_units r c (m_input_unit r) (m_output_unit r).

Definition upd_sa (s : SwitchAllocator) (ia oa : Z) (rrv rri req win : list Z) : SwitchAllocator :=
  {| sa_num_inports := sa_num_inports s; sa_num_outports := sa_num_outports s;
     sa_num_vcs := sa_num_vcs s; sa_vc_per_vnet := sa_vc_per_vnet s; m_input_arbiter_activity := ia;
     m_output_arbiter_activity := oa; m_round_robin_invc := rrv; m_round_robin_inport := rri;
     m_port_requests := req; m_vc_winners := win |}.

(** [Router::getInputUnit], [Router::getOutputUnit]: the port is unsigned. *)
Definition getInputUnit (r : Router) (port : Z) : res InputUnit :=
  match vec_get (m_input_unit r) port with
  | Ok u => Ok u
  | Err _ => Err (EAssert "port < m_input_unit.size()")
  end.

Definition getOutputUnit (r : Router) (port : Z) : res OutputUnit :=
  match vec_get (m_output_unit r) port with
  | Ok u => Ok u
  | Err _ => Err (EAssert "port < m_output_unit.size()")
  end.

Definition set_input (r : Router) (port : Z) (u : InputUnit) : res Router :=
  let* us := vec_set (m_input_unit r) port u in Ok (with_units r (core r) us (m_output_unit r)).

Definition set_output (r : Router) (port : Z) (o : OutputUnit) : res Router :=
  let* os := vec_set (m_output_unit r) port o in Ok (with_units r (core r) (m_input_unit r) os).

(** ** Construction *)

Definition new_SwitchAllocator (c : RouterCore) : SwitchAllocator :=
  {| sa_num_inports := 0; sa_num_outports := 0; sa_num_vcs := r_num_vcs c;
     sa_vc_per_vnet := r_vc_per_vnet c; m_input_arbiter_activity := 0;
     m_output_arbiter_activity := 0; m_round_robin_invc := []; m_round_robin_inport := [];
     m_port_requests := []; m_vc_winners := [] |}.

(** [SwitchAllocator::init] *)
Definition sa_init (num_inports num_outports : Z) (s : SwitchAllocator) : SwitchAllocator :=
  {| sa_num_inports := num_inports; sa_num_outports := num_outports; sa_num_vcs := sa_num_vcs s;
     sa_vc_per_vnet := sa_vc_per_vnet s; m_input_arbiter_activity := m_input_arbiter_activity s;
     m_output_arbiter_activity := m_output_arbiter_activity s;
     m_round_robin_invc := replicate (Z.to_nat num_inports) 0;
     m_round_robin_inport := replicate (Z.to_nat num_outports) 0;
     m_port_requests := replicate (Z.to_nat num_inports) (-1);
     m_vc_winners := replicate (Z.to_nat num_inports) (-1) |}.

(** ** Operations *)

(** [SwitchAllocator::get_vnet] *)
Definition get_vnet (r : Router) (invc : Z) : res Z :=
  let vnet := Z.quot invc (sa_vc_per_vnet (switchAllocator r)) in
  let* _ := assert_ "vnet < m_router->get_num_vnets()" (vnet <? r_virtual_networks (core r)) in
  Ok vnet.

(** Is there, among [n] VCs from [temp_vc] on, one that is ready for switch
    allocation, wants the same outport and was enqueued earlier? *)
Fixpoint older_flit (curTime outport t_enqueue_time temp_vc : Z) (n : nat) (u : InputUnit) : res bool :=
  match n with
  | O => Ok false
  | S n' =>
      let* ready := need_stage temp_vc SA_ curTime u in
      let* stop :=
        (if ready then
          let* o := get_outport temp_vc u in
          if o =? outport then
            let* e := get_enqueue_time temp_vc u in Ok (e <? t_enqueue_time)
          else Ok false
         else Ok false) in
      if stop then Ok true else older_flit curTime outport t_enqueue_time (temp_vc + 1) n' u
  end.

Definition send_allowed (cfg : NetConfig) (env : ClockEnv) (r : Router) (inport invc outport outvc : Z)
    : res bool :=
  let* vnet := get_vnet r invc in
  let has_outvc := negb (outvc =? -1) in
  let* output_unit := getOutputUnit r outport in
  let* ' (has_outvc, has_credit_) :=
    (if negb has_outvc then
      let* free := has_free_vc (curTick env) vnet output_unit in
      Ok (if free then (true, true) else (has_outvc, false))
    else
      let* hc := has_credit (curTick env) outvc output_unit in
      Ok (has_outvc, hc)) in
  if negb has_outvc || negb has_credit_ then Ok false
  else
    let* ordered := isVNetOrdered cfg vnet in
    if ordered then
      let* input_unit := getInputUnit r inport in
      let* t_enqueue_time := get_enqueue_time invc input_unit in
      let vc_base := vnet * sa_vc_per_vnet (switchAllocator r) in
      let* older := older_flit (curTick env) outport t_enqueue_time vc_base
        (Z.to_nat (sa_vc_per_vnet (switchAllocator r))) input_unit in
      Ok (negb older)
    else Ok true.

(** [if (++x >= n) x = 0] *)
Definition rr_next (x n : Z) : Z := if n <=? x + 1 then 0 else x + 1.

(** The inner loop of [arbitrate_inports]: the first VC, round robin from
    [invc], that is in the SA stage and allowed to send, with its outport. *)
Fixpoint find_invc (cfg : NetConfig) (env : ClockEnv) (r : Router) (inport invc : Z) (n : nat)
    : res (option (Z * Z)) :=
  match n with
  | O => Ok None
  | S n' =>
      let* input_unit := getInputUnit r inport in
      let* ready := need_stage invc SA_ (curTick env) input_unit in
      let* request :=
        (if ready then
          let* outport := get_outport invc input_unit in
          let* outvc := get_outvc invc input_unit in
          let* make_request := send_allowed cfg env r inport invc outport outvc in
          Ok (if make_request then Some (invc, outport) else None)
         else Ok None) in
      match request with
      | Some p => Ok (Some p)
      | None => find_invc cfg env r inport (rr_next invc (sa_num_vcs (switchAllocator r))) n'
      end
  end.

(** One turn of the outer loop of [arbitrate_inports]. *)
Definition arbitrate_inport (cfg : NetConfig) (env : ClockEnv) (inport : Z) (r : Router) : res Router :=
  let s := switchAllocator r in
  let* invc := vec_get (m_round_robin_invc s) inport in
  let* win := find_invc cfg env r inport invc (Z.to_nat (sa_num_vcs s)) in
  match win with
  | Some (invc, outport) =>
      let* req := vec_set (m_port_requests s) inport outport in
      let* wins := vec_set (m_vc_winners s) inport invc in
      Ok (with_sa r (upd_sa s (m_input_arbiter_activity s + 1) (m_output_arbiter_activity s)
            (m_round_robin_invc s) (m_round_robin_inport s) req wins))
  | None => Ok r
  end.

Definition arbitrate_inports (cfg : NetConfig) (env : ClockEnv) (r : Router) : res Router :=
  for_range 0 (Z.to_nat (sa_num_inports (switchAllocator r))) (arbitrate_inport cfg env) r.

(** [SwitchAllocator::vc_allocate] *)
Definition vc_allocate (env : ClockEnv) (outport inport invc : Z) (r : Router) : res (Z * Router) :=
  let* o := getOutputUnit r outport in
  let* vnet := get_vnet r invc in
  let* ' (outvc, o) := select_free_vc (curTick env) vnet o in
  let* r := set_output r outport o in
  let* _ := assert_ "outvc != -1" (negb (outvc =? -1)) in
  let* u := getInputUnit r inport in
  let* u := grant_outvc invc outvc u in
  let* r := set_input r inport u in
  Ok (outvc, r).

(** [CrossbarSwitch::update_sw_winner], through [Router::grant_switch] *)
Definition grant_switch (inport : Z) (t_flit : flit) (r : Router) : res Router :=
  let x := crossbarSwitch r in
  let* bufs := vec_upd (switchBuffers x) inport (fun b => Ok (insert t_flit b)) in
  Ok (with_xbar r {| xb_num_vcs := xb_num_vcs x; m_crossbar_activity := m_crossbar_activity x;
                     switchBuffers := bufs |}).

(** [is_tail]: the flit ends its packet. *)
Definition is_tail (f : flit) : bool :=
  bool_decide (m_type f = TAIL_) || bool_decide (m_type f = HEAD_TAIL_).

(** The winning flit leaves its VC: the VC is freed after a tail, and a credit
    goes upstream. *)
Definition release_vc (env : ClockEnv) (inport invc : Z) (t_flit : flit) (r : Router) : res Router :=
  let* u := getInputUnit r inport in
  if is_tail t_flit then
    let* ready := iu_isReady invc (curTick env) u in
    let* _ := assert_ "!(input_unit->isReady(invc, curTick()))" (negb ready) in
    let* u := set_vc_idle invc (curTick env) u in
    let '(c, u) := increment_credit env invc true (curTick env) (core r) u in
    set_input (with_core_of r c) inport u
  else
    let '(c, u) := increment_credit env invc false (curTick env) (core r) u in
    set_input (with_core_of r c) inport u.

(** Remove the request and advance both round-robin pointers. *)
Definition retire_request (inport invc outport : Z) (s : SwitchAllocator) : res SwitchAllocator :=
  let* req := vec_set (m_port_requests s) inport (-1) in
  let* rri := vec_set (m_round_robin_inport s) outport (rr_next inport (sa_num_inports s)) in
  let* rrv := vec_set (m_round_robin_invc s) inport (rr_next invc (sa_num_vcs s)) in
  Ok (upd_sa s (m_input_arbiter_activity s) (m_output_arbiter_activity s + 1) rrv rri req
        (m_vc_winners s)).

(** The body of [arbitrate_outports] for the input that wins [outport]. *)
Definition grant (env : ClockEnv) (outport inport : Z) (r : Router) : res Router :=
  let* _ := getOutputUnit r outport in
  let* u := getInputUnit r inport in
  let* invc := vec_get (m_vc_winners (switchAllocator r)) inport in
  let* outvc := get_outvc invc u in
  let* ' (outvc, r) := (if outvc =? -1 then vc_allocate env outport inport invc r else Ok (outvc, r)) in
  let* u := getInputUnit r inport in
  let* ' (t_flit, u) := iu_getTopFlit invc u in
  let* r := set_input r inport u in
  let t_flit := set_vc outvc (set_outport outport t_flit) in
  let* o := getOutputUnit r outport in
  let* o := decrement_credit outvc o in
  let* r := set_output r outport o in
  let t_flit := advance_stage ST_ (curTick env) t_flit in
  let* r := grant_switch inport t_flit r in
  let* r := release_vc env inport invc t_flit r in
  let* s := retire_request inport invc outport (switchAllocator r) in
  Ok (with_sa r s).

(** The inner loop of [arbitrate_outports]: the first input, round robin from
    [inport], that requests [outport]. *)
Fixpoint find_inport (s : SwitchAllocator) (outport inport : Z) (n : nat) : res (option Z) :=
  match n with
  | O => Ok None
  | S n' =>
      let* q := vec_get (m_port_requests s) inport in
      if q =? outport then Ok (Some inport)
      else find_inport s outport (rr_next inport (sa_num_inports s)) n'
  end.

(** One turn of the outer loop of [arbitrate_outports]. *)
Definition arbitrate_outport (env : ClockEnv) (outport : Z) (r : Router) : res Router :=
  let s := switchAllocator r in
  let* inport := vec_get (m_round_robin_inport s) outport in
  let* win := find_inport s outport inport (Z.to_nat (sa_num_inports s)) in
  match win with
  | Some inport => grant env outport inport r
  | None => Ok r
  end.

Definition arbitrate_outports (env : ClockEnv) (r : Router) : res Router :=
  for_range 0 (Z.to_nat (sa_num_outports (switchAllocator r))) (arbitrate_outport env) r.

(** [std::fill(m_port_requests.begin(), m_port_requests.end(), -1)] *)
Definition clear_request_vector (r : Router) : Router :=
  let s := switchAllocator r in
  with_sa r (upd_sa s (m_input_arbiter_activity s) (m_output_arbiter_activity s)
    (m_round_robin_invc s) (m_round_robin_inport s) (map (fun _ => -1) (m_port_requests s))
    (m_vc_winners s)).

(** Is any of [n] VCs from [j] on in the SA stage at [time]? *)
Fixpoint any_vc_ready (time j : Z) (n : nat) (u : InputUnit) : res bool :=
  match n with
  | O => Ok false
  | S n' =>
      let* b := need_stage j SA_ time u in
      if b then Ok true else any_vc_ready time (j + 1) n' u
  end.

Fixpoint any_port_ready (time i : Z) (n : nat) (r : Router) : res bool :=
  match n with
  | O => Ok false
  | S n' =>
      let* u := getInputUnit r i in
      let* b := any_vc_ready time 0 (Z.to_nat (sa_num_vcs (switchAllocator r))) u in
      if b then Ok true else any_port_ready time (i + 1) n' r
  end.

Definition check_for_wakeup (env : ClockEnv) (r : Router) : res Router :=
  let nextCycle := clockEdge env 1 in
  if alreadyScheduled (r_consumer (core r)) nextCycle then Ok r
  else
    let* b := any_port_ready nextCycle 0 (Z.to_nat (sa_num_inports (switchAllocator r))) r in
    Ok (if b then with_core_of r (schedule_wakeup env 1 (core r)) else r).

(** [SwitchAllocator::wakeup] *)
Definition sa_wakeup (cfg : NetConfig) (env : ClockEnv) (r : Router) : res Router :=
  let* r := arbitrate_inports cfg env r in
  let* r := arbitrate_outports env r in
  let r := clear_request_vector r in
  check_for_wakeup env r.

Definition sa_resetStats (s : SwitchAllocator) : SwitchAllocator :=
  upd_sa s 0 0 (m_round_robin_invc s) (m_round_robin_inport s) (m_port_requests s) (m_vc_winners s).

(** ** Round-robin arbitration *)

Lemma rr_next_range x n : 0 ≤ x < n → 0 ≤ rr_next x n < n.
Proof. intros. unfold rr_next. zcase; lia. Qed.

Lemma rr_next_mod x n : 0 ≤ x < n → rr_next x n = (x + 1) mod n.
Proof.
  intros. unfold rr_next. zcase.
  - replace (x + 1) with n by lia. symmetry. apply Z.mod_same. lia.
  - symmetry. apply Z.mod_small. lia.
Qed.

(** How far [x] is from [start], going up and wrapping at [n]. *)
Definition rr_dist (n start x : Z) : Z := (x - start) mod n.

Lemma rr_dist_range n start x : 0 < n → 0 ≤ rr_dist n start x < n.
Proof. intros. apply Z.mod_pos_bound. lia. Qed.

Lemma rr_dist_cases n start x :
  0 ≤ start < n → 0 ≤ x < n → rr_dist n start x = if start <=? x then x - start else x - start + n.
Proof.
  intros. unfold rr_dist. zcase.
  - apply Z.mod_small. lia.
  - rewrite <-(Z.mod_add _ 1 n) by lia. rewrite Z.mul_1_l. apply Z.mod_small. lia.
Qed.

Lemma rr_dist_0 n start x : 0 ≤ start < n → 0 ≤ x < n → rr_dist n start x = 0 ↔ x = start.
Proof. intros. rewrite rr_dist_cases by done. zcase; lia. Qed.

Lemma rr_next_cases x n : 0 ≤ x < n → rr_next x n = if x =? n - 1 then 0 else x + 1.
Proof. intros. unfold rr_next. destruct (Z.leb_spec n (x + 1)), (Z.eqb_spec x (n - 1)); lia. Qed.

(** Moving the start past another element brings [x] nearer. *)
Lemma rr_dist_next n w x start :
  0 ≤ start < n → 0 ≤ w < n → 0 ≤ x < n → rr_dist n start w < rr_dist n start x →
  rr_dist n (rr_next w n) x < rr_dist n start x.
Proof.
  intros Hs Hw Hx. pose proof (rr_next_range w n Hw). rewrite !rr_dist_cases by done.
  rewrite rr_next_cases by done. repeat zcase; lia.
Qed.

Lemma rr_dist_step n start x :
  0 ≤ start < n → 0 ≤ x < n → x ≠ start → rr_dist n start x = rr_dist n (rr_next start n) x + 1.
Proof.
  intros Hs Hx Hne. pose proof (rr_next_range start n Hs). rewrite !rr_dist_cases by done.
  rewrite rr_next_cases by done. repeat zcase; lia.
Qed.

Lemma rr_dist_max n start : 0 ≤ start < n → rr_dist n (rr_next start n) start = n - 1.
Proof.
  intros Hs. pose proof (rr_next_range start n Hs). rewrite rr_dist_cases by done.
  rewrite rr_next_cases by done. repeat zcase; lia.
Qed.

(** Input [i] requests [outport]. *)
Definition requests (s : SwitchAllocator) (outport i : Z) : bool :=
  match vec_get (m_port_requests s) i with Ok q => q =? outport | Err _ => false end.

Lemma vec_get_requests s outport i :
  0 ≤ i < Z.of_nat (length (m_port_requests s)) →
  ∃ q, vec_get (m_port_requests s) i = Ok q ∧ requests s outport i = (q =? outport).
Proof.
  intros Hi. unfold requests. destruct (vec_get_in_range _ _ Hi) as [q ->]. eauto.
Qed.

(** The scan finds the requesting input nearest to the start. *)
Lemma find_inport_spec s outport start n :
  Z.of_nat (length (m_port_requests s)) = sa_num_inports s →
  0 ≤ start < sa_num_inports s → Z.of_nat n ≤ sa_num_inports s →
  ∃ r, find_inport s outport start n = Ok r ∧
  match r with
  | Some i => 0 ≤ i < sa_num_inports s ∧ requests s outport i = true
              ∧ rr_dist (sa_num_inports s) start i < Z.of_nat n
              ∧ ∀ k, 0 ≤ k < sa_num_inports s → requests s outport k = true →
                  rr_dist (sa_num_inports s) start i ≤ rr_dist (sa_num_inports s) start k
  | None => ∀ k, 0 ≤ k < sa_num_inports s → rr_dist (sa_num_inports s) start k < Z.of_nat n →
                 requests s outport k = false
  end.
Proof.
  intros Hlen. revert start. induction n as [|n IH]; intros start Hs Hn; cbn [find_inport].
  { exists None. split; [done|]. intros k Hk.
    pose proof (rr_dist_range (sa_num_inports s) start k). lia. }
  destruct (vec_get_requests s outport start) as (q & -> & Hq); [lia|]. simpl.
  destruct (q =? outport) eqn:Eq.
  - exists (Some start). split; [done|].
    assert (rr_dist (sa_num_inports s) start start = 0) as -> by by apply rr_dist_0.
    split_and!; [lia|lia|done|lia|]. intros k Hk _.
    pose proof (rr_dist_range (sa_num_inports s) start k). lia.
  - destruct (IH (rr_next start (sa_num_inports s))) as (r & -> & Hr);
      [by apply rr_next_range|lia|].
    exists r. split; [done|].
    assert (∀ k, 0 ≤ k < sa_num_inports s → requests s outport k = true → k ≠ start) as Hstart
      by (intros k _ Hk ->; congruence).
    destruct r as [i|].
    + destruct Hr as (Hi & Hreq & Hd & Hmin). split_and!; [lia|lia|done| |].
      * rewrite rr_dist_step; [lia|done|done|by apply Hstart].
      * intros k Hk Hkr. rewrite !(rr_dist_step _ start) by (done || by apply Hstart).
        specialize (Hmin k Hk Hkr). lia.
    + intros k Hk Hd. destruct (decide (k = start)) as [->|Hne]; [congruence|].
      apply Hr; [done|]. rewrite rr_dist_step in Hd by done. lia.
Qed.
