(* ===== verification/Router.v ===== *)
(** * Routers: garnet/Router.{hh,cc} and CrossbarSwitch.{hh,cc}

    A router wakeup takes one flit from every input link, one credit from every
    credit link, allocates the switch and sends the winners through the
    crossbar to the output buffers. The links live in a store that maps handles
    to links. *)

From S2P Require Import Prelude IntMath Clocked Consumer NetDest Flit RoutingUnit VirtualChannel NetworkLink InputUnit OutputUnit SwitchAllocator.

(** ** CrossbarSwitch *)

Definition new_CrossbarSwitch (c : RouterCore) : CrossbarSwitch :=
  {| xb_num_vcs := r_num_vcs c; m_crossbar_activity := 0; switchBuffers := [] |}.

(** [CrossbarSwitch::init] *)
Definition xbar_init (num_inports : Z) (x : CrossbarSwitch) : CrossbarSwitch :=
  {| xb_num_vcs := xb_num_vcs x; m_crossbar_activity := m_crossbar_activity x;
     switchBuffers := resize_vec num_inports new_flitBuffer (switchBuffers x) |}.

(** One turn of the loop of [CrossbarSwitch::wakeup]. *)
Definition xbar_port (env : ClockEnv) (i : Z) (r : Router) : res Router :=
  let x := crossbarSwitch r in
  let* switch_buffer := vec_get (switchBuffers x) i in
  if negb (isReady (curTick env) switch_buffer) then Ok r
  else
    let* t_flit := peekTopFlit switch_buffer in
    if is_stage ST_ (curTick env) t_flit then
      let* outport := match m_outport t_flit with Some o => Ok o | None => Err EUninit end in
      let t_flit := set_time (clockEdge env 1) (advance_stage LT_ (clockEdge env 1) t_flit) in
      let* o := getOutputUnit r outport in
      let '(c, o) := insert_flit env t_flit (core r) o in
      let* r := set_output (with_core_of r c) outport o in
      let* ' (_, switch_buffer) := getTopFlit switch_buffer in
      let* bufs := vec_set (switchBuffers x) i switch_buffer in
      Ok (with_xbar r {| xb_num_vcs := xb_num_vcs x; m_crossbar_activity := m_crossbar_activity x + 1;
                         switchBuffers := bufs |})
    else Ok r.

Definition xbar_wakeup (env : ClockEnv) (r : Router) : res Router :=
  for_range 0 (length (switchBuffers (crossbarSwitch r))) (xbar_port env) r.

Definition xbar_resetStats (x : CrossbarSwitch) : CrossbarSwitch :=
  {| xb_num_vcs := xb_num_vcs x; m_crossbar_activity := 0; switchBuffers := switchBuffers x |}.

(** ** Router *)

Definition new_Router (id latency virt_nets vcs_per_vnet width : Z) : Router :=
  let c := {| r_id := id; r_latency := latency; r_virtual_networks := virt_nets;
              r_vc_per_vnet := vcs_per_vnet; r_num_vcs := u32 (virt_nets * vcs_per_vnet);
              r_bit_width := width; routingUnit := new_RoutingUnit; r_consumer := new_Consumer;
              r_effects := [] |} in
  {| core := c; m_input_unit := []; m_output_unit := []; switchAllocator := new_SwitchAllocator c;
     crossbarSwitch := new_CrossbarSwitch c |}.

(** [Router::init] *)
Definition router_init (r : Router) : Router :=
  let nin := Z.of_nat (length (m_input_unit r)) in
  let nout := Z.of_nat (length (m_output_unit r)) in
  with_xbar (with_sa r (sa_init nin nout (switchAllocator r))) (xbar_init nin (crossbarSwitch r)).

(** The store of links. *)
Abbreviation Links := (gmap Z NetworkLink).

Definition get_link (h : Z) (ls : Links) : res NetworkLink :=
  match ls !! h with Some l => Ok l | None => Err EOutOfRange end.

Definition upd_link_at (h : Z) (f : NetworkLink → NetworkLink) (ls : Links) : res Links :=
  let* l := get_link h ls in Ok (<[h := f l]> ls).

(** [Router::addInPort] *)
Definition addInPort (inport_dirn : PortDirection) (in_link credit_link : Z) (r : Router) (ls : Links)
    : res (Router * Links) :=
  let c := core r in
  let* l := get_link in_link ls in
  if negb (bitWidth l =? r_bit_width c) then Err (EFatal "Widths of link does not match that of Router.")
  else
    let port_num := Z.of_nat (length (m_input_unit r)) in
    let input_unit := new_InputUnit port_num inport_dirn c in_link credit_link in
    let* ls := upd_link_at in_link (setLinkConsumer (ConsRouter (r_id c))) ls in
    let* ls := upd_link_at in_link (setVcsPerVnet (r_vc_per_vnet c)) ls in
    let* ls := upd_link_at credit_link (setSourceQueue (QRouterCredit (r_id c) port_num)) ls in
    let* ls := upd_link_at credit_link (setVcsPerVnet (r_vc_per_vnet c)) ls in
    let c := with_core c (addInDirection inport_dirn port_num (routingUnit c)) (r_consumer c) (r_effects c) in
    Ok (with_units r c (m_input_unit r ++ [input_unit]) (m_output_unit r), ls).

(** [Router::addOutPort] *)
Definition addOutPort (cfg : NetConfig) (outport_dirn : PortDirection) (out_link : Z)
    (routing_table_entry : list NetDest) (link_weight credit_link consumerVcs : Z)
    (r : Router) (ls : Links) : res (Router * Links) :=
  let c := core r in
  let* l := get_link out_link ls in
  if negb (bitWidth l =? r_bit_width c) then Err (EFatal "Widths of units do not match.")
  else
    let port_num := Z.of_nat (length (m_output_unit r)) in
    let* output_unit := new_OutputUnit cfg port_num outport_dirn c consumerVcs out_link credit_link in
    let* ls := upd_link_at credit_link (setLinkConsumer (ConsRouter (r_id c))) ls in
    let* ls := upd_link_at credit_link (setVcsPerVnet consumerVcs) ls in
    let* ls := upd_link_at out_link (setSourceQueue (QRouterOut (r_id c) port_num)) ls in
    let* ls := upd_link_at out_link (setVcsPerVnet consumerVcs) ls in
    let* ru := addRoute routing_table_entry (routingUnit c) in
    let ru := addOutDirection outport_dirn port_num (addWeight link_weight ru) in
    let c := with_core c ru (r_consumer c) (r_effects c) in
    Ok (with_units r c (m_input_unit r) (m_output_unit r ++ [output_unit]), ls).

(** The two loops of [Router::wakeup] over the ports. [rnd inport] is what
    [rand()] returns if that port routes a packet. *)
Definition wake_input (cfg : NetConfig) (env : ClockEnv) (rnd : Z → Z) (inport : Z) (s : Router * Links)
    : res (Router * Links) :=
  let '(r, ls) := s in
  let* u := vec_get (m_input_unit r) inport in
  let* l := get_link (iu_in_link u) ls in
  let* ' (c, u', l') := input_wakeup cfg env (rnd inport) (core r) u l in
  let* r := set_input (with_core_of r c) inport u' in
  Ok (r, <[iu_in_link u := l']> ls).

Definition wake_output (env : ClockEnv) (outport : Z) (s : Router * Links) : res (Router * Links) :=
  let '(r, ls) := s in
  let* o := vec_get (m_output_unit r) outport in
  let* l := get_link (ou_credit_link o) ls in
  let* ' (c, o', l') := output_wakeup env outport (core r) o l in
  let* r := set_output (with_core_of r c) outport o' in
  Ok (r, <[ou_credit_link o := l']> ls).

(** [Router::wakeup] *)
Definition router_wakeup (cfg : NetConfig) (env : ClockEnv) (rnd : Z → Z) (r : Router) (ls : Links)
    : res (Router * Links) :=
  let* _ := assert_ "clockEdge() == curTick()" (clockEdge env 0 =? curTick env) in
  let* ' (r, ls) := for_range 0 (length (m_input_unit r)) (wake_input cfg env rnd) (r, ls) in
  let* ' (r, ls) := for_range 0 (length (m_output_unit r)) (wake_output env) (r, ls) in
  let* r := sa_wakeup cfg env r in
  let* r := xbar_wakeup env r in
  Ok (r, ls).

#[export] Instance router_has_consumer : HasConsumer Router :=
  {| consumer_of r := r_consumer (core r);
     set_consumer k r := with_core_of r (with_core (core r) (routingUnit (core r)) k (r_effects (core r)));
     consumer_of_set k r := eq_refl |}.

(** [Router::resetStats] *)
Definition router_resetStats (r : Router) : Router :=
  with_xbar (with_sa (with_units r (core r) (map iu_resetStats (m_input_unit r)) (m_output_unit r))
    (sa_resetStats (switchAllocator r))) (xbar_resetStats (crossbarSwitch r)).

(** The counters [Router::collateStats] reports. *)
Record RouterStats := {
  m_buffer_reads : Z;
  m_buffer_writes : Z;
  rs_crossbar_activity : Z;
  m_sw_input_arbiter_activity : Z;
  m_sw_output_arbiter_activity : Z
}.

(** [Router::collateStats] *)
Definition router_collateStats (r : Router) (st : RouterStats) : Router * RouterStats :=
  let ps := map iu_collateStats (m_input_unit r) in
  (with_units r (core r) (map fst ps) (m_output_unit r),
   {| m_buffer_reads := foldl (fun s p => s + fst (snd p)) (m_buffer_reads st) ps;
      m_buffer_writes := foldl (fun s p => s + snd (snd p)) (m_buffer_writes st) ps;
      rs_crossbar_activity := m_crossbar_activity (crossbarSwitch r);
      m_sw_input_arbiter_activity := m_input_arbiter_activity (switchAllocator r);
      m_sw_output_arbiter_activity := m_output_arbiter_activity (switchAllocator r) |}).

(** ** Functional accesses *)

Section functional.
Context {M : Type} (access : MsgPtr → M → bool * M).

Definition xbar_functionalRead (x : CrossbarSwitch) (m : M) : bool * M :=
  foldl (fun '(read, m) b =>
    let '(r, m) := buffer_functionalRead access b m in (if r then true else read, m))
    (false, m) (switchBuffers x).

Definition xbar_functionalWrite (x : CrossbarSwitch) (m : M) : Z * M :=
  foldl (fun '(num, m) b =>
    let '(n, m) := buffer_functionalWrite access b m in (u32 (num + n), m))
    (0, m) (switchBuffers x).

(** [Router::functionalRead] *)
Definition router_functionalRead (r : Router) (m : M) : bool * M :=
  let '(rd, m) := xbar_functionalRead (crossbarSwitch r) m in
  let s := foldl (fun '(read, m) u =>
    let '(b, m) := iu_functionalRead access u m in (if b then true else read, m))
    (rd, m) (m_input_unit r) in
  foldl (fun '(read, m) o =>
    let '(b, m) := ou_functionalRead access o m in (if b then true else read, m))
    s (m_output_unit r).

(** [Router::functionalWrite] *)
Definition router_functionalWrite (r : Router) (m : M) : Z * M :=
  let '(n, m) := xbar_functionalWrite (crossbarSwitch r) m in
  let s := foldl (fun '(num, m) u =>
    let '(k, m) := iu_functionalWrite access u m in (u32 (num + k), m))
    (u32 (0 + n), m) (m_input_unit r) in
  foldl (fun '(num, m) o =>
    let '(k, m) := ou_functionalWrite access o m in (u32 (num + k), m))
    s (m_output_unit r).

End functional.

(** ** Flit conservation *)

(** What identifies a flit and never changes on its way through a router. *)
Definition flit_key (f : flit) : Z * Z * Z * Z * flit_type * MsgPtr * Z * Z :=
  (m_packet_id f, m_id f, m_size f, m_vnet f, m_type f, m_msg_ptr f, msgSize f, m_width f).

(** The key with what tells flits from credits: flits have a source delay, credits
    a free signal. *)
Abbreviation mark := (Z * Z * Z * Z * flit_type * MsgPtr * Z * Z * option Z * option bool)%type.
Definition flit_mark (f : flit) : mark := (flit_key f, src_delay f, m_is_free_signal f).

(** The weight that counts the data flits whose key satisfies [q]. *)
Definition data_class (q : Z * Z * Z * Z * flit_type * MsgPtr * Z * Z → bool) (k : mark) : Z :=
  match snd k with None => if q (fst (fst k)) then 1 else 0 | Some _ => 0 end.

(** The mark of any new credit. *)
Definition credit_mark (free : bool) : mark := flit_mark (new_Credit 0 free 0).

Section conservation.
(** Flits are weighed by their marks; new credits weigh nothing. *)
Context (p : mark → Z) (Hcredit : ∀ free, p (credit_mark free) = 0).

Definition fcount (f : flit) : Z := p (flit_mark f).
Definition bcount (b : flitBuffer) : Z := lsum fcount (m_buffer b).
Definition iu_count (u : InputUnit) : Z :=
  lsum (fun v => bcount (inputBuffer v)) (virtualChannels u) + bcount (creditQueue u).
Definition ou_count (o : OutputUnit) : Z := bcount (outBuffer o).
Definition link_count (l : NetworkLink) : Z := bcount (linkBuffer l).

(** The flits inside a router, and on all links. *)
Definition router_count (r : Router) : Z :=
  lsum iu_count (m_input_unit r) + lsum bcount (switchBuffers (crossbarSwitch r))
  + lsum ou_count (m_output_unit r).
Definition links_count (ls : Links) : Z := lsum (fun kl => link_count (snd kl)) (map_to_list ls).

Lemma bcount_insert f b : bcount (insert f b) = bcount b + fcount f.
Proof. unfold bcount. simpl. rewrite lsum_app. simpl. lia. Qed.

Lemma bcount_getTop b f b' : getTopFlit b = Ok (f, b') → bcount b = fcount f + bcount b'.
Proof. unfold getTopFlit, bcount. destruct (m_buffer b); intros; by simplify_eq/=. Qed.

Lemma links_count_insert h l l' ls :
  ls !! h = Some l → links_count (<[h := l']> ls) = links_count ls - link_count l + link_count l'.
Proof.
  intros Hl. unfold links_count.
  rewrite <-insert_delete_eq, map_to_list_insert by apply lookup_delete_eq. simpl.
  rewrite <-(map_to_list_delete ls h l Hl). simpl. lia.
Qed.

Lemma upd_vc_count vc g u u' d :
  (∀ v v', g v = Ok v' → bcount (inputBuffer v') = bcount (inputBuffer v) + d) →
  upd_vc vc g u = Ok u' → iu_count u' = iu_count u + d.
Proof.
  intros Hg. unfold upd_vc. intros (vcs & Hv & [= <-])%rbind_ok. unfold iu_count. simpl.
  apply (lsum_vec_upd (fun v => bcount (inputBuffer v))) in Hv as (x & y & _ & Hy & ->).
  rewrite (Hg x y Hy). lia.
Qed.

Lemma iu_getTopFlit_count vc u f u' :
  iu_getTopFlit vc u = Ok (f, u') → iu_count u = fcount f + iu_count u'.
Proof.
  unfold iu_getTopFlit, vc_getTopFlit. intros H.
  apply rbind_ok in H as (v & Hv & H). apply rbind_ok in H as ([f0 v'] & Ht & H).
  apply rbind_ok in Ht as ([f1 b] & Hb & Ht). apply rbind_ok in H as (vcs & Hs & H). simplify_eq/=.
  unfold iu_count. simpl. rewrite (lsum_vec_set (fun v => bcount (inputBuffer v)) _ _ _ _ _ Hv Hs). simpl.
  apply bcount_getTop in Hb. lia.
Qed.

Lemma link_consume_count l f l' : consumeLink l = Ok (f, l') → link_count l = fcount f + link_count l'.
Proof.
  unfold consumeLink. intros ([f0 b] & Hb & H)%rbind_ok. simplify_eq/=.
  by apply bcount_getTop in Hb.
Qed.

Lemma input_wakeup_count cfg env rnd c u l c' u' l' :
  input_wakeup cfg env rnd c u l = Ok (c', u', l') →
  iu_count u' + link_count l' = iu_count u + link_count l.
Proof.
  unfold input_wakeup. destruct (link_isReady (curTick env) l); [|intros; by simplify_eq].
  intros H. apply rbind_ok in H as ([f l1] & Hc & H). apply link_consume_count in Hc as ->.
  apply rbind_ok in H as (_ & _ & H). cbv zeta in H.
  apply rbind_ok in H as ([c1 u1] & Ha & H). apply rbind_ok in H as ([f2 c2] & Hs & H).
  apply rbind_ok in H as (u2 & Hu & H). inv_res.
  assert (fcount f2 = fcount f) as Hf2.
  { unfold stage_flit in Hs. destruct (_ =? 1); inv_res; done. }
  apply (upd_vc_count _ _ _ _ (fcount f2)) in Hu; [|intros ? ? [= <-]; apply bcount_insert].
  assert (iu_count u1 = iu_count u) as Hu1.
  { unfold admit_flit in Ha. apply rbind_ok in Ha as (v9 & _ & Ha).
    destruct (_ || _); apply rbind_ok in Ha as (_ & _ & Ha); [|by simplify_eq].
    apply rbind_ok in Ha as (u3 & Hact & Ha). apply rbind_ok in Ha as ([o c4] & _ & Ha).
    apply rbind_ok in Ha as (u4 & Hgr & Ha). simplify_eq/=.
    apply (upd_vc_count _ _ _ _ 0) in Hact; [|intros ? ? [= <-]; simpl; lia].
    apply (upd_vc_count _ _ _ _ 0) in Hgr; [|intros ? ? [= <-]; simpl; lia]. lia. }
  change (iu_count (with_stats u2 _ _ _ _)) with (iu_count u2). lia.
Qed.

Lemma getInputUnit_ok r i u : getInputUnit r i = Ok u ↔ vec_get (m_input_unit r) i = Ok u.
Proof. unfold getInputUnit. destruct (vec_get _ _); naive_solver. Qed.

Lemma getOutputUnit_ok r i u : getOutputUnit r i = Ok u ↔ vec_get (m_output_unit r) i = Ok u.
Proof. unfold getOutputUnit. destruct (vec_get _ _); naive_solver. Qed.

Lemma set_input_count r i u u' r' :
  vec_get (m_input_unit r) i = Ok u → set_input r i u' = Ok r' →
  router_count r' = router_count r - iu_count u + iu_count u'.
Proof.
  unfold set_input. intros Hu (us & Hs & [= <-])%rbind_ok. unfold router_count. simpl.
  rewrite (lsum_vec_set iu_count _ _ _ _ _ Hu Hs). lia.
Qed.

Lemma set_output_count r i o o' r' :
  vec_get (m_output_unit r) i = Ok o → set_output r i o' = Ok r' →
  router_count r' = router_count r - ou_count o + ou_count o'.
Proof.
  unfold set_output. intros Ho (os & Hs & [= <-])%rbind_ok. unfold router_count. simpl.
  rewrite (lsum_vec_set ou_count _ _ _ _ _ Ho Hs). lia.
Qed.

Lemma upd_ovc_count vc g o o' : upd_ovc vc g o = Ok o' → ou_count o' = ou_count o.
Proof. unfold upd_ovc. by intros (s & _ & [= <-])%rbind_ok. Qed.

Lemma wake_input_count cfg env rnd i r ls r' ls' :
  wake_input cfg env rnd i (r, ls) = Ok (r', ls') →
  router_count r' + links_count ls' = router_count r + links_count ls.
Proof.
  unfold wake_input. intros (u & Hu & (l & Hl & ([[c u'] l'] & Hw & H)%rbind_ok)%rbind_ok)%rbind_ok.
  apply rbind_ok in H as (r1 & Hs & H). simplify_eq. apply input_wakeup_count in Hw.
  rewrite (set_input_count _ _ _ _ _ (Hu : vec_get (m_input_unit (with_core_of r c)) i = Ok u) Hs).
  unfold get_link in Hl. destruct (ls !! iu_in_link u) as [l0|] eqn:El; [|done]. simplify_eq.
  rewrite (links_count_insert _ _ _ _ El). unfold router_count. simpl. lia.
Qed.

Lemma select_free_vc_count t vnet o vc o' :
  select_free_vc t vnet o = Ok (vc, o') → ou_count o' = ou_count o.
Proof.
  unfold select_free_vc. intros (r & _ & H)%rbind_ok. destruct r; [|by simplify_eq].
  apply rbind_ok in H as (o1 & Ho & H). simplify_eq. by apply upd_ovc_count in Ho.
Qed.

Lemma vc_allocate_count env outport inport invc r outvc r' :
  vc_allocate env outport inport invc r = Ok (outvc, r') → router_count r' = router_count r.
Proof.
  unfold vc_allocate. intros (o & Ho & (vn & _ & ([vc o'] & Hsel & H)%rbind_ok)%rbind_ok)%rbind_ok.
  apply getOutputUnit_ok in Ho. apply select_free_vc_count in Hsel.
  apply rbind_ok in H as (r1 & Hr1 & H). apply (set_output_count _ _ _ _ _ Ho) in Hr1.
  apply rbind_ok in H as (_ & _ & H). apply rbind_ok in H as (u & Hu & H).
  apply rbind_ok in H as (u' & Hu' & H). apply rbind_ok in H as (r2 & Hr2 & H). simplify_eq.
  apply getInputUnit_ok in Hu. apply (set_input_count _ _ _ _ _ Hu) in Hr2.
  apply (upd_vc_count _ _ _ _ 0) in Hu'; [|intros ? ? [= <-]; simpl; lia]. lia.
Qed.

Lemma grant_switch_count inport f r r' :
  grant_switch inport f r = Ok r' → router_count r' = router_count r + fcount f.
Proof.
  unfold grant_switch. intros (bufs & Hb & [= <-])%rbind_ok. unfold router_count. simpl.
  apply (lsum_vec_upd bcount) in Hb as (b & b' & _ & [= <-] & ->). rewrite bcount_insert. lia.
Qed.

Lemma release_vc_count env inport invc f r r' :
  release_vc env inport invc f r = Ok r' → router_count r' = router_count r.
Proof.
  assert (∀ vc b, fcount (new_Credit vc b (curTick env)) = 0) as Hnew by (intros; apply Hcredit).
  unfold release_vc. intros (u & Hu%getInputUnit_ok & H)%rbind_ok. destruct (is_tail f).
  - apply rbind_ok in H as (b & _ & H). apply rbind_ok in H as (_ & _ & H).
    apply rbind_ok in H as (u1 & Hu1 & H). cbn in H.
    apply (set_input_count (with_core_of r _) _ u) in H; [|done].
    apply (upd_vc_count _ _ _ _ 0) in Hu1; [|intros ? ? [= <-]; simpl; lia].
    unfold router_count, iu_count in *. simpl in *. rewrite bcount_insert, Hnew in H. lia.
  - cbn in H. apply (set_input_count (with_core_of r _) _ u) in H; [|done].
    unfold router_count, iu_count in *. simpl in *. rewrite bcount_insert, Hnew in H. lia.
Qed.

Lemma grant_count env outport inport r r' :
  grant env outport inport r = Ok r' → router_count r' = router_count r.
Proof.
  unfold grant. intros (o & Ho & (u & Hu & (invc & Hw & (outvc & Hov & H)%rbind_ok)%rbind_ok)%rbind_ok)%rbind_ok.
  apply rbind_ok in H as ([ovc r1] & Halloc & H).
  assert (router_count r1 = router_count r) as Hr1.
  { destruct (outvc =? -1); [by eapply vc_allocate_count|by simplify_eq]. }
  apply rbind_ok in H as (u1 & Hu1%getInputUnit_ok & H). apply rbind_ok in H as ([f u2] & Hf & H).
  apply rbind_ok in H as (r2 & Hr2 & H). cbv zeta in H.
  apply rbind_ok in H as (o1 & Ho1%getOutputUnit_ok & H). apply rbind_ok in H as (o2 & Ho2 & H).
  apply rbind_ok in H as (r3 & Hr3 & H). apply rbind_ok in H as (r4 & Hr4 & H).
  apply rbind_ok in H as (r5 & Hr5 & H). apply rbind_ok in H as (s & _ & H). simplify_eq.
  apply (set_input_count _ _ _ _ _ Hu1) in Hr2. apply (set_output_count _ _ _ _ _ Ho1) in Hr3.
  apply iu_getTopFlit_count in Hf. apply upd_ovc_count in Ho2.
  apply grant_switch_count in Hr4. apply release_vc_count in Hr5.
  change (fcount (advance_stage _ _ _)) with (fcount f) in Hr4.
  change (router_count (with_sa r5 s)) with (router_count r5). lia.
Qed.

Lemma sa_wakeup_count cfg env r r' : sa_wakeup cfg env r = Ok r' → router_count r' = router_count r.
Proof.
  unfold sa_wakeup. intros (r1 & H1 & (r2 & H2 & H)%rbind_ok)%rbind_ok.
  assert (router_count r1 = router_count r) as Hr1.
  { apply (for_range_inv (fun _ t => router_count t = router_count r)) in H1; [done|done|].
    intros i t t' _ <-. unfold arbitrate_inport. intros (v & _ & (w & _ & Hw)%rbind_ok)%rbind_ok.
    destruct w as [[invc o]|]; [|by simplify_eq]. by inv_res. }
  assert (router_count r2 = router_count r) as Hr2.
  { apply (for_range_inv (fun _ t => router_count t = router_count r)) in H2; [done|done|].
    intros i t t' _ <-. unfold arbitrate_outport. intros (v & _ & (w & _ & Hw)%rbind_ok)%rbind_ok.
    destruct w as [inport|]; [|by simplify_eq]. by eapply grant_count. }
  unfold check_for_wakeup in H. destruct (alreadyScheduled _ _); [by simplify_eq|].
  apply rbind_ok in H as (b & _ & H). destruct b; by simplify_eq.
Qed.

Lemma xbar_port_count env i r r' : xbar_port env i r = Ok r' → router_count r' = router_count r.
Proof.
  unfold xbar_port. intros (b & Hb & H)%rbind_ok. destruct (negb _); [by simplify_eq|].
  apply rbind_ok in H as (f & Hf & H). destruct (is_stage _ _ f); [|by simplify_eq].
  apply rbind_ok in H as (outport & _ & H). cbv zeta in H.
  apply rbind_ok in H as (o & Ho%getOutputUnit_ok & H). cbn [insert_flit] in H.
  apply rbind_ok in H as (r1 & Hr1 & H). apply rbind_ok in H as ([f' b'] & Hb' & H).
  apply rbind_ok in H as (bufs & Hbufs & H). simplify_eq.
  apply (set_output_count (with_core_of r _) _ o) in Hr1 as Hc; [|done].
  unfold set_output in Hr1. apply rbind_ok in Hr1 as (os & _ & [= <-]).
  match type of Hc with _ = _ + ou_count ?o' =>
    assert (ou_count o' = ou_count o + fcount f) as Ho'
      by (unfold ou_count; simpl; by rewrite bcount_insert); rewrite Ho' in Hc end.
  unfold router_count in *. simpl in *.
  rewrite (lsum_vec_set bcount _ _ _ _ _ Hb Hbufs).
  pose proof (bcount_getTop _ _ _ Hb') as Hbc. unfold peekTopFlit in Hf. unfold getTopFlit in Hb'.
  destruct (m_buffer b); [done|]. simplify_eq. lia.
Qed.

End conservation.

(** One state comes from another by consuming credits; [before] and [after] are
    the weights of the states for every weighing of the flits. *)
Definition spends (before after : (mark → Z) → Z) : Prop :=
  ∃ taken, Forall (fun f => is_Some (m_is_free_signal f)) taken ∧
    ∀ p, (∀ free, p (credit_mark free) = 0) → before p = after p + lsum (fcount p) taken.

Lemma spends_eq (a b : (mark → Z) → Z) : (∀ p, (∀ free, p (credit_mark free) = 0) → b p = a p) → spends a b.
Proof. intros H. exists []. split; [done|]. intros p Hp. rewrite (H p Hp). simpl. lia. Qed.
Lemma spends_trans a b c : spends a b → spends b c → spends a c.
Proof.
  intros (fs & Hf & H1) (gs & Hg & H2). exists (fs ++ gs). split; [by apply Forall_app|].
  intros p Hp. rewrite (H1 p Hp), (H2 p Hp), lsum_app. lia.
Qed.
(** Only the difference matters. *)
Lemma spends_diff (a b a' b' : (mark → Z) → Z) :
  (∀ p, (∀ free, p (credit_mark free) = 0) → a' p - b' p = a p - b p) → spends a b → spends a' b'.
Proof. intros H (fs & Hf & H1). exists fs. split; [done|]. intros p Hp. specialize (H p Hp). specialize (H1 p Hp). lia. Qed.

Lemma output_wakeup_spends env i c o l c' o' l' :
  output_wakeup env i c o l = Ok (c', o', l') →
  (∀ p, ou_count p o' = ou_count p o) ∧ spends (fun p => link_count p l) (fun p => link_count p l').
Proof.
  unfold output_wakeup. destruct (link_isReady _ l); [|intros; simplify_eq; split; [done|by apply spends_eq]].
  intros ([f l1] & Hc & (o1 & Ho1 & (free & Hf & (o2 & Ho2 & H)%rbind_ok)%rbind_ok)%rbind_ok)%rbind_ok.
  cbv zeta in H. simplify_eq. split.
  - intros p. apply (upd_ovc_count p) in Ho1. destruct free; [apply (upd_ovc_count p) in Ho2; congruence|]. by simplify_eq.
  - exists [f]. split; [repeat constructor; destruct (m_is_free_signal f); [by eexists|done]|].
    intros p _. apply (link_consume_count p) in Hc. simpl. lia.
Qed.

Lemma wake_output_spends env i r ls r' ls' :
  wake_output env i (r, ls) = Ok (r', ls') →
  spends (fun p => router_count p r + links_count p ls) (fun p => router_count p r' + links_count p ls').
Proof.
  unfold wake_output. intros (o & Ho & (l & Hl & ([[c o'] l'] & Hw & H)%rbind_ok)%rbind_ok)%rbind_ok.
  apply rbind_ok in H as (r1 & Hs & H). simplify_eq. apply output_wakeup_spends in Hw as [Hw1 Hw2].
  unfold get_link in Hl. destruct (ls !! ou_credit_link o) as [l0|] eqn:El; [|done]. simplify_eq.
  eapply spends_diff; [|exact Hw2]. intros p _. simpl.
  rewrite (set_output_count p _ _ _ _ _ (Ho : vec_get (m_output_unit (with_core_of r c)) i = Ok o) Hs).
  rewrite (links_count_insert p _ _ _ _ El), Hw1. unfold router_count. simpl. lia.
Qed.

(** A router wakeup changes the weight of what is inside the router and on the
    links by the credits it consumes. *)
Lemma router_wakeup_spends cfg env rnd r ls r' ls' :
  router_wakeup cfg env rnd r ls = Ok (r', ls') →
  spends (fun p => router_count p r + links_count p ls) (fun p => router_count p r' + links_count p ls').
Proof.
  unfold router_wakeup. intros (_ & _ & ([r1 ls1] & H1 & ([r2 ls2] & H2 & H)%rbind_ok)%rbind_ok)%rbind_ok.
  set (tot := fun (s : Router * Links) (p : mark → Z) => router_count p (fst s) + links_count p (snd s)).
  change (spends (tot (r, ls)) (tot (r', ls'))).
  assert (∀ p, tot (r1, ls1) p = tot (r, ls) p) as Ht1.
  { intros p. apply (for_range_inv (fun _ s => tot s p = tot (r, ls) p)) in H1; [done|done|].
    intros i [t lt] [t' lt'] _ <- Hs. by eapply wake_input_count. }
  assert (spends (tot (r1, ls1)) (tot (r2, ls2))) as Ht2.
  { apply (for_range_inv (fun _ s => spends (tot (r1, ls1)) (tot s))) in H2; [done|by apply spends_eq|].
    intros i [t lt] [t' lt'] _ Hp Hs. eapply spends_trans; [exact Hp|]. by eapply wake_output_spends. }
  apply rbind_ok in H as (r3 & H3 & (r4 & H4 & H)%rbind_ok). simplify_eq. unfold xbar_wakeup in H4.
  eapply spends_diff; [|exact Ht2]. intros p Hp. rewrite Ht1.
  apply (sa_wakeup_count p Hp) in H3.
  apply (for_range_inv (fun _ t => router_count p t = router_count p r3)) in H4 as H5; [|done|].
  - unfold tot. simpl. lia.
  - intros i t t' _ <- Hs. by eapply xbar_port_count.
Qed.

Lemma taken_data q taken : Forall (fun f => is_Some (m_is_free_signal f)) taken → lsum (fcount (data_class q)) taken = 0.
Proof.
  induction 1 as [|f fs [b Hf] _ IH]; [done|]. simpl. rewrite IH. unfold fcount, data_class. simpl. by rewrite Hf.
Qed.

Lemma spends_data q a b : spends a b → b (data_class q) = a (data_class q).
Proof. intros (taken & Ht & H). rewrite (H (data_class q)) by done. rewrite taken_data by done. lia. Qed.

(** A router neither creates nor loses flits: whenever a wakeup completes,
    for every predicate on flit identities (packet, position, vnet, type,
    message, size, width) the number of data flits that satisfy it, on the links
    and inside the router together, is the same before and after. *)
Theorem router_wakeup_conserves cfg env rnd r ls r' ls' q :
  router_wakeup cfg env rnd r ls = Ok (r', ls') →
  router_count (data_class q) r' + links_count (data_class q) ls' = router_count (data_class q) r + links_count (data_class q) ls.
Proof. intros H%router_wakeup_spends. exact (spends_data q _ _ H). Qed.

(** A router with one input and one output port, wired with the source's own
    construction functions, and a one-flit packet on its input link. *)
Definition ex_links : Links :=
  <[0 := with_linkBuffer (new_NetworkLink 0 1 1 [] 128)
           {| m_buffer := [new_flit 7 0 1 0
                {| vnet := 0; net_dest := ex_dest 4 0; src_ni := 0; src_router := 1; dest_ni := 2;
                   dest_router := 3; hops_traversed := 0 |} 1 (Some 5) 128 128 500];
              max_size := INFINITE_ |}]>
  (<[1 := new_NetworkLink 1 1 1 [] 128]>
  (<[2 := new_NetworkLink 2 1 1 [] 128]>
  (<[3 := new_NetworkLink 3 1 1 [] 128]> ∅))).

Definition ex_router_links : res (Router * Links) :=
  let* ' (r, ls) := addInPort "West" 0 1 (new_Router 2 1 1 2 128) ex_links in
  let* ' (r, ls) := addOutPort ex_cfg "East" 2 [ex_dest 4 0] 1 3 2 r ls in
  Ok (router_init r, ls).

Definition ex_rl : Router * Links :=
  match ex_router_links with Ok p => p | Err _ => (new_Router 0 0 0 0 0, ∅) end.
Definition ex_rl' : Router * Links :=
  match router_wakeup ex_cfg ex_clock (fun _ => 0) (fst ex_rl) (snd ex_rl) with Ok p => p | Err _ => ex_rl end.

Lemma router_wakeup_conserves_witness :
  links_count (data_class (fun _ => true)) (snd ex_rl) = 1 ∧ links_count (data_class (fun _ => true)) (snd ex_rl') = 0
  ∧ r_effects (core (fst ex_rl')) = [DeferOrSchedule (ConsLink 1) 1000; DeferOrSchedule (ConsLink 2) 1000]
  ∧ let all := data_class (fun _ => true) in
    router_count all (fst ex_rl') + links_count all (snd ex_rl') = router_count all (fst ex_rl) + links_count all (snd ex_rl).
Proof.
  split; [vm_compute; reflexivity|]. split; [vm_compute; reflexivity|]. split; [vm_compute; reflexivity|].
  apply (router_wakeup_conserves ex_cfg ex_clock (fun _ => 0) (fst ex_rl) (snd ex_rl)
    (fst ex_rl') (snd ex_rl') (fun _ => true)).
  vm_compute. reflexivity.
Defined.
