(* ===== verification/Fairness.v ===== *)
(** * Fairness of the switch allocator

    What an input port of a router can rely on from one router wakeup to the next:
    the arbiter of an output port, as [SwitchAllocator::arbitrate_outports] runs it
    inside [Router::wakeup], serves every input that keeps asking for the port. *)

From S2P Require Import Prelude IntMath Clocked Consumer NetDest Flit RoutingUnit VirtualChannel NetworkLink InputUnit OutputUnit SwitchAllocator Router.

(** ** What leaves the allocator alone *)

Lemma set_input_sa r i u r' : set_input r i u = Ok r' → switchAllocator r' = switchAllocator r.
Proof. unfold set_input. by intros (us & _ & [= <-])%rbind_ok. Qed.

Lemma set_output_sa r i o r' : set_output r i o = Ok r' → switchAllocator r' = switchAllocator r.
Proof. unfold set_output. by intros (os & _ & [= <-])%rbind_ok. Qed.

Lemma wake_input_sa cfg env rnd i r ls r' ls' :
  wake_input cfg env rnd i (r, ls) = Ok (r', ls') → switchAllocator r' = switchAllocator r.
Proof.
  unfold wake_input. intros (u & _ & (l & _ & ([[c u'] l'] & _ & H)%rbind_ok)%rbind_ok)%rbind_ok.
  apply rbind_ok in H as (r1 & Hs & [= <- <-]). by apply set_input_sa in Hs.
Qed.

Lemma wake_output_sa env i r ls r' ls' :
  wake_output env i (r, ls) = Ok (r', ls') → switchAllocator r' = switchAllocator r.
Proof.
  unfold wake_output. intros (o & _ & (l & _ & ([[c o'] l'] & _ & H)%rbind_ok)%rbind_ok)%rbind_ok.
  apply rbind_ok in H as (r1 & Hs & [= <- <-]). by apply set_output_sa in Hs.
Qed.

Lemma vc_allocate_sa env outport inport invc r outvc r' :
  vc_allocate env outport inport invc r = Ok (outvc, r') → switchAllocator r' = switchAllocator r.
Proof.
  unfold vc_allocate. intros (o & _ & (vn & _ & ([vc o'] & _ & H)%rbind_ok)%rbind_ok)%rbind_ok.
  apply rbind_ok in H as (r1 & Hr1%set_output_sa & H). apply rbind_ok in H as (_ & _ & H).
  apply rbind_ok in H as (u & _ & H). apply rbind_ok in H as (u' & _ & H).
  apply rbind_ok in H as (r2 & Hr2%set_input_sa & [= _ <-]). congruence.
Qed.

Lemma release_vc_sa env inport invc f r r' :
  release_vc env inport invc f r = Ok r' → switchAllocator r' = switchAllocator r.
Proof.
  unfold release_vc. intros (u & _ & H)%rbind_ok. destruct (is_tail f); [|by apply set_input_sa in H].
  apply rbind_ok in H as (b & _ & H). apply rbind_ok in H as (_ & _ & H).
  apply rbind_ok in H as (u1 & _ & H). by apply set_input_sa in H.
Qed.

Lemma xbar_wakeup_sa env r r' : xbar_wakeup env r = Ok r' → switchAllocator r' = switchAllocator r.
Proof.
  intros Hrun. apply (for_range_inv (fun _ t => switchAllocator t = switchAllocator r)) in Hrun; [done|done|].
  clear Hrun. intros i t t' _ <-. unfold xbar_port. intros (b & _ & H)%rbind_ok. destruct (negb _); [by simplify_eq|].
  apply rbind_ok in H as (f & _ & H). destruct (is_stage _ _ f); [|by simplify_eq].
  apply rbind_ok in H as (outport & _ & H). cbv zeta in H.
  apply rbind_ok in H as (o & _ & H). cbn [insert_flit] in H.
  apply rbind_ok in H as (r1 & Hr1%set_output_sa & H). apply rbind_ok in H as ([f' b'] & _ & H).
  apply rbind_ok in H as (bufs & _ & [= <-]). done.
Qed.

Lemma check_for_wakeup_sa env r r' : check_for_wakeup env r = Ok r' → switchAllocator r' = switchAllocator r.
Proof.
  unfold check_for_wakeup. destruct (alreadyScheduled _ _); [by intros [= <-]|].
  intros (b & _ & H)%rbind_ok. destruct b; by simplify_eq.
Qed.

(** A grant changes the allocator by retiring the request. *)
Lemma grant_sa env outport inport r r' :
  grant env outport inport r = Ok r' →
  ∃ invc, retire_request inport invc outport (switchAllocator r) = Ok (switchAllocator r').
Proof.
  unfold grant. intros (o & _ & (u & _ & (invc & _ & (outvc & _ & H)%rbind_ok)%rbind_ok)%rbind_ok)%rbind_ok.
  apply rbind_ok in H as ([ovc r1] & Halloc & H).
  assert (switchAllocator r1 = switchAllocator r) as Hr1.
  { destruct (outvc =? -1); [by eapply vc_allocate_sa|by simplify_eq]. }
  apply rbind_ok in H as (u1 & _ & H). apply rbind_ok in H as ([f u2] & _ & H).
  apply rbind_ok in H as (r2 & Hr2%set_input_sa & H). cbv zeta in H.
  apply rbind_ok in H as (o1 & _ & H). apply rbind_ok in H as (o2 & _ & H).
  apply rbind_ok in H as (r3 & Hr3%set_output_sa & H). apply rbind_ok in H as (r4 & Hr4 & H).
  apply rbind_ok in H as (r5 & Hr5%release_vc_sa & H). apply rbind_ok in H as (s & Hs & [= <-]).
  unfold grant_switch in Hr4. apply rbind_ok in Hr4 as (bufs & _ & [= <-]). simpl in Hr5.
  exists invc. simpl. rewrite <-Hs. f_equal. congruence.
Qed.

(** ** The arbiter of one output port *)

(** Same number of ports, and same pointer of the arbiter of [outport]. *)
Record arbiter_same (outport : Z) (s s' : SwitchAllocator) : Prop := {
  as_inports : sa_num_inports s' = sa_num_inports s;
  as_outports : sa_num_outports s' = sa_num_outports s;
  as_requests : length (m_port_requests s') = length (m_port_requests s);
  as_pointer : vec_get (m_round_robin_inport s') outport = vec_get (m_round_robin_inport s) outport
}.

#[export] Instance arbiter_same_preorder outport : PreOrder (arbiter_same outport).
Proof.
  split; [by intros s|]. intros s1 s2 s3 [? ? ? ?] [? ? ? ?]. split; congruence.
Qed.

(** Same requests for [outport]. *)
Definition requests_same (outport : Z) (s s' : SwitchAllocator) : Prop :=
  ∀ k, requests s' outport k = requests s outport k.

Lemma find_inport_requests s outport start n w :
  find_inport s outport start n = Ok (Some w) → requests s outport w = true.
Proof.
  revert start. induction n as [|n IH]; intros start; simpl; [done|].
  intros (q & Hq & H)%rbind_ok. destruct (q =? outport) eqn:E; [|by eapply IH].
  injection H as <-. unfold requests. by rewrite Hq.
Qed.

Lemma retire_request_other w invc o s s' outport :
  retire_request w invc o s = Ok s' → requests s o w = true → o ≠ outport → 0 ≤ outport →
  arbiter_same outport s s' ∧ requests_same outport s s'.
Proof.
  unfold retire_request. intros (req & Hreq & (rri & Hrri & (rrv & _ & [= <-])%rbind_ok)%rbind_ok)%rbind_ok Hw Ho Hpos.
  split; [split; simpl; [done|done|by eapply vec_set_length|by eapply vec_get_set_ne]|].
  intros k. unfold requests in *. simpl. destruct (decide (w = k)) as [->|Hne]; [|by rewrite (vec_get_set_ne _ _ _ _ _ Hreq)].
  rewrite (vec_get_set_eq _ _ _ _ Hreq). destruct (vec_get (m_port_requests s) k) as [q|]; [|done].
  apply Z.eqb_eq in Hw as ->. destruct (Z.eqb_spec (-1) outport), (Z.eqb_spec o outport); lia || done.
Qed.

(** The arbiters of the other ports. *)
Lemma arbitrate_outport_other env o r r' outport :
  arbitrate_outport env o r = Ok r' → o ≠ outport → 0 ≤ outport →
  arbiter_same outport (switchAllocator r) (switchAllocator r') ∧
  requests_same outport (switchAllocator r) (switchAllocator r').
Proof.
  unfold arbitrate_outport. intros (p & _ & (win & Hwin & H)%rbind_ok)%rbind_ok Ho Hpos.
  destruct win as [w|]; [|by injection H as <-]. apply grant_sa in H as [invc H].
  eapply retire_request_other; [exact H|by eapply find_inport_requests|done|done].
Qed.

Lemma arbitrate_others env outport lo n r r' :
  for_range lo n (arbitrate_outport env) r = Ok r' → 0 ≤ outport → ¬ lo ≤ outport < lo + Z.of_nat n →
  arbiter_same outport (switchAllocator r) (switchAllocator r') ∧
  requests_same outport (switchAllocator r) (switchAllocator r').
Proof.
  intros Hrun Hpos Hout.
  apply (for_range_inv (fun _ t => arbiter_same outport (switchAllocator r) (switchAllocator t) ∧
    requests_same outport (switchAllocator r) (switchAllocator t))) in Hrun; [done|done|].
  intros i t t' Hi [Ha Hr] Hs. destruct (arbitrate_outport_other env i t t' outport Hs ltac:(lia) Hpos) as [Ha' Hr'].
  split; [by transitivity (switchAllocator t)|]. intros k. by rewrite Hr', Hr.
Qed.

(** The loop over the output ports has its turn for [outport]. *)
Lemma arbitrate_outports_turn env outport r r' :
  arbitrate_outports env r = Ok r' → 0 ≤ outport < sa_num_outports (switchAllocator r) →
  ∃ ra rb, for_range 0 (Z.to_nat outport) (arbitrate_outport env) r = Ok ra ∧
    arbitrate_outport env outport ra = Ok rb ∧
    for_range (outport + 1) (Z.to_nat (sa_num_outports (switchAllocator r) - outport - 1)) (arbitrate_outport env) rb = Ok r'.
Proof.
  unfold arbitrate_outports. intros Hrun Ho. set (k := Z.to_nat (sa_num_outports (switchAllocator r) - outport - 1)).
  replace (Z.to_nat (sa_num_outports (switchAllocator r))) with (Z.to_nat outport + S k)%nat in Hrun by lia.
  rewrite for_range_app in Hrun. apply rbind_ok in Hrun as (ra & Ha & Hrun). simpl in Hrun.
  replace (Z.of_nat (Z.to_nat outport)) with outport in Hrun by lia.
  apply rbind_ok in Hrun as (rb & Hb & Hrun). by exists ra, rb.
Qed.

(** Input [i] is granted [outport] when [arbitrate_outports] takes [r1] to [r2]: in
    the turn of [outport] the loop body runs for [i], which moves the flit of the
    winning VC of [i] to the switch. *)
Definition granted (env : ClockEnv) (outport i : Z) (r1 r2 : Router) : Prop :=
  ∃ ra rb, for_range 0 (Z.to_nat outport) (arbitrate_outport env) r1 = Ok ra ∧
    grant env outport i ra = Ok rb ∧
    for_range (outport + 1) (Z.to_nat (sa_num_outports (switchAllocator r1) - outport - 1)) (arbitrate_outport env) rb = Ok r2.

(** The sizes and the pointer of the arbiter, as [sa_init] sets them up. *)
Record arbiter_ok (outport : Z) (s : SwitchAllocator) (p : Z) : Prop := {
  ao_len : Z.of_nat (length (m_port_requests s)) = sa_num_inports s;
  ao_port : 0 ≤ outport < sa_num_outports s;
  ao_pointer : vec_get (m_round_robin_inport s) outport = Ok p;
  ao_range : 0 ≤ p < sa_num_inports s
}.

Lemma sa_init_arbiter nin nout outport s :
  0 < nin → 0 ≤ outport < nout → arbiter_ok outport (sa_init nin nout s) 0.
Proof.
  intros Hin Ho. split; simpl; [rewrite length_replicate; lia|done| |lia].
  apply vec_get_ok. split; [lia|]. apply lookup_replicate_2. lia.
Qed.

Lemma arbiter_ok_same outport s s' p : arbiter_same outport s s' → arbiter_ok outport s p → arbiter_ok outport s' p.
Proof. intros [H1 H2 H3 H4] [? ? ? ?]. split; rewrite ?H1, ?H2, ?H3, ?H4; done. Qed.

(** One run of [arbitrate_outports] while [i] requests the port: [i] is granted the
    port, or the pointer comes nearer to [i]. *)
Lemma arbitrate_outports_nearer env outport i r1 r2 p :
  arbiter_ok outport (switchAllocator r1) p → 0 ≤ i < sa_num_inports (switchAllocator r1) →
  requests (switchAllocator r1) outport i = true → arbitrate_outports env r1 = Ok r2 →
  granted env outport i r1 r2 ∨
  ∃ p', arbiter_ok outport (switchAllocator r2) p' ∧
    sa_num_inports (switchAllocator r2) = sa_num_inports (switchAllocator r1) ∧
    rr_dist (sa_num_inports (switchAllocator r1)) p' i < rr_dist (sa_num_inports (switchAllocator r1)) p i.
Proof.
  intros Hok Hi Hreq Hrun. pose proof (ao_port _ _ _ Hok) as Hport.
  apply (arbitrate_outports_turn env outport) in Hrun as (ra & rb & Ha & Hb & Hc); [|done].
  apply (arbitrate_others env outport) in Ha as Ha'; [|lia..]. destruct Ha' as [Hsa Hra].
  apply (arbitrate_others env outport) in Hc as Hc'; [|lia..]. destruct Hc' as [Hsc _].
  pose proof (arbiter_ok_same _ _ _ _ Hsa Hok) as Hoka. destruct Hsa as [Hin _ _ _]. destruct Hoka as [Hlen Hport' Hptr Hrange].
  unfold arbitrate_outport in Hb. rewrite Hptr in Hb. cbn [rbind] in Hb.
  destruct (find_inport_spec (switchAllocator ra) outport p (Z.to_nat (sa_num_inports (switchAllocator ra)))) as (w & Hw & Hspec);
    [done|done|lia|].
  rewrite Hw in Hb. cbn [rbind] in Hb. rewrite <-Hra in Hreq. rewrite <-Hin in Hi |- *. destruct w as [w|].
  - destruct Hspec as (Hwr & _ & _ & Hmin). destruct (decide (w = i)) as [->|Hne]; [left; by exists ra, rb|]. right.
    apply grant_sa in Hb as [invc Hret]. unfold retire_request in Hret.
    apply rbind_ok in Hret as (req & Hreq' & Hret). apply rbind_ok in Hret as (rri & Hrri & Hret).
    apply rbind_ok in Hret as (rrv & _ & [= Hs]). set (s := switchAllocator ra) in *.
    exists (rr_next w (sa_num_inports s)). split_and!.
    + eapply arbiter_ok_same; [exact Hsc|]. rewrite <-Hs. split; simpl; [|done|by eapply vec_get_set_eq|by apply rr_next_range].
      by rewrite (vec_set_length _ _ _ _ Hreq').
    + destruct Hsc as [Hin' _ _ _]. rewrite Hin', <-Hs. done.
    + apply rr_dist_next; [done|done|done|]. specialize (Hmin i Hi Hreq).
      assert (rr_dist (sa_num_inports s) p w ≠ rr_dist (sa_num_inports s) p i); [|lia].
      intros Heq. apply Hne. revert Heq. rewrite !rr_dist_cases by done. repeat zcase; lia.
  - rewrite Hspec in Hreq; [done|done|]. pose proof (rr_dist_range (sa_num_inports (switchAllocator ra)) p i). lia.
Qed.

(** ** Rounds of router wakeups *)

(** A wakeup of the router that takes [r] to [r'], with the router [r1] after
    [arbitrate_inports] and [r2] after [arbitrate_outports]. *)
Definition round (cfg : NetConfig) (env : ClockEnv) (rnd : Z → Z) (r : Router) (ls : Links)
    (r1 r2 r' : Router) (ls' : Links) : Prop :=
  router_wakeup cfg env rnd r ls = Ok (r', ls') ∧
  ∃ ra la rb lb, for_range 0 (length (m_input_unit r)) (wake_input cfg env rnd) (r, ls) = Ok (ra, la) ∧
    for_range 0 (length (m_output_unit ra)) (wake_output env) (ra, la) = Ok (rb, lb) ∧
    arbitrate_inports cfg env rb = Ok r1 ∧ arbitrate_outports env r1 = Ok r2.

(** Every successful wakeup is a round. *)
Lemma router_wakeup_round cfg env rnd r ls r' ls' :
  router_wakeup cfg env rnd r ls = Ok (r', ls') → ∃ r1 r2, round cfg env rnd r ls r1 r2 r' ls'.
Proof.
  intros Hrun. pose proof Hrun as H. unfold router_wakeup in H.
  apply rbind_ok in H as (_ & _ & ([ra la] & Ha & ([rb lb] & Hb & (r3 & H3 & _)%rbind_ok)%rbind_ok)%rbind_ok).
  unfold sa_wakeup in H3. apply rbind_ok in H3 as (r1 & H1 & (r2 & H2 & _)%rbind_ok).
  exists r1, r2. split; [done|]. by exists ra, la, rb, lb.
Qed.

Lemma arbitrate_inports_same cfg env outport r r' :
  arbitrate_inports cfg env r = Ok r' → arbiter_same outport (switchAllocator r) (switchAllocator r').
Proof.
  intros Hrun. apply (for_range_inv (fun _ t => arbiter_same outport (switchAllocator r) (switchAllocator t))) in Hrun;
    [done|done|]. intros i t t' _ Ht. unfold arbitrate_inport. intros (v & _ & (w & _ & H)%rbind_ok)%rbind_ok.
  destruct w as [[invc o]|]; [|by injection H as <-].
  apply rbind_ok in H as (req & Hreq & (wins & _ & [= <-])%rbind_ok). transitivity (switchAllocator t); [done|].
  split; simpl; [done|done|by eapply vec_set_length|done].
Qed.

(** The allocator at both ends of a round. *)
Lemma round_same cfg env rnd r ls r1 r2 r' ls' outport :
  round cfg env rnd r ls r1 r2 r' ls' →
  arbiter_same outport (switchAllocator r) (switchAllocator r1) ∧ arbiter_same outport (switchAllocator r2) (switchAllocator r').
Proof.
  intros [Hrun (ra & la & rb & lb & Ha & Hb & H1 & H2)]. unfold router_wakeup in Hrun.
  apply rbind_ok in Hrun as (_ & _ & Hrun). rewrite Ha in Hrun. cbn [rbind] in Hrun. rewrite Hb in Hrun. cbn [rbind] in Hrun.
  unfold sa_wakeup in Hrun. rewrite H1 in Hrun. cbn [rbind] in Hrun. rewrite H2 in Hrun. cbn [rbind] in Hrun.
  apply rbind_ok in Hrun as (r3 & H3%check_for_wakeup_sa & (r4 & H4%xbar_wakeup_sa & [= <- <-])%rbind_ok).
  apply (for_range_inv (fun _ t => switchAllocator t.1 = switchAllocator r)) in Ha as Ea;
    [|done|intros i [t l] [t' l'] _ Ht Hs; simpl in *; by apply wake_input_sa in Hs as ->].
  apply (for_range_inv (fun _ t => switchAllocator t.1 = switchAllocator r)) in Hb as Eb;
    [|done|intros i [t l] [t' l'] _ Ht Hs; simpl in *; by apply wake_output_sa in Hs as ->].
  simpl in Eb. split; [rewrite <-Eb; by eapply arbitrate_inports_same|]. rewrite H4, H3.
  split; simpl; [done|done|by rewrite length_map|done].
Qed.

(** Successive wakeups of a router, each with its clock, answers of [rand()] and
    links. Between two of them the router may change in any way that leaves the
    allocator's ports and pointer alone: its output units take credits, links
    take flits and credits from it, statistics are reset. *)
Inductive wakeups (cfg : NetConfig) (outport : Z) : Router → list (ClockEnv * Router * Router) → Prop :=
  | wakeups_nil r : wakeups cfg outport r []
  | wakeups_cons env rnd r ls r1 r2 r' ls' rn rounds :
      round cfg env rnd r ls r1 r2 r' ls' →
      arbiter_same outport (switchAllocator r') (switchAllocator rn) →
      wakeups cfg outport rn rounds →
      wakeups cfg outport r ((env, r1, r2) :: rounds).

Lemma wakeups_grant cfg outport i r rounds p :
  wakeups cfg outport r rounds → arbiter_ok outport (switchAllocator r) p → 0 ≤ i < sa_num_inports (switchAllocator r) →
  Forall (fun '(_, r1, _) => requests (switchAllocator r1) outport i = true) rounds →
  rr_dist (sa_num_inports (switchAllocator r)) p i < Z.of_nat (length rounds) →
  Exists (fun '(env, r1, r2) => granted env outport i r1 r2) rounds.
Proof.
  intros Hrun. revert p. induction Hrun as [r|env rnd r ls r1 r2 r' ls' rn rounds Hround Hbetween _ IH];
    intros p Hok Hi Hall Hd.
  { simpl in Hd. pose proof (rr_dist_range (sa_num_inports (switchAllocator r)) p i). lia. }
  apply Forall_cons in Hall as [Hreq Hall]. destruct (round_same _ _ _ _ _ _ _ _ _ outport Hround) as [H1 H2].
  destruct Hround as [_ (_ & _ & _ & _ & _ & _ & _ & Hout)].
  pose proof (as_inports _ _ _ H1) as Hn1.
  destruct (arbitrate_outports_nearer env outport i r1 r2 p) as [Hg|(p' & Hok' & Hn2 & Hnear)];
    [by eapply arbiter_ok_same|lia|done|done|by left|]. right.
  assert (arbiter_same outport (switchAllocator r2) (switchAllocator rn)) as H3 by by transitivity (switchAllocator r').
  pose proof (as_inports _ _ _ H3) as Hn3. simpl in Hd.
  apply (IH p'); [by eapply arbiter_ok_same|lia|done|]. rewrite Hn3, Hn2. rewrite Hn1 in Hnear |- *. lia.
Qed.

(** C22: No input starves at an output port. Take as many successive wakeups of a
    router as it has inputs, with anything happening in between that leaves the
    allocator alone. If in each of them input [i] comes out of [arbitrate_inports]
    requesting [outport], then in one of them [arbitrate_outports] grants [outport]
    to [i], whatever the other inputs request and wherever the round-robin
    pointer stands. *)
Theorem arbiter_no_starvation cfg outport i r rounds p :
  wakeups cfg outport r rounds → arbiter_ok outport (switchAllocator r) p → 0 ≤ i < sa_num_inports (switchAllocator r) →
  Forall (fun '(_, r1, _) => requests (switchAllocator r1) outport i = true) rounds →
  sa_num_inports (switchAllocator r) ≤ Z.of_nat (length rounds) →
  Exists (fun '(env, r1, r2) => granted env outport i r1 r2) rounds.
Proof.
  intros Hrun Hok Hi Hall Hlen. eapply wakeups_grant; [done|done|done|done|].
  pose proof (rr_dist_range (sa_num_inports (switchAllocator r)) p i). lia.
Qed.

(** A router with two inputs, each with a packet for its only output. *)
Definition ex_waiting (h : Z) : NetworkLink :=
  with_linkBuffer (new_NetworkLink h 1 1 [] 128)
    {| m_buffer := [new_flit h 0 1 0
         {| vnet := 0; net_dest := ex_dest 4 0; src_ni := 0; src_router := 1; dest_ni := 2;
            dest_router := 3; hops_traversed := 0 |} 1 (Some 5) 128 128 500];
       max_size := INFINITE_ |}.

Definition ex_crossing : res (Router * Links) :=
  let ls := <[0 := ex_waiting 0]> (<[1 := new_NetworkLink 1 1 1 [] 128]> (<[2 := ex_waiting 2]>
    (<[3 := new_NetworkLink 3 1 1 [] 128]> (<[4 := new_NetworkLink 4 1 1 [] 128]> (<[5 := new_NetworkLink 5 1 1 [] 128]> ∅))))) in
  let* ' (r, ls) := addInPort "West" 0 1 (new_Router 2 1 1 2 128) ls in
  let* ' (r, ls) := addInPort "North" 2 3 r ls in
  let* ' (r, ls) := addOutPort ex_cfg "East" 4 [ex_dest 4 0] 1 5 2 r ls in
  Ok (router_init r, ls).

Definition or_else {A} (d : A) (x : res A) : A := match x with Ok a => a | Err _ => d end.

Definition ex_start : Router * Links := or_else (new_Router 0 0 0 0 0, ∅) ex_crossing.

(** The stages of a wakeup, at tick [t]. *)
Definition ex_env (t : Z) : ClockEnv := {| curTick := t; clockPeriod := 500 |}.
Definition ex_ins (t : Z) (s : Router * Links) : Router * Links :=
  or_else s (for_range 0 (length (m_input_unit (fst s))) (wake_input ex_cfg (ex_env t) (fun _ => 0)) s).
Definition ex_outs (t : Z) (s : Router * Links) : Router * Links :=
  or_else s (for_range 0 (length (m_output_unit (fst s))) (wake_output (ex_env t)) s).
Definition ex_nominated (t : Z) (s : Router * Links) : Router :=
  or_else (fst s) (arbitrate_inports ex_cfg (ex_env t) (fst (ex_outs t (ex_ins t s)))).
Definition ex_arbitrated (t : Z) (s : Router * Links) : Router :=
  or_else (fst s) (arbitrate_outports (ex_env t) (ex_nominated t s)).
Definition ex_woken (t : Z) (s : Router * Links) : Router * Links :=
  or_else s (router_wakeup ex_cfg (ex_env t) (fun _ => 0) (fst s) (snd s)).

Definition ex_second : Router * Links := ex_woken 500 ex_start.
Definition ex_rounds : list (ClockEnv * Router * Router) :=
  [(ex_env 500, ex_nominated 500 ex_start, ex_arbitrated 500 ex_start);
   (ex_env 1000, ex_nominated 1000 ex_second, ex_arbitrated 1000 ex_second)].

(** Both inputs ask at tick 500; input 0 wins, and input 1 is granted the port at
    tick 1000. *)
Lemma arbiter_no_starvation_witness :
  Exists (fun '(env, r1, r2) => granted env 0 1 r1 r2) ex_rounds ∧
  requests (switchAllocator (ex_nominated 500 ex_start)) 0 0 = true ∧
  m_round_robin_inport (switchAllocator (ex_arbitrated 500 ex_start)) = [1] ∧
  m_round_robin_inport (switchAllocator (ex_arbitrated 1000 ex_second)) = [0].
Proof.
  split; [|split_and!; vm_compute; reflexivity].
  apply (arbiter_no_starvation ex_cfg 0 1 (fst ex_start) ex_rounds 0).
  - unfold ex_rounds. eapply (wakeups_cons _ _ (ex_env 500) (fun _ => 0) _ (snd ex_start) _ _ (fst ex_second) (snd ex_second) (fst ex_second)).
    + split; [vm_compute; reflexivity|]. exists (fst (ex_ins 500 ex_start)), (snd (ex_ins 500 ex_start)),
        (fst (ex_outs 500 (ex_ins 500 ex_start))), (snd (ex_outs 500 (ex_ins 500 ex_start))).
      split_and!; vm_compute; reflexivity.
    + reflexivity.
    + eapply (wakeups_cons _ _ (ex_env 1000) (fun _ => 0) _ (snd ex_second) _ _ (fst (ex_woken 1000 ex_second))
        (snd (ex_woken 1000 ex_second)) (fst (ex_woken 1000 ex_second))); [|reflexivity|constructor].
      split; [vm_compute; reflexivity|]. exists (fst (ex_ins 1000 ex_second)), (snd (ex_ins 1000 ex_second)),
        (fst (ex_outs 1000 (ex_ins 1000 ex_second))), (snd (ex_outs 1000 (ex_ins 1000 ex_second))).
      split_and!; vm_compute; reflexivity.
  - split; vm_compute; try reflexivity; split; try discriminate; reflexivity.
  - vm_compute. split; [discriminate|reflexivity].
  - repeat constructor.
  - vm_compute. discriminate.
Defined.
