(* ===== verification/RouterFrame.v ===== *)
(** * The footprint of a router wakeup

    Which links a router's wakeup reads and writes. Workers run the wakeups of
    different routers at the same time; this file shows that in the store of links
    a wakeup depends only on, and changes only, the links that end at the router,
    and that the calls it makes on objects it shares with others - the wakeup ring
    and the queues of deferred events - are on behalf of its own consumers. *)

From S2P Require Import Prelude IntMath Clocked Consumer NetDest Flit RoutingUnit VirtualChannel NetworkLink InputUnit OutputUnit SwitchAllocator Router.

(** The handles of a router's input links and of the credit links that end at it. *)
Definition in_links (r : Router) : list Z := map iu_in_link (m_input_unit r).
Definition in_credits (r : Router) : list Z := map ou_credit_link (m_output_unit r).
Definition footprint (r : Router) : gset Z := list_to_set (in_links r ++ in_credits r).

(** Two routers with the same ports and the same identity. *)
Definition same_ports (r r' : Router) : Prop :=
  in_links r' = in_links r ∧ in_credits r' = in_credits r ∧ r_id (core r') = r_id (core r).

#[export] Instance same_ports_preorder : PreOrder same_ports.
Proof.
  split; [by intros r|]. intros r1 r2 r3 (H1 & H2 & H3) (H4 & H5 & H6).
  split_and!; congruence.
Qed.

Lemma same_ports_footprint r r' : same_ports r r' → footprint r' = footprint r.
Proof. intros (H1 & H2 & _). unfold footprint. by rewrite H1, H2. Qed.

Lemma map_vec_set {A B} (g : A → B) l i x y l' :
  vec_get l i = Ok x → g y = g x → vec_set l i y = Ok l' → map g l' = map g l.
Proof.
  intros [_ Hx]%vec_get_ok Hg [_ ->]%vec_set_ok.
  change (g <$> <[Z.to_nat i := y]> l = g <$> l). rewrite list_fmap_insert, Hg.
  apply list_insert_id. by rewrite list_lookup_fmap, Hx.
Qed.

(** ** The ends of links *)

Definition cons_at (ls : Links) (h : Z) : option consumer_ref := ls !! h ≫= link_consumer.
Definition srcs_at (ls : Links) (h : Z) : option queue_ref := ls !! h ≫= link_srcQueue.

(** [ls'] has the ends of [ls]. *)
Definition same_ends (ls ls' : Links) : Prop :=
  ∀ x, cons_at ls' x = cons_at ls x ∧ srcs_at ls' x = srcs_at ls x.

#[export] Instance same_ends_equiv : Equivalence same_ends.
Proof.
  split; [by intros ls x|by intros l1 l2 H x; destruct (H x)|].
  intros l1 l2 l3 H1 H2 x. destruct (H1 x), (H2 x). split; congruence.
Qed.

Lemma insert_same_ends h l l' ls :
  ls !! h = Some l → link_consumer l' = link_consumer l → link_srcQueue l' = link_srcQueue l →
  same_ends ls (<[h := l']> ls).
Proof.
  intros Hl Hc Hs x. unfold cons_at, srcs_at. destruct (decide (x = h)) as [->|].
  - rewrite lookup_insert_eq, Hl. simpl. by rewrite Hc, Hs.
  - by rewrite lookup_insert_ne.
Qed.

Lemma consumeLink_same_ends h l f l' ls :
  ls !! h = Some l → consumeLink l = Ok (f, l') → same_ends ls (<[h := l']> ls).
Proof.
  unfold consumeLink. intros Hl ([f0 b] & Hb & H)%rbind_ok. simplify_eq. by eapply insert_same_ends.
Qed.

(** ** Operations keep the ports *)

Lemma set_input_ports r i u u' r' :
  vec_get (m_input_unit r) i = Ok u → iu_in_link u' = iu_in_link u →
  set_input r i u' = Ok r' → same_ports r r'.
Proof.
  unfold set_input. intros Hu Hl (us & Hs & [= <-])%rbind_ok. unfold same_ports, in_links. simpl.
  by rewrite (map_vec_set _ _ _ _ _ _ Hu Hl Hs).
Qed.

Lemma set_output_ports r i o o' r' :
  vec_get (m_output_unit r) i = Ok o → ou_credit_link o' = ou_credit_link o →
  set_output r i o' = Ok r' → same_ports r r'.
Proof.
  unfold set_output. intros Ho Hl (os & Hs & [= <-])%rbind_ok. unfold same_ports, in_credits. simpl.
  by rewrite (map_vec_set _ _ _ _ _ _ Ho Hl Hs).
Qed.

Lemma upd_vc_link vc g u u' : upd_vc vc g u = Ok u' → iu_in_link u' = iu_in_link u.
Proof. unfold upd_vc. by intros (vcs & _ & [= <-])%rbind_ok. Qed.

Lemma upd_ovc_link vc g o o' : upd_ovc vc g o = Ok o' → ou_credit_link o' = ou_credit_link o.
Proof. unfold upd_ovc. by intros (vcs & _ & [= <-])%rbind_ok. Qed.

Lemma admit_flit_link cfg env rnd f c u c' u' :
  admit_flit cfg env rnd f c u = Ok (c', u') → iu_in_link u' = iu_in_link u ∧ r_id c' = r_id c.
Proof.
  unfold admit_flit. intros (v & _ & H)%rbind_ok.
  destruct (_ || _); apply rbind_ok in H as (_ & _ & H); [|by simplify_eq].
  apply rbind_ok in H as (u1 & H1 & H). apply rbind_ok in H as ([o c1] & Hr & H).
  apply rbind_ok in H as (u2 & H2 & H). simplify_eq.
  apply upd_vc_link in H1. apply upd_vc_link in H2. split; [congruence|].
  unfold route_compute in Hr. apply rbind_ok in Hr as ([o' ru] & _ & Hr). by simplify_eq.
Qed.

Lemma stage_flit_id env f c f' c' : stage_flit env f c = Ok (f', c') → r_id c' = r_id c.
Proof.
  unfold stage_flit. destruct (_ =? 1); [intros; by simplify_eq|].
  intros (_ & _ & H)%rbind_ok. by simplify_eq.
Qed.

Lemma input_wakeup_link cfg env rnd c u l c' u' l' :
  input_wakeup cfg env rnd c u l = Ok (c', u', l') → iu_in_link u' = iu_in_link u ∧ r_id c' = r_id c.
Proof.
  unfold input_wakeup. destruct (link_isReady _ l); [|intros; by simplify_eq].
  intros ([f l1] & _ & (_ & _ & H)%rbind_ok)%rbind_ok. cbv zeta in H.
  apply rbind_ok in H as ([c1 u1] & H1 & H). apply rbind_ok in H as ([f2 c2] & H2 & H).
  apply rbind_ok in H as (u2 & H3 & H). apply rbind_ok in H as (lw & _ & H).
  apply rbind_ok in H as (lr & _ & H). simplify_eq.
  apply admit_flit_link in H1 as [? ?]. apply stage_flit_id in H2. apply upd_vc_link in H3.
  split; [simpl; congruence|]. destruct (link_isReady _ l'); simpl; congruence.
Qed.

Lemma output_wakeup_link env i c o l c' o' l' :
  output_wakeup env i c o l = Ok (c', o', l') → ou_credit_link o' = ou_credit_link o ∧ r_id c' = r_id c.
Proof.
  unfold output_wakeup. destruct (link_isReady _ l); [|intros; by simplify_eq].
  intros ([f l1] & _ & (o1 & H1 & (free & _ & (o2 & H2 & H)%rbind_ok)%rbind_ok)%rbind_ok)%rbind_ok.
  simplify_eq. apply upd_ovc_link in H1. split; [|by destruct (link_isReady _ l')].
  destruct free; [apply upd_ovc_link in H2; congruence|by simplify_eq].
Qed.

Lemma vc_allocate_ports env outport inport invc r outvc r' :
  vc_allocate env outport inport invc r = Ok (outvc, r') → same_ports r r'.
Proof.
  unfold vc_allocate.
  intros (o & Ho%getOutputUnit_ok & (vn & _ & ([vc o'] & Hsel & H)%rbind_ok)%rbind_ok)%rbind_ok.
  apply rbind_ok in H as (r1 & Hr1 & H). apply rbind_ok in H as (_ & _ & H).
  apply rbind_ok in H as (u & Hu%getInputUnit_ok & H). apply rbind_ok in H as (u' & Hu' & H).
  apply rbind_ok in H as (r2 & Hr2 & H). simplify_eq. transitivity r1.
  - eapply set_output_ports; [exact Ho| |exact Hr1]. unfold select_free_vc in Hsel.
    apply rbind_ok in Hsel as (w & _ & Hsel). destruct w; [|by simplify_eq].
    apply rbind_ok in Hsel as (o1 & Ho1 & Hsel). simplify_eq. by apply upd_ovc_link in Ho1.
  - eapply set_input_ports; [exact Hu| |exact Hr2]. by apply upd_vc_link in Hu'.
Qed.

Lemma release_vc_ports env inport invc f r r' : release_vc env inport invc f r = Ok r' → same_ports r r'.
Proof.
  unfold release_vc. intros (u & Hu%getInputUnit_ok & H)%rbind_ok. destruct (is_tail f).
  - apply rbind_ok in H as (b & _ & H). apply rbind_ok in H as (_ & _ & H).
    apply rbind_ok in H as (u1 & Hu1 & H). apply upd_vc_link in Hu1.
    eapply (set_input_ports (with_core_of r _)) in H; [exact H|exact Hu|done].
  - eapply (set_input_ports (with_core_of r _)) in H; [exact H|exact Hu|done].
Qed.

Lemma grant_ports env outport inport r r' : grant env outport inport r = Ok r' → same_ports r r'.
Proof.
  unfold grant. intros (o & Ho & (u & Hu & (invc & Hw & (outvc & Hov & H)%rbind_ok)%rbind_ok)%rbind_ok)%rbind_ok.
  apply rbind_ok in H as ([ovc r1] & Halloc & H).
  assert (same_ports r r1) as Hr1.
  { destruct (outvc =? -1); [by eapply vc_allocate_ports|by simplify_eq]. }
  apply rbind_ok in H as (u1 & Hu1%getInputUnit_ok & H). apply rbind_ok in H as ([f u2] & Hf & H).
  apply rbind_ok in H as (r2 & Hr2 & H). cbv zeta in H.
  apply rbind_ok in H as (o1 & Ho1%getOutputUnit_ok & H). apply rbind_ok in H as (o2 & Ho2 & H).
  apply rbind_ok in H as (r3 & Hr3 & H). apply rbind_ok in H as (r4 & Hr4 & H).
  apply rbind_ok in H as (r5 & Hr5 & H). apply rbind_ok in H as (s & _ & H). simplify_eq.
  transitivity r1; [done|]. transitivity r2.
  { eapply set_input_ports; [exact Hu1| |exact Hr2]. unfold iu_getTopFlit in Hf.
    apply rbind_ok in Hf as (v & _ & Hf). apply rbind_ok in Hf as ([f0 v'] & _ & Hf).
    apply rbind_ok in Hf as (vcs & _ & Hf). by simplify_eq. }
  transitivity r3.
  { eapply set_output_ports; [exact Ho1| |exact Hr3]. by apply upd_ovc_link in Ho2. }
  transitivity r5; [|done]. transitivity r4; [|by eapply release_vc_ports].
  unfold grant_switch in Hr4. apply rbind_ok in Hr4 as (bufs & _ & Hr4). by simplify_eq.
Qed.

Lemma sa_wakeup_ports cfg env r r' : sa_wakeup cfg env r = Ok r' → same_ports r r'.
Proof.
  unfold sa_wakeup. intros (r1 & H1 & (r2 & H2 & H)%rbind_ok)%rbind_ok.
  assert (same_ports r r1) as Hr1.
  { apply (for_range_inv (fun _ t => same_ports r t)) in H1; [done|done|].
    intros i t t' _ Ht. unfold arbitrate_inport. intros (v & _ & (w & _ & Hw)%rbind_ok)%rbind_ok.
    destruct w as [[invc o]|]; [|by simplify_eq].
    apply rbind_ok in Hw as (req & _ & Hw). apply rbind_ok in Hw as (wins & _ & Hw). by simplify_eq. }
  assert (same_ports r r2) as Hr2.
  { apply (for_range_inv (fun _ t => same_ports r t)) in H2; [done|done|].
    intros i t t' _ Ht. unfold arbitrate_outport. intros (v & _ & (w & _ & Hw)%rbind_ok)%rbind_ok.
    destruct w as [inport|]; [|by simplify_eq]. transitivity t; [done|by eapply grant_ports]. }
  unfold check_for_wakeup in H. destruct (alreadyScheduled _ _); [by simplify_eq|].
  apply rbind_ok in H as (b & _ & H). destruct b; by simplify_eq.
Qed.

Lemma xbar_port_ports env i r r' : xbar_port env i r = Ok r' → same_ports r r'.
Proof.
  unfold xbar_port. intros (b & Hb & H)%rbind_ok. destruct (negb _); [by simplify_eq|].
  apply rbind_ok in H as (f & Hf & H). destruct (is_stage _ _ f); [|by simplify_eq].
  apply rbind_ok in H as (outport & _ & H). cbv zeta in H.
  apply rbind_ok in H as (o & Ho%getOutputUnit_ok & H). cbn [insert_flit] in H.
  apply rbind_ok in H as (r1 & Hr1 & H). apply rbind_ok in H as ([f' b'] & Hb' & H).
  apply rbind_ok in H as (bufs & Hbufs & H). simplify_eq.
  eapply (set_output_ports (with_core_of r _)) in Hr1; [exact Hr1|exact Ho|done].
Qed.

Lemma xbar_wakeup_ports env r r' : xbar_wakeup env r = Ok r' → same_ports r r'.
Proof.
  intros H. apply (for_range_inv (fun _ t => same_ports r t)) in H; [done|done|].
  intros i t t' _ Ht Hs. transitivity t; [done|by eapply xbar_port_ports].
Qed.

(** ** Framing *)

(** [f] holds every link of the footprint that exists. *)
Definition owns (D : gset Z) (f ls : Links) : Prop := ∀ h, h ∈ D → f !! h = None → ls !! h = None.

(** A step on a router and the links that commutes with adding links outside
    the footprint, keeps the ports and the set of links it was given. *)
Definition frames (step : Router * Links → res (Router * Links)) : Prop :=
  ∀ r f ls, owns (footprint r) f ls →
    step (r, f ∪ ls) = (let* ' (r', f') := step (r, f) in Ok (r', f' ∪ ls))
    ∧ ∀ r' f', step (r, f) = Ok (r', f') → same_ports r r' ∧ dom f' = dom f
         ∧ ∀ h, h ∉ footprint r → f' !! h = f !! h.

Lemma get_link_union h D f ls : owns D f ls → h ∈ D → get_link h (f ∪ ls) = get_link h f.
Proof.
  intros Ho Hh. unfold get_link. destruct (f !! h) as [l|] eqn:E.
  - by rewrite (lookup_union_Some_l _ _ _ _ E).
  - by rewrite lookup_union_r, Ho.
Qed.

Lemma owns_dom D f f' ls : owns D f ls → dom f' = dom f → owns D f' ls.
Proof. intros Ho Hd h Hh Hn. apply Ho; [done|]. apply not_elem_of_dom. rewrite <-Hd. by apply not_elem_of_dom. Qed.

Lemma get_link_dom h f l l' : get_link h f = Ok l → dom (<[h := l']> f) = dom f.
Proof.
  unfold get_link. destruct (f !! h) eqn:E; [|done]. intros _. rewrite dom_insert_L.
  apply elem_of_dom_2 in E. set_solver.
Qed.

Lemma in_links_footprint r i u : vec_get (m_input_unit r) i = Ok u → iu_in_link u ∈ footprint r.
Proof.
  intros [_ Hu]%vec_get_ok. unfold footprint, in_links. rewrite elem_of_list_to_set, elem_of_app. left.
  apply list_elem_of_fmap. exists u. split; [done|]. by eapply list_elem_of_lookup_2.
Qed.

Lemma in_credits_footprint r i o : vec_get (m_output_unit r) i = Ok o → ou_credit_link o ∈ footprint r.
Proof.
  intros [_ Ho]%vec_get_ok. unfold footprint, in_credits. rewrite elem_of_list_to_set, elem_of_app. right.
  apply list_elem_of_fmap. exists o. split; [done|]. by eapply list_elem_of_lookup_2.
Qed.

Lemma wake_input_frames cfg env rnd i : frames (wake_input cfg env rnd i).
Proof.
  intros r f ls Ho. unfold wake_input.
  destruct (vec_get (m_input_unit r) i) as [u|] eqn:Hu; simpl; [|done].
  pose proof (in_links_footprint r i u Hu) as Hin. rewrite (get_link_union _ _ _ _ Ho Hin).
  destruct (get_link (iu_in_link u) f) as [l|] eqn:Hl; simpl; [|done].
  destruct (input_wakeup _ _ _ _ _ _) as [[[c u'] l']|] eqn:Hw; simpl; [|done].
  destruct (set_input _ _ _) as [r1|] eqn:Hs; simpl; [|done]. split.
  - by rewrite insert_union_l.
  - intros r' f' [= <- <-]. apply input_wakeup_link in Hw as [Hw1 Hw2].
    eapply (set_input_ports (with_core_of r c)) in Hs; [|exact Hu|done]. split_and!.
    + destruct Hs as (H1 & H2 & H3). split_and!; [done|done|]. simpl in *. congruence.
    + by eapply get_link_dom.
    + intros h Hh. apply lookup_insert_ne. set_solver.
Qed.

Lemma wake_output_frames env i : frames (wake_output env i).
Proof.
  intros r f ls Ho. unfold wake_output.
  destruct (vec_get (m_output_unit r) i) as [o|] eqn:Hu; simpl; [|done].
  pose proof (in_credits_footprint r i o Hu) as Hin. rewrite (get_link_union _ _ _ _ Ho Hin).
  destruct (get_link (ou_credit_link o) f) as [l|] eqn:Hl; simpl; [|done].
  destruct (output_wakeup _ _ _ _ _) as [[[c o'] l']|] eqn:Hw; simpl; [|done].
  destruct (set_output _ _ _) as [r1|] eqn:Hs; simpl; [|done]. split.
  - by rewrite insert_union_l.
  - intros r' f' [= <- <-]. apply output_wakeup_link in Hw as [Hw1 Hw2].
    eapply (set_output_ports (with_core_of r c)) in Hs; [|exact Hu|done]. split_and!.
    + destruct Hs as (H1 & H2 & H3). split_and!; [done|done|]. simpl in *. congruence.
    + by eapply get_link_dom.
    + intros h Hh. apply lookup_insert_ne. set_solver.
Qed.

Lemma for_range_frames lo n (body : Z → Router * Links → res (Router * Links)) :
  (∀ i, frames (body i)) → frames (for_range lo n body).
Proof.
  intros Hb. revert lo. induction n as [|n IH]; intros lo r f ls Ho; simpl.
  { split; [done|]. intros r' f' [= <- <-]. done. }
  destruct (Hb lo r f ls Ho) as [Heq Hkeep]. rewrite Heq.
  destruct (body lo (r, f)) as [[r1 f1]|] eqn:E1; simpl; [|done].
  destruct (Hkeep r1 f1 eq_refl) as (Hp & Hd & Hout).
  assert (owns (footprint r1) f1 ls) as Ho1.
  { rewrite (same_ports_footprint r r1 Hp). by eapply owns_dom. }
  destruct (IH (lo + 1) r1 f1 ls Ho1) as [Heq' Hkeep']. split; [done|].
  intros r' f' H'. destruct (Hkeep' r' f' H') as (Hp' & Hd' & Hout').
  split_and!; [by transitivity r1|congruence|]. intros h Hh.
  rewrite Hout', Hout; [done|done|]. by rewrite (same_ports_footprint r r1 Hp).
Qed.

(** A wakeup reads and writes only the router and the links of its footprint. *)
Lemma router_wakeup_frames cfg env rnd :
  frames (fun s => router_wakeup cfg env rnd (fst s) (snd s)).
Proof.
  intros r f ls Ho. unfold router_wakeup. simpl.
  destruct (assert_ _ _); simpl; [|done].
  destruct (for_range_frames 0 (length (m_input_unit r)) _ (wake_input_frames cfg env rnd) r f ls Ho)
    as [-> Hk1].
  destruct (for_range 0 (length (m_input_unit r)) _ (r, f)) as [[r1 f1]|]; simpl; [|done].
  destruct (Hk1 r1 f1 eq_refl) as (Hp1 & Hd1 & Hout1).
  assert (owns (footprint r1) f1 ls) as Ho1.
  { rewrite (same_ports_footprint r r1 Hp1). by eapply owns_dom. }
  destruct (for_range_frames 0 (length (m_output_unit r1)) _ (wake_output_frames env) r1 f1 ls Ho1)
    as [-> Hk2].
  destruct (for_range 0 (length (m_output_unit r1)) _ (r1, f1)) as [[r2 f2]|]; simpl; [|done].
  destruct (Hk2 r2 f2 eq_refl) as (Hp2 & Hd2 & Hout2).
  destruct (sa_wakeup cfg env r2) as [r3|] eqn:E3; simpl; [|done].
  destruct (xbar_wakeup env r3) as [r4|] eqn:E4; simpl; [|done]. split; [done|].
  intros r' f' [= <- <-]. apply sa_wakeup_ports in E3. apply xbar_wakeup_ports in E4. split_and!.
  - transitivity r1; [done|]. transitivity r2; [done|]. by transitivity r3.
  - congruence.
  - intros h Hh. rewrite Hout2, Hout1; [done|done|]. by rewrite (same_ports_footprint r r1 Hp1).
Qed.

(** ** Calls out of the router

    What a wakeup does to the wakeup ring and to the deferred queues goes through
    [registerWakeup] and [deferOrSchedule]; the model collects these calls. *)

(** The links that a router sends flits and credits to. *)
Definition out_links (r : Router) : list Z :=
  map iu_credit_link (m_input_unit r) ++ map ou_out_link (m_output_unit r).

(** A call made by the router [id] with the outgoing links [hs]: a wakeup of the
    router itself, or an event of one of its output units or outgoing links. *)
Definition own_call (id : Z) (hs : list Z) (e : effect) : Prop :=
  match e with
  | RegisterWakeup i _ => i = id
  | DeferOrSchedule (ConsOutputUnit i _) _ => i = id
  | DeferOrSchedule (ConsLink h) _ => h ∈ hs
  | DeferOrSchedule _ _ => False
  end.

Definition calls_in (id : Z) (hs : list Z) (c c' : RouterCore) : Prop :=
  r_id c = id → r_id c' = id ∧ ∃ es, r_effects c' = r_effects c ++ es ∧ Forall (own_call id hs) es.

#[export] Instance calls_in_preorder id hs : PreOrder (calls_in id hs).
Proof.
  split; [intros c Hid; split; [done|]; exists []; by rewrite app_nil_r|].
  intros c1 c2 c3 H1 H2 Hid. destruct (H1 Hid) as (Hid2 & es1 & Ee1 & Hf1).
  destruct (H2 Hid2) as (Hid3 & es2 & Ee2 & Hf2). split; [done|]. exists (es1 ++ es2).
  rewrite Ee2, Ee1, app_assoc. split; [done|]. by apply Forall_app.
Qed.

Lemma emit_calls id hs e c : own_call id hs e → calls_in id hs c (emit e c).
Proof. intros He Hid. split; [done|]. exists [e]. split; [done|]. by repeat constructor. Qed.

Lemma schedule_wakeup_calls id hs env t c : r_id c = id → calls_in id hs c (schedule_wakeup env t c).
Proof. intros Hid _. split; [done|]. exists [RegisterWakeup id (clockEdge env t)]. subst id. split; [done|]. by repeat constructor. Qed.

(** The router keeps its outgoing links, and makes only calls of its own. *)
Definition calls (id : Z) (r r' : Router) : Prop :=
  out_links r' = out_links r ∧ calls_in id (out_links r) (core r) (core r').

#[export] Instance calls_preorder id : PreOrder (calls id).
Proof.
  split; [by intros r|]. intros r1 r2 r3 [H1 H2] [H3 H4]. split; [congruence|].
  rewrite H1 in H4. by transitivity (core r2).
Qed.

Lemma set_input_calls id r c i u u' r' :
  vec_get (m_input_unit r) i = Ok u → iu_credit_link u' = iu_credit_link u →
  calls_in id (out_links r) (core r) c → set_input (with_core_of r c) i u' = Ok r' → calls id r r'.
Proof.
  unfold set_input. intros Hu Hl Hc (us & Hs & [= <-])%rbind_ok. split; [|done]. unfold out_links. simpl.
  by rewrite (map_vec_set _ _ _ _ _ _ Hu Hl Hs).
Qed.

Lemma set_output_calls id r c i o o' r' :
  vec_get (m_output_unit r) i = Ok o → ou_out_link o' = ou_out_link o →
  calls_in id (out_links r) (core r) c → set_output (with_core_of r c) i o' = Ok r' → calls id r r'.
Proof.
  unfold set_output. intros Ho Hl Hc (os & Hs & [= <-])%rbind_ok. split; [|done]. unfold out_links. simpl.
  by rewrite (map_vec_set _ _ _ _ _ _ Ho Hl Hs).
Qed.

Lemma with_own_core r : with_core_of r (core r) = r.
Proof. by destruct r. Qed.

(** The same when the core is left alone. *)
Lemma set_input_same id r i u u' r' :
  vec_get (m_input_unit r) i = Ok u → iu_credit_link u' = iu_credit_link u → set_input r i u' = Ok r' → calls id r r'.
Proof. intros Hu Hl Hs. eapply set_input_calls; [exact Hu|exact Hl|reflexivity|by rewrite with_own_core]. Qed.

Lemma set_output_same id r i o o' r' :
  vec_get (m_output_unit r) i = Ok o → ou_out_link o' = ou_out_link o → set_output r i o' = Ok r' → calls id r r'.
Proof. intros Ho Hl Hs. eapply set_output_calls; [exact Ho|exact Hl|reflexivity|by rewrite with_own_core]. Qed.

Lemma credit_link_out r i u : vec_get (m_input_unit r) i = Ok u → iu_credit_link u ∈ out_links r.
Proof.
  intros [_ Hu]%vec_get_ok. unfold out_links. apply elem_of_app. left.
  apply list_elem_of_fmap. exists u. split; [done|]. by eapply list_elem_of_lookup_2.
Qed.

Lemma out_link_out r i o : vec_get (m_output_unit r) i = Ok o → ou_out_link o ∈ out_links r.
Proof.
  intros [_ Ho]%vec_get_ok. unfold out_links. apply elem_of_app. right.
  apply list_elem_of_fmap. exists o. split; [done|]. by eapply list_elem_of_lookup_2.
Qed.

Lemma upd_vc_credit_link vc g u u' : upd_vc vc g u = Ok u' → iu_credit_link u' = iu_credit_link u.
Proof. unfold upd_vc. by intros (vcs & _ & [= <-])%rbind_ok. Qed.

Lemma upd_ovc_out_link vc g o o' : upd_ovc vc g o = Ok o' → ou_out_link o' = ou_out_link o.
Proof. unfold upd_ovc. by intros (vcs & _ & [= <-])%rbind_ok. Qed.

Lemma wake_input_calls cfg env rnd i r ls r' ls' id :
  r_id (core r) = id → wake_input cfg env rnd i (r, ls) = Ok (r', ls') → calls id r r'.
Proof.
  unfold wake_input. intros Hid (u & Hu & (l & Hl & ([[c u'] l'] & Hw & H)%rbind_ok)%rbind_ok)%rbind_ok.
  apply rbind_ok in H as (r1 & Hs & H). simplify_eq.
  enough (iu_credit_link u' = iu_credit_link u ∧ calls_in (r_id (core r)) (out_links r) (core r) c) as [Hk Hc]
    by (by eapply set_input_calls).
  revert Hw. unfold input_wakeup. destruct (link_isReady _ l); [|intros; by simplify_eq].
  intros ([f l1] & _ & (_ & _ & H)%rbind_ok)%rbind_ok. cbv zeta in H.
  apply rbind_ok in H as ([c1 u1] & H1 & H). apply rbind_ok in H as ([f2 c2] & H2 & H).
  apply rbind_ok in H as (u2 & H3%upd_vc_credit_link & H). apply rbind_ok in H as (lw & _ & H).
  apply rbind_ok in H as (lr & _ & H). simplify_eq.
  assert (iu_credit_link u1 = iu_credit_link u ∧ calls_in (r_id (core r)) (out_links r) (core r) c1) as [Hk1 Hc1].
  { revert H1. unfold admit_flit. intros (v & _ & H)%rbind_ok.
    destruct (_ || _); apply rbind_ok in H as (_ & _ & H); [|by simplify_eq].
    apply rbind_ok in H as (u3 & H4%upd_vc_credit_link & H). apply rbind_ok in H as ([o c3] & Hr & H).
    apply rbind_ok in H as (u4 & H5%upd_vc_credit_link & H). simplify_eq. split; [congruence|].
    unfold route_compute in Hr. apply rbind_ok in Hr as ([o' ru] & _ & [= _ <-]).
    intros _. split; [done|]. exists []. by rewrite app_nil_r. }
  assert (r_id c1 = r_id (core r)) as Hid1 by by apply Hc1.
  assert (calls_in (r_id (core r)) (out_links r) c1 c2) as Hc2.
  { revert H2. unfold stage_flit. destruct (_ =? 1); [by intros [= _ <-]|].
    intros (_ & _ & [= _ <-])%rbind_ok. by apply schedule_wakeup_calls. }
  split; [simpl; congruence|]. transitivity c1; [done|]. transitivity c2; [done|].
  destruct (link_isReady _ l'); [apply schedule_wakeup_calls; by apply Hc2|done].
Qed.

Lemma wake_output_calls env i r ls r' ls' id :
  r_id (core r) = id → wake_output env i (r, ls) = Ok (r', ls') → calls id r r'.
Proof.
  unfold wake_output. intros Hid (o & Ho & (l & Hl & ([[c o'] l'] & Hw & H)%rbind_ok)%rbind_ok)%rbind_ok.
  apply rbind_ok in H as (r1 & Hs & H). simplify_eq.
  enough (ou_out_link o' = ou_out_link o ∧ calls_in (r_id (core r)) (out_links r) (core r) c) as [Hk Hc]
    by (by eapply set_output_calls).
  revert Hw. unfold output_wakeup. destruct (link_isReady _ l); [|intros; by simplify_eq].
  intros ([f l1] & _ & (o1 & H1 & (free & _ & (o2 & H2 & H)%rbind_ok)%rbind_ok)%rbind_ok)%rbind_ok.
  simplify_eq. apply upd_ovc_out_link in H1. split.
  - destruct free; [apply upd_ovc_out_link in H2; congruence|by simplify_eq].
  - destruct (link_isReady _ l'); [|done]. by apply emit_calls.
Qed.

Lemma release_vc_calls env inport invc f r r' id : release_vc env inport invc f r = Ok r' → calls id r r'.
Proof.
  unfold release_vc. intros (u & Hu%getInputUnit_ok & H)%rbind_ok.
  assert (∀ u' t b, iu_credit_link u' = iu_credit_link u →
    calls_in id (out_links r) (core r) (increment_credit env invc b t (core r) u').1) as Hc.
  { intros u' t b Hk. apply emit_calls. simpl. rewrite Hk. by eapply credit_link_out. }
  destruct (is_tail f).
  - apply rbind_ok in H as (b & _ & H). apply rbind_ok in H as (_ & _ & H).
    apply rbind_ok in H as (u1 & Hu1%upd_vc_credit_link & H).
    eapply set_input_calls; [exact Hu| |exact (Hc u1 (curTick env) true Hu1)|exact H]. done.
  - eapply set_input_calls; [exact Hu| |exact (Hc u (curTick env) false eq_refl)|exact H]. done.
Qed.

Lemma vc_allocate_calls env outport inport invc r outvc r' id :
  vc_allocate env outport inport invc r = Ok (outvc, r') → calls id r r'.
Proof.
  unfold vc_allocate.
  intros (o & Ho%getOutputUnit_ok & (vn & _ & ([vc o'] & Hsel & H)%rbind_ok)%rbind_ok)%rbind_ok.
  apply rbind_ok in H as (r1 & Hr1 & H). apply rbind_ok in H as (_ & _ & H).
  apply rbind_ok in H as (u & Hu%getInputUnit_ok & H). apply rbind_ok in H as (u' & Hu' & H).
  apply rbind_ok in H as (r2 & Hr2 & H). simplify_eq. transitivity r1.
  - eapply set_output_same; [exact Ho| |exact Hr1]. unfold select_free_vc in Hsel.
    apply rbind_ok in Hsel as (w & _ & Hsel). destruct w; [|by simplify_eq].
    apply rbind_ok in Hsel as (o1 & Ho1 & Hsel). simplify_eq. by apply upd_ovc_out_link in Ho1.
  - eapply set_input_same; [exact Hu| |exact Hr2]. by apply upd_vc_credit_link in Hu'.
Qed.

Lemma grant_calls env outport inport r r' id : grant env outport inport r = Ok r' → calls id r r'.
Proof.
  unfold grant. intros (o & Ho & (u & Hu & (invc & Hw & (outvc & Hov & H)%rbind_ok)%rbind_ok)%rbind_ok)%rbind_ok.
  apply rbind_ok in H as ([ovc r1] & Halloc & H).
  assert (calls id r r1) as Hr1.
  { destruct (outvc =? -1); [by eapply vc_allocate_calls|by simplify_eq]. }
  apply rbind_ok in H as (u1 & Hu1%getInputUnit_ok & H). apply rbind_ok in H as ([f u2] & Hf & H).
  apply rbind_ok in H as (r2 & Hr2 & H). cbv zeta in H.
  apply rbind_ok in H as (o1 & Ho1%getOutputUnit_ok & H). apply rbind_ok in H as (o2 & Ho2 & H).
  apply rbind_ok in H as (r3 & Hr3 & H). apply rbind_ok in H as (r4 & Hr4 & H).
  apply rbind_ok in H as (r5 & Hr5 & H). apply rbind_ok in H as (s & _ & H). simplify_eq.
  transitivity r1; [done|]. transitivity r2.
  { eapply set_input_same; [exact Hu1| |exact Hr2]. unfold iu_getTopFlit in Hf.
    apply rbind_ok in Hf as (v & _ & Hf). apply rbind_ok in Hf as ([f0 v'] & _ & Hf).
    apply rbind_ok in Hf as (vcs & _ & Hf). by simplify_eq. }
  transitivity r3; [eapply set_output_same; [exact Ho1|by apply upd_ovc_out_link in Ho2|exact Hr3]|].
  transitivity r5; [|done]. transitivity r4; [|by eapply release_vc_calls].
  unfold grant_switch in Hr4. apply rbind_ok in Hr4 as (bufs & _ & Hr4). by simplify_eq.
Qed.

Lemma sa_wakeup_calls cfg env r r' id : r_id (core r) = id → sa_wakeup cfg env r = Ok r' → calls id r r'.
Proof.
  unfold sa_wakeup. intros Hid (r1 & H1 & (r2 & H2 & H)%rbind_ok)%rbind_ok.
  assert (calls id r r1) as Hr1.
  { apply (for_range_inv (fun _ t => calls id r t)) in H1; [done|done|].
    intros i t t' _ Ht. unfold arbitrate_inport. intros (v & _ & (w & _ & Hw)%rbind_ok)%rbind_ok.
    destruct w as [[invc o]|]; [|by simplify_eq].
    apply rbind_ok in Hw as (req & _ & Hw). apply rbind_ok in Hw as (wins & _ & Hw). by simplify_eq. }
  assert (calls id r r2) as Hr2.
  { apply (for_range_inv (fun _ t => calls id r t)) in H2; [done|done|].
    intros i t t' _ Ht. unfold arbitrate_outport. intros (v & _ & (w & _ & Hw)%rbind_ok)%rbind_ok.
    destruct w as [inport|]; [|by simplify_eq]. transitivity t; [done|by eapply grant_calls]. }
  transitivity r2; [done|]. unfold check_for_wakeup in H. destruct (alreadyScheduled _ _); [by simplify_eq|].
  apply rbind_ok in H as (b & _ & H). destruct b; simplify_eq; [|done].
  split; [done|]. apply schedule_wakeup_calls. by apply Hr2.
Qed.

Lemma xbar_wakeup_calls env r r' id : xbar_wakeup env r = Ok r' → calls id r r'.
Proof.
  intros Hrun. apply (for_range_inv (fun _ t => calls id r t)) in Hrun; [done|done|]. clear Hrun.
  intros i t t' _ Ht Hs. transitivity t; [done|]. clear Ht. revert Hs.
  unfold xbar_port. intros (b & Hb & H)%rbind_ok. destruct (negb _); [by simplify_eq|].
  apply rbind_ok in H as (f & Hf & H). destruct (is_stage _ _ f); [|by simplify_eq].
  apply rbind_ok in H as (outport & _ & H). cbv zeta in H.
  apply rbind_ok in H as (o & Ho%getOutputUnit_ok & H). cbn [insert_flit] in H.
  apply rbind_ok in H as (r1 & Hr1 & H). apply rbind_ok in H as ([f' b'] & Hb' & H).
  apply rbind_ok in H as (bufs & Hbufs & H). simplify_eq.
  eapply set_output_calls in Hr1; [exact Hr1|exact Ho|done|]. apply emit_calls. by eapply out_link_out.
Qed.

Lemma router_wakeup_calls cfg env rnd r ls r' ls' :
  router_wakeup cfg env rnd r ls = Ok (r', ls') → calls (r_id (core r)) r r'.
Proof.
  unfold router_wakeup. intros (_ & _ & ([r1 ls1] & H1 & ([r2 ls2] & H2 & H)%rbind_ok)%rbind_ok)%rbind_ok.
  apply rbind_ok in H as (r3 & H3 & (r4 & H4 & H)%rbind_ok). simplify_eq.
  assert (calls (r_id (core r)) r r1) as Hr1.
  { apply (for_range_inv (fun _ t => calls (r_id (core r)) r t.1)) in H1; [done|done|].
    intros i [t l] [t' l'] _ Ht Hs. simpl in *. transitivity t; [done|]. eapply wake_input_calls, Hs. by apply Ht. }
  assert (calls (r_id (core r)) r r2) as Hr2.
  { apply (for_range_inv (fun _ t => calls (r_id (core r)) r t.1)) in H2; [done|done|].
    intros i [t l] [t' l'] _ Ht Hs. simpl in *. transitivity t; [done|]. eapply wake_output_calls, Hs. by apply Ht. }
  transitivity r2; [done|]. transitivity r3; [|by eapply xbar_wakeup_calls].
  eapply sa_wakeup_calls, H3. by apply Hr2.
Qed.

(** C8: A router wakeup is local to the router and the links that end at it, as far
    as the store of links goes, and calls out only on its own behalf. For the
    same answers of [rand()] it computes the same result whatever other links exist
    and whatever state they are in; of the links it reads and writes only the
    router's input links and the credit links that end at it, adds none and drops
    none, and it keeps the router's ports and identity. The wakeup ring and the
    deferred queues, which routers share, are reached only by the calls recorded
    in [r_effects]: the wakeup appends to these only registrations of the router
    itself and events of its own output units and outgoing links. *)
Theorem router_wakeup_local cfg env rnd r f ls r' f' :
  owns (footprint r) f ls → router_wakeup cfg env rnd r f = Ok (r', f') →
  router_wakeup cfg env rnd r (f ∪ ls) = Ok (r', f' ∪ ls) ∧ same_ports r r' ∧ dom f' = dom f ∧
  (∀ h, h ∉ footprint r → f' !! h = f !! h) ∧
  ∃ es, r_effects (core r') = r_effects (core r) ++ es ∧ Forall (own_call (r_id (core r)) (out_links r)) es.
Proof.
  intros Ho Hrun. destruct (router_wakeup_frames cfg env rnd r f ls Ho) as [Heq Hk]. cbn [fst snd] in *.
  rewrite Heq, Hrun. cbn [rbind]. split; [done|]. destruct (Hk r' f' Hrun) as (Hp & Hd & Hout).
  split_and!; [done|done|done|]. by apply router_wakeup_calls in Hrun as [_ [_ Hc]].
Qed.

(** A fifth link, carrying a flit of another router, is not touched. *)
Lemma router_wakeup_local_witness :
  router_wakeup ex_cfg ex_clock (fun _ => 0) (fst ex_rl) (snd ex_rl ∪ {[9 := new_NetworkLink 9 1 1 [] 128]})
  = Ok (fst ex_rl', snd ex_rl' ∪ {[9 := new_NetworkLink 9 1 1 [] 128]}).
Proof.
  apply (router_wakeup_local ex_cfg ex_clock (fun _ => 0) (fst ex_rl) (snd ex_rl) {[9 := new_NetworkLink 9 1 1 [] 128]}
    (fst ex_rl') (snd ex_rl')); [|vm_compute; reflexivity].
  intros h Hh _. assert (footprint (fst ex_rl) = list_to_set [0; 3]) as E by (vm_compute; reflexivity).
  rewrite E in Hh. apply elem_of_list_to_set in Hh.
  apply lookup_singleton_ne. intros <-. apply elem_of_cons in Hh as [|Hh]; [done|].
  apply elem_of_cons in Hh as [|Hh]; [done|]. by apply elem_of_nil in Hh.
Defined.
