(* ===== verification/Interleave.v ===== *)
(** * Interleaving of threads whose steps commute

    A generic argument about a set of threads that share a configuration. If
    the steps of different threads commute and one complete schedule succeeds,
    then every schedule succeeds: no thread ever blocks or fails, all complete
    executions have the same length and end in the same configuration. The
    parallel region of GarnetNetwork is an instance. *)

From S2P Require Import Prelude.

(** [step t c] runs the next instruction of thread [t]; [live t c] says that
    it has one. *)
Class Threads (C : Type) := {
  step : nat → C → res C;
  live : nat → C → bool;
  conf_inv : C → Prop;
  step_live t c c' : step t c = Ok c' → live t c = true;
  step_other t u c c' : t ≠ u → step t c = Ok c' → live u c' = live u c;
  step_inv t c c' : conf_inv c → step t c = Ok c' → conf_inv c';
  step_swap t u c c1 c2 :
    conf_inv c → t ≠ u → step t c = Ok c1 → step u c1 = Ok c2 →
    ∃ c1', step u c = Ok c1' ∧ step t c1' = Ok c2
}.

Section threads.
Context `{Threads C}.

(** One step of some thread. *)
Definition tstep (c c' : C) : Prop := ∃ t, step t c = Ok c'.

(** All threads have finished. *)
Definition terminal (c : C) : Prop := ∀ t, live t c = false.

(** A given schedule. *)
Fixpoint run (sigma : list nat) (c : C) : res C :=
  match sigma with
  | [] => Ok c
  | t :: sigma' => let* c' := step t c in run sigma' c'
  end.

Lemma run_app s1 s2 c : run (s1 ++ s2) c = (let* c' := run s1 c in run s2 c').
Proof. revert c. induction s1 as [|t s1 IH]; intros c; simpl; [done|]. destruct (step t c); simpl; auto. Qed.

Lemma run_other t sigma c c' : t ∉ sigma → run sigma c = Ok c' → live t c' = live t c.
Proof.
  revert c. induction sigma as [|u sigma IH]; intros c Hin Hrun; simpl in *; [by simplify_eq|].
  apply rbind_ok in Hrun as (d & Hd & Hrun). apply not_elem_of_cons in Hin as [Hne Hin].
  rewrite (IH d) by done. by eapply step_other.
Qed.

(** The first step a thread makes in a schedule can be made at once. *)
Lemma run_pull t alpha c c1 c2 :
  conf_inv c → t ∉ alpha → run alpha c = Ok c1 → step t c1 = Ok c2 →
  ∃ c', step t c = Ok c' ∧ run alpha c' = Ok c2.
Proof.
  revert c. induction alpha as [|u alpha IH]; intros c Hc Hin Hrun Ht; simpl in *.
  { simplify_eq. eauto. }
  apply rbind_ok in Hrun as (d & Hd & Hrun). apply not_elem_of_cons in Hin as [Hne Hin].
  destruct (IH d) as (d' & Hd' & Hrun'); [by eapply step_inv|done..|].
  destruct (step_swap u t c d d') as (c' & Hc' & Hc''); [done|done|done|done|].
  exists c'. split; [done|]. by rewrite Hc''.
Qed.

(** A thread that is live and ends up finished occurs in the schedule. *)
Lemma run_split t sigma c cf :
  live t c = true → run sigma c = Ok cf → live t cf = false →
  ∃ alpha beta, sigma = alpha ++ t :: beta ∧ t ∉ alpha.
Proof.
  intros Hl Hrun Hf. destruct (decide (t ∈ sigma)) as [Hin|Hin].
  - revert Hin. clear. induction sigma as [|u sigma IH]; [set_solver|]. intros Hin.
    destruct (decide (u = t)) as [->|Hne]; [exists [], sigma; split; [done|set_solver]|].
    destruct IH as (al & be & -> & Hal); [set_solver|]. exists (u :: al), be. split; [done|set_solver].
  - rewrite (run_other t sigma c cf) in Hf by done. congruence.
Qed.

(** Executing a live thread is always possible and leaves a complete schedule
    one step shorter, with the same end. *)
Lemma step_of_complete t sigma c cf :
  conf_inv c → run sigma c = Ok cf → terminal cf → live t c = true →
  ∃ c' sigma', step t c = Ok c' ∧ run sigma' c' = Ok cf ∧ length sigma = S (length sigma').
Proof.
  intros Hc Hrun Hf Hl.
  destruct (run_split t sigma c cf) as (alpha & beta & -> & Hin); [done|done|apply Hf|].
  rewrite run_app in Hrun. apply rbind_ok in Hrun as (c1 & H1 & H2). simpl in H2.
  apply rbind_ok in H2 as (c2 & H2 & H3).
  destruct (run_pull t alpha c c1 c2) as (c' & Hc' & Hr'); [done..|].
  exists c', (alpha ++ beta). split; [done|]. rewrite run_app, Hr'. split; [done|].
  rewrite !length_app. simpl. lia.
Qed.

(** Along any execution the invariant holds and a complete schedule remains. *)
Lemma execution_of_complete n sigma c cf c' :
  conf_inv c → run sigma c = Ok cf → terminal cf → nsteps tstep n c c' →
  conf_inv c' ∧ ∃ sigma', run sigma' c' = Ok cf ∧ length sigma = (n + length sigma')%nat.
Proof.
  intros Hc Hrun Hf Hn. revert sigma Hc Hrun.
  induction Hn as [c|n c c1 c2 [t Ht] Hn IH]; intros sigma Hc Hrun; [by eauto|].
  destruct (step_of_complete t sigma c cf) as (d & s' & Hd & Hr & Hlen); [done..| |].
  { by eapply step_live. }
  assert (d = c1) as -> by congruence.
  destruct (IH s') as (Hc' & s'' & Hr' & Hl'); [by eapply step_inv|done|].
  split; [done|]. exists s''. split; [done|lia].
Qed.

(** All executions agree with a complete schedule. *)
Lemma interleavings_agree sigma c cf n c' :
  conf_inv c → run sigma c = Ok cf → terminal cf → nsteps tstep n c c' →
  (n ≤ length sigma)%nat
  ∧ (terminal c' → c' = cf ∧ n = length sigma)
  ∧ (∀ t, live t c' = true → ∃ c'', step t c' = Ok c'')
  ∧ (∃ m, nsteps tstep m c' cf).
Proof.
  intros Hc Hrun Hf Hn. destruct (execution_of_complete n sigma c cf c') as (Hc' & s' & Hr' & Hl); [done..|].
  split; [lia|]. split_and!.
  - intros Ht. destruct s' as [|u s']; simpl in Hr'; [simplify_eq; simpl in *; split; [done|lia]|].
    apply rbind_ok in Hr' as (d & Hd & _). apply step_live in Hd. rewrite Ht in Hd. done.
  - intros t Ht. destruct (step_of_complete t s' c' cf) as (d & _ & Hd & _); [done..|eauto].
  - exists (length s'). revert Hr'. clear. revert c'.
    induction s' as [|u s' IH]; intros c' Hr'; simpl in *; [simplify_eq; constructor|].
    apply rbind_ok in Hr' as (d & Hd & Hr'). apply nsteps_l with d; [by exists u|]. by apply IH.
Qed.

End threads.
