(* ===== verification/GarnetNetwork.v ===== *)
(** * GarnetNetwork: garnet/GarnetNetwork.{hh,cc}

    The network object: the wakeup ring, the assignment of routers to worker
    threads, and [globalWakeup], which once per active cycle runs the routers
    registered for the cycle either one after the other or in an OpenMP
    parallel region. *)

From S2P Require Import Prelude IntMath Clocked Consumer WakeupRing NetDest Flit RoutingUnit VirtualChannel NetworkLink InputUnit OutputUnit SwitchAllocator Router RouterFrame.

(** ** Construction *)

(** The vnet types of the constructor. *)
Definition vnet_types (m_vnet_type_names : list string) : list VNET_type :=
  map (fun n => if String.eqb n "response" then DATA_VNET_ else CTRL_VNET_) m_vnet_type_names.

(** The size of the worker pool. *)
Definition choose_num_threads (requested hw num_routers : Z) : Z :=
  let hw := if hw <=? 0 then 1 else hw in
  let auto_threads := Z.max 1 (Z.quot num_routers 8) in
  if requested <=? 0 then Z.min hw auto_threads else Z.min requested hw.

(** The static router-to-thread assignment, one bit mask per thread. *)
Definition thread_masks (num_routers num_threads : Z) : res (list Z) :=
  for_range 0 (Z.to_nat num_routers)
    (fun id masks => vec_upd masks (Z.rem id num_threads) (fun m => Ok (Z.lor m (u64 (Z.shiftl 1 id)))))
    (replicate (Z.to_nat num_threads) 0).

Definition check_router_count (num_routers : Z) : res unit :=
  if 64 <? num_routers
  then Err (EFatal "GarnetNetwork parallel wakeup mask only supports up to 64 routers")
  else Ok tt.

(** ** State *)

(** [DeferredEntry]: a consumer and a tick. *)
Abbreviation DeferredQueue := (list (consumer_ref * Z)).

Record GarnetNetwork := {
  n_ring : Ring;
  m_routers : list Router;
  n_links : Links;
  n_consumers : gmap consumer_ref Consumer;   (* base objects of links, output units, interfaces *)
  m_deferred_schedules : list DeferredQueue;
  m_num_threads : Z;
  m_parallel_threshold : Z;
  m_thread_router_mask : list Z;
  s_parallel_active : bool;
  globalWakeupEvent : option Z                (* the tick it is scheduled for *)
}.

(** What a router run may change while other routers run: the routers, the
    links, the ring and the deferred queues. *)
Definition with_region (n : GarnetNetwork) (ring : Ring) (rs : list Router) (ls : Links)
    (cs : gmap consumer_ref Consumer) (dq : list DeferredQueue) : GarnetNetwork :=
  {| n_ring := ring; m_routers := rs; n_links := ls; n_consumers := cs; m_deferred_schedules := dq;
     m_num_threads := m_num_threads n; m_parallel_threshold := m_parallel_threshold n;
     m_thread_router_mask := m_thread_router_mask n; s_parallel_active := s_parallel_active n;
     globalWakeupEvent := globalWakeupEvent n |}.

Definition with_active (n : GarnetNetwork) (b : bool) : GarnetNetwork :=
  {| n_ring := n_ring n; m_routers := m_routers n; n_links := n_links n; n_consumers := n_consumers n;
     m_deferred_schedules := m_deferred_schedules n; m_num_threads := m_num_threads n;
     m_parallel_threshold := m_parallel_threshold n; m_thread_router_mask := m_thread_router_mask n;
     s_parallel_active := b; globalWakeupEvent := globalWakeupEvent n |}.

Definition with_global_event (n : GarnetNetwork) (e : option Z) : GarnetNetwork :=
  {| n_ring := n_ring n; m_routers := m_routers n; n_links := n_links n; n_consumers := n_consumers n;
     m_deferred_schedules := m_deferred_schedules n; m_num_threads := m_num_threads n;
     m_parallel_threshold := m_parallel_threshold n; m_thread_router_mask := m_thread_router_mask n;
     s_parallel_active := s_parallel_active n; globalWakeupEvent := e |}.

(** The state of the OpenMP region besides the deferred queues. *)
Record Region := { g_ring : Ring; g_routers : list Router; g_links : Links; g_deferred : list DeferredQueue }.

(** ** Running routers *)

Section run.
(** The configuration, the clock of the network, and the clock periods of the
    clock domains of routers and other consumers. *)
Context (cfg : NetConfig) (env : ClockEnv) (period_of : consumer_ref → Z).

(** The clock a consumer sees at the current tick. *)
Definition consumer_env (c : consumer_ref) : ClockEnv :=
  {| curTick := curTick env; clockPeriod := period_of c |}.

(** One turn of [runRoutersFromMask] for the router at index [id]: if the tick
    is still pending it is consumed and the router woken. The wakeup's calls
    out of the router are returned in order; the router reads none of the state
    they change. [renv] is the clock of the router, and [answers] are the values
    that [rand()] returns to the ports of the router, which ask at most once in a
    wakeup. *)
Definition service_router (renv : ClockEnv) (answers : Z → Z) (current_tick : Z) (r : Router) (ls : Links)
    : res (Router * Links * list effect) :=
  let '(k, due) := tryConsumeTick current_tick (consumer_of r) in
  let r := set_consumer k r in
  if due then
    let* ' (r, ls) := router_wakeup cfg renv answers r ls in
    let c := core r in
    Ok (with_core_of r (with_core c (routingUnit c) (r_consumer c) []), ls, r_effects c)
  else Ok (r, ls, []).

(** What [rand()] answers during a global wakeup, by router and port. The
    generator is shared by all routers, so the answers depend on the order in which
    the routers run; they are never fixed beforehand (see [region_step] and
    [globalWakeup]). *)
Section answers.
Context (rnd : Z → Z → Z).

Definition service (current_tick : Z) (id : Z) (rl : list Router * Links)
    : res (list Router * Links * list effect) :=
  let '(rs, ls) := rl in
  let* r := vec_get rs id in
  let* ' (r, ls, e) := service_router (consumer_env (ConsRouter id)) (rnd id) current_tick r ls in
  let* rs := vec_set rs id r in
  Ok (rs, ls, e).

(** [c->scheduleEventAbsolute(tick)] *)
Definition schedule_consumer (c : consumer_ref) (tick : Z) (cs : gmap consumer_ref Consumer)
    : res (gmap consumer_ref Consumer) :=
  match cs !! c with
  | Some k => let* k := scheduleEventAbsolute (consumer_env c) tick k in Ok (<[c := k]> cs)
  | None => Err EOutOfRange
  end.

(** A call out of a router while no parallel region is active. *)
Definition apply_effect (e : effect) (s : Ring * gmap consumer_ref Consumer)
    : res (Ring * gmap consumer_ref Consumer) :=
  let '(ring, cs) := s in
  match e with
  | RegisterWakeup router_id tick => Ok (registerWakeup (clockPeriod env) router_id tick ring, cs)
  | DeferOrSchedule c tick => let* cs := schedule_consumer c tick cs in Ok (ring, cs)
  end.

(** One router of the sequential branch. *)
Definition run_one (current_tick id : Z) (n : GarnetNetwork) : res GarnetNetwork :=
  let* ' (rs, ls, es) := service current_tick id (m_routers n, n_links n) in
  let* ' (ring, cs) := fold_res apply_effect es (n_ring n, n_consumers n) in
  Ok (with_region n ring rs ls cs (m_deferred_schedules n)).

(** [runRoutersFromMask]: [while (mask) { id = ctz(mask); ...; mask &= mask - 1; }].
    A 64-bit mask is empty after at most 64 turns. *)
Fixpoint run_mask (fuel : nat) (mask current_tick : Z) (n : GarnetNetwork) : res GarnetNetwork :=
  match fuel with
  | O => Ok n
  | S fuel' =>
      if mask =? 0 then Ok n
      else
        let* n := run_one current_tick (ctzll mask) n in
        run_mask fuel' (clear_lowest mask) current_tick n
  end.

Definition runRoutersFromMask (mask current_tick : Z) (n : GarnetNetwork) : res GarnetNetwork :=
  run_mask 64 mask current_tick n.

(** ** The parallel region

    Each worker runs its routers in order. A router run is one instruction
    (its memory is its own); the calls it makes out of the router are separate
    instructions: the two atomic [fetch_or]s of [registerWakeup], and the push
    onto the worker's own deferred queue. *)

Inductive instr :=
  | IWake (id : Z)
  | IOrSlot (router_id tick : Z)
  | IOrActive (tick : Z)
  | IPush (c : consumer_ref) (tick : Z).

Definition instrs_of (e : effect) : list instr :=
  match e with
  | RegisterWakeup id tick => [IOrSlot id tick; IOrActive tick]
  | DeferOrSchedule c tick => [IPush c tick]
  end.

(** An instruction of worker [tid], with the instructions it leads to. *)
Definition exec (current_tick : Z) (tid : nat) (i : instr) (g : Region) : res (list instr * Region) :=
  match i with
  | IWake id =>
      let* ' (rs, ls, es) := service current_tick id (g_routers g, g_links g) in
      Ok (concat (map instrs_of es),
          {| g_ring := g_ring g; g_routers := rs; g_links := ls; g_deferred := g_deferred g |})
  | IOrSlot router_id tick =>
      Ok ([], {| g_ring := or_slot (slot_index (clockPeriod env) tick) (u64 (Z.shiftl 1 router_id)) (g_ring g);
                 g_routers := g_routers g; g_links := g_links g; g_deferred := g_deferred g |})
  | IOrActive tick =>
      Ok ([], {| g_ring := or_active (slot_index (clockPeriod env) tick) (g_ring g);
                 g_routers := g_routers g; g_links := g_links g; g_deferred := g_deferred g |})
  | IPush c tick =>
      match g_deferred g !! tid with
      | Some q => Ok ([], {| g_ring := g_ring g; g_routers := g_routers g; g_links := g_links g;
                             g_deferred := <[tid := q ++ [(c, tick)]]> (g_deferred g) |})
      | None => Err EOutOfRange
      end
  end.

(** The program of each worker, and the shared state. *)
Definition Conf := (list (list instr) * Region)%type.

Definition conf_step (current_tick : Z) (tid : nat) (c : Conf) : res Conf :=
  match fst c !! tid with
  | Some (i :: rest) =>
      let* ' (new, g) := exec current_tick tid i (snd c) in
      Ok (<[tid := new ++ rest]> (fst c), g)
  | _ => Err EOutOfRange
  end.

End answers.

(** A step of any worker. A router run that asks [rand()] may get any answer: the
    generator is shared, and which values it has left depends on all the calls
    the workers made before. *)
Definition region_step (current_tick : Z) (c c' : Conf) : Prop :=
  ∃ tid rnd, conf_step rnd current_tick tid c = Ok c'.

Definition conf_live (tid : nat) (c : Conf) : bool :=
  match fst c !! tid with Some (_ :: _) => true | _ => false end.

(** What worker [tid] runs: the routers of [mask & m_thread_router_mask[tid]]. *)
Definition worker_program (mask thread_mask : Z) : list instr :=
  map IWake (mask_bits (Z.land mask thread_mask)).

Definition region_start (mask : Z) (n : GarnetNetwork) : Conf :=
  (map (worker_program mask) (m_thread_router_mask n),
   {| g_ring := n_ring n; g_routers := m_routers n; g_links := n_links n;
      g_deferred := m_deferred_schedules n |}).

(** [drainDeferredSchedules]: the entries of each queue, then the queue emptied. *)
Definition drain_queue (q : DeferredQueue) (cs : gmap consumer_ref Consumer)
    : res (gmap consumer_ref Consumer) :=
  fold_res (fun e cs => schedule_consumer (fst e) (snd e) cs) q cs.

Definition drainDeferredSchedules (n : GarnetNetwork) : res GarnetNetwork :=
  let* cs := fold_res drain_queue (m_deferred_schedules n) (n_consumers n) in
  Ok (with_region n (n_ring n) (m_routers n) (n_links n) cs (map (fun _ => []) (m_deferred_schedules n))).

(** The network after the barrier, when the workers left [g]. *)
Definition after_region (n : GarnetNetwork) (g : Region) : GarnetNetwork :=
  with_region n (g_ring g) (g_routers g) (g_links g) (n_consumers n) (g_deferred g).

(** A complete execution of the parallel branch by a team of [m_num_threads]
    workers: they start, step in any order until all have finished, and the master
    drains the queues. *)
Inductive parallel_branch (mask current_tick : Z) (n : GarnetNetwork) : GarnetNetwork → Prop :=
  | parallel_done ps g n' :
      rtc (region_step current_tick) (region_start mask (with_active n true)) (ps, g) →
      (∀ tid, conf_live tid (ps, g) = false) →
      drainDeferredSchedules (with_active (after_region n g) false) = Ok n' →
      parallel_branch mask current_tick n n'.

(** [globalWakeup], as a relation because of the parallel region and of [rand()]. *)
Inductive globalWakeup (n : GarnetNetwork) : GarnetNetwork → Prop :=
  | gw_idle ring :
      take_slot (slot_index (clockPeriod env) (curTick env)) (n_ring n) = (0, ring) →
      globalWakeup n (with_global_event
        (with_region n ring (m_routers n) (n_links n) (n_consumers n) (m_deferred_schedules n))
        (Some (computeNextWakeupTick (slot_index (clockPeriod env) (curTick env)) (curTick env)
                 (clockPeriod env) ring)))
  | gw_sequential rnd mask ring n' :
      take_slot (slot_index (clockPeriod env) (curTick env)) (n_ring n) = (mask, ring) → mask ≠ 0 →
      (m_num_threads n <=? 1) || (popcountll mask <? m_parallel_threshold n) = true →
      runRoutersFromMask rnd mask (curTick env)
        (with_region n ring (m_routers n) (n_links n) (n_consumers n) (m_deferred_schedules n)) = Ok n' →
      globalWakeup n (with_global_event n'
        (Some (computeNextWakeupTick (slot_index (clockPeriod env) (curTick env)) (curTick env)
                 (clockPeriod env) (n_ring n'))))
  | gw_parallel mask ring n' :
      take_slot (slot_index (clockPeriod env) (curTick env)) (n_ring n) = (mask, ring) → mask ≠ 0 →
      (m_num_threads n <=? 1) || (popcountll mask <? m_parallel_threshold n) = false →
      parallel_branch mask (curTick env)
        (with_region n ring (m_routers n) (n_links n) (n_consumers n) (m_deferred_schedules n)) n' →
      globalWakeup n (with_global_event n'
        (Some (computeNextWakeupTick (slot_index (clockPeriod env) (curTick env)) (curTick env)
                 (clockPeriod env) (n_ring n')))).

End run.

Arguments service_router : simpl never.
Arguments service : simpl never.
Arguments schedule_consumer : simpl never.
