(* ===== verification/Parallel.v ===== *)
(** * The parallel region is equivalent to the sequential branch

    [globalWakeup] runs the due routers either one after the other or on
    several workers. This file proves that every interleaving of the workers
    ends in the state of the sequential branch. The client argument uses only
    what a router wakeup promises (class [LinkUser]); [router_link_user]
    discharges it for [Router::wakeup]. *)

From S2P Require Import Prelude IntMath Clocked Consumer WakeupRing NetDest Flit RoutingUnit VirtualChannel NetworkLink InputUnit OutputUnit SwitchAllocator Router RouterFrame Interleave GarnetNetwork.

(** ** The interface of a router run *)

(** A run that uses only the links of its footprint: it commutes with adding
    other links, and keeps the footprint and the set of links it was given. *)
Class LinkUser {X} (foot : X → gset Z) (go : X → Links → res (X * Links * list effect)) : Prop := {
  lu_frame x f ls : owns (foot x) f ls →
    go x (f ∪ ls) = (let* ' (x', f', e) := go x f in Ok (x', f' ∪ ls, e));
  lu_foot x f x' f' e : go x f = Ok (x', f', e) → foot x' = foot x;
  lu_dom x f x' f' e : go x f = Ok (x', f', e) → dom f' = dom f
}.

#[export] Instance router_link_user cfg env answers tick :
  LinkUser footprint (service_router cfg env answers tick).
Proof.
  assert (∀ r f ls, owns (footprint r) f ls →
    service_router cfg env answers tick r (f ∪ ls)
      = (let* ' (r', f', e) := service_router cfg env answers tick r f in Ok (r', f' ∪ ls, e)) ∧
    ∀ r' f' e, service_router cfg env answers tick r f = Ok (r', f', e) →
      footprint r' = footprint r ∧ dom f' = dom f) as Hall.
  { intros r f ls Ho. unfold service_router. destruct (tryConsumeTick tick (consumer_of r)) as [k due].
    set (r1 := set_consumer k r). destruct due; [|split; [done|]; by intros ??? [= <- <- <-]].
    destruct (router_wakeup_frames cfg env answers r1 f ls Ho) as [Heq Hk]. cbn [fst snd] in Heq, Hk.
    rewrite Heq. destruct (router_wakeup _ _ _ r1 f) as [[r2 f2]|] eqn:E; simpl; [|done].
    split; [done|]. intros r' f' e [= <- <- <-].
    destruct (Hk r2 f2 eq_refl) as (Hp & Hd & _). split; [|done].
    exact (same_ports_footprint r1 r2 Hp). }
  split.
  - intros r f ls Ho. by apply Hall.
  - intros r f r' f' e Hr. destruct (Hall r f ∅) as [_ H]; [by intros h _ _|]. by eapply H.
  - intros r f r' f' e Hr. destruct (Hall r f ∅) as [_ H]; [by intros h _ _|]. by eapply H.
Qed.

(** ** Runs with disjoint footprints commute *)

(** The links of a footprint. *)
Definition part (D : gset Z) (ls : Links) : Links := filter (fun kl => kl.1 ∈ D) ls.

Lemma part_union D ls : part D ls ∪ ls = ls.
Proof. apply map_subseteq_union, map_filter_subseteq. Qed.

Lemma part_owns D ls : owns D (part D ls) ls.
Proof.
  intros h Hh Hn. unfold part in Hn. apply map_lookup_filter_None in Hn as [Hn|Hn]; [done|].
  destruct (ls !! h) as [l|] eqn:E; [|done]. by destruct (Hn l).
Qed.

Lemma part_dom D ls : dom (part D ls) ⊆ D.
Proof.
  intros h Hh. apply elem_of_dom in Hh as [l Hl]. unfold part in Hl.
  by apply map_lookup_filter_Some in Hl as [_ ?].
Qed.

(** Links changed elsewhere do not matter to a part. *)
Lemma part_absorb D E f ls : dom f ⊆ E → E ## D → part D ls ∪ (f ∪ ls) = f ∪ ls.
Proof.
  intros Hf HD. rewrite (assoc_L (∪)), (map_union_comm (part D ls) f), <-(assoc_L (∪)), part_union; [done|].
  apply map_disjoint_dom. pose proof (part_dom D ls). set_solver.
Qed.

Lemma part_owns_under D E f ls : dom f ⊆ E → E ## D → owns D (part D ls) (f ∪ ls).
Proof.
  intros Hf HD h Hh Hn. rewrite lookup_union_r; [by eapply part_owns|]. apply not_elem_of_dom. set_solver.
Qed.

Section commute.
Context {X} (foot : X → gset Z) (go : X → Links → res (X * Links * list effect)) `{!LinkUser foot go}.

(** A run in terms of its part of the links. *)
Lemma go_part x ls x' ls' e :
  go x ls = Ok (x', ls', e) →
  ∃ f', go x (part (foot x) ls) = Ok (x', f', e) ∧ ls' = f' ∪ ls ∧ dom f' ⊆ foot x.
Proof.
  intros Hgo. pose proof (lu_frame x (part (foot x) ls) ls (part_owns _ _)) as Hf.
  rewrite part_union, Hgo in Hf.
  destruct (go x (part (foot x) ls)) as [[[y f'] e']|] eqn:E; simpl in Hf; [|done]. simplify_eq.
  exists f'. split_and!; [done|done|]. rewrite (lu_dom _ _ _ _ _ E). apply part_dom.
Qed.

End commute.

(** Two runs, of different kinds, with disjoint footprints. *)
Lemma go_swap {X} (foot : X → gset Z) go1 go2 `{!LinkUser foot go1, !LinkUser foot go2} x y ls x' ls1 ex y' ls2 ey :
  foot x ## foot y → go1 x ls = Ok (x', ls1, ex) → go2 y ls1 = Ok (y', ls2, ey) →
  ∃ ls1', go2 y ls = Ok (y', ls1', ey) ∧ go1 x ls1' = Ok (x', ls2, ex).
Proof.
  intros Hdis Hx Hy. apply (go_part foot go1) in Hx as (fx & Hx & -> & Hdx).
  pose proof (lu_frame (go := go2) y (part (foot y) ls) (fx ∪ ls) (part_owns_under _ _ _ _ Hdx Hdis)) as Hfy.
  rewrite (part_absorb _ (foot x)), Hy in Hfy by done.
  destruct (go2 y (part (foot y) ls)) as [[[y1 fy] e1]|] eqn:Ey; simpl in Hfy; [|done]. simplify_eq.
  assert (dom fy ⊆ foot y) as Hdy by (rewrite (lu_dom (go := go2) _ _ _ _ _ Ey); apply part_dom).
  exists (fy ∪ ls). split.
  - pose proof (lu_frame (go := go2) y (part (foot y) ls) ls (part_owns _ _)) as Hf.
    by rewrite part_union, Ey in Hf.
  - pose proof (lu_frame (go := go1) x (part (foot x) ls) (fy ∪ ls)
      (part_owns_under _ _ _ _ Hdy (symmetry Hdis))) as Hf.
    rewrite (part_absorb _ (foot y)), Hx in Hf by done. rewrite Hf. simpl.
    rewrite !(assoc_L (∪)), (map_union_comm fx fy); [done|]. apply map_disjoint_dom. set_solver.
Qed.

(** ** Instructions of different workers commute *)

Lemma or_slot_comm i1 b1 i2 b2 r :
  0 ≤ i1 → 0 ≤ i2 → or_slot i1 b1 (or_slot i2 b2 r) = or_slot i2 b2 (or_slot i1 b1 r).
Proof.
  intros H1 H2. unfold or_slot, slot. simpl. f_equal. destruct (decide (i1 = i2)) as [->|Hne].
  - destruct (decide (Z.to_nat i2 < length (m_wakeup_mask r))%nat) as [Hlt|Hge].
    + rewrite !list_lookup_total_insert_eq by done. rewrite !list_insert_insert_eq. f_equal.
      rewrite <-!Z.lor_assoc. f_equal. apply Z.lor_comm.
    + rewrite !(list_insert_ge _ (Z.to_nat i2)); [done|rewrite ?list_insert_ge; lia..].
  - rewrite !list_lookup_total_insert_ne by lia. apply list_insert_insert_ne. lia.
Qed.

Lemma or_slot_active_comm i b j r : or_slot i b (or_active j r) = or_active j (or_slot i b r).
Proof. unfold or_active. by destruct (j <? 64). Qed.

Lemma or_active_comm i j r : or_active i (or_active j r) = or_active j (or_active i r).
Proof.
  unfold or_active. destruct (i <? 64), (j <? 64); simpl; f_equal; try done;
    rewrite <-!Z.lor_assoc; f_equal; apply Z.lor_comm.
Qed.

(** No link ends at two routers. *)
Definition routers_disjoint (rs : list Router) : Prop :=
  ∀ i j ri rj, rs !! i = Some ri → rs !! j = Some rj → i ≠ j → footprint ri ## footprint rj.

Section region.
Context (cfg : NetConfig) (env : ClockEnv) (period_of : consumer_ref → Z) (rnd : Z → Z → Z) (tick : Z).

Lemma service_disjoint id rs ls rs' ls' e :
  service cfg env period_of rnd tick id (rs, ls) = Ok (rs', ls', e) → routers_disjoint rs → routers_disjoint rs'.
Proof.
  unfold service. intros (r & [_ Hr]%vec_get_ok & ([[r' l'] e'] & Hs & H)%rbind_ok)%rbind_ok Hd.
  apply rbind_ok in H as (rs1 & [_ ->]%vec_set_ok & H). simplify_eq.
  apply (lu_foot (LinkUser := router_link_user cfg (consumer_env env period_of (ConsRouter id)) (rnd id) tick)) in Hs.
  assert (∀ k rk, <[Z.to_nat id := r']> rs !! k = Some rk →
    ∃ rk0, rs !! k = Some rk0 ∧ footprint rk = footprint rk0) as Hfoot.
  { intros k rk [(<- & <- & _)|[_ Hk]]%list_lookup_insert_Some; eauto. }
  intros i j ri rj (ri0 & Hi & ->)%Hfoot (rj0 & Hj & ->)%Hfoot Hne. by eapply Hd.
Qed.

Lemma service_swap i j rs ls rs1 ls1 ei rs2 ls2 ej :
  routers_disjoint rs → i ≠ j →
  service cfg env period_of rnd tick i (rs, ls) = Ok (rs1, ls1, ei) →
  service cfg env period_of rnd tick j (rs1, ls1) = Ok (rs2, ls2, ej) →
  ∃ rs1' ls1', service cfg env period_of rnd tick j (rs, ls) = Ok (rs1', ls1', ej)
    ∧ service cfg env period_of rnd tick i (rs1', ls1') = Ok (rs2, ls2, ei).
Proof.
  intros Hd Hne. unfold service.
  intros (ri & Hri & ([[ri' li] ei0] & Hsi & Hi)%rbind_ok)%rbind_ok.
  apply rbind_ok in Hi as (rsi & Hseti & Hi). simplify_eq.
  intros (rj & Hrj & ([[rj' lj] ej0] & Hsj & Hj)%rbind_ok)%rbind_ok.
  apply rbind_ok in Hj as (rsj & Hsetj & Hj). simplify_eq.
  rewrite (vec_get_set_ne _ _ _ _ _ Hseti) in Hrj by done.
  destruct (go_swap footprint (service_router cfg (consumer_env env period_of (ConsRouter i)) (rnd i) tick)
    (service_router cfg (consumer_env env period_of (ConsRouter j)) (rnd j) tick) ri rj ls ri' ls1 ei rj' ls2 ej)
    as (ls1' & Hj & Hi); [|done|done|].
  { apply vec_get_ok in Hri as [? Hri]. apply vec_get_ok in Hrj as [? Hrj].
    eapply Hd; [exact Hri|exact Hrj|lia]. }
  apply vec_set_ok in Hseti as [Hi' ->]. apply vec_set_ok in Hsetj as [Hj' ->].
  rewrite length_insert in Hj'.
  exists (<[Z.to_nat j := rj']> rs), ls1'. rewrite Hrj. simpl. rewrite Hj. simpl.
  rewrite vec_set_in_range by done. split; [done|].
  assert (vec_get (<[Z.to_nat j := rj']> rs) i = Ok ri) as ->.
  { rewrite (vec_get_set_ne rs _ j i rj'); [done|by apply vec_set_in_range|done]. }
  simpl. rewrite Hi. simpl. rewrite vec_set_in_range by (by rewrite length_insert). simpl.
  do 3 f_equal. apply list_insert_insert_ne. lia.
Qed.

(** Two instructions may be executed by different workers: they do not run the
    same router. *)
Definition instr_indep (a b : instr) : Prop :=
  match a, b with IWake i, IWake j => i ≠ j | _, _ => True end.

Lemma exec_swap t u a b g na g1 nb g2 :
  routers_disjoint (g_routers g) → t ≠ u → instr_indep a b →
  exec cfg env period_of rnd tick t a g = Ok (na, g1) → exec cfg env period_of rnd tick u b g1 = Ok (nb, g2) →
  ∃ g1', exec cfg env period_of rnd tick u b g = Ok (nb, g1') ∧ exec cfg env period_of rnd tick t a g1' = Ok (na, g2).
Proof.
  intros Hd Htu Hi. pose proof (slot_index_range (clockPeriod env)) as Hslot.
  destruct g as [ring rs ls dq], a as [i|ida ta|ta|ca ta], b as [j|idb tb|tb|cb tb]; simpl.
  (* two router runs *)
  { intros ([[rs1 ls1] e1] & Ha & H1)%rbind_ok. simplify_eq. simpl.
    intros ([[rs2 ls2] e2] & Hb & H2)%rbind_ok. simplify_eq.
    destruct (service_swap i j rs ls rs1 ls1 e1 rs2 ls2 e2) as (rs1' & ls1' & Hj & Hi'); [done..|].
    rewrite Hj. simpl. eexists. split; [done|]. simpl. by rewrite Hi'. }
  (* a router run and a shared operation *)
  1-3: intros ([[rs1 ls1] e1] & Ha & H1)%rbind_ok; simplify_eq; simpl.
  1-2: intros [= <- <-]; eexists; split; [done|]; simpl; by rewrite Ha.
  { destruct (dq !! u) as [q|]; intros; simplify_eq. eexists. split; [done|]. simpl. by rewrite Ha. }
  1,5: intros [= <- <-]; simpl; intros ([[rs2 ls2] e2] & Hb & H2)%rbind_ok; simplify_eq;
    rewrite Hb; simpl; eauto.
  (* shared operations *)
  7: { destruct (dq !! t) as [q|] eqn:Eq; intros; simplify_eq. simpl in *.
       apply rbind_ok in H0 as ([[rs2 ls2] e2] & Hb & H2). simplify_eq.
       rewrite Hb. simpl. eexists. split; [done|]. simpl. by rewrite Eq. }
  1-2,4-5: intros [= <- <-] [= <- <-]; simpl; eexists; (split; [done|]); simpl; do 3 f_equal.
  1: apply or_slot_comm; apply Hslot.
  1: apply or_slot_active_comm.
  1: symmetry; apply or_slot_active_comm.
  1: apply or_active_comm.
  1,2: intros [= <- <-]; simpl; destruct (dq !! u) as [q|]; intros; simplify_eq;
    eexists; (split; [done|]); done.
  1,2: destruct (dq !! t) as [q|] eqn:Eq; intros; simplify_eq; simpl; eexists; (split; [done|]);
    simpl; by rewrite Eq.
  destruct (dq !! t) as [q|] eqn:Eq; intros; simplify_eq. simpl in *.
  rewrite list_lookup_insert_ne in H0 by done. destruct (dq !! u) as [q'|] eqn:Eq'; simplify_eq.
  eexists. split; [done|]. simpl. rewrite list_lookup_insert_ne by congruence. rewrite Eq.
  do 3 f_equal. apply list_insert_insert_ne; congruence.
Qed.

(** ** The workers as an instance of [Threads] *)

Lemma exec_no_wake t a g new g' i :
  exec cfg env period_of rnd tick t a g = Ok (new, g') → IWake i ∉ new.
Proof.
  destruct a; simpl; [|intros; simplify_eq; set_solver..|].
  - intros ([[rs ls] es] & _ & H)%rbind_ok. simplify_eq. intros Hin.
    apply list_elem_of_In, in_concat in Hin as (l & Hl & Hin). apply in_map_iff in Hl as (e & <- & _).
    destruct e; simpl in Hin; naive_solver.
  - destruct (_ !! t); intros; simplify_eq. set_solver.
Qed.

Lemma exec_disjoint t a g new g' :
  exec cfg env period_of rnd tick t a g = Ok (new, g') → routers_disjoint (g_routers g) → routers_disjoint (g_routers g').
Proof.
  destruct a; simpl; [|intros; by simplify_eq..|].
  - intros ([[rs ls] es] & Hs & H)%rbind_ok. simplify_eq. by eapply service_disjoint.
  - destruct (_ !! t); intros; by simplify_eq.
Qed.

(** No link ends at two routers and no router is assigned to two workers. *)
Definition workers_inv (c : Conf) : Prop :=
  routers_disjoint (g_routers (snd c)) ∧
  ∀ t u pt pu i j, t ≠ u → fst c !! t = Some pt → fst c !! u = Some pu →
    IWake i ∈ pt → IWake j ∈ pu → i ≠ j.

Lemma conf_step_ok t c c' :
  conf_step cfg env period_of rnd tick t c = Ok c' ↔
  ∃ i rest new g', fst c !! t = Some (i :: rest)
    ∧ exec cfg env period_of rnd tick t i (snd c) = Ok (new, g') ∧ c' = (<[t := new ++ rest]> (fst c), g').
Proof.
  unfold conf_step. destruct (fst c !! t) as [[|i rest]|]; [naive_solver| |naive_solver].
  rewrite rbind_ok. split.
  - intros ([new g'] & He & [= <-]). eauto 10.
  - intros (i' & rest' & new & g' & Hc & He & ->). simplify_eq. exists (new, g'). by split.
Qed.

Lemma conf_step_inv t c c' : workers_inv c → conf_step cfg env period_of rnd tick t c = Ok c' → workers_inv c'.
Proof.
  intros [Hd Hw] (i & rest & new & g' & Hc & He & ->)%conf_step_ok. split.
  - simpl. by eapply exec_disjoint.
  - assert (∀ v pv k, <[t := new ++ rest]> (fst c) !! v = Some pv → IWake k ∈ pv →
      ∃ pv0, fst c !! v = Some pv0 ∧ IWake k ∈ pv0) as Hback.
    { intros v pv k [(<- & <- & _)|[_ Hv]]%list_lookup_insert_Some Hk; [|by eauto].
      exists (i :: rest). split; [done|]. apply elem_of_app in Hk as [Hk|Hk]; [|set_solver].
      exfalso. by eapply exec_no_wake. }
    intros v u pv pu k l Hvu Hv Hu Hk Hl. simpl in Hv, Hu.
    destruct (Hback _ _ _ Hv Hk) as (pv0 & ? & ?), (Hback _ _ _ Hu Hl) as (pu0 & ? & ?).
    by eapply (Hw v u).
Qed.

Lemma conf_step_swap t u c c1 c2 :
  workers_inv c → t ≠ u → conf_step cfg env period_of rnd tick t c = Ok c1 → conf_step cfg env period_of rnd tick u c1 = Ok c2 →
  ∃ c1', conf_step cfg env period_of rnd tick u c = Ok c1' ∧ conf_step cfg env period_of rnd tick t c1' = Ok c2.
Proof.
  intros [Hd Hw] Htu (a & ra & na & g1 & Ha & Hea & ->)%conf_step_ok
    (b & rb & nb & g2 & Hb & Heb & ->)%conf_step_ok. simpl in *.
  rewrite list_lookup_insert_ne in Hb by done.
  destruct (exec_swap t u a b (snd c) na g1 nb g2) as (g1' & Hb' & Ha'); [done..| |done|done|].
  { destruct a as [i| | |], b as [j| | |]; simpl; try done.
    apply (Hw t u (IWake i :: ra) (IWake j :: rb)); [done|done|done|set_solver|set_solver]. }
  exists (<[u := nb ++ rb]> (fst c), g1'). split.
  - apply conf_step_ok. by exists b, rb, nb, g1'.
  - apply conf_step_ok. exists a, ra, na, g2. simpl. rewrite list_lookup_insert_ne by done.
    split_and!; [done|done|]. f_equal. by apply list_insert_insert_ne.
Qed.

Lemma conf_step_live t c c' : conf_step cfg env period_of rnd tick t c = Ok c' → conf_live t c = true.
Proof. intros (i & rest & new & g' & Hc & _)%conf_step_ok. unfold conf_live. by rewrite Hc. Qed.

Lemma conf_step_other t u c c' :
  t ≠ u → conf_step cfg env period_of rnd tick t c = Ok c' → conf_live u c' = conf_live u c.
Proof.
  intros Htu (i & rest & new & g' & Hc & _ & ->)%conf_step_ok. unfold conf_live. simpl.
  by rewrite list_lookup_insert_ne.
Qed.

#[export] Instance worker_threads : Threads Conf := {|
  step := conf_step cfg env period_of rnd tick;
  live := conf_live;
  conf_inv := workers_inv;
  step_live := conf_step_live;
  step_other := conf_step_other;
  step_inv := conf_step_inv;
  step_swap := conf_step_swap
|}.

End region.

(** ** The order of the routers does not matter *)

Section order.
Context (cfg : NetConfig) (env : ClockEnv) (period_of : consumer_ref → Z) (rnd : Z → Z → Z) (tick : Z).

(** The runs of a list of routers, with all the calls they make, in order. *)
Fixpoint wake_all (ids : list Z) (rs : list Router) (ls : Links) : res (list Router * Links * list effect) :=
  match ids with
  | [] => Ok (rs, ls, [])
  | id :: ids' =>
      let* ' (rs, ls, e) := service cfg env period_of rnd tick id (rs, ls) in
      let* ' (rs, ls, es) := wake_all ids' rs ls in
      Ok (rs, ls, e ++ es)
  end.

Lemma wake_all_app ids1 ids2 rs ls :
  wake_all (ids1 ++ ids2) rs ls =
    (let* ' (rs, ls, e1) := wake_all ids1 rs ls in
     let* ' (rs, ls, e2) := wake_all ids2 rs ls in Ok (rs, ls, e1 ++ e2)).
Proof.
  revert rs ls. induction ids1 as [|id ids1 IH]; intros rs ls; simpl.
  - destruct (wake_all ids2 rs ls) as [[[rs' ls'] e]|]; done.
  - destruct (service _ _ _ _ _ id (rs, ls)) as [[[rs1 ls1] e]|]; simpl; [|done]. rewrite IH.
    destruct (wake_all ids1 rs1 ls1) as [[[rs2 ls2] e2]|]; simpl; [|done].
    destruct (wake_all ids2 rs2 ls2) as [[[rs3 ls3] e3]|]; simpl; [|done]. by rewrite app_assoc.
Qed.

Lemma wake_all_perm ids1 ids2 rs ls rs' ls' es :
  routers_disjoint rs → NoDup ids1 → ids1 ≡ₚ ids2 → wake_all ids1 rs ls = Ok (rs', ls', es) →
  ∃ es', wake_all ids2 rs ls = Ok (rs', ls', es') ∧ es ≡ₚ es'.
Proof.
  intros Hd Hnd Hp. revert rs ls es Hd Hnd.
  induction Hp as [|x l1 l2 Hp IH|x y l|l1 l2 l3 Hp1 IH1 Hp2 IH2]; intros rs ls es Hd Hnd H.
  - eauto.
  - simpl in *. apply rbind_ok in H as ([[rs1 ls1] e] & Hs & H). rewrite Hs. simpl.
    apply rbind_ok in H as ([[rs2 ls2] e2] & Hw & H). simplify_eq.
    apply NoDup_cons in Hnd as [_ Hnd].
    destruct (IH rs1 ls1 e2) as (e2' & -> & Hpe); [by eapply service_disjoint|done|done|].
    simpl. eexists. split; [done|]. by rewrite Hpe.
  - simpl in *. apply rbind_ok in H as ([[rs1 ls1] e1] & Hs1 & H).
    apply rbind_ok in H as ([[rs4 ls4] e4] & H & Heq). simplify_eq.
    apply rbind_ok in H as ([[rs2 ls2] e2] & Hs2 & H).
    apply rbind_ok in H as ([[rs3 ls3] e3] & Hw & H). simplify_eq.
    destruct (service_swap cfg env period_of rnd tick y x rs ls rs1 ls1 e1 rs2 ls2 e2) as (rs1' & ls1' & Hx & Hy);
      [done| |done|done|].
    { apply NoDup_cons in Hnd as [Hnin _]. set_solver. }
    rewrite Hx. simpl. rewrite Hy. simpl. rewrite Hw. simpl. eexists. split; [done|].
    rewrite !(assoc_L (++)). apply Permutation_app_tail, Permutation_app_comm.
  - destruct (IH1 rs ls es) as (e1 & H1 & Hp1'); [done..|].
    destruct (IH2 rs ls e1) as (e2 & H2 & Hp2'); [done|by rewrite <-Hp1|done|].
    exists e2. split; [done|]. by rewrite Hp1'.
Qed.

(** *** What the calls do *)

(** The effect of the calls on the ring, and the schedules they ask for. *)
Definition ring_all (es : list effect) (ring : Ring) : Ring :=
  foldl (fun r e => match e with
                    | RegisterWakeup id t => registerWakeup (clockPeriod env) id t r
                    | DeferOrSchedule _ _ => r
                    end) ring es.

Definition pushes (es : list effect) : DeferredQueue :=
  omap (fun e => match e with RegisterWakeup _ _ => None | DeferOrSchedule c t => Some (c, t) end) es.

Lemma apply_effects_split es ring cs :
  fold_res (apply_effect env period_of) es (ring, cs) =
    (let* cs' := drain_queue env period_of (pushes es) cs in Ok (ring_all es ring, cs')).
Proof.
  revert ring cs. induction es as [|e es IH]; intros ring cs; [done|].
  destruct e as [id t|c t]; simpl; [by rewrite IH|].
  unfold drain_queue. simpl. destruct (schedule_consumer env period_of c t cs) as [cs'|]; simpl; [|done].
  by rewrite IH.
Qed.

Lemma run_one_split id n n' :
  run_one cfg env period_of rnd tick id n = Ok n' ↔
  ∃ rs ls es cs, service cfg env period_of rnd tick id (m_routers n, n_links n) = Ok (rs, ls, es)
    ∧ drain_queue env period_of (pushes es) (n_consumers n) = Ok cs
    ∧ n' = with_region n (ring_all es (n_ring n)) rs ls cs (m_deferred_schedules n).
Proof.
  unfold run_one. rewrite rbind_ok. split.
  - intros ([[rs ls] es] & Hs & H). rewrite apply_effects_split in H.
    destruct (drain_queue _ _ (pushes es) _) as [cs|] eqn:E; simpl in H; [|done]. simplify_eq. eauto 10.
  - intros (rs & ls & es & cs & Hs & Hd & ->). exists (rs, ls, es). split; [done|].
    by rewrite apply_effects_split, Hd.
Qed.

Lemma run_all_split ids n n' :
  fold_res (run_one cfg env period_of rnd tick) ids n = Ok n' ↔
  ∃ rs ls es cs, wake_all ids (m_routers n) (n_links n) = Ok (rs, ls, es)
    ∧ drain_queue env period_of (pushes es) (n_consumers n) = Ok cs
    ∧ n' = with_region n (ring_all es (n_ring n)) rs ls cs (m_deferred_schedules n).
Proof.
  revert n. induction ids as [|id ids IH]; intros n; simpl.
  { split; [intros [= <-]|].
    - exists (m_routers n), (n_links n), [], (n_consumers n). by destruct n.
    - intros (rs & ls & es & cs & [= <- <- <-] & [= <-] & ->). by destruct n. }
  rewrite rbind_ok. split.
  - intros (n1 & (rs1 & ls1 & es1 & cs1 & Hs & Hd & ->)%run_one_split & H).
    apply IH in H as (rs & ls & es & cs & Hw & Hd2 & ->). simpl in *. rewrite Hs. simpl. rewrite Hw. simpl.
    eexists _, _, _, cs. split; [done|]. unfold drain_queue, pushes in *.
    rewrite omap_app, fold_res_app, Hd. simpl. split; [done|].
    unfold ring_all. by rewrite foldl_app.
  - intros (rs & ls & es & cs & H & Hd & ->). apply rbind_ok in H as ([[rs1 ls1] es1] & Hs & H).
    apply rbind_ok in H as ([[rs2 ls2] es2] & Hw & H). simplify_eq.
    unfold drain_queue, pushes in Hd. rewrite omap_app, fold_res_app in Hd.
    apply rbind_ok in Hd as (cs1 & Hd1 & Hd2).
    eexists. split; [apply run_one_split; by eauto 10|]. apply IH. simpl.
    exists rs, ls, es2, cs. split_and!; [done|done|]. unfold with_region. simpl. f_equal.
    unfold ring_all. by rewrite foldl_app.
Qed.

(** Registrations commute, so only the set of calls matters. *)
Lemma registerWakeup_comm p i1 t1 i2 t2 r :
  registerWakeup p i1 t1 (registerWakeup p i2 t2 r) = registerWakeup p i2 t2 (registerWakeup p i1 t1 r).
Proof.
  unfold registerWakeup. pose proof (slot_index_range p t1). pose proof (slot_index_range p t2).
  rewrite !or_slot_active_comm, or_active_comm. do 2 f_equal. apply or_slot_comm; lia.
Qed.

Lemma ring_all_perm es1 es2 ring : es1 ≡ₚ es2 → ring_all es1 ring = ring_all es2 ring.
Proof.
  intros Hp. revert ring. unfold ring_all.
  induction Hp as [|e l1 l2 Hp IH|e1 e2 l|l1 l2 l3 Hp1 IH1 Hp2 IH2]; intros ring; simpl.
  - done.
  - apply IH.
  - f_equal. destruct e1, e2; try done. apply registerWakeup_comm.
  - by rewrite IH1.
Qed.

(** All consumers are well formed and their clocks do not overflow. *)
Definition consumers_ok (cs : gmap consumer_ref Consumer) : Prop :=
  (∀ c, clock_ok (consumer_env env period_of c)) ∧ map_Forall (fun _ k => consumer_inv k) cs.

Lemma schedule_consumer_ok c t cs cs' :
  schedule_consumer env period_of c t cs = Ok cs' ↔
  ∃ k k', cs !! c = Some k ∧ scheduleEventAbsolute (consumer_env env period_of c) t k = Ok k'
    ∧ cs' = <[c := k']> cs.
Proof.
  unfold schedule_consumer. destruct (cs !! c) as [k|]; [|naive_solver].
  rewrite rbind_ok. naive_solver.
Qed.

Lemma schedule_consumer_inv c t cs cs' :
  consumers_ok cs → schedule_consumer env period_of c t cs = Ok cs' → consumers_ok cs'.
Proof.
  intros [Hck Hinv] (k & k' & Hk & Hs & ->)%schedule_consumer_ok. split; [done|].
  apply map_Forall_insert_2; [|done]. rewrite scheduleEventAbsolute_eq in Hs; [|done|by eapply Hinv].
  cbv zeta in Hs. simplify_eq. apply insertSorted_sorted. by eapply Hinv.
Qed.

Lemma schedule_consumer_swap c t d u cs cs1 cs2 :
  consumers_ok cs → schedule_consumer env period_of c t cs = Ok cs1 →
  schedule_consumer env period_of d u cs1 = Ok cs2 →
  ∃ cs1', schedule_consumer env period_of d u cs = Ok cs1'
    ∧ schedule_consumer env period_of c t cs1' = Ok cs2.
Proof.
  intros [Hck Hinv] (k & k1 & Hk & Hs1 & ->)%schedule_consumer_ok (l & l1 & Hl & Hs2 & ->)%schedule_consumer_ok.
  destruct (decide (c = d)) as [->|Hne].
  - rewrite lookup_insert_eq in Hl. simplify_eq.
    destruct (scheduleEventAbsolute_swap _ t u k l l1 (Hck d)) as (m & Hm & Hm'); [by eapply Hinv|done|done|].
    exists (<[d := m]> cs). split; apply schedule_consumer_ok; [by eauto 10|].
    exists m, l1. by rewrite lookup_insert_eq, !insert_insert_eq.
  - rewrite lookup_insert_ne in Hl by done.
    exists (<[d := l1]> cs). split; apply schedule_consumer_ok; [by eauto 10|].
    exists k, k1. rewrite lookup_insert_ne by done. split_and!; [done|done|]. by apply insert_insert_ne.
Qed.

Lemma drain_queue_perm q1 q2 cs cs' :
  q1 ≡ₚ q2 → consumers_ok cs → drain_queue env period_of q1 cs = Ok cs' →
  drain_queue env period_of q2 cs = Ok cs'.
Proof.
  intros Hp Hok. unfold drain_queue. apply (fold_res_perm _ consumers_ok); [| |done|done].
  - intros x t t'. apply schedule_consumer_inv.
  - intros x y t t1 t2. apply schedule_consumer_swap.
Qed.

Lemma omap_perm {A B} (f : A → option B) l1 l2 : l1 ≡ₚ l2 → omap f l1 ≡ₚ omap f l2.
Proof.
  induction 1 as [|x l1 l2 _ IH|x y l|]; simpl; [done|..].
  - destruct (f x); by rewrite IH.
  - destruct (f x), (f y); try done. constructor.
  - etrans; done.
Qed.

(** Running routers in any order gives the same network. *)
Lemma run_all_perm ids1 ids2 n n' :
  routers_disjoint (m_routers n) → consumers_ok (n_consumers n) → NoDup ids1 → ids1 ≡ₚ ids2 →
  fold_res (run_one cfg env period_of rnd tick) ids1 n = Ok n' →
  fold_res (run_one cfg env period_of rnd tick) ids2 n = Ok n'.
Proof.
  intros Hd Hc Hnd Hp (rs & ls & es & cs & Hw & Hdr & ->)%run_all_split. apply run_all_split.
  destruct (wake_all_perm ids1 ids2 _ _ rs ls es Hd Hnd Hp Hw) as (es' & Hw' & Hpe).
  exists rs, ls, es', cs. split_and!; [done| |by rewrite (ring_all_perm es es')].
  eapply drain_queue_perm; [|done|exact Hdr]. by apply omap_perm.
Qed.

(** ** A complete schedule of the workers *)

Abbreviation wrun := (run (H := worker_threads cfg env period_of rnd tick)).

(** A worker executes the instructions of its calls one by one. *)
Lemma worker_calls es t rest ts g q :
  ts !! t = Some (concat (map instrs_of es) ++ rest) → g_deferred g !! t = Some q →
  ∃ sigma, wrun sigma (ts, g) =
    Ok (<[t := rest]> ts,
        {| g_ring := ring_all es (g_ring g); g_routers := g_routers g; g_links := g_links g;
           g_deferred := <[t := q ++ pushes es]> (g_deferred g) |}).
Proof.
  revert ts g q. induction es as [|e es IH]; intros ts g q Hts Hq; simpl in Hts.
  { exists []. simpl. rewrite app_nil_r, !list_insert_id by done. by destruct g. }
  destruct e as [id u|c u]; simpl in Hts.
  - set (ts1 := <[t := concat (map instrs_of es) ++ rest]> ts).
    assert (ts1 !! t = Some (concat (map instrs_of es) ++ rest)) as Hts1.
    { apply list_lookup_insert_eq. by eapply lookup_lt_Some. }
    set (g1 := {| g_ring := registerWakeup (clockPeriod env) id u (g_ring g); g_routers := g_routers g;
                  g_links := g_links g; g_deferred := g_deferred g |}).
    destruct (IH ts1 g1 q Hts1 Hq) as (sigma & Hrun). exists (t :: t :: sigma).
    cbn [run step worker_threads]. unfold conf_step at 1. simpl. rewrite Hts. simpl.
    unfold conf_step. simpl. rewrite list_lookup_insert_eq by (by eapply lookup_lt_Some). simpl.
    rewrite list_insert_insert_eq. fold ts1. etrans; [exact Hrun|].
    unfold ts1. by rewrite list_insert_insert_eq.
  - set (ts1 := <[t := concat (map instrs_of es) ++ rest]> ts).
    assert (ts1 !! t = Some (concat (map instrs_of es) ++ rest)) as Hts1.
    { apply list_lookup_insert_eq. by eapply lookup_lt_Some. }
    set (g1 := {| g_ring := g_ring g; g_routers := g_routers g; g_links := g_links g;
                  g_deferred := <[t := q ++ [(c, u)]]> (g_deferred g) |}).
    destruct (IH ts1 g1 (q ++ [(c, u)]) Hts1) as (sigma & Hrun).
    { apply list_lookup_insert_eq. by eapply lookup_lt_Some. }
    exists (t :: sigma). cbn [run step worker_threads]. unfold conf_step. simpl. rewrite Hts. simpl.
    rewrite Hq. simpl. fold ts1. etrans; [exact Hrun|]. unfold ts1, g1. simpl.
    by rewrite !list_insert_insert_eq, <-(assoc_L (++)).
Qed.

(** A worker runs all its routers. *)
Lemma worker_runs ids t ts g q rs ls es :
  ts !! t = Some (map IWake ids) → g_deferred g !! t = Some q →
  wake_all ids (g_routers g) (g_links g) = Ok (rs, ls, es) →
  ∃ sigma, wrun sigma (ts, g) =
    Ok (<[t := []]> ts,
        {| g_ring := ring_all es (g_ring g); g_routers := rs; g_links := ls;
           g_deferred := <[t := q ++ pushes es]> (g_deferred g) |}).
Proof.
  revert ts g q es. induction ids as [|id ids IH]; intros ts g q es Hts Hq Hw; simpl in Hw, Hts.
  { exists []. simplify_eq. simpl. rewrite app_nil_r, !list_insert_id by done. by destruct g. }
  apply rbind_ok in Hw as ([[rs1 ls1] e1] & Hs & Hw). apply rbind_ok in Hw as ([[rs2 ls2] e2] & Hw & H).
  simplify_eq.
  set (ts1 := <[t := concat (map instrs_of e1) ++ map IWake ids]> ts).
  set (g1 := {| g_ring := g_ring g; g_routers := rs1; g_links := ls1; g_deferred := g_deferred g |}).
  apply lookup_lt_Some in Hts as Hlt. apply lookup_lt_Some in Hq as Hlq.
  destruct (worker_calls e1 t (map IWake ids) ts1 g1 q) as (s1 & Hr1);
    [by apply list_lookup_insert_eq|done|].
  set (g2 := {| g_ring := ring_all e1 (g_ring g); g_routers := rs1; g_links := ls1;
                g_deferred := <[t := q ++ pushes e1]> (g_deferred g) |}).
  destruct (IH (<[t := map IWake ids]> ts1) g2 (q ++ pushes e1) e2) as (s2 & Hr2);
    [apply list_lookup_insert_eq; unfold ts1; by rewrite length_insert|by apply list_lookup_insert_eq|done|].
  exists (t :: s1 ++ s2). cbn [run step worker_threads]. unfold conf_step. simpl. rewrite Hts. simpl.
  rewrite Hs. simpl. fold ts1 g1. rewrite run_app, Hr1. cbn [rbind].
  etrans; [exact Hr2|]. unfold ts1, g2. simpl. rewrite !list_insert_insert_eq. do 2 f_equal.
  unfold pushes. rewrite omap_app, (assoc_L (++)). unfold ring_all. by rewrite foldl_app.
Qed.

End order.

(** ** runRoutersFromMask *)

Lemma run_mask_fold cfg env period_of rnd tick fuel mask n :
  is_u64 mask → (length (mask_bits mask) ≤ fuel)%nat →
  run_mask cfg env period_of rnd fuel mask tick n
  = fold_res (run_one cfg env period_of rnd tick) (mask_bits mask) n.
Proof.
  revert mask n. induction fuel as [|fuel IH]; intros mask n Hm Hf; simpl.
  - by rewrite (nil_length_inv (mask_bits mask)) by lia.
  - destruct (Z.eqb_spec mask 0) as [->|Hne]; [by rewrite mask_bits_0|].
    assert (0 < mask < 2 ^ 64) by (unfold is_u64 in Hm; lia).
    rewrite mask_bits_step in Hf |- * by done. simpl in Hf |- *.
    destruct (run_one _ _ _ _ _ (ctzll mask) n); simpl; [|done].
    apply IH; [by apply clear_lowest_u64|lia].
Qed.

Lemma mask_bits_length mask : (length (mask_bits mask) ≤ 64)%nat.
Proof.
  unfold mask_bits. etrans; [apply length_filter|]. by rewrite length_seqZ.
Qed.

(** [ids] lists the bits set in [mask], each once, lowest first. *)
Definition lists_bits (mask : Z) (ids : list Z) : Prop :=
  StronglySorted Z.lt ids ∧ ∀ id, id ∈ ids ↔ Z.testbit mask id = true.

Lemma mask_bits_lists mask : is_u64 mask → lists_bits mask (mask_bits mask).
Proof.
  intros Hm. split; [apply sorted_filter, seqZ_sorted|].
  intros id. rewrite elem_of_mask_bits. split; [tauto|]. intros Hb. split; [done|].
  by apply (testbit_lt_log2 mask 64).
Qed.

(** The bit loop of [runRoutersFromMask] ends within 64 turns and runs
    exactly the routers whose bit is set, each once, in increasing order of
    their index, stopping at the first that fails. *)
Theorem runRoutersFromMask_order cfg env period_of rnd tick mask n :
  is_u64 mask →
  ∃ ids, lists_bits mask ids ∧
    runRoutersFromMask cfg env period_of rnd mask tick n
    = fold_res (run_one cfg env period_of rnd tick) ids n.
Proof.
  intros Hm. exists (mask_bits mask). split; [by apply mask_bits_lists|].
  apply run_mask_fold; [done|apply mask_bits_length].
Qed.

(** ** Thread masks *)

Lemma thread_masks_spec num_routers num_threads :
  0 ≤ num_routers ≤ 64 → 1 ≤ num_threads →
  ∃ masks, thread_masks num_routers num_threads = Ok masks
    ∧ length masks = Z.to_nat num_threads
    ∧ ∀ t m, masks !! t = Some m → is_u64 m ∧
        ∀ id, 0 ≤ id → Z.testbit m id = (id <? num_routers) && (id mod num_threads =? Z.of_nat t).
Proof.
  intros Hr Ht. unfold thread_masks.
  destruct (for_range_ok (fun k masks =>
    length masks = Z.to_nat num_threads ∧ ∀ t m, masks !! t = Some m → is_u64 m ∧
      ∀ id, 0 ≤ id → Z.testbit m id = (id <? k) && (id mod num_threads =? Z.of_nat t))
    0 (Z.to_nat num_routers) (fun id masks => vec_upd masks (Z.rem id num_threads)
      (fun m => Ok (Z.lor m (u64 (Z.shiftl 1 id))))) (replicate (Z.to_nat num_threads) 0))
    as (masks & Hm & Hl & Hs).
  - split; [by rewrite length_replicate|]. intros t m [-> Hlt]%lookup_replicate. split; [unfold is_u64; lia|].
    intros id Hid. rewrite Z.testbit_0_l. by rewrite (proj2 (Z.ltb_ge id 0)) by lia.
  - intros id masks Hid (Hl & Hm). rewrite Z.rem_mod_nonneg by lia.
    pose proof (Z.mod_pos_bound id num_threads ltac:(lia)) as Hmod.
    destruct (vec_get_in_range masks (id mod num_threads)) as [m0 Hg]; [lia|].
    unfold vec_upd. rewrite Hg. simpl. rewrite vec_set_in_range by lia.
    eexists. split; [done|]. rewrite length_insert. split; [done|].
    apply vec_get_ok in Hg as [_ Hg]. destruct (Hm _ _ Hg) as [Hu0 Hb0].
    intros t m [(<- & <- & _)|[Hne Hlk]]%list_lookup_insert_Some.
    + split; [apply lor_lt_pow2; [lia|done|apply u64_range]|]. intros k Hk.
      rewrite Z.lor_spec, router_bit, Hb0 by lia. rewrite !Z2Nat.id by lia.
      destruct (Z.eqb_spec id k) as [->|Hne].
      * rewrite (proj2 (Z.ltb_lt k (k + 1))), Z.eqb_refl by lia. simpl. apply orb_true_r.
      * rewrite orb_false_r. f_equal. destruct (Z.ltb_spec k id), (Z.ltb_spec k (id + 1)); lia.
    + destruct (Hm _ _ Hlk) as [Hu Hb]. split; [done|]. intros k Hk. rewrite Hb by done.
      destruct (Z.eqb_spec (k mod num_threads) (Z.of_nat t)) as [Heq|]; [|by rewrite !andb_false_r].
      rewrite !andb_true_r. destruct (Z.ltb_spec k id), (Z.ltb_spec k (id + 1)); try lia.
      assert (k = id) as -> by lia. exfalso. apply Hne. lia.
  - rewrite Z.add_0_l, Z2Nat.id in Hs by lia. eauto.
Qed.

(** The number of workers is at least one. *)
Lemma choose_num_threads_pos requested hw num_routers : 1 ≤ choose_num_threads requested hw num_routers.
Proof. unfold choose_num_threads. repeat zcase; lia. Qed.

(** The routers each worker runs. *)
Definition worker_ids (mask : Z) (masks : list Z) : list (list Z) :=
  map (fun m => mask_bits (Z.land mask m)) masks.

Lemma worker_ids_lookup mask masks t ids :
  worker_ids mask masks !! t = Some ids ↔ ∃ m, masks !! t = Some m ∧ ids = mask_bits (Z.land mask m).
Proof.
  unfold worker_ids. change (map ?f ?l) with (f <$> l). rewrite list_lookup_fmap_Some. naive_solver.
Qed.

Lemma thread_masks_cover num_routers num_threads masks mask :
  0 ≤ num_routers ≤ 64 → 1 ≤ num_threads → 0 ≤ mask < 2 ^ num_routers →
  thread_masks num_routers num_threads = Ok masks →
  (∀ t u ti ui i, t ≠ u → worker_ids mask masks !! t = Some ti → worker_ids mask masks !! u = Some ui →
     i ∈ ti → i ∈ ui → False)
  ∧ concat (worker_ids mask masks) ≡ₚ mask_bits mask.
Proof.
  intros Hr Ht Hmask Hmasks.
  destruct (thread_masks_spec num_routers num_threads Hr Ht) as (masks' & Hm & Hl & Hs).
  rewrite Hmasks in Hm. injection Hm as <-.
  assert (∀ t ti i, worker_ids mask masks !! t = Some ti → i ∈ ti →
    Z.testbit mask i = true ∧ 0 ≤ i < 64 ∧ i mod num_threads = Z.of_nat t) as Hin.
  { intros t ti i (m & Hmt & ->)%worker_ids_lookup [Hb Hi]%elem_of_mask_bits. destruct (Hs t m Hmt) as [_ Hb'].
    rewrite Z.land_spec, Hb' in Hb by lia. zbool. done. }
  assert (∀ t u ti ui i, t ≠ u → worker_ids mask masks !! t = Some ti → worker_ids mask masks !! u = Some ui →
     i ∈ ti → i ∈ ui → False) as Hdis.
  { intros t u ti ui i Htu H1 H2 Hi1 Hi2. destruct (Hin t ti i H1 Hi1) as (_ & _ & E1).
    destruct (Hin u ui i H2 Hi2) as (_ & _ & E2). lia. }
  split; [done|]. apply NoDup_Permutation; [|apply mask_bits_NoDup|].
  - apply NoDup_concat; [|done]. intros t ti (m & _ & ->)%worker_ids_lookup. apply mask_bits_NoDup.
  - intros i. rewrite elem_of_mask_bits, list_elem_of_In, in_concat. split.
    + intros (l & Hl' & Hi). apply list_elem_of_In, list_elem_of_lookup in Hl' as [t Hlt].
      apply list_elem_of_In in Hi. by destruct (Hin t l i Hlt Hi) as (? & ? & _).
    + intros [Hb Hi]. set (t := Z.to_nat (i mod num_threads)).
      pose proof (Z.mod_pos_bound i num_threads ltac:(lia)).
      destruct (lookup_lt_is_Some_2 masks t) as [m Hmt]; [lia|].
      exists (mask_bits (Z.land mask m)). rewrite <-!list_elem_of_In. split.
      * apply list_elem_of_lookup. exists t. apply worker_ids_lookup. eauto.
      * apply elem_of_mask_bits. split; [|done]. destruct (Hs t m Hmt) as [_ Hb'].
        rewrite Z.land_spec, Hb, Hb' by lia. simpl.
        apply (testbit_lt_log2 mask num_routers) in Hb; [|done|lia].
        rewrite (proj2 (Z.ltb_lt i num_routers)) by lia. simpl. apply Z.eqb_eq. lia.
Qed.

(** C18: The static assignment covers every router exactly once: with the pool
    size the constructor picks, the masks it builds split any set of due
    routers among the workers so that each due router is run by exactly one
    worker and no worker runs another router. *)
Theorem thread_masks_partition requested hw num_routers mask :
  0 ≤ num_routers ≤ 64 → 0 ≤ mask < 2 ^ num_routers →
  ∃ masks, thread_masks num_routers (choose_num_threads requested hw num_routers) = Ok masks
    ∧ Z.of_nat (length masks) = choose_num_threads requested hw num_routers
    ∧ concat (worker_ids mask masks) ≡ₚ mask_bits mask
    ∧ NoDup (concat (worker_ids mask masks)).
Proof.
  intros Hr Hm. set (nt := choose_num_threads requested hw num_routers).
  pose proof (choose_num_threads_pos requested hw num_routers : 1 ≤ nt) as Hnt.
  destruct (thread_masks_spec num_routers nt Hr Hnt) as (masks & Hmasks & Hl & _).
  destruct (thread_masks_cover num_routers nt masks mask Hr Hnt Hm Hmasks) as [_ Hp].
  exists masks. split_and!; [done|lia|done|]. rewrite Hp. apply mask_bits_NoDup.
Qed.

Lemma thread_masks_partition_witness :
  ∃ masks, thread_masks 20 (choose_num_threads 0 8 20) = Ok masks
    ∧ Z.of_nat (length masks) = 2
    ∧ concat (worker_ids 1000003 masks) ≡ₚ mask_bits 1000003
    ∧ NoDup (concat (worker_ids 1000003 masks)).
Proof. apply (thread_masks_partition 0 8 20 1000003); lia. Defined.

(** ** All workers *)

Section workers.
Context (cfg : NetConfig) (env : ClockEnv) (period_of : consumer_ref → Z) (rnd : Z → Z → Z) (tick : Z).

(** The schedule that runs one worker after the other. *)
Lemma workers_run idss pre dpre g rs ls es :
  length pre = length dpre → g_deferred g = dpre ++ replicate (length idss) [] →
  wake_all cfg env period_of rnd tick (concat idss) (g_routers g) (g_links g) = Ok (rs, ls, es) →
  ∃ sigma ess, es = concat ess ∧ length ess = length idss ∧
    run (H := worker_threads cfg env period_of rnd tick) sigma (pre ++ map (map IWake) idss, g) =
      Ok (pre ++ replicate (length idss) [],
          {| g_ring := ring_all env es (g_ring g); g_routers := rs; g_links := ls;
             g_deferred := dpre ++ map pushes ess |}).
Proof.
  revert pre dpre g es. induction idss as [|ids idss IH]; intros pre dpre g es Hl Hd Hw; simpl in *.
  { simplify_eq. exists [], []. split; [done|]. split; [done|]. simpl. rewrite <-Hd. by destruct g. }
  rewrite wake_all_app in Hw. apply rbind_ok in Hw as ([[rs1 ls1] e1] & Hw1 & Hw).
  apply rbind_ok in Hw as ([[rs2 ls2] e2] & Hw2 & H). simplify_eq.
  destruct (worker_runs cfg env period_of rnd tick ids (length pre) (pre ++ map IWake ids :: map (map IWake) idss) g
    [] rs1 ls1 e1) as (s1 & Hr1); [by apply list_lookup_middle|rewrite Hd; by apply list_lookup_middle|done|].
  rewrite list_insert_middle, Hd, Hl, list_insert_middle in Hr1. simpl in Hr1.
  set (g1 := {| g_ring := ring_all env e1 (g_ring g); g_routers := rs1; g_links := ls1;
                g_deferred := (dpre ++ [pushes e1]) ++ replicate (length idss) [] |}).
  destruct (IH (pre ++ [[]]) (dpre ++ [pushes e1]) g1 e2) as (s2 & ess & -> & Hless & Hr2);
    [rewrite !length_app; simpl; lia|done|done|].
  exists (s1 ++ s2), (e1 :: ess). split; [done|]. split; [simpl; lia|]. rewrite run_app, Hr1. cbn [rbind].
  replace (dpre ++ pushes e1 :: replicate (length idss) []) with (g_deferred g1)
    by (simpl; by rewrite <-(assoc_L (++))).
  replace (pre ++ [] :: map (map IWake) idss) with ((pre ++ [[]]) ++ map (map IWake) idss)
    by (by rewrite <-(assoc_L (++))).
  etrans; [exact Hr2|]. simpl. rewrite <-!(assoc_L (++)). simpl. do 3 f_equal.
  unfold ring_all. by rewrite foldl_app.
Qed.

Lemma drain_queues qs cs :
  fold_res (drain_queue env period_of) qs cs = drain_queue env period_of (concat qs) cs.
Proof.
  revert cs. induction qs as [|q qs IH]; intros cs; simpl; [done|].
  unfold drain_queue at 3. rewrite fold_res_app. fold (drain_queue env period_of q cs).
  destruct (drain_queue env period_of q cs); simpl; [|done]. apply IH.
Qed.

Lemma concat_pushes ess : concat (map pushes ess) = pushes (concat ess).
Proof. induction ess as [|e ess IH]; simpl; [done|]. unfold pushes at 3. by rewrite omap_app, IH. Qed.

End workers.

(** ** The main result *)

(** A network as the constructor and topology creation leave it: at most 64
    routers, no link that ends at two of them, the thread masks of the
    constructor, empty deferred queues, no parallel region active. *)
Record network_ok (env : ClockEnv) (period_of : consumer_ref → Z) (n : GarnetNetwork) : Prop := {
  no_size : Z.of_nat (length (m_routers n)) ≤ 64;
  no_threads : 1 ≤ m_num_threads n;
  no_masks : thread_masks (Z.of_nat (length (m_routers n))) (m_num_threads n) = Ok (m_thread_router_mask n);
  no_deferred : m_deferred_schedules n = replicate (length (m_thread_router_mask n)) [];
  no_inactive : s_parallel_active n = false;
  no_disjoint : routers_disjoint (m_routers n);
  no_consumers : consumers_ok env period_of (n_consumers n)
}.

Lemma region_start_programs mask n :
  fst (region_start mask n) = map (map IWake) (worker_ids mask (m_thread_router_mask n)).
Proof. unfold region_start, worker_ids, worker_program. simpl. by rewrite map_map. Qed.

Lemma region_start_inv env period_of mask n :
  network_ok env period_of n → 0 ≤ mask < 2 ^ Z.of_nat (length (m_routers n)) →
  workers_inv (region_start mask (with_active n true)).
Proof.
  intros [Hsz Hth Hms _ _ Hdis _] Hmask. split; [exact Hdis|].
  rewrite region_start_programs. simpl. change (map ?f ?l) with (f <$> l).
  intros t u pt pu i j Htu Ht Hu Hi Hj.
  apply list_lookup_fmap_Some in Ht as (ti & -> & Ht). apply list_lookup_fmap_Some in Hu as (ui & -> & Hu).
  apply list_elem_of_fmap in Hi as (i' & [= <-] & Hi). apply list_elem_of_fmap in Hj as (j' & [= <-] & Hj).
  intros ->. destruct (thread_masks_cover _ (m_num_threads n) _ mask (conj (Nat2Z.is_nonneg _) Hsz) Hth Hmask Hms) as [Hno _].
  by eapply (Hno t u).
Qed.

Lemma sequential_schedule cfg env period_of rnd tick mask n n' :
  network_ok env period_of n → 0 ≤ mask < 2 ^ Z.of_nat (length (m_routers n)) →
  runRoutersFromMask cfg env period_of rnd mask tick n = Ok n' →
  ∃ sigma ps g,
    run (H := worker_threads cfg env period_of rnd tick) sigma (region_start mask (with_active n true)) = Ok (ps, g)
    ∧ (∀ t, conf_live t (ps, g) = false)
    ∧ drainDeferredSchedules env period_of (with_active (after_region n g) false) = Ok n'.
Proof.
  intros Hok Hmask Hseq. pose proof Hok as [Hsz Hth Hms Hdq Hina Hdis Hcs].
  assert (is_u64 mask).
  { split; [lia|]. eapply Z.lt_le_trans; [apply Hmask|]. apply Z.pow_le_mono_r; lia. }
  unfold runRoutersFromMask in Hseq. rewrite run_mask_fold in Hseq by (done || apply mask_bits_length).
  destruct (thread_masks_cover _ (m_num_threads n) _ mask (conj (Nat2Z.is_nonneg _) Hsz) Hth Hmask Hms) as [_ Hp].
  apply (run_all_perm cfg env period_of rnd tick _ (concat (worker_ids mask (m_thread_router_mask n)))) in Hseq;
    [|done|done|apply mask_bits_NoDup|by rewrite Hp].
  apply run_all_split in Hseq as (rs & ls & es & cs & Hw & Hd & ->).
  set (g0 := snd (region_start mask (with_active n true))).
  destruct (workers_run cfg env period_of rnd tick (worker_ids mask (m_thread_router_mask n)) [] [] g0 rs ls es)
    as (sigma & ess & -> & Hless & Hrun); [done| |done|].
  { unfold g0. simpl. rewrite Hdq. unfold worker_ids. by rewrite length_map. }
  simpl in Hrun. eexists sigma, _, _. split; [|split].
  - rewrite <-Hrun. f_equal. rewrite (surjective_pairing (region_start _ _)).
    by rewrite region_start_programs.
  - intros t. unfold conf_live. simpl. destruct (replicate _ [] !! t) as [p|] eqn:E; [|done].
    by apply lookup_replicate in E as [-> _].
  - unfold drainDeferredSchedules. simpl. rewrite drain_queues, concat_pushes, Hd. simpl.
    unfold with_region, with_active, after_region. simpl. rewrite Hina. do 2 f_equal. rewrite Hdq.
    rewrite map_map. unfold worker_ids in Hless. rewrite length_map in Hless. rewrite <-Hless.
    clear. induction ess as [|e ess IH]; simpl; [done|]. by rewrite IH.
Qed.

(** Under fixed answers of [rand()], every complete execution of the region ends
    in the sequential network. *)
Definition answered_branch cfg env period_of (rnd : Z → Z → Z) (mask tick : Z) (n n' : GarnetNetwork) : Prop :=
  ∃ ps g, rtc (fun c c' => ∃ tid, conf_step cfg env period_of rnd tick tid c = Ok c')
            (region_start mask (with_active n true)) (ps, g) ∧
    (∀ tid, conf_live tid (ps, g) = false) ∧
    drainDeferredSchedules env period_of (with_active (after_region n g) false) = Ok n'.

Lemma answered_branch_outcome cfg env period_of rnd tick mask n n' :
  network_ok env period_of n → 0 ≤ mask < 2 ^ Z.of_nat (length (m_routers n)) →
  runRoutersFromMask cfg env period_of rnd mask tick n = Ok n' →
  ∀ n'', answered_branch cfg env period_of rnd mask tick n n'' ↔ n'' = n'.
Proof.
  intros Hok Hmask Hseq n''.
  destruct (sequential_schedule cfg env period_of rnd tick mask n n' Hok Hmask Hseq)
    as (sigma & ps & g & Hrun & Hterm & Hdrain).
  pose proof (region_start_inv env period_of mask n Hok Hmask) as Hinv.
  pose proof (interleavings_agree (H := worker_threads cfg env period_of rnd tick) sigma
    (region_start mask (with_active n true)) (ps, g)) as Hag. split.
  - intros (ps' & g' & Hsteps & Hterm' & Hdrain').
    apply rtc_nsteps in Hsteps as [k Hsteps].
    destruct (Hag k (ps', g') Hinv Hrun Hterm Hsteps) as (_ & Heq & _).
    destruct (Heq Hterm') as [[= -> ->] _]. congruence.
  - intros ->. exists ps, g. split; [|done].
    destruct (Hag 0%nat _ Hinv Hrun Hterm (nsteps_O _ _)) as (_ & _ & _ & m & Hm).
    apply rtc_nsteps. by exists m.
Qed.

(** ** The shared random number generator

    Each router runs at most once in the region, so whatever the generator
    answers on the way, there is one assignment of answers to the routers under
    which the same execution takes place. *)

Definition wake_id (i : instr) : option Z := match i with IWake id => Some id | _ => None end.

(** The routers still to be run. *)
Definition pending_wakes (c : Conf) : list Z := concat (map (omap wake_id) (fst c)).

Section answers.
Context (cfg : NetConfig) (env : ClockEnv) (period_of : consumer_ref → Z) (tick : Z).
Abbreviation cstep rnd := (fun c c' => ∃ tid, conf_step cfg env period_of rnd tick tid c = Ok c').

Lemma calls_no_wakes es : omap wake_id (concat (map instrs_of es)) = [].
Proof. induction es as [|e es IH]; simpl; [done|]. rewrite omap_app, IH. by destruct e. Qed.

Lemma exec_pending rnd t i g new g' :
  exec cfg env period_of rnd tick t i g = Ok (new, g') → omap wake_id new = [] ∧ (wake_id i = None → new = []).
Proof.
  destruct i; simpl; [|intros; by simplify_eq..|].
  - intros ([[rs ls] es] & _ & H)%rbind_ok. simplify_eq. split; [apply calls_no_wakes|done].
  - destruct (_ !! t); intros; by simplify_eq.
Qed.

(** A step runs one of the pending routers, or none and one instruction fewer is left. *)
Lemma step_pending rnd t c c' :
  conf_step cfg env period_of rnd tick t c = Ok c' →
  ∃ i, (∀ rnd', (∀ id, i = IWake id → rnd' id = rnd id) → conf_step cfg env period_of rnd' tick t c = Ok c') ∧
    match wake_id i with
    | Some id => pending_wakes c ≡ₚ id :: pending_wakes c'
    | None => pending_wakes c' = pending_wakes c ∧ length (concat (fst c)) = S (length (concat (fst c')))
    end.
Proof.
  intros (i & rest & new & g' & Hc & He & ->)%conf_step_ok. exists i. split.
  - intros rnd' Hr. apply conf_step_ok. exists i, rest, new, g'. split_and!; [done| |done].
    rewrite <-He. destruct i as [id| | |]; [|done..]. simpl. unfold service. by rewrite Hr.
  - apply exec_pending in He as [Hnew Hlen]. unfold pending_wakes.
    rewrite <-(take_drop_middle _ _ _ Hc), insert_app_r_alt by (rewrite length_take; lia).
    rewrite length_take, Nat.min_l by (apply lookup_lt_Some in Hc; lia). rewrite Nat.sub_diag. simpl.
    rewrite !map_app, !concat_app. simpl. rewrite omap_app, Hnew. simpl.
    destruct (wake_id i) as [id|] eqn:Ei; simpl.
    + symmetry. apply Permutation_middle.
    + rewrite (Hlen eq_refl). split; [done|]. rewrite !length_app. simpl. rewrite length_app. lia.
Qed.

Lemma steps_pending rnd c c' : rtc (cstep rnd) c c' → ∀ id, id ∈ pending_wakes c' → id ∈ pending_wakes c.
Proof.
  induction 1 as [c|c c1 c2 [t (i & _ & Hp)%step_pending] _ IH]; intros id Hid; [done|]. apply IH in Hid.
  destruct (wake_id i) as [j|]; [rewrite Hp; by right|by destruct Hp as [<- _]].
Qed.

(** Only the answers to the routers run on the way matter. *)
Lemma steps_agree rnd rnd' c c' :
  rtc (cstep rnd) c c' → NoDup (pending_wakes c) →
  (∀ id, id ∈ pending_wakes c → id ∉ pending_wakes c' → rnd' id = rnd id) → rtc (cstep rnd') c c'.
Proof.
  induction 1 as [c|c c1 c2 [t Ht] Hsteps IH]; intros Hnd Hag; [done|].
  destruct (step_pending _ _ _ _ Ht) as (i & Hi & Hp). pose proof (steps_pending _ _ _ Hsteps) as Hsub.
  apply rtc_l with c1.
  - exists t. apply Hi. intros id ->. simpl in Hp. rewrite Hp in Hnd. apply NoDup_cons in Hnd as [Hn _].
    apply Hag; [rewrite Hp; by left|]. intros H. by apply Hn, Hsub.
  - destruct (wake_id i) as [j|].
    + rewrite Hp in Hnd. apply NoDup_cons in Hnd as [_ Hnd]. apply IH; [done|]. intros id Hid. apply Hag. rewrite Hp. by right.
    + destruct Hp as [Hp _]. rewrite Hp in IH. by apply IH.
Qed.

(** An execution with arbitrary answers is one with fixed answers. *)
Lemma region_answers c c' :
  rtc (region_step cfg env period_of tick) c c' → NoDup (pending_wakes c) → ∃ rnd, rtc (cstep rnd) c c'.
Proof.
  induction 1 as [c|c c1 c2 (t & rnd1 & Ht) _ IH]; intros Hnd; [by exists (fun _ _ => 0)|].
  destruct (step_pending _ _ _ _ Ht) as (i & Hi & Hp). destruct (wake_id i) as [j|] eqn:Ei.
  - rewrite Hp in Hnd. apply NoDup_cons in Hnd as [Hj Hnd]. destruct (IH Hnd) as [rnd2 H2].
    exists (fun id => if id =? j then rnd1 j else rnd2 id). apply rtc_l with c1.
    + exists t. apply Hi. intros id ->. simplify_eq/=. by rewrite Z.eqb_refl.
    + eapply steps_agree; [exact H2|done|]. intros id Hid _. destruct (Z.eqb_spec id j) as [->|]; done.
  - destruct Hp as [Hp _]. rewrite Hp in IH. destruct (IH Hnd) as [rnd2 H2]. exists rnd2. apply rtc_l with c1; [|done].
    exists t. apply Hi. by intros id ->.
Qed.

Lemma answers_region rnd c c' : rtc (cstep rnd) c c' → rtc (region_step cfg env period_of tick) c c'.
Proof. apply rtc_subrel. intros d d' [t Ht]. by exists t, rnd. Qed.

(** Every execution ends: a step runs a router or leaves fewer instructions. *)
Lemma region_terminates c : sn (region_step cfg env period_of tick) c.
Proof.
  remember (length (pending_wakes c)) as k eqn:Hk. revert c Hk. induction (lt_wf k) as [k _ IHk].
  intros c Hk. remember (length (concat (fst c))) as m eqn:Hm. revert c Hk Hm.
  induction (lt_wf m) as [m _ IHm]. intros c Hk Hm. constructor. intros c' (t & rnd & Ht).
  destruct (step_pending _ _ _ _ Ht) as (i & _ & Hp). destruct (wake_id i) as [j|].
  - eapply IHk; [|done]. rewrite Hk, Hp. simpl. lia.
  - destruct Hp as [Hp Hl]. eapply IHm; [| |done]; [lia|by rewrite Hp].
Qed.

End answers.

(** *** Configurations that do not ask *)

(** All virtual networks are ordered, so routing never calls [rand()]. *)
Definition never_random (cfg : NetConfig) : Prop := Forall (fun o => o = true) (m_ordered cfg).

Section quiet.
Context (cfg : NetConfig) (Hcfg : never_random cfg).

Lemma lookupRoutingTable_quiet a1 a2 vnet dest ru : lookupRoutingTable cfg a1 vnet dest ru = lookupRoutingTable cfg a2 vnet dest ru.
Proof using Hcfg.
  unfold lookupRoutingTable. destruct (vec_get _ vnet); simpl; [|done].
  destruct (for_range _ _ _ _); simpl; [|done]. destruct (for_range _ _ _ _); simpl; [|done].
  destruct (Nat.eqb _ 0); [done|]. unfold isVNetOrdered.
  destruct (vec_get (m_ordered cfg) vnet) as [o|] eqn:E; simpl; [|done].
  apply vec_get_ok in E as [_ E]. by rewrite (Forall_lookup_1 _ _ _ _ Hcfg E).
Qed.

Lemma input_wakeup_quiet env a1 a2 c u l : input_wakeup cfg env a1 c u l = input_wakeup cfg env a2 c u l.
Proof using Hcfg.
  unfold input_wakeup, admit_flit, route_compute, outportCompute.
  destruct (link_isReady _ _); [|done]. destruct (consumeLink _) as [[f l']|]; simpl; [|done].
  by rewrite (lookupRoutingTable_quiet a1 a2).
Qed.

Lemma router_wakeup_quiet env a1 a2 r ls : router_wakeup cfg env a1 r ls = router_wakeup cfg env a2 r ls.
Proof using Hcfg.
  unfold router_wakeup. rewrite (for_range_ext _ _ (wake_input cfg env a1) (wake_input cfg env a2)); [done|].
  intros i [r' ls']. unfold wake_input. destruct (vec_get _ i) as [u|]; simpl; [|done].
  destruct (get_link _ _) as [l|]; simpl; [|done]. by rewrite (input_wakeup_quiet env (a1 i) (a2 i)).
Qed.

Lemma run_one_quiet env period_of rnd1 rnd2 tick id n :
  run_one cfg env period_of rnd1 tick id n = run_one cfg env period_of rnd2 tick id n.
Proof using Hcfg.
  unfold run_one, service. destruct (vec_get _ id) as [r|]; simpl; [|done]. unfold service_router.
  destruct (tryConsumeTick _ _) as [k []]; [|done]. by rewrite (router_wakeup_quiet _ (rnd1 id) (rnd2 id)).
Qed.

Lemma runRoutersFromMask_quiet env period_of rnd1 rnd2 mask tick n :
  runRoutersFromMask cfg env period_of rnd1 mask tick n = runRoutersFromMask cfg env period_of rnd2 mask tick n.
Proof using Hcfg.
  unfold runRoutersFromMask. generalize 64%nat as fuel. intros fuel. revert mask n.
  induction fuel as [|fuel IH]; intros mask n; simpl; [done|]. destruct (mask =? 0); [done|].
  rewrite (run_one_quiet _ _ rnd1 rnd2). destruct (run_one _ _ _ _ _ _ _); simpl; [|done]. apply IH.
Qed.

End quiet.

(** ** The main theorem *)

(** Running the due routers one after the other succeeds, whatever [rand()] answers. *)
Definition sequential_succeeds cfg env period_of (mask tick : Z) (n : GarnetNetwork) : Prop :=
  ∀ rnd, is_ok (runRoutersFromMask cfg env period_of rnd mask tick n) = true.

Lemma is_ok_ex {A} (r : res A) : is_ok r = true → ∃ a, r = Ok a.
Proof. destruct r; [eauto|done]. Qed.

Lemma region_start_pending env period_of mask n :
  network_ok env period_of n → 0 ≤ mask < 2 ^ Z.of_nat (length (m_routers n)) →
  NoDup (pending_wakes (region_start mask (with_active n true))).
Proof.
  intros [Hsz Hth Hms _ _ _ _] Hmask. unfold pending_wakes. rewrite region_start_programs, map_map. simpl.
  replace (map _ _) with (worker_ids mask (m_thread_router_mask n)).
  - destruct (thread_masks_cover _ (m_num_threads n) _ mask (conj (Nat2Z.is_nonneg _) Hsz) Hth Hmask Hms) as [_ ->].
    apply mask_bits_NoDup.
  - rewrite <-(map_id (worker_ids _ _)) at 1. apply map_ext. intros ids.
    induction ids as [|id ids IH]; simpl; [done|]. by f_equal.
Qed.

(** The outcomes of the parallel branch are those of the sequential one. *)
Lemma parallel_branch_outcomes cfg env period_of tick mask n :
  network_ok env period_of n → 0 ≤ mask < 2 ^ Z.of_nat (length (m_routers n)) →
  sequential_succeeds cfg env period_of mask tick n →
  ∀ n', parallel_branch cfg env period_of mask tick n n' ↔
    ∃ rnd, runRoutersFromMask cfg env period_of rnd mask tick n = Ok n'.
Proof.
  intros Hok Hmask Hseq n'. pose proof (region_start_pending env period_of mask n Hok Hmask) as Hnd. split.
  - intros [ps g n1 Hsteps Hterm Hdrain]. apply region_answers in Hsteps as [rnd Hsteps]; [|done].
    exists rnd. destruct (is_ok_ex _ (Hseq rnd)) as [n2 Hn2]. rewrite Hn2. f_equal. symmetry.
    apply (answered_branch_outcome cfg env period_of rnd tick mask n n2 Hok Hmask Hn2). by exists ps, g.
  - intros [rnd Hrun].
    destruct (proj2 (answered_branch_outcome cfg env period_of rnd tick mask n n' Hok Hmask Hrun n') eq_refl)
      as (ps & g & Hsteps & Hterm & Hdrain).
    econstructor; [by eapply answers_region|done|done].
Qed.

(** No worker fails or blocks, whatever the others do and [rand()] answers. *)
Lemma region_progress cfg env period_of tick mask n c tid rnd :
  network_ok env period_of n → 0 ≤ mask < 2 ^ Z.of_nat (length (m_routers n)) →
  sequential_succeeds cfg env period_of mask tick n →
  rtc (region_step cfg env period_of tick) (region_start mask (with_active n true)) c → conf_live tid c = true →
  ∃ c', conf_step cfg env period_of rnd tick tid c = Ok c'.
Proof.
  intros Hok Hmask Hseq Hsteps Hlive. pose proof (region_start_pending env period_of mask n Hok Hmask) as Hnd.
  apply region_answers in Hsteps as [rnd1 Hsteps]; [|done].
  set (rnd2 := fun id => if bool_decide (id ∈ pending_wakes c) then rnd id else rnd1 id).
  assert (rtc (fun c c' => ∃ tid, conf_step cfg env period_of rnd2 tick tid c = Ok c')
    (region_start mask (with_active n true)) c) as Hsteps2.
  { eapply steps_agree; [exact Hsteps|done|]. intros id _ Hn. unfold rnd2. by rewrite bool_decide_eq_false_2. }
  destruct (is_ok_ex _ (Hseq rnd2)) as [n2 Hn2].
  destruct (sequential_schedule cfg env period_of rnd2 tick mask n n2 Hok Hmask Hn2) as (sigma & ps & g & Hrun & Hterm & _).
  apply rtc_nsteps in Hsteps2 as [k Hk].
  destruct (interleavings_agree (H := worker_threads cfg env period_of rnd2 tick) sigma
    (region_start mask (with_active n true)) (ps, g) k c (region_start_inv env period_of mask n Hok Hmask) Hrun Hterm Hk)
    as (_ & _ & Hprog & _).
  destruct (Hprog tid Hlive) as [c' Hc']. simpl in Hc'. exists c'.
  destruct (step_pending _ _ _ _ _ _ _ _ Hc') as (i & Hi & Hp). apply Hi. intros id ->. simpl in Hp.
  unfold rnd2. rewrite bool_decide_eq_true_2; [done|]. rewrite Hp. by left.
Qed.

(** C1: The OpenMP region computes what the sequential branch computes. On a
    well-formed network on which running the due routers one after the other
    succeeds, and with a team of [m_num_threads] workers: the networks in which
    the region can end, over all interleavings of the workers' instructions
    (router runs, atomic updates of the ring, pushes onto the deferred queues)
    and all answers of the shared [rand()], are exactly those in which the
    sequential branch can end over all answers of [rand()]; if every virtual
    network is ordered, so that routing never asks [rand()], this is one network;
    every execution of the region ends; and no worker ever fails or blocks. *)
Theorem parallel_equals_sequential cfg env period_of tick mask n :
  network_ok env period_of n → 0 ≤ mask < 2 ^ Z.of_nat (length (m_routers n)) →
  sequential_succeeds cfg env period_of mask tick n →
  (∀ n', parallel_branch cfg env period_of mask tick n n' ↔
     ∃ rnd, runRoutersFromMask cfg env period_of rnd mask tick n = Ok n') ∧
  (never_random cfg → ∃ n', ∀ n'', parallel_branch cfg env period_of mask tick n n'' ↔ n'' = n') ∧
  sn (region_step cfg env period_of tick) (region_start mask (with_active n true)) ∧
  (∀ c tid rnd, rtc (region_step cfg env period_of tick) (region_start mask (with_active n true)) c →
     conf_live tid c = true → ∃ c', conf_step cfg env period_of rnd tick tid c = Ok c').
Proof.
  intros Hok Hmask Hseq. pose proof (parallel_branch_outcomes cfg env period_of tick mask n Hok Hmask Hseq) as Hout.
  split_and!; [done| |apply region_terminates|intros c tid rnd; by apply region_progress].
  intros Hq. destruct (is_ok_ex _ (Hseq (fun _ _ => 0))) as [n' Hn']. exists n'. intros n''. rewrite Hout. split.
  - intros [rnd Hr]. rewrite (runRoutersFromMask_quiet _ Hq _ _ rnd (fun _ _ => 0)) in Hr. congruence.
  - intros ->. by eexists.
Qed.

(** Two routers, each with a packet on its input link and a wakeup due. *)
Definition ex_flit_link (h dest : Z) : NetworkLink :=
  with_linkBuffer (new_NetworkLink h 1 1 [] 128)
    {| m_buffer := [new_flit h 0 1 0
         {| vnet := 0; net_dest := ex_dest 4 0; src_ni := 0; src_router := 9; dest_ni := 2;
            dest_router := dest; hops_traversed := 0 |} 1 (Some h) 128 128 500];
       max_size := INFINITE_ |}.

Definition ex_port_router (id base : Z) : res (Router * Links) :=
  let ls := <[base := ex_flit_link base 7]> (<[base + 1 := new_NetworkLink (base + 1) 1 1 [] 128]>
    (<[base + 2 := new_NetworkLink (base + 2) 1 1 [] 128]>
    (<[base + 3 := new_NetworkLink (base + 3) 1 1 [] 128]> ∅))) in
  let* ' (r, ls) := addInPort "West" base (base + 1) (new_Router id 1 1 2 128) ls in
  let* ' (r, ls) := addOutPort ex_cfg "East" (base + 2) [ex_dest 4 0] 1 (base + 3) 2 r ls in
  Ok (set_consumer {| m_wakeup_ticks := [500]; m_wakeup_event := None |} (router_init r), ls).

Definition ex_pr (id base : Z) : Router * Links :=
  match ex_port_router id base with Ok p => p | Err _ => (new_Router 0 0 0 0 0, ∅) end.

Definition ex_two : GarnetNetwork :=
  {| n_ring := empty_ring; m_routers := [fst (ex_pr 0 0); fst (ex_pr 1 4)];
     n_links := snd (ex_pr 0 0) ∪ snd (ex_pr 1 4);
     n_consumers := gset_to_gmap new_Consumer (list_to_set (map ConsLink [1; 2; 5; 6]));
     m_deferred_schedules := [[]; []]; m_num_threads := 2; m_parallel_threshold := 2;
     m_thread_router_mask := [1; 2]; s_parallel_active := false; globalWakeupEvent := None |}.

Definition ex_two' : GarnetNetwork :=
  match runRoutersFromMask ex_cfg ex_clock (fun _ => 500) (fun _ _ => 0) 3 500 ex_two with
  | Ok n => n | Err _ => ex_two end.

Lemma ex_two_ok : network_ok ex_clock (fun _ => 500) ex_two.
Proof.
  split; [simpl; lia|simpl; lia|vm_compute; reflexivity|reflexivity|reflexivity| |].
  - assert (footprint (fst (ex_pr 0 0)) ## footprint (fst (ex_pr 1 4))) as Hd.
    { apply (bool_decide_unpack _). vm_compute. exact I. }
    intros [|[|i]] [|[|j]] ri rj Hi Hj Hne; simplify_eq/=; done.
  - split; [intros c; unfold clock_ok; simpl; lia|].
    intros c k Hk. apply lookup_gset_to_gmap_Some in Hk as [_ <-]. constructor.
Qed.

Lemma ex_cfg_quiet : never_random ex_cfg.
Proof. by repeat constructor. Qed.

Lemma ex_two_succeeds : sequential_succeeds ex_cfg ex_clock (fun _ => 500) 3 500 ex_two.
Proof.
  intros rnd. rewrite (runRoutersFromMask_quiet _ ex_cfg_quiet _ _ rnd (fun _ _ => 0)). vm_compute. reflexivity.
Qed.

Lemma parallel_equals_sequential_witness :
  parallel_branch ex_cfg ex_clock (fun _ => 500) 3 500 ex_two ex_two' ∧
  (∀ n'', parallel_branch ex_cfg ex_clock (fun _ => 500) 3 500 ex_two n'' → n'' = ex_two') ∧
  n_consumers ex_two' !! ConsLink 6 = Some {| m_wakeup_ticks := [1000]; m_wakeup_event := Some 1000 |}.
Proof.
  destruct (parallel_equals_sequential ex_cfg ex_clock (fun _ => 500) 500 3 ex_two ex_two_ok) as (Hout & Hone & _);
    [simpl; lia|exact ex_two_succeeds|].
  assert (parallel_branch ex_cfg ex_clock (fun _ => 500) 3 500 ex_two ex_two') as Hp.
  { apply Hout. exists (fun _ _ => 0). vm_compute. reflexivity. }
  destruct (Hone ex_cfg_quiet) as [n' Hn']. split; [exact Hp|]. split; [|vm_compute; reflexivity].
  intros n'' Hn''. apply Hn' in Hn'', Hp. congruence.
Defined.

(** The mask 3 runs the routers 0 and 1 of the example network, in that order. *)
Lemma runRoutersFromMask_order_witness :
  ∃ ids, lists_bits 3 ids ∧ fold_res (run_one ex_cfg ex_clock (fun _ => 500) (fun _ _ => 0) 500) ids ex_two = Ok ex_two'.
Proof.
  destruct (runRoutersFromMask_order ex_cfg ex_clock (fun _ => 500) (fun _ _ => 0) 500 3 ex_two)
    as (ids & Hids & Hrun); [unfold is_u64; lia|].
  exists ids. split; [exact Hids|]. rewrite <-Hrun. vm_compute. reflexivity.
Defined.

(** ** globalWakeup *)

(** The network at the head of [globalWakeup], after the slot is emptied. *)
Definition slot_taken (env : ClockEnv) (n : GarnetNetwork) : Z * GarnetNetwork :=
  let '(mask, ring) := take_slot (slot_index (clockPeriod env) (curTick env)) (n_ring n) in
  (mask, with_region n ring (m_routers n) (n_links n) (n_consumers n) (m_deferred_schedules n)).

(** [network_ok] does not depend on the ring. *)
Lemma network_ok_ring env period_of n ring :
  network_ok env period_of n →
  network_ok env period_of
    (with_region n ring (m_routers n) (n_links n) (n_consumers n) (m_deferred_schedules n)).
Proof. intros [? ? ? ? ? ? ?]. by split. Qed.

(** The outcomes of a global wakeup, whichever branch it takes. *)
Lemma globalWakeup_outcomes cfg env period_of n mask n0 :
  network_ok env period_of n → slot_taken env n = (mask, n0) →
  0 ≤ mask < 2 ^ Z.of_nat (length (m_routers n)) →
  sequential_succeeds cfg env period_of mask (curTick env) n0 →
  ∀ n', globalWakeup cfg env period_of n n' ↔
    ∃ rnd n1, runRoutersFromMask cfg env period_of rnd mask (curTick env) n0 = Ok n1 ∧
      n' = with_global_event n1
        (Some (computeNextWakeupTick (slot_index (clockPeriod env) (curTick env)) (curTick env)
                 (clockPeriod env) (n_ring n1))).
Proof.
  intros Hok Htake Hmask Hseq n'. unfold slot_taken in Htake.
  destruct (take_slot _ (n_ring n)) as [m ring] eqn:Et. simplify_eq.
  set (n0 := with_region n ring _ _ _ _) in *.
  pose proof (parallel_branch_outcomes cfg env period_of (curTick env) mask n0
    (network_ok_ring _ _ n ring Hok) Hmask Hseq) as Hpar.
  split.
  - intros [r' Hr'|rnd m' r' n2 Hr' Hm' _ Hs|m' r' n2 Hr' Hm' _ Hp]; rewrite Et in Hr'; simplify_eq.
    + by exists (fun _ _ => 0), n0.
    + by exists rnd, n2.
    + apply Hpar in Hp as [rnd Hs]. by exists rnd, n2.
  - intros (rnd & n1 & Hs & ->). destruct (decide (mask = 0)) as [->|Hne].
    { assert (n0 = n1) as <- by (unfold runRoutersFromMask in Hs; simpl in Hs; congruence). by apply gw_idle. }
    destruct ((m_num_threads n <=? 1) || (popcountll mask <? m_parallel_threshold n)) eqn:Eb.
    + by eapply gw_sequential.
    + eapply gw_parallel; [done|done|done|]. apply Hpar. by exists rnd.
Qed.

(** C2: A global wakeup does not depend on how it is executed. If running the
    routers of the current slot in order succeeds, then whatever the number of
    workers, the parallel threshold and the schedule, [globalWakeup] can end
    exactly in the networks in which the routers, run in ascending order under
    some answers of [rand()], leave it, with its event set to the next non-empty
    slot of that network. In particular two networks that differ only in the
    number of workers and the threshold have the same outcomes, and if every
    virtual network is ordered there is only one. *)
Theorem globalWakeup_deterministic cfg env period_of n mask n0 :
  network_ok env period_of n → slot_taken env n = (mask, n0) →
  0 ≤ mask < 2 ^ Z.of_nat (length (m_routers n)) →
  sequential_succeeds cfg env period_of mask (curTick env) n0 →
  (∀ n', globalWakeup cfg env period_of n n' ↔
    ∃ rnd n1, runRoutersFromMask cfg env period_of rnd mask (curTick env) n0 = Ok n1 ∧
      n' = with_global_event n1
        (Some (computeNextWakeupTick (slot_index (clockPeriod env) (curTick env)) (curTick env)
                 (clockPeriod env) (n_ring n1)))) ∧
  (never_random cfg → ∃ n', ∀ n'', globalWakeup cfg env period_of n n'' ↔ n'' = n').
Proof.
  intros Hok Htake Hmask Hseq.
  pose proof (globalWakeup_outcomes cfg env period_of n mask n0 Hok Htake Hmask Hseq) as Hout.
  split; [done|]. intros Hq. destruct (is_ok_ex _ (Hseq (fun _ _ => 0))) as [n1 Hn1]. eexists. intros n''. rewrite Hout. split.
  - intros (rnd & n2 & Hr & ->). rewrite (runRoutersFromMask_quiet _ Hq _ _ rnd (fun _ _ => 0)), Hn1 in Hr. injection Hr as <-. done.
  - intros ->. by exists (fun _ _ => 0), n1.
Qed.

Definition ex_two_due : GarnetNetwork :=
  with_region ex_two (registerWakeup 500 1 500 (registerWakeup 500 0 500 empty_ring))
    (m_routers ex_two) (n_links ex_two) (n_consumers ex_two) (m_deferred_schedules ex_two).

Definition ex_two_ran : GarnetNetwork :=
  match runRoutersFromMask ex_cfg ex_clock (fun _ => 500) (fun _ _ => 0) 3 500 (snd (slot_taken ex_clock ex_two_due)) with
  | Ok n => n | Err _ => ex_two end.

Lemma ex_two_due_succeeds :
  sequential_succeeds ex_cfg ex_clock (fun _ => 500) 3 500 (snd (slot_taken ex_clock ex_two_due)).
Proof.
  intros rnd. rewrite (runRoutersFromMask_quiet _ ex_cfg_quiet _ _ rnd (fun _ _ => 0)). vm_compute. reflexivity.
Qed.

Lemma globalWakeup_deterministic_witness :
  globalWakeup ex_cfg ex_clock (fun _ => 500) ex_two_due (with_global_event ex_two_ran (Some 1000)).
Proof.
  apply (globalWakeup_deterministic ex_cfg ex_clock (fun _ => 500) ex_two_due 3 (snd (slot_taken ex_clock ex_two_due))).
  - apply (network_ok_ring ex_clock (fun _ => 500) ex_two). exact ex_two_ok.
  - vm_compute. reflexivity.
  - simpl. lia.
  - exact ex_two_due_succeeds.
  - exists (fun _ _ => 0), ex_two_ran. split; [vm_compute; reflexivity|f_equal].
Defined.

(** ** The ring during a global wakeup

    What [ring_cycle] of the wakeup ring abstracts: a global wakeup does to the ring
    what [ring_cycle] does, for the registrations made by the routers it runs. *)

Section registrations.
Context (cfg : NetConfig) (env : ClockEnv) (period_of : consumer_ref → Z) (rnd : Z → Z → Z) (tick : Z).

(** The routers have ids with a bit in the mask and no calls left from before. *)
Definition router_named (r : Router) : Prop := 0 ≤ r_id (core r) < 64 ∧ r_effects (core r) = [].

(** The registrations among the calls of routers. *)
Definition regs_of (es : list effect) : list (Z * Z) :=
  omap (fun e => match e with RegisterWakeup id t => Some (id, t) | DeferOrSchedule _ _ => None end) es.

Lemma ring_all_regs es ring :
  ring_all env es ring = foldl (fun r '(id, u) => registerWakeup (clockPeriod env) id u r) ring (regs_of es).
Proof. revert ring. induction es as [|[id t|c t] es IH]; intros ring; simpl; [done|apply IH|apply IH]. Qed.

Lemma own_calls_regs id hs es : 0 ≤ id < 64 → Forall (own_call id hs) es → Forall reg_ok (regs_of es).
Proof.
  intros Hid. induction 1 as [|[i t|c t] es He _ IH]; simpl; [done| |done]. constructor; [|done]. unfold reg_ok; simpl in *; lia.
Qed.

Lemma service_named id rs ls rs' ls' es :
  Forall router_named rs → service cfg env period_of rnd tick id (rs, ls) = Ok (rs', ls', es) →
  Forall router_named rs' ∧ Forall reg_ok (regs_of es).
Proof.
  intros Hrs. unfold service. intros (r & Hr & ([[r1 ls1] e] & Hs & (rs1 & Hset & H)%rbind_ok)%rbind_ok)%rbind_ok.
  simplify_eq. apply vec_get_ok in Hr as [_ Hr]. pose proof (Forall_lookup_1 _ _ _ _ Hrs Hr) as [Hid He].
  enough (router_named r1 ∧ Forall reg_ok (regs_of es)) as [? ?].
  { split; [|done]. apply vec_set_ok in Hset as [_ ->]. by apply Forall_insert. }
  revert Hs. unfold service_router. destruct (tryConsumeTick tick (consumer_of r)) as [k due].
  destruct due; [|by intros [= <- <- <-]].
  intros ([r2 ls2] & [Hl Hc]%router_wakeup_calls & [= <- <- <-])%rbind_ok. simpl in Hc.
  destruct (Hc eq_refl) as (Hid2 & es2 & Ee2 & Hf). split; [by split; [simpl; rewrite Hid2|]|].
  simpl in Ee2. rewrite He in Ee2. rewrite Ee2. by eapply own_calls_regs.
Qed.

Lemma wake_all_named ids rs ls rs' ls' es :
  Forall router_named rs → wake_all cfg env period_of rnd tick ids rs ls = Ok (rs', ls', es) →
  Forall router_named rs' ∧ Forall reg_ok (regs_of es).
Proof.
  revert rs ls es. induction ids as [|id ids IH]; intros rs ls es Hrs; simpl; [by intros [= <- <- <-]|].
  intros ([[rs1 ls1] e1] & Hs & ([[rs2 ls2] e2] & Hw & H)%rbind_ok)%rbind_ok. simplify_eq.
  apply service_named in Hs as [Hrs1 He1]; [|done]. apply IH in Hw as [Hrs2 He2]; [|done].
  split; [done|]. unfold regs_of. rewrite omap_app. by apply Forall_app.
Qed.

End registrations.

(** A global wakeup is a turn of [ring_run] with the registrations [regs] of the
    routers it runs, it schedules itself at the tick [ring_cycle] computes, and
    leaves the routers ready for the next one. *)
Theorem globalWakeup_ring_cycle cfg env period_of n n' mask n0 :
  network_ok env period_of n → Forall router_named (m_routers n) → ring_inv (n_ring n) →
  slot_taken env n = (mask, n0) → 0 ≤ mask < 2 ^ Z.of_nat (length (m_routers n)) →
  sequential_succeeds cfg env period_of mask (curTick env) n0 →
  globalWakeup cfg env period_of n n' →
  ∃ regs next, Forall reg_ok regs ∧
    ring_cycle (clockPeriod env) regs (curTick env) (n_ring n) = (mask, next, n_ring n') ∧
    globalWakeupEvent n' = Some next ∧ Forall router_named (m_routers n').
Proof.
  intros Hok Hnamed Hring Htake Hmask Hseq Hgw.
  destruct (globalWakeup_outcomes cfg env period_of n mask n0 Hok Htake Hmask Hseq n') as [Hout _].
  destruct (Hout Hgw) as (rnd & n1 & Hrun & ->).
  unfold slot_taken in Htake. unfold ring_cycle. destruct (take_slot _ (n_ring n)) as [m ring]. simplify_eq.
  assert (is_u64 mask) as Hm64.
  { pose proof (no_size _ _ _ Hok). unfold is_u64. pose proof (Z.pow_le_mono_r 2 (Z.of_nat (length (m_routers n))) 64). lia. }
  unfold runRoutersFromMask in Hrun. rewrite run_mask_fold in Hrun by (done || apply mask_bits_length).
  apply run_all_split in Hrun as (rs & ls & es & cs & Hw & _ & ->).
  apply wake_all_named in Hw as [Hrs Hes]; [|done].
  exists (regs_of es). simpl. rewrite ring_all_regs. eexists. split_and!; [done|reflexivity|done|done].
Qed.
