(* ===== verification/Conservation.v ===== *)
(** * Conservation of flits in the whole network

    What a router wakeup conserves, [globalWakeup] conserves: sequentially and
    under every interleaving of the parallel workers. *)

From S2P Require Import Prelude IntMath Clocked Consumer WakeupRing NetDest Flit RoutingUnit VirtualChannel NetworkLink InputUnit OutputUnit SwitchAllocator Router RouterFrame Interleave GarnetNetwork Parallel.

(** The weight of the flits in all routers and on all links. *)
Definition stored_count (rl : list Router * Links) (p : mark → Z) : Z := lsum (router_count p) (fst rl) + links_count p (snd rl).
Definition network_count (p : mark → Z) (n : GarnetNetwork) : Z := stored_count (m_routers n, n_links n) p.
Abbreviation network_weight n := (fun p => network_count p n).

Section run.
Context (cfg : NetConfig) (env : ClockEnv) (period_of : consumer_ref → Z) (rnd : Z → Z → Z) (tick : Z).

Lemma service_router_count renv answers r ls r' ls' es :
  service_router cfg renv answers tick r ls = Ok (r', ls', es) →
  spends (fun p => router_count p r + links_count p ls) (fun p => router_count p r' + links_count p ls').
Proof.
  unfold service_router. destruct (tryConsumeTick tick (consumer_of r)) as [k due].
  destruct due; [|intros [= <- <- _]; by apply spends_eq]. intros ([r1 ls1] & Hw & [= <- <- _])%rbind_ok.
  exact (router_wakeup_spends _ _ _ _ _ _ _ Hw).
Qed.

Lemma service_count id rl rs' ls' es :
  service cfg env period_of rnd tick id rl = Ok (rs', ls', es) → spends (stored_count rl) (stored_count (rs', ls')).
Proof.
  destruct rl as [rs ls]. unfold service.
  intros (r & Hr & ([[r1 ls1] es1] & Hs & (rs1 & Hset & [= <- <- _])%rbind_ok)%rbind_ok)%rbind_ok.
  apply service_router_count in Hs. eapply spends_diff; [|exact Hs]. intros p _. unfold stored_count. simpl.
  rewrite (lsum_vec_set (router_count p) _ _ _ _ _ Hr Hset). lia.
Qed.

Lemma run_one_count id n n' : run_one cfg env period_of rnd tick id n = Ok n' → spends (network_weight n) (network_weight n').
Proof.
  unfold run_one. intros ([[rs ls] es] & Hs & ([ring cs] & _ & [= <-])%rbind_ok)%rbind_ok.
  by apply service_count in Hs.
Qed.

Lemma run_mask_count fuel : ∀ mask n n',
  run_mask cfg env period_of rnd fuel mask tick n = Ok n' → spends (network_weight n) (network_weight n').
Proof.
  induction fuel as [|fuel IH]; intros mask n n'; simpl; [intros [= <-]; by apply spends_eq|].
  destruct (mask =? 0); [intros [= <-]; by apply spends_eq|]. intros (n1 & H1 & H2)%rbind_ok.
  eapply spends_trans; [by eapply run_one_count|by eapply IH].
Qed.

(** The shared state of the region. *)
Definition region_count (g : Region) : (mark → Z) → Z := stored_count (g_routers g, g_links g).

Lemma conf_step_count tid c c' :
  conf_step cfg env period_of rnd tick tid c = Ok c' → spends (region_count (snd c)) (region_count (snd c')).
Proof.
  unfold conf_step. destruct (fst c !! tid) as [[|i rest]|]; [done| |done].
  intros ([new g] & He & [= <-])%rbind_ok. simpl. destruct i; simpl in He; [|simplify_eq; by apply spends_eq..|].
  - apply rbind_ok in He as ([[rs ls] es] & Hs & [= _ <-]). by apply service_count in Hs.
  - destruct (g_deferred (snd c) !! tid); simplify_eq; by apply spends_eq.
Qed.

End run.

Lemma parallel_branch_count cfg env period_of tick mask n n' :
  parallel_branch cfg env period_of mask tick n n' → spends (network_weight n) (network_weight n').
Proof.
  intros [ps g n1 Hsteps _ (cs & _ & [= <-])%rbind_ok]. change (spends (region_count (snd (region_start mask (with_active n true)))) (region_count (snd (ps, g)))).
  induction Hsteps as [c|c c1 c2 (tid & rnd & Hstep) _ IH]; [by apply spends_eq|].
  eapply spends_trans; [by eapply conf_step_count|exact IH].
Qed.

(** A global wakeup changes the weight of the network by the credits its routers
    consume. *)
Lemma globalWakeup_spends cfg env period_of n n' :
  globalWakeup cfg env period_of n n' → spends (network_weight n) (network_weight n').
Proof.
  intros [ring _|rnd mask ring n1 _ _ _ Hrun|mask ring n1 _ _ _ Hpar]; [by apply spends_eq|..].
  - exact (run_mask_count cfg env period_of rnd (curTick env) 64 _ _ _ Hrun).
  - exact (parallel_branch_count cfg env period_of (curTick env) _ _ _ Hpar).
Qed.

(** C7: no flit is lost or duplicated by a global wakeup: whatever the number of
    workers, however their instructions are interleaved and whatever [rand()] answers,
    for every predicate
    on flit identities (packet, position, vnet, type, message, size, width) the
    number of data flits that satisfy it, in all routers and on all links
    together, is the same before and after. *)
Theorem globalWakeup_conserves cfg env period_of n n' q :
  globalWakeup cfg env period_of n n' → network_count (data_class q) n' = network_count (data_class q) n.
Proof. intros H%globalWakeup_spends. exact (spends_data q _ _ H). Qed.

(** The two routers of the example, run by two workers, take the two flits from
    their input links. *)
Lemma globalWakeup_conserves_witness :
  network_count (data_class (fun _ => true)) ex_two_due = 2 ∧
  network_count (data_class (fun _ => true)) (with_global_event ex_two_ran (Some 1000)) = network_count (data_class (fun _ => true)) ex_two_due ∧
  links_count (data_class (fun _ => true)) (n_links ex_two_ran) = 0.
Proof.
  split; [vm_compute; reflexivity|]. split; [|vm_compute; reflexivity].
  apply (globalWakeup_conserves ex_cfg ex_clock (fun _ => 500)).
  change (with_global_event ex_two_ran (Some 1000)) with (with_global_event ex_two_ran
    (Some (computeNextWakeupTick (slot_index (clockPeriod ex_clock) (curTick ex_clock)) (curTick ex_clock)
             (clockPeriod ex_clock) (n_ring ex_two_ran)))).
  apply (gw_parallel ex_cfg ex_clock (fun _ => 500) ex_two_due 3
    (n_ring (snd (slot_taken ex_clock ex_two_due))) ex_two_ran).
  - vm_compute. reflexivity.
  - lia.
  - vm_compute. reflexivity.
  - apply (parallel_branch_outcomes ex_cfg ex_clock (fun _ => 500) 500 3).
    + apply (network_ok_ring ex_clock (fun _ => 500) ex_two). exact ex_two_ok.
    + simpl. lia.
    + exact ex_two_due_succeeds.
    + exists (fun _ _ => 0). vm_compute. reflexivity.
Defined.
