(* ===== verification/CreditFlow.v ===== *)
(** * Credits and buffers around a router

    Flow control in the network rests on counting: an output port may send on a
    virtual channel only while it holds a credit, and every credit stands for a
    free place in the input buffer at the other end of the link. This file
    follows one virtual channel [v] through a router. For an output port it adds
    up the credits in hand, the flits on their way to the port inside the
    crossbar and the flits in the port's buffer; for an input port the flits in
    the channel's buffer and the credits waiting to go back. A wakeup of the
    router leaves the first sum, with the credits on the port's credit link, and
    the second sum, with the flits on the port's input link, as they are. *)

From S2P Require Import Prelude IntMath Clocked Consumer NetDest Flit RoutingUnit VirtualChannel NetworkLink InputUnit OutputUnit SwitchAllocator Router RouterFrame.

(** ** Counting *)

(** The value [g] of the entry at [i], 0 out of range. *)
Definition vat {A} (g : A → Z) (l : list A) (i : Z) : Z :=
  match vec_get l i with Ok x => g x | Err _ => 0 end.

Lemma vat_get {A} (g : A → Z) l i x : vec_get l i = Ok x → vat g l i = g x.
Proof. unfold vat. by intros ->. Qed.

Lemma vat_set {A} (g : A → Z) l j x y l' i :
  vec_get l j = Ok x → vec_set l j y = Ok l' →
  vat g l' i = vat g l i + (if j =? i then g y - g x else 0).
Proof.
  intros Hx Hs. unfold vat. destruct (Z.eqb_spec j i) as [<-|Hne].
  - rewrite (vec_get_set_eq _ _ _ _ Hs), Hx. lia.
  - rewrite (vec_get_set_ne _ _ _ _ _ Hs Hne). lia.
Qed.

Lemma vat_upd {A} (g : A → Z) l j f l' i d :
  (∀ x y, vec_get l j = Ok x → f x = Ok y → g y = g x + d) → vec_upd l j f = Ok l' →
  vat g l' i = vat g l i + (if j =? i then d else 0).
Proof.
  intros Hd. unfold vec_upd. intros (x & Hx & (y & Hy & Hs)%rbind_ok)%rbind_ok.
  rewrite (vat_set g _ _ _ _ _ i Hx Hs), (Hd x y Hx Hy). zcase; lia.
Qed.

Section channel.
(** The virtual channel. *)
Context (v : Z).

Definition on_vc (f : flit) : Z := Z.b2z (m_vc f =? v).
Definition vc_count (b : flitBuffer) : Z := lsum on_vc (m_buffer b).

(** The flits on channel [v] bound for output port [o]. *)
Definition bound_for (o : Z) (f : flit) : Z :=
  match m_outport f with Some o' => if o' =? o then on_vc f else 0 | None => 0 end.

Definition buffered (c : VirtualChannel) : Z := Z.of_nat (length (m_buffer (inputBuffer c))).

(** What an input unit holds of the channel: buffered flits and waiting credits. *)
Definition iu_held (u : InputUnit) : Z := vat buffered (virtualChannels u) v + vc_count (creditQueue u).

(** What an output unit holds: credits and flits in its buffer. *)
Definition ou_held (o : OutputUnit) : Z := vat m_credit_count (outVcState o) v + vc_count (outBuffer o).

Definition in_held (i : Z) (r : Router) : Z := vat iu_held (m_input_unit r) i.
Definition crossing (o : Z) (x : CrossbarSwitch) : Z := lsum (fun b => lsum (bound_for o) (m_buffer b)) (switchBuffers x).
Definition out_held (o : Z) (r : Router) : Z := vat ou_held (m_output_unit r) o + crossing o (crossbarSwitch r).

Definition on_link (h : Z) (ls : Links) : Z :=
  match ls !! h with Some l => vc_count (linkBuffer l) | None => 0 end.

Lemma vc_count_insert f b : vc_count (insert f b) = vc_count b + on_vc f.
Proof. unfold vc_count. simpl. rewrite lsum_app. simpl. lia. Qed.

Lemma vc_count_getTop b f b' : getTopFlit b = Ok (f, b') → vc_count b = on_vc f + vc_count b'.
Proof. unfold getTopFlit, vc_count. destruct (m_buffer b); intros; by simplify_eq/=. Qed.

Lemma on_vc_range f : 0 ≤ on_vc f ≤ 1.
Proof. unfold on_vc. destruct (_ =? _); simpl; lia. Qed.

Lemma vc_count_nonneg b : 0 ≤ vc_count b.
Proof. unfold vc_count. induction (m_buffer b) as [|f l IH]; simpl; [lia|]. pose proof (on_vc_range f). lia. Qed.

Lemma on_link_insert h h' l l' ls :
  ls !! h = Some l →
  on_link h' (<[h := l']> ls)
    = on_link h' ls + (if h =? h' then vc_count (linkBuffer l') - vc_count (linkBuffer l) else 0).
Proof.
  intros Hl. unfold on_link. destruct (Z.eqb_spec h h') as [<-|Hne].
  - rewrite lookup_insert_eq, Hl. lia.
  - rewrite lookup_insert_ne by done. lia.
Qed.

Lemma get_link_some h ls l : get_link h ls = Ok l → ls !! h = Some l.
Proof. unfold get_link. destruct (ls !! h); naive_solver. Qed.

(** ** Replacing a unit *)

Lemma set_input_held r j u u' r' i :
  vec_get (m_input_unit r) j = Ok u → set_input r j u' = Ok r' →
  in_held i r' = in_held i r + (if j =? i then iu_held u' - iu_held u else 0).
Proof.
  unfold set_input. intros Hu (us & Hs & [= <-])%rbind_ok. unfold in_held. simpl. by eapply vat_set.
Qed.

Lemma set_input_out r j u' r' o : set_input r j u' = Ok r' → out_held o r' = out_held o r.
Proof. unfold set_input. by intros (us & Hs & [= <-])%rbind_ok. Qed.

Lemma set_output_held r j u u' r' o :
  vec_get (m_output_unit r) j = Ok u → set_output r j u' = Ok r' →
  out_held o r' = out_held o r + (if j =? o then ou_held u' - ou_held u else 0).
Proof.
  unfold set_output. intros Hu (us & Hs & [= <-])%rbind_ok. unfold out_held. simpl.
  rewrite (vat_set ou_held _ _ _ _ _ o Hu Hs). lia.
Qed.

Lemma set_output_in r j u' r' i : set_output r j u' = Ok r' → in_held i r' = in_held i r.
Proof. unfold set_output. by intros (us & Hs & [= <-])%rbind_ok. Qed.

Lemma upd_vc_held vc g u u' d :
  (∀ c c', g c = Ok c' → buffered c' = buffered c + d) → upd_vc vc g u = Ok u' →
  iu_held u' = iu_held u + (if vc =? v then d else 0).
Proof.
  intros Hg. unfold upd_vc. intros (vcs & Hv & [= <-])%rbind_ok. unfold iu_held. simpl.
  rewrite (vat_upd buffered _ _ _ _ v d (fun x y _ => Hg x y) Hv). lia.
Qed.

Lemma upd_vc_same vc g u u' :
  (∀ c c', g c = Ok c' → inputBuffer c' = inputBuffer c) → upd_vc vc g u = Ok u' → iu_held u' = iu_held u.
Proof.
  intros Hg Hu. apply (upd_vc_held _ _ _ _ 0) in Hu; [|intros c c' Hc; unfold buffered; rewrite (Hg c c' Hc); lia].
  rewrite Hu. zcase; lia.
Qed.

Lemma upd_ovc_held vc g o o' d :
  (∀ s s', g s = Ok s' → m_credit_count s' = m_credit_count s + d) → upd_ovc vc g o = Ok o' →
  ou_held o' = ou_held o + (if vc =? v then d else 0).
Proof.
  intros Hg. unfold upd_ovc. intros (s & Hs & [= <-])%rbind_ok. unfold ou_held. simpl.
  rewrite (vat_upd m_credit_count _ _ _ _ v d (fun x y _ => Hg x y) Hs). lia.
Qed.

Lemma set_vc_state_held st vc t o o' : set_vc_state st vc t o = Ok o' → ou_held o' = ou_held o.
Proof.
  intros H. apply (upd_ovc_held _ _ _ _ 0) in H; [|intros ?? [= <-]; simpl; lia]. rewrite H. zcase; lia.
Qed.

(** ** Units *)

Lemma consumeLink_vc l f l' : consumeLink l = Ok (f, l') → vc_count (linkBuffer l) = on_vc f + vc_count (linkBuffer l').
Proof.
  unfold consumeLink. intros ([f0 b] & Hb & H)%rbind_ok. simplify_eq/=. by apply vc_count_getTop in Hb.
Qed.

Lemma admit_flit_held cfg env rnd f c u c' u' : admit_flit cfg env rnd f c u = Ok (c', u') → iu_held u' = iu_held u.
Proof.
  unfold admit_flit. intros (s & _ & H)%rbind_ok.
  destruct (_ || _); apply rbind_ok in H as (_ & _ & H); [|by simplify_eq].
  apply rbind_ok in H as (u1 & H1 & H). apply rbind_ok in H as ([o c1] & _ & H).
  apply rbind_ok in H as (u2 & H2 & H). simplify_eq.
  apply upd_vc_same in H1; [|by intros ?? [= <-]]. apply upd_vc_same in H2; [|by intros ?? [= <-]]. congruence.
Qed.

(** A flit goes from the link to the buffer of its channel. *)
Lemma input_wakeup_held cfg env rnd c u l c' u' l' :
  input_wakeup cfg env rnd c u l = Ok (c', u', l') →
  iu_held u' + vc_count (linkBuffer l') = iu_held u + vc_count (linkBuffer l).
Proof.
  unfold input_wakeup. destruct (link_isReady _ l); [|intros; by simplify_eq].
  intros ([f l1] & Hc%consumeLink_vc & (_ & _ & H)%rbind_ok)%rbind_ok. cbv zeta in H.
  apply rbind_ok in H as ([c1 u1] & Ha%admit_flit_held & H). apply rbind_ok in H as ([f2 c2] & Hs & H).
  apply rbind_ok in H as (u2 & Hu & H). inv_res.
  apply (upd_vc_held _ _ _ _ 1) in Hu.
  - change (iu_held (with_stats u2 _ _ _ _)) with (iu_held u2). rewrite Hu, Hc, Ha. unfold on_vc.
    change (m_vc (increment_hops f)) with (m_vc f). zcase; simpl; lia.
  - intros ch ch' [= <-]. unfold buffered. simpl. rewrite length_app. simpl. lia.
Qed.

(** A credit is taken from the link. *)
Lemma output_wakeup_held env j c o l c' o' l' :
  output_wakeup env j c o l = Ok (c', o', l') →
  ou_held o' + vc_count (linkBuffer l') = ou_held o + vc_count (linkBuffer l).
Proof.
  unfold output_wakeup. destruct (link_isReady _ l); [|intros; by simplify_eq].
  intros ([f l1] & Hc%consumeLink_vc & (o1 & Ho1 & (free & _ & (o2 & Ho2 & H)%rbind_ok)%rbind_ok)%rbind_ok)%rbind_ok.
  simplify_eq. apply (upd_ovc_held _ _ _ _ 1) in Ho1.
  - assert (ou_held o' = ou_held o1) as ->.
    { destruct free; [by eapply set_vc_state_held|by simplify_eq]. }
    rewrite Ho1, Hc. unfold on_vc. zcase; simpl; lia.
  - intros s s'. unfold ovc_increment_credit. intros. inv_res. done.
Qed.

(** ** Ports *)

Lemma wake_input_held cfg env rnd j r ls r' ls' :
  wake_input cfg env rnd j (r, ls) = Ok (r', ls') →
  ∃ u d, vec_get (m_input_unit r) j = Ok u ∧
    (∀ i, in_held i r' = in_held i r + (if j =? i then d else 0)) ∧
    (∀ h, on_link h ls' = on_link h ls - (if iu_in_link u =? h then d else 0)) ∧
    (∀ o, out_held o r' = out_held o r).
Proof.
  unfold wake_input. intros (u & Hu & (l & Hl%get_link_some & ([[c u'] l'] & Hw & H)%rbind_ok)%rbind_ok)%rbind_ok.
  apply rbind_ok in H as (r1 & Hs & H). simplify_eq. apply input_wakeup_held in Hw.
  exists u, (iu_held u' - iu_held u). split; [done|]. split_and!.
  - intros i. by rewrite (set_input_held _ _ _ _ _ i (Hu : vec_get (m_input_unit (with_core_of r c)) j = Ok u) Hs).
  - intros h. rewrite (on_link_insert _ _ _ _ _ Hl). zcase; lia.
  - intros o. by rewrite (set_input_out _ _ _ _ o Hs).
Qed.

Lemma wake_output_held env j r ls r' ls' :
  wake_output env j (r, ls) = Ok (r', ls') →
  ∃ u d, vec_get (m_output_unit r) j = Ok u ∧
    (∀ o, out_held o r' = out_held o r + (if j =? o then d else 0)) ∧
    (∀ h, on_link h ls' = on_link h ls - (if ou_credit_link u =? h then d else 0)) ∧
    (∀ i, in_held i r' = in_held i r).
Proof.
  unfold wake_output. intros (u & Hu & (l & Hl%get_link_some & ([[c u'] l'] & Hw & H)%rbind_ok)%rbind_ok)%rbind_ok.
  apply rbind_ok in H as (r1 & Hs & H). simplify_eq. apply output_wakeup_held in Hw.
  exists u, (ou_held u' - ou_held u). split; [done|]. split_and!.
  - intros o. by rewrite (set_output_held _ _ _ _ _ o (Hu : vec_get (m_output_unit (with_core_of r c)) j = Ok u) Hs).
  - intros h. rewrite (on_link_insert _ _ _ _ _ Hl). zcase; lia.
  - intros i. by rewrite (set_output_in _ _ _ _ i Hs).
Qed.

(** ** Switch allocation and crossbar *)

Lemma vc_allocate_held env outport inport invc r outvc r' :
  vc_allocate env outport inport invc r = Ok (outvc, r') →
  (∀ o, out_held o r' = out_held o r) ∧ (∀ i, in_held i r' = in_held i r).
Proof.
  unfold vc_allocate. intros (o & Ho%getOutputUnit_ok & (vn & _ & ([vc o'] & Hsel & H)%rbind_ok)%rbind_ok)%rbind_ok.
  assert (ou_held o' = ou_held o) as Ho'.
  { unfold select_free_vc in Hsel. apply rbind_ok in Hsel as (w & _ & Hsel). destruct w; [|by simplify_eq].
    apply rbind_ok in Hsel as (o1 & Ho1 & Hsel). simplify_eq. by eapply set_vc_state_held. }
  apply rbind_ok in H as (r1 & Hr1 & H). apply rbind_ok in H as (_ & _ & H).
  apply rbind_ok in H as (u & Hu%getInputUnit_ok & H). apply rbind_ok in H as (u' & Hu' & H).
  apply rbind_ok in H as (r2 & Hr2 & H). simplify_eq.
  apply upd_vc_same in Hu'; [|by intros ?? [= <-]]. split.
  - intros p. rewrite (set_input_out _ _ _ _ _ Hr2), (set_output_held _ _ _ _ _ p Ho Hr1). zcase; lia.
  - intros p. rewrite (set_input_held _ _ _ _ _ p Hu Hr2), (set_output_in _ _ _ _ _ Hr1). zcase; lia.
Qed.

Lemma iu_getTopFlit_held vc u f u' :
  iu_getTopFlit vc u = Ok (f, u') → iu_held u' = iu_held u - (if vc =? v then 1 else 0).
Proof.
  unfold iu_getTopFlit, vc_getTopFlit. intros (c & Hc & ([f0 c'] & Ht & (vcs & Hs & H)%rbind_ok)%rbind_ok)%rbind_ok.
  apply rbind_ok in Ht as ([f1 b] & Hb & Ht). simplify_eq/=. unfold iu_held. simpl.
  rewrite (vat_set buffered _ _ _ _ _ v Hc Hs). unfold buffered, getTopFlit in *. simpl.
  destruct (m_buffer (inputBuffer c)) as [|f1 l] eqn:E; [done|]. simplify_eq/=. zcase; lia.
Qed.

Lemma grant_switch_held inport f r r' :
  grant_switch inport f r = Ok r' →
  (∀ o, out_held o r' = out_held o r + bound_for o f) ∧ (∀ i, in_held i r' = in_held i r).
Proof.
  unfold grant_switch. intros (bufs & Hb & [= <-])%rbind_ok. split; [|done]. intros o.
  unfold out_held, crossing. simpl.
  destruct (lsum_vec_upd (fun b => lsum (bound_for o) (m_buffer b)) _ _ _ _ Hb) as (b & b' & _ & [= <-] & ->).
  simpl. rewrite lsum_app. simpl. lia.
Qed.

Lemma release_vc_held env inport invc f r r' :
  release_vc env inport invc f r = Ok r' →
  (∀ o, out_held o r' = out_held o r) ∧
  (∀ i, in_held i r' = in_held i r + (if inport =? i then if invc =? v then 1 else 0 else 0)).
Proof.
  unfold release_vc. intros (u & Hu%getInputUnit_ok & H)%rbind_ok.
  assert (∀ free u', iu_held (snd (increment_credit env invc free (curTick env) (core r) u'))
            = iu_held u' + (if invc =? v then 1 else 0)) as Hinc.
  { intros free u'. unfold increment_credit, iu_held. simpl. rewrite vc_count_insert.
    unfold on_vc. simpl. zcase; simpl; lia. }
  assert (∃ u' c, set_input (with_core_of r c) inport u' = Ok r' ∧
            iu_held u' = iu_held u + (if invc =? v then 1 else 0)) as (u' & c & Hs & Hu').
  { destruct (is_tail f).
    - apply rbind_ok in H as (b & _ & H). apply rbind_ok in H as (_ & _ & H).
      apply rbind_ok in H as (u1 & Hu1 & H). apply upd_vc_same in Hu1; [|by intros ?? [= <-]].
      eexists _, _. split; [exact H|]. rewrite <-Hu1. apply (Hinc true).
    - eexists _, _. split; [exact H|]. apply (Hinc false). }
  split.
  - intros o. by rewrite (set_input_out _ _ _ _ o Hs).
  - intros i. rewrite (set_input_held _ _ _ _ _ i (Hu : vec_get (m_input_unit (with_core_of r c)) inport = Ok u) Hs), Hu'.
    unfold in_held. simpl. repeat zcase; lia.
Qed.

Lemma grant_held env outport inport r r' :
  grant env outport inport r = Ok r' →
  (∀ o, out_held o r' = out_held o r) ∧ (∀ i, in_held i r' = in_held i r).
Proof.
  unfold grant. intros (o & Ho & (u & Hu & (invc & Hw & (outvc & Hov & H)%rbind_ok)%rbind_ok)%rbind_ok)%rbind_ok.
  apply rbind_ok in H as ([ovc r1] & Halloc & H).
  assert ((∀ o, out_held o r1 = out_held o r) ∧ (∀ i, in_held i r1 = in_held i r)) as [Ho1 Hi1].
  { destruct (outvc =? -1); [by eapply vc_allocate_held|by simplify_eq]. }
  apply rbind_ok in H as (u1 & Hu1%getInputUnit_ok & H). apply rbind_ok in H as ([f u2] & Hf%iu_getTopFlit_held & H).
  apply rbind_ok in H as (r2 & Hr2 & H). cbv zeta in H.
  apply rbind_ok in H as (o1 & Hou1%getOutputUnit_ok & H). apply rbind_ok in H as (o2 & Hou2 & H).
  apply rbind_ok in H as (r3 & Hr3 & H). apply rbind_ok in H as (r4 & Hr4 & H).
  apply rbind_ok in H as (r5 & Hr5 & H). apply rbind_ok in H as (s & _ & H). simplify_eq.
  apply (upd_ovc_held _ _ _ _ (-1)) in Hou2.
  2:{ intros s0 s1. unfold ovc_decrement_credit. intros. inv_res. simpl. lia. }
  apply grant_switch_held in Hr4 as [Ho4 Hi4]. apply release_vc_held in Hr5 as [Ho5 Hi5]. split.
  - intros p. change (out_held p (with_sa r5 s)) with (out_held p r5).
    rewrite Ho5, Ho4, (set_output_held _ _ _ _ _ p Hou1 Hr3), (set_input_out _ _ _ _ _ Hr2), Ho1, Hou2.
    unfold bound_for, on_vc. simpl. repeat zcase; simpl; lia.
  - intros p. change (in_held p (with_sa r5 s)) with (in_held p r5).
    rewrite Hi5, Hi4, (set_output_in _ _ _ _ _ Hr3), (set_input_held _ _ _ _ _ p Hu1 Hr2), Hi1, Hf.
    repeat zcase; lia.
Qed.

Lemma sa_wakeup_held cfg env r r' :
  sa_wakeup cfg env r = Ok r' →
  (∀ o, out_held o r' = out_held o r) ∧ (∀ i, in_held i r' = in_held i r).
Proof.
  set (P t := (∀ o, out_held o t = out_held o r) ∧ (∀ i, in_held i t = in_held i r)).
  unfold sa_wakeup. intros (r1 & H1 & (r2 & H2 & H)%rbind_ok)%rbind_ok.
  assert (P r1) as Hr1.
  { apply (for_range_inv (fun _ => P)) in H1; [done|done|].
    intros i t t' _ Ht. unfold arbitrate_inport. intros (c & _ & (w & _ & Hw)%rbind_ok)%rbind_ok.
    destruct w as [[invc o]|]; [|by simplify_eq]. by inv_res. }
  assert (P r2) as Hr2.
  { apply (for_range_inv (fun _ => P)) in H2; [done|done|].
    intros i t t' _ [Ht1 Ht2]. unfold arbitrate_outport. intros (c & _ & (w & _ & Hw)%rbind_ok)%rbind_ok.
    destruct w as [inport|]; [|by simplify_eq]. apply grant_held in Hw as [Hw1 Hw2].
    split; intros p; [by rewrite Hw1|by rewrite Hw2]. }
  unfold check_for_wakeup in H. destruct (alreadyScheduled _ _); [by simplify_eq|].
  apply rbind_ok in H as (b & _ & H). destruct b; by simplify_eq.
Qed.

Lemma xbar_port_held env j r r' :
  xbar_port env j r = Ok r' →
  (∀ o, out_held o r' = out_held o r) ∧ (∀ i, in_held i r' = in_held i r).
Proof.
  unfold xbar_port. intros (b & Hb & H)%rbind_ok. destruct (negb _); [by simplify_eq|].
  apply rbind_ok in H as (f & Hf & H). destruct (is_stage _ _ f); [|by simplify_eq].
  apply rbind_ok in H as (outport & Hop & H). cbv zeta in H.
  apply rbind_ok in H as (o & Ho%getOutputUnit_ok & H). cbn [insert_flit] in H.
  apply rbind_ok in H as (r1 & Hr1 & H). apply rbind_ok in H as ([f' b'] & Hb' & H).
  apply rbind_ok in H as (bufs & Hbufs & H). simplify_eq. split; intros p.
  - unfold out_held at 1, crossing. simpl.
    rewrite (lsum_vec_set (fun b => lsum (bound_for p) (m_buffer b)) _ _ _ _ _ Hb Hbufs).
    pose proof (set_output_held (with_core_of r _) _ _ _ _ p Ho Hr1) as Hh.
    unfold set_output in Hr1. apply rbind_ok in Hr1 as (os & Hos & [= <-]).
    unfold out_held, crossing in *. simpl in *.
    match type of Hh with _ = _ + (if _ then ou_held ?o' - _ else _) =>
      assert (ou_held o' = ou_held o + on_vc f) as Ho' by (unfold ou_held; simpl; rewrite vc_count_insert; unfold on_vc; simpl; lia)
    end. rewrite Ho' in Hh.
    unfold peekTopFlit in Hf. unfold getTopFlit in Hb'. destruct (m_buffer b) as [|f0 rest]; [done|]. simplify_eq/=.
    assert (bound_for p f = if outport =? p then on_vc f else 0) as ->.
    { unfold bound_for. destruct (m_outport f); [by simplify_eq|done]. }
    revert Hh. zcase; lia.
  - by rewrite <-(set_output_in _ _ _ _ p Hr1 : in_held p r1 = in_held p r).
Qed.

Lemma xbar_wakeup_held env r r' :
  xbar_wakeup env r = Ok r' → (∀ o, out_held o r' = out_held o r) ∧ (∀ i, in_held i r' = in_held i r).
Proof.
  intros H. apply (for_range_inv (fun _ t => (∀ o, out_held o t = out_held o r) ∧ (∀ i, in_held i t = in_held i r))) in H;
    [done|done|].
  intros j t t' _ [Ht1 Ht2] [H1 H2]%xbar_port_held. split; intros p; [by rewrite H1|by rewrite H2].
Qed.

End channel.

(** ** A wakeup of the router *)

(** Input port [i] of the router reads link [h], and no other port does; output
    port [o] takes its credits from [h], and no other port does. *)
Definition sole_in (i : nat) (h : Z) (r : Router) : Prop :=
  (∀ j, in_links r !! j = Some h ↔ j = i) ∧ h ∉ in_credits r.
Definition sole_credit (o : nat) (h : Z) (r : Router) : Prop :=
  (∀ j, in_credits r !! j = Some h ↔ j = o) ∧ h ∉ in_links r.

Lemma sole_in_ports i h r r' : same_ports r r' → sole_in i h r → sole_in i h r'.
Proof. intros (E1 & E2 & _). unfold sole_in. by rewrite E1, E2. Qed.
Lemma sole_credit_ports o h r r' : same_ports r r' → sole_credit o h r → sole_credit o h r'.
Proof. intros (E1 & E2 & _). unfold sole_credit. by rewrite E1, E2. Qed.

Lemma in_links_get r j u : vec_get (m_input_unit r) j = Ok u → 0 ≤ j ∧ in_links r !! Z.to_nat j = Some (iu_in_link u).
Proof.
  intros [Hj Hu]%vec_get_ok. split; [done|]. unfold in_links. change (map ?f ?l) with (f <$> l).
  by rewrite list_lookup_fmap, Hu.
Qed.

Lemma in_credits_get r j o : vec_get (m_output_unit r) j = Ok o → 0 ≤ j ∧ in_credits r !! Z.to_nat j = Some (ou_credit_link o).
Proof.
  intros [Hj Hu]%vec_get_ok. split; [done|]. unfold in_credits. change (map ?f ?l) with (f <$> l).
  by rewrite list_lookup_fmap, Hu.
Qed.

Lemma sole_in_iff i h r j u :
  sole_in i h r → vec_get (m_input_unit r) j = Ok u → (iu_in_link u =? h) = (j =? Z.of_nat i).
Proof.
  intros [Hin _] [Hj Hu]%in_links_get. apply eq_bool_prop_intro.
  rewrite !Is_true_true, !Z.eqb_eq. split.
  - intros <-. apply Hin in Hu. lia.
  - intros ->. rewrite Nat2Z.id in Hu. rewrite (proj2 (Hin i) eq_refl) in Hu. by simplify_eq.
Qed.

Lemma sole_credit_iff i h r j u :
  sole_credit i h r → vec_get (m_output_unit r) j = Ok u → (ou_credit_link u =? h) = (j =? Z.of_nat i).
Proof.
  intros [Hin _] [Hj Hu]%in_credits_get. apply eq_bool_prop_intro.
  rewrite !Is_true_true, !Z.eqb_eq. split.
  - intros <-. apply Hin in Hu. lia.
  - intros ->. rewrite Nat2Z.id in Hu. rewrite (proj2 (Hin i) eq_refl) in Hu. by simplify_eq.
Qed.

(** The two sums, at an input port and at an output port. *)
Definition in_balance (v : Z) (i : nat) (h : Z) (s : Router * Links) : Z :=
  in_held v (Z.of_nat i) (fst s) + on_link v h (snd s).
Definition out_balance (v : Z) (o : nat) (h : Z) (s : Router * Links) : Z :=
  out_held v (Z.of_nat o) (fst s) + on_link v h (snd s).

(** A step that keeps the ports and both sums. *)
Definition keeps_balance (s s' : Router * Links) : Prop :=
  same_ports (fst s) (fst s') ∧ same_ends (snd s) (snd s') ∧
  (∀ h, h ∉ footprint (fst s) → snd s' !! h = snd s !! h) ∧
  ∀ v, (∀ i h, sole_in i h (fst s) → in_balance v i h s' = in_balance v i h s) ∧
       (∀ o h, sole_credit o h (fst s) → out_balance v o h s' = out_balance v o h s).

#[export] Instance keeps_balance_preorder : PreOrder keeps_balance.
Proof.
  split; [done|]. intros s1 s2 s3 (Hp1 & He1 & Hf1 & H1) (Hp2 & He2 & Hf2 & H2).
  split; [by etrans|]. split; [by etrans|]. split.
  { intros h Hh. rewrite Hf2, Hf1; [done|done|]. by rewrite (same_ports_footprint _ _ Hp1). }
  intros v.
  destruct (H1 v) as [Hi1 Ho1], (H2 v) as [Hi2 Ho2]. split; intros p h Hs.
  - rewrite Hi2, Hi1; [done|done|by eapply sole_in_ports].
  - rewrite Ho2, Ho1; [done|done|by eapply sole_credit_ports].
Qed.

Lemma wake_input_balance cfg env rnd j s s' : wake_input cfg env rnd j s = Ok s' → keeps_balance s s'.
Proof.
  destruct s as [r ls], s' as [r' ls']. intros H.
  destruct (wake_input_frames cfg env rnd j r ls ∅) as [_ Hk]; [by intros ???|].
  destruct (Hk r' ls' H) as (Hp & _ & Hout). split; [done|]. split; [|split; [done|]].
  - unfold wake_input in H. apply rbind_ok in H as (u & _ & (l & Hl%get_link_some & ([[c u'] l'] & Hw & H)%rbind_ok)%rbind_ok).
    apply rbind_ok in H as (r1 & _ & [= _ <-]). unfold input_wakeup in Hw. simpl.
    destruct (link_isReady _ l); [|simplify_eq; by rewrite insert_id].
    apply rbind_ok in Hw as ([f l1] & Hc & (_ & _ & Hw)%rbind_ok). cbv zeta in Hw.
    apply rbind_ok in Hw as ([c1 u1] & _ & ([f2 c2] & _ & (u2 & _ & Hw)%rbind_ok)%rbind_ok).
    apply rbind_ok in Hw as (lw & _ & (lr & _ & Hw)%rbind_ok). simplify_eq. by eapply consumeLink_same_ends.
  - intros v. destruct (wake_input_held v _ _ _ _ _ _ _ _ H) as (u & d & Hu & Hi & Hl & Ho).
    unfold in_balance, out_balance. cbn [fst snd]. split; intros p h Hs.
    + rewrite Hi, Hl, (sole_in_iff p h r j u Hs Hu). zcase; lia.
    + rewrite Ho, Hl. destruct Hs as [_ Hs]. zcase; [|lia]. exfalso. apply Hs.
      apply in_links_get in Hu as [_ Hu]. subst h. by eapply list_elem_of_lookup_2.
Qed.

Lemma wake_output_balance env j s s' : wake_output env j s = Ok s' → keeps_balance s s'.
Proof.
  destruct s as [r ls], s' as [r' ls']. intros H.
  destruct (wake_output_frames env j r ls ∅) as [_ Hk]; [by intros ???|].
  destruct (Hk r' ls' H) as (Hp & _ & Hout). split; [done|]. split; [|split; [done|]].
  - unfold wake_output in H. apply rbind_ok in H as (o & _ & (l & Hl%get_link_some & ([[c o'] l'] & Hw & H)%rbind_ok)%rbind_ok).
    apply rbind_ok in H as (r1 & _ & [= _ <-]). unfold output_wakeup in Hw. simpl.
    destruct (link_isReady _ l); [|simplify_eq; by rewrite insert_id].
    apply rbind_ok in Hw as ([f l1] & Hc & (o1 & _ & (free & _ & (o2 & _ & Hw)%rbind_ok)%rbind_ok)%rbind_ok).
    simplify_eq. by eapply consumeLink_same_ends.
  - intros v. destruct (wake_output_held v _ _ _ _ _ _ H) as (u & d & Hu & Ho & Hl & Hi).
    unfold in_balance, out_balance. cbn [fst snd]. split; intros p h Hs.
    + rewrite Hi, Hl. destruct Hs as [_ Hs]. zcase; [|lia]. exfalso. apply Hs.
      apply in_credits_get in Hu as [_ Hu]. subst h. by eapply list_elem_of_lookup_2.
    + rewrite Ho, Hl, (sole_credit_iff p h r j u Hs Hu). zcase; lia.
Qed.

Lemma inside_balance r r' ls :
  same_ports r r' →
  (∀ v, (∀ o, out_held v o r' = out_held v o r) ∧ (∀ i, in_held v i r' = in_held v i r)) →
  keeps_balance (r, ls) (r', ls).
Proof.
  intros Hp Hh. split; [done|]. split; [done|]. split; [done|]. intros v. destruct (Hh v) as [Ho Hi].
  unfold in_balance, out_balance. cbn [fst snd]. split; intros p h _; [by rewrite Hi|by rewrite Ho].
Qed.

Lemma for_range_balance lo n (body : Z → Router * Links → res (Router * Links)) s s' :
  (∀ i t t', body i t = Ok t' → keeps_balance t t') → for_range lo n body s = Ok s' → keeps_balance s s'.
Proof.
  intros Hb H. apply (for_range_inv (fun _ => keeps_balance s)) in H; [done|done|].
  intros i t t' _ Ht Hs. etrans; [exact Ht|by eapply Hb].
Qed.

Lemma router_wakeup_balance cfg env rnd r ls r' ls' :
  router_wakeup cfg env rnd r ls = Ok (r', ls') → keeps_balance (r, ls) (r', ls').
Proof.
  unfold router_wakeup. intros (_ & _ & ([r1 ls1] & H1 & ([r2 ls2] & H2 & H)%rbind_ok)%rbind_ok)%rbind_ok.
  apply rbind_ok in H as (r3 & H3 & (r4 & H4 & H)%rbind_ok). simplify_eq.
  etrans; [eapply for_range_balance; [apply wake_input_balance|exact H1]|].
  etrans; [eapply for_range_balance; [apply wake_output_balance|exact H2]|].
  etrans; [apply (inside_balance r2 r3)|apply (inside_balance r3 r')].
  - by eapply sa_wakeup_ports.
  - intros v. by eapply sa_wakeup_held.
  - by eapply xbar_wakeup_ports.
  - intros v. by eapply xbar_wakeup_held.
Qed.

(** ** Credit counters stay within their capacity *)

Definition ovc_keeps (s s' : OutVcState) : Prop :=
  m_max_credit_count s' = m_max_credit_count s ∧ (credit_inv s → credit_inv s').
Definition ou_keeps (o o' : OutputUnit) : Prop := Forall2 ovc_keeps (outVcState o) (outVcState o').
Definition credits_keep (r r' : Router) : Prop := Forall2 ou_keeps (m_output_unit r) (m_output_unit r').

#[export] Instance ovc_keeps_preorder : PreOrder ovc_keeps.
Proof. split; [by intros s|]. intros s1 s2 s3 [E1 H1] [E2 H2]. split; [congruence|auto]. Qed.
#[export] Instance ou_keeps_preorder : PreOrder ou_keeps.
Proof. split; [intros o; unfold ou_keeps; reflexivity|intros o1 o2 o3; unfold ou_keeps; apply transitivity]. Qed.
#[export] Instance credits_keep_preorder : PreOrder credits_keep.
Proof. split; [intros r; unfold credits_keep; reflexivity|intros r1 r2 r3; unfold credits_keep; apply transitivity]. Qed.

Lemma Forall2_vec_set {A} (R : A → A → Prop) `{!Reflexive R} l j x y l' :
  vec_get l j = Ok x → R x y → vec_set l j y = Ok l' → Forall2 R l l'.
Proof.
  intros [_ Hx]%vec_get_ok HR [_ ->]%vec_set_ok. rewrite <-(list_insert_id l (Z.to_nat j) x Hx) at 1.
  apply Forall2_insert; [reflexivity|done].
Qed.

Lemma Forall2_vec_upd {A} (R : A → A → Prop) `{!Reflexive R} l j f l' :
  (∀ x y, f x = Ok y → R x y) → vec_upd l j f = Ok l' → Forall2 R l l'.
Proof.
  intros Hf. unfold vec_upd. intros (x & Hx & (y & Hy & Hs)%rbind_ok)%rbind_ok.
  by eapply Forall2_vec_set; [|exact Hx|apply Hf|exact Hs].
Qed.

Lemma upd_ovc_keeps vc g o o' : (∀ s s', g s = Ok s' → ovc_keeps s s') → upd_ovc vc g o = Ok o' → ou_keeps o o'.
Proof. intros Hg. unfold upd_ovc. intros (s & Hs & [= <-])%rbind_ok. by eapply Forall2_vec_upd; [apply _| |exact Hs]. Qed.

Lemma increment_keeps s s' : ovc_increment_credit s = Ok s' → ovc_keeps s s'.
Proof. intros H. split; [unfold ovc_increment_credit in H; inv_res; done|]. intros Hi. by apply (ovc_apply_ok Inc s s' Hi). Qed.
Lemma decrement_keeps s s' : ovc_decrement_credit s = Ok s' → ovc_keeps s s'.
Proof. intros H. split; [unfold ovc_decrement_credit in H; inv_res; done|]. intros Hi. by apply (ovc_apply_ok Dec s s' Hi). Qed.

Lemma set_vc_state_keeps st vc t o o' : set_vc_state st vc t o = Ok o' → ou_keeps o o'.
Proof. apply upd_ovc_keeps. by intros s s' [= <-]. Qed.

Lemma set_output_keeps r j o o' r' :
  vec_get (m_output_unit r) j = Ok o → ou_keeps o o' → set_output r j o' = Ok r' → credits_keep r r'.
Proof.
  unfold set_output. intros Ho HR (os & Hs & [= <-])%rbind_ok. by eapply Forall2_vec_set; [apply _| | |exact Hs].
Qed.

Lemma set_input_keeps r j u r' : set_input r j u = Ok r' → credits_keep r r'.
Proof. unfold set_input. intros (us & Hs & [= <-])%rbind_ok. unfold credits_keep. simpl. reflexivity. Qed.

Lemma wake_output_keeps env j s s' : wake_output env j s = Ok s' → credits_keep (fst s) (fst s').
Proof.
  destruct s as [r ls], s' as [r' ls']. unfold wake_output.
  intros (o & Ho & (l & _ & ([[c o'] l'] & Hw & H)%rbind_ok)%rbind_ok)%rbind_ok.
  apply rbind_ok in H as (r1 & Hs & H). simplify_eq/=.
  eapply (set_output_keeps (with_core_of r c)); [exact Ho| |exact Hs].
  unfold output_wakeup in Hw. destruct (link_isReady _ l); [|by simplify_eq].
  apply rbind_ok in Hw as ([f l1] & _ & (o1 & Ho1 & (free & _ & (o2 & Ho2 & Hw)%rbind_ok)%rbind_ok)%rbind_ok).
  simplify_eq. apply (upd_ovc_keeps _ _ _ _ increment_keeps) in Ho1. etrans; [exact Ho1|].
  destruct free; [by eapply set_vc_state_keeps|by simplify_eq].
Qed.

Lemma wake_input_keeps cfg env rnd j s s' : wake_input cfg env rnd j s = Ok s' → credits_keep (fst s) (fst s').
Proof.
  destruct s as [r ls], s' as [r' ls']. unfold wake_input.
  intros (u & _ & (l & _ & ([[c u'] l'] & _ & (r1 & Hs & H)%rbind_ok)%rbind_ok)%rbind_ok)%rbind_ok. simplify_eq.
  exact (set_input_keeps _ _ _ _ Hs).
Qed.

Lemma vc_allocate_keeps env outport inport invc r outvc r' :
  vc_allocate env outport inport invc r = Ok (outvc, r') → credits_keep r r'.
Proof.
  unfold vc_allocate. intros (o & Ho%getOutputUnit_ok & (vn & _ & ([vc o'] & Hsel & H)%rbind_ok)%rbind_ok)%rbind_ok.
  apply rbind_ok in H as (r1 & Hr1 & H). apply rbind_ok in H as (_ & _ & H).
  apply rbind_ok in H as (u & _ & (u' & _ & (r2 & Hr2 & H)%rbind_ok)%rbind_ok). simplify_eq.
  transitivity r1; [|by eapply set_input_keeps]. eapply set_output_keeps; [exact Ho| |exact Hr1].
  unfold select_free_vc in Hsel. apply rbind_ok in Hsel as (w & _ & Hsel). destruct w; [|by simplify_eq].
  apply rbind_ok in Hsel as (o1 & Ho1 & Hsel). simplify_eq. by eapply set_vc_state_keeps.
Qed.

Lemma grant_keeps env outport inport r r' : grant env outport inport r = Ok r' → credits_keep r r'.
Proof.
  unfold grant. intros (o & Ho & (u & Hu & (invc & Hw & (outvc & Hov & H)%rbind_ok)%rbind_ok)%rbind_ok)%rbind_ok.
  apply rbind_ok in H as ([ovc r1] & Halloc & H).
  assert (credits_keep r r1) as Hr1 by (destruct (outvc =? -1); [by eapply vc_allocate_keeps|by simplify_eq]).
  apply rbind_ok in H as (u1 & _ & ([f u2] & _ & (r2 & Hr2 & H)%rbind_ok)%rbind_ok). cbv zeta in H.
  apply rbind_ok in H as (o1 & Hou1%getOutputUnit_ok & (o2 & Hou2 & (r3 & Hr3 & H)%rbind_ok)%rbind_ok).
  apply rbind_ok in H as (r4 & Hr4 & (r5 & Hr5 & (s & _ & H)%rbind_ok)%rbind_ok). simplify_eq.
  transitivity r1; [done|]. transitivity r2; [by eapply set_input_keeps|]. transitivity r3.
  { eapply set_output_keeps; [exact Hou1| |exact Hr3]. by eapply upd_ovc_keeps; [apply decrement_keeps|]. }
  transitivity r4.
  { unfold grant_switch in Hr4. apply rbind_ok in Hr4 as (bufs & _ & [= <-]). unfold credits_keep. simpl. reflexivity. }
  change (credits_keep r4 r5). unfold release_vc in Hr5. apply rbind_ok in Hr5 as (u5 & _ & Hr5).
  destruct (is_tail _); [|exact (set_input_keeps (with_core_of r4 _) _ _ _ Hr5)].
  apply rbind_ok in Hr5 as (b & _ & (_ & _ & (u6 & _ & Hr5)%rbind_ok)%rbind_ok).
  exact (set_input_keeps (with_core_of r4 _) _ _ _ Hr5).
Qed.

Lemma sa_wakeup_keeps cfg env r r' : sa_wakeup cfg env r = Ok r' → credits_keep r r'.
Proof.
  unfold sa_wakeup. intros (r1 & H1 & (r2 & H2 & H)%rbind_ok)%rbind_ok.
  assert (credits_keep r r1) as Hr1.
  { apply (for_range_inv (fun _ => credits_keep r)) in H1; [done|reflexivity|].
    intros i t t' _ Ht. unfold arbitrate_inport. intros (c & _ & (w & _ & Hw)%rbind_ok)%rbind_ok.
    destruct w as [[invc o]|]; [|by simplify_eq]. by inv_res. }
  assert (credits_keep r1 r2) as Hr2.
  { apply (for_range_inv (fun _ => credits_keep r1)) in H2; [done|reflexivity|].
    intros i t t' _ Ht. unfold arbitrate_outport. intros (c & _ & (w & _ & Hw)%rbind_ok)%rbind_ok.
    destruct w as [inport|]; [|by simplify_eq]. etrans; [exact Ht|by eapply grant_keeps]. }
  assert (credits_keep r r2) as Hr by by etrans.
  unfold check_for_wakeup in H. destruct (alreadyScheduled _ _); [by simplify_eq|].
  apply rbind_ok in H as (b & _ & H). destruct b; by simplify_eq.
Qed.

Lemma xbar_port_keeps env j r r' : xbar_port env j r = Ok r' → credits_keep r r'.
Proof.
  unfold xbar_port. intros (b & Hb & H)%rbind_ok. destruct (negb _); [by simplify_eq|].
  apply rbind_ok in H as (f & Hf & H). destruct (is_stage _ _ f); [|by simplify_eq].
  apply rbind_ok in H as (outport & Hop & H). cbv zeta in H.
  apply rbind_ok in H as (o & Ho%getOutputUnit_ok & H). cbn [insert_flit] in H.
  apply rbind_ok in H as (r1 & Hr1 & ([f' b'] & Hb' & (bufs & Hbufs & H)%rbind_ok)%rbind_ok). simplify_eq.
  change (credits_keep r r1). eapply (set_output_keeps (with_core_of r _)); [exact Ho| |exact Hr1].
  unfold ou_keeps. simpl. reflexivity.
Qed.

Lemma router_wakeup_keeps cfg env rnd r ls r' ls' : router_wakeup cfg env rnd r ls = Ok (r', ls') → credits_keep r r'.
Proof.
  unfold router_wakeup. intros (_ & _ & ([r1 ls1] & H1 & ([r2 ls2] & H2 & H)%rbind_ok)%rbind_ok)%rbind_ok.
  apply rbind_ok in H as (r3 & H3 & (r4 & H4 & H)%rbind_ok). simplify_eq.
  apply (for_range_inv (fun _ t => credits_keep r (fst t))) in H1;
    [|reflexivity|intros i t t' _ Ht Hs; etrans; [exact Ht|by eapply wake_input_keeps]].
  apply (for_range_inv (fun _ t => credits_keep r (fst t))) in H2;
    [|done|intros i t t' _ Ht Hs; etrans; [exact Ht|by eapply wake_output_keeps]].
  apply sa_wakeup_keeps in H3.
  apply (for_range_inv (fun _ t => credits_keep r t)) in H4;
    [done|by etrans|intros i t t' _ Ht Hs; etrans; [exact Ht|by eapply xbar_port_keeps]].
Qed.
