(* ===== verification/MessageBuffer.v ===== *)
(** * Message buffers: mem/ruby/network/MessageBuffer.{hh,cc}

    The queues between the protocol controllers and the network: a priority
    heap ordered by arrival time, a map of stalled messages and the bookkeeping
    that makes a pop invisible to the sender until the next cycle. A message is
    reached through one buffer at a time. The calls a buffer makes on its
    consumer are part of each operation's result. *)

From stdpp Require Import sorting.
From S2P Require Import Prelude IntMath NetDest.

(** ** Message.hh *)

(** The enumeration of RubySlicc_Exports.sm. *)
Inductive MessageSizeType :=
  | Control | Data | Request_Control | Reissue_Control | Response_Data | ResponseL2hit_Data
  | ResponseLocal_Data | Response_Control | Writeback_Data | Writeback_Control | Broadcast_Control
  | Multicast_Control | Forwarded_Control | Invalidate_Control | Unblock_Control | Persistent_Control
  | Completion_Control.

(** [Network::MessageSizeType_to_int] *)
Definition MessageSizeType_to_int (m_control_msg_size m_data_msg_size : Z) (size_type : MessageSizeType) : Z :=
  match size_type with
  | Control | Request_Control | Reissue_Control | Response_Control | Writeback_Control
  | Broadcast_Control | Multicast_Control | Forwarded_Control | Invalidate_Control
  | Unblock_Control | Persistent_Control | Completion_Control => m_control_msg_size
  | Data | Response_Data | ResponseLocal_Data | ResponseL2hit_Data | Writeback_Data => m_data_msg_size
  end.

Record Message := {
  msg_handle : Z;              (* the object *)
  msg_time : Z;
  m_LastEnqueueTime : Z;
  m_DelayedTicks : Z;
  msg_counter : Z;
  msg_destination : NetDest;
  msg_size_type : MessageSizeType
}.

Definition upd_message (m : Message) (last delayed counter : Z) : Message :=
  {| msg_handle := msg_handle m; msg_time := msg_time m; m_LastEnqueueTime := last;
     m_DelayedTicks := delayed; msg_counter := counter; msg_destination := msg_destination m;
     msg_size_type := msg_size_type m |}.

Definition updateDelayedTicks (curTime : Z) (m : Message) : res Message :=
  let* _ := assert_ "m_LastEnqueueTime <= curTime" (m_LastEnqueueTime m <=? curTime) in
  let delta := curTime - m_LastEnqueueTime m in
  Ok (upd_message m (m_LastEnqueueTime m) (u64 (m_DelayedTicks m + delta)) (msg_counter m)).

Definition setLastEnqueueTime (time : Z) (m : Message) : Message :=
  upd_message m time (m_DelayedTicks m) (msg_counter m).
Definition setMsgCounter (c : Z) (m : Message) : Message :=
  upd_message m (m_LastEnqueueTime m) (m_DelayedTicks m) c.

(** [operator>] on message pointers. *)
Definition msg_greater (l r : Message) : bool :=
  if m_LastEnqueueTime l =? m_LastEnqueueTime r then msg_counter r <? msg_counter l
  else m_LastEnqueueTime r <? m_LastEnqueueTime l.

(** ** The priority heap

    [push_heap] and [pop_heap] with [std::greater] keep the least message at the
    front. The heap is represented by its messages in increasing order. *)

Fixpoint heap_push (m : Message) (h : list Message) : list Message :=
  match h with
  | [] => [m]
  | x :: h' => if msg_greater x m then m :: h else x :: heap_push m h'
  end.

(** ** MessageBuffer *)

Inductive MessageRandomization := disabled | enabled | ruby_system.

Record MessageBuffer := {
  m_prio_heap : list Message;
  m_dequeue_callback : bool;               (* a callback is registered *)
  m_stall_msg_map : gmap Z (list Message);
  m_deferred_msg_map : gmap Z (list Message);
  m_stall_map_size : Z;
  m_max_size : Z;
  m_max_dequeue_rate : Z;
  m_dequeues_this_cy : Z;
  m_time_last_time_size_checked : Z;
  m_size_last_time_size_checked : Z;
  m_time_last_time_enqueue : Z;
  m_time_last_time_pop : Z;
  m_last_arrival_time : Z;
  m_size_at_cycle_start : Z;
  m_stalled_at_cycle_start : Z;
  m_msgs_this_cycle : Z;
  m_msg_counter : Z;
  m_last_message_strict_fifo_bypassed : bool;
  m_strict_fifo : bool;
  m_randomization : MessageRandomization;
  m_allow_zero_latency : bool;
  m_vnet_id : Z;
  m_not_avail_count : Z;
  m_msg_count : Z;
  m_buf_msgs : Z;
  m_stall_time : Z;
  m_stall_count : Z
}.

Definition new_MessageBuffer (buffer_size max_dequeue_rate : Z) (ordered : bool)
    (randomization : MessageRandomization) (allow_zero_latency : bool) : MessageBuffer :=
  {| m_prio_heap := []; m_dequeue_callback := false; m_stall_msg_map := ∅; m_deferred_msg_map := ∅;
     m_stall_map_size := 0; m_max_size := buffer_size; m_max_dequeue_rate := max_dequeue_rate;
     m_dequeues_this_cy := 0; m_time_last_time_size_checked := 0; m_size_last_time_size_checked := 0;
     m_time_last_time_enqueue := 0; m_time_last_time_pop := 0; m_last_arrival_time := 0;
     m_size_at_cycle_start := 0; m_stalled_at_cycle_start := 0; m_msgs_this_cycle := 0;
     m_msg_counter := 0; m_last_message_strict_fifo_bypassed := false; m_strict_fifo := ordered;
     m_randomization := randomization; m_allow_zero_latency := allow_zero_latency; m_vnet_id := 0;
     m_not_avail_count := 0; m_msg_count := 0; m_buf_msgs := 0; m_stall_time := 0; m_stall_count := 0 |}.

(** The heap, the stall map and the counters that change together. *)
Definition upd_buffer (b : MessageBuffer) (heap : list Message) (stalls : gmap Z (list Message))
    (deferred : gmap Z (list Message)) (stall_size : Z) : MessageBuffer :=
  {| m_prio_heap := heap; m_dequeue_callback := m_dequeue_callback b; m_stall_msg_map := stalls;
     m_deferred_msg_map := deferred; m_stall_map_size := stall_size; m_max_size := m_max_size b;
     m_max_dequeue_rate := m_max_dequeue_rate b; m_dequeues_this_cy := m_dequeues_this_cy b;
     m_time_last_time_size_checked := m_time_last_time_size_checked b;
     m_size_last_time_size_checked := m_size_last_time_size_checked b;
     m_time_last_time_enqueue := m_time_last_time_enqueue b;
     m_time_last_time_pop := m_time_last_time_pop b; m_last_arrival_time := m_last_arrival_time b;
     m_size_at_cycle_start := m_size_at_cycle_start b;
     m_stalled_at_cycle_start := m_stalled_at_cycle_start b;
     m_msgs_this_cycle := m_msgs_this_cycle b; m_msg_counter := m_msg_counter b;
     m_last_message_strict_fifo_bypassed := m_last_message_strict_fifo_bypassed b;
     m_strict_fifo := m_strict_fifo b; m_randomization := m_randomization b;
     m_allow_zero_latency := m_allow_zero_latency b; m_vnet_id := m_vnet_id b;
     m_not_avail_count := m_not_avail_count b; m_msg_count := m_msg_count b;
     m_buf_msgs := m_buf_msgs b; m_stall_time := m_stall_time b; m_stall_count := m_stall_count b |}.

Definition upd_times (b : MessageBuffer) (heap : list Message)
    (dequeues enq pop arrival size0 stall0 msgs counter : Z) (bypassed : bool) : MessageBuffer :=
  {| m_prio_heap := heap; m_dequeue_callback := m_dequeue_callback b;
     m_stall_msg_map := m_stall_msg_map b; m_deferred_msg_map := m_deferred_msg_map b;
     m_stall_map_size := m_stall_map_size b; m_max_size := m_max_size b;
     m_max_dequeue_rate := m_max_dequeue_rate b; m_dequeues_this_cy := dequeues;
     m_time_last_time_size_checked := m_time_last_time_size_checked b;
     m_size_last_time_size_checked := m_size_last_time_size_checked b;
     m_time_last_time_enqueue := enq; m_time_last_time_pop := pop; m_last_arrival_time := arrival;
     m_size_at_cycle_start := size0; m_stalled_at_cycle_start := stall0; m_msgs_this_cycle := msgs;
     m_msg_counter := counter; m_last_message_strict_fifo_bypassed := bypassed;
     m_strict_fifo := m_strict_fifo b; m_randomization := m_randomization b;
     m_allow_zero_latency := m_allow_zero_latency b; m_vnet_id := m_vnet_id b;
     m_not_avail_count := m_not_avail_count b; m_msg_count := m_msg_count b;
     m_buf_msgs := m_buf_msgs b; m_stall_time := m_stall_time b; m_stall_count := m_stall_count b |}.

Definition upd_counts (b : MessageBuffer) (not_avail msgs buf_msgs stall_time stall_count : Z) : MessageBuffer :=
  {| m_prio_heap := m_prio_heap b; m_dequeue_callback := m_dequeue_callback b;
     m_stall_msg_map := m_stall_msg_map b; m_deferred_msg_map := m_deferred_msg_map b;
     m_stall_map_size := m_stall_map_size b; m_max_size := m_max_size b;
     m_max_dequeue_rate := m_max_dequeue_rate b; m_dequeues_this_cy := m_dequeues_this_cy b;
     m_time_last_time_size_checked := m_time_last_time_size_checked b;
     m_size_last_time_size_checked := m_size_last_time_size_checked b;
     m_time_last_time_enqueue := m_time_last_time_enqueue b;
     m_time_last_time_pop := m_time_last_time_pop b; m_last_arrival_time := m_last_arrival_time b;
     m_size_at_cycle_start := m_size_at_cycle_start b;
     m_stalled_at_cycle_start := m_stalled_at_cycle_start b;
     m_msgs_this_cycle := m_msgs_this_cycle b; m_msg_counter := m_msg_counter b;
     m_last_message_strict_fifo_bypassed := m_last_message_strict_fifo_bypassed b;
     m_strict_fifo := m_strict_fifo b; m_randomization := m_randomization b;
     m_allow_zero_latency := m_allow_zero_latency b; m_vnet_id := m_vnet_id b;
     m_not_avail_count := not_avail; m_msg_count := msgs; m_buf_msgs := buf_msgs;
     m_stall_time := stall_time; m_stall_count := stall_count |}.

(** [m_stall_msg_map] is a [std::map]: it is iterated by ascending address. *)
Definition addr_le (x y : Z * list Message) : Prop := fst x ≤ fst y.
#[export] Instance addr_le_dec x y : Decision (addr_le x y) := decide (fst x ≤ fst y).
Definition stall_entries (b : MessageBuffer) : list (Z * list Message) :=
  merge_sort addr_le (map_to_list (m_stall_msg_map b)).

Definition heap_size (b : MessageBuffer) : Z := Z.of_nat (length (m_prio_heap b)).

Definition getSize (curTime : Z) (b : MessageBuffer) : Z * MessageBuffer :=
  if m_time_last_time_size_checked b =? curTime then (m_size_last_time_size_checked b, b)
  else
    (heap_size b,
     {| m_prio_heap := m_prio_heap b; m_dequeue_callback := m_dequeue_callback b;
        m_stall_msg_map := m_stall_msg_map b; m_deferred_msg_map := m_deferred_msg_map b;
        m_stall_map_size := m_stall_map_size b; m_max_size := m_max_size b;
        m_max_dequeue_rate := m_max_dequeue_rate b; m_dequeues_this_cy := m_dequeues_this_cy b;
        m_time_last_time_size_checked := curTime; m_size_last_time_size_checked := heap_size b;
        m_time_last_time_enqueue := m_time_last_time_enqueue b;
        m_time_last_time_pop := m_time_last_time_pop b; m_last_arrival_time := m_last_arrival_time b;
        m_size_at_cycle_start := m_size_at_cycle_start b;
        m_stalled_at_cycle_start := m_stalled_at_cycle_start b;
        m_msgs_this_cycle := m_msgs_this_cycle b; m_msg_counter := m_msg_counter b;
        m_last_message_strict_fifo_bypassed := m_last_message_strict_fifo_bypassed b;
        m_strict_fifo := m_strict_fifo b; m_randomization := m_randomization b;
        m_allow_zero_latency := m_allow_zero_latency b; m_vnet_id := m_vnet_id b;
        m_not_avail_count := m_not_avail_count b; m_msg_count := m_msg_count b;
        m_buf_msgs := m_buf_msgs b; m_stall_time := m_stall_time b; m_stall_count := m_stall_count b |}).

(** The size the sender sees at [current_time]. *)
Definition visible_size (current_time : Z) (b : MessageBuffer) : Z :=
  if m_time_last_time_pop b <? current_time then heap_size b + m_stall_map_size b
  else
    (if m_time_last_time_enqueue b <? current_time then m_size_at_cycle_start b
     else m_size_at_cycle_start b + m_msgs_this_cycle b)
    + m_stalled_at_cycle_start b.

Definition areNSlotsAvailable (n current_time : Z) (b : MessageBuffer) : bool * MessageBuffer :=
  if m_max_size b =? 0 then (true, b)
  else if u32 (visible_size current_time b + n) <=? m_max_size b then (true, b)
  else (false, upd_counts b (m_not_avail_count b + 1) (m_msg_count b) (m_buf_msgs b) (m_stall_time b)
                 (m_stall_count b)).

Definition peek (b : MessageBuffer) : res Message :=
  match m_prio_heap b with [] => Err EOutOfRange | m :: _ => Ok m end.

(** [random_time], from the three values its generator returns. *)
Definition random_time (r03 r07 r115 : Z) : Z := 1 + r03 + (if r07 =? 0 then 100 + r115 else 0).

(** The arrival time of [enqueue]; [rt] is what [random_time] returns. *)
Definition arrival (rt current_time delta : Z) (ruby_is_random : bool) (b : MessageBuffer) : Z * Z :=
  let plain := match m_randomization b with
               | disabled => true
               | ruby_system => negb ruby_is_random
               | enabled => false
               end in
  if plain then (m_last_arrival_time b, u64 (current_time + delta))
  else if m_strict_fifo b then
    let last := if m_last_arrival_time b <? current_time then current_time else m_last_arrival_time b in
    (last, u64 (last + rt))
  else (m_last_arrival_time b, u64 (current_time + rt)).

(** [enqueue] returns the tick the consumer is scheduled for. *)
Definition enqueue (rt : Z) (message : Message) (current_time delta : Z)
    (ruby_is_random ruby_warmup bypassStrictFIFO : bool) (b : MessageBuffer) : res (MessageBuffer * Z) :=
  let first := m_time_last_time_enqueue b <? current_time in
  let msgs := (if first then 0 else m_msgs_this_cycle b) + 1 in
  let enq := if first then current_time else m_time_last_time_enqueue b in
  let counter := u64 (m_msg_counter b + 1) in
  let* _ := (if (delta =? 0) && negb (m_allow_zero_latency b)
             then Err (EPanic "Delta equals zero and allow_zero_latency is false during enqueue")
             else Ok tt) in
  let '(last_arrival, arrival_time) := arrival rt current_time delta ruby_is_random b in
  let* _ := assert_ "arrival_time >= current_time" (current_time <=? arrival_time) in
  let* _ := (if m_strict_fifo b && negb (bypassStrictFIFO || m_last_message_strict_fifo_bypassed b)
                && (arrival_time <? last_arrival)
             then Err (EPanic "FIFO ordering violated") else Ok tt) in
  let last_arrival := if ruby_warmup then last_arrival else arrival_time in
  let* _ := assert_ "ensure we aren't dequeued early" (m_LastEnqueueTime message <=? current_time) in
  let* message := updateDelayedTicks current_time message in
  let message := setMsgCounter counter (setLastEnqueueTime arrival_time message) in
  let b := upd_times b (heap_push message (m_prio_heap b)) (m_dequeues_this_cy b) enq
             (m_time_last_time_pop b) last_arrival (m_size_at_cycle_start b)
             (m_stalled_at_cycle_start b) msgs counter bypassStrictFIFO in
  let b := upd_counts b (m_not_avail_count b) (m_msg_count b) (m_buf_msgs b + 1) (m_stall_time b)
             (m_stall_count b) in
  let* _ := assert_ "heap + stall map <= m_max_size"
    ((m_max_size b =? 0) || (heap_size b + m_stall_map_size b <=? m_max_size b)) in
  Ok (b, arrival_time).

(** [isReady]; the second result says that the consumer is scheduled for the
    next cycle because the dequeue rate is exhausted. *)
Definition isReady (current_time : Z) (b : MessageBuffer) : res (bool * bool) :=
  let* _ := assert_ "m_time_last_time_pop <= current_time" (m_time_last_time_pop b <=? current_time) in
  let can_dequeue := (m_max_dequeue_rate b =? 0) || (m_time_last_time_pop b <? current_time)
                     || (m_dequeues_this_cy b <? m_max_dequeue_rate b) in
  let is_ready := match m_prio_heap b with
                  | [] => false
                  | m :: _ => m_LastEnqueueTime m <=? current_time
                  end in
  Ok (can_dequeue && is_ready, negb can_dequeue && is_ready).

(** [dequeue] returns the message, its delay and whether the callback runs. *)
Definition dequeue (curTick current_time : Z) (decrement_messages : bool) (b : MessageBuffer)
    : res (Message * Z * bool * MessageBuffer) :=
  let* ' (ready, _) := isReady current_time b in
  let* _ := assert_ "isReady(current_time)" ready in
  match m_prio_heap b with
  | [] => Err EOutOfRange
  | message :: heap =>
      let* message := updateDelayedTicks current_time message in
      let delay := m_DelayedTicks message in
      let first := m_time_last_time_pop b <? current_time in
      let b' := upd_times b heap
        ((if first then 0 else m_dequeues_this_cy b) + 1)
        (m_time_last_time_enqueue b) (if first then current_time else m_time_last_time_pop b)
        (m_last_arrival_time b) (if first then heap_size b else m_size_at_cycle_start b)
        (if first then m_stall_map_size b else m_stalled_at_cycle_start b) (m_msgs_this_cycle b)
        (m_msg_counter b) (m_last_message_strict_fifo_bypassed b) in
      let b' := if decrement_messages
                then upd_counts b' (m_not_avail_count b') (m_msg_count b' + 1) (m_buf_msgs b' - 1)
                       (m_stall_time b' + u64 (curTick - m_LastEnqueueTime message)) (m_stall_count b')
                else b' in
      Ok (message, delay, m_dequeue_callback b, b')
  end.

Definition set_callback (cb : bool) (b : MessageBuffer) : MessageBuffer :=
  {| m_prio_heap := m_prio_heap b; m_dequeue_callback := cb; m_stall_msg_map := m_stall_msg_map b;
     m_deferred_msg_map := m_deferred_msg_map b; m_stall_map_size := m_stall_map_size b;
     m_max_size := m_max_size b; m_max_dequeue_rate := m_max_dequeue_rate b;
     m_dequeues_this_cy := m_dequeues_this_cy b;
     m_time_last_time_size_checked := m_time_last_time_size_checked b;
     m_size_last_time_size_checked := m_size_last_time_size_checked b;
     m_time_last_time_enqueue := m_time_last_time_enqueue b;
     m_time_last_time_pop := m_time_last_time_pop b; m_last_arrival_time := m_last_arrival_time b;
     m_size_at_cycle_start := m_size_at_cycle_start b;
     m_stalled_at_cycle_start := m_stalled_at_cycle_start b;
     m_msgs_this_cycle := m_msgs_this_cycle b; m_msg_counter := m_msg_counter b;
     m_last_message_strict_fifo_bypassed := m_last_message_strict_fifo_bypassed b;
     m_strict_fifo := m_strict_fifo b; m_randomization := m_randomization b;
     m_allow_zero_latency := m_allow_zero_latency b; m_vnet_id := m_vnet_id b;
     m_not_avail_count := m_not_avail_count b; m_msg_count := m_msg_count b;
     m_buf_msgs := m_buf_msgs b; m_stall_time := m_stall_time b; m_stall_count := m_stall_count b |}.

Definition registerDequeueCallback : MessageBuffer → MessageBuffer := set_callback true.
Definition unregisterDequeueCallback : MessageBuffer → MessageBuffer := set_callback false.

Definition clear (b : MessageBuffer) : MessageBuffer :=
  upd_times b [] (m_dequeues_this_cy b) 0 0 (m_last_arrival_time b) 0 0 0 0
    (m_last_message_strict_fifo_bypassed b).

(** [clearStats]: besides the statistic it resets the counter that orders messages of
    equal arrival time. *)
Definition clearStats (b : MessageBuffer) : MessageBuffer :=
  upd_counts (upd_times b (m_prio_heap b) (m_dequeues_this_cy b) (m_time_last_time_enqueue b) (m_time_last_time_pop b)
      (m_last_arrival_time b) (m_size_at_cycle_start b) (m_stalled_at_cycle_start b) (m_msgs_this_cycle b) 0
      (m_last_message_strict_fifo_bypassed b))
    0 (m_msg_count b) (m_buf_msgs b) (m_stall_time b) (m_stall_count b).

(** [recycle] returns the tick the consumer is scheduled for. *)
Definition recycle (current_time recycle_latency : Z) (b : MessageBuffer) : res (MessageBuffer * Z) :=
  let* ' (ready, _) := isReady current_time b in
  let* _ := assert_ "isReady(current_time)" ready in
  match m_prio_heap b with
  | [] => Err EOutOfRange
  | node :: heap =>
      let future_time := u64 (current_time + recycle_latency) in
      Ok (upd_buffer b (heap_push (setLastEnqueueTime future_time node) heap) (m_stall_msg_map b)
            (m_deferred_msg_map b) (m_stall_map_size b), future_time)
  end.

(** [reanalyzeList]: the stalled messages go back on the heap; the consumer is
    scheduled for [schdTick] once per message. *)
Definition reanalyzeList (lt : list Message) (schdTick : Z) (b : MessageBuffer) : res MessageBuffer :=
  fold_res (fun m b =>
    let* _ := assert_ "m->getLastEnqueueTime() <= schdTick" (m_LastEnqueueTime m <=? schdTick) in
    Ok (upd_buffer b (heap_push m (m_prio_heap b)) (m_stall_msg_map b) (m_deferred_msg_map b)
          (m_stall_map_size b))) lt b.

Definition reanalyzeMessages (addr current_time : Z) (b : MessageBuffer) : res MessageBuffer :=
  match m_stall_msg_map b !! addr with
  | None => Err (EAssert "m_stall_msg_map.count(addr) > 0")
  | Some lt =>
      let size := m_stall_map_size b - Z.of_nat (length lt) in
      let* _ := assert_ "m_stall_map_size >= 0" (0 <=? size) in
      let b := upd_buffer b (m_prio_heap b) (m_stall_msg_map b) (m_deferred_msg_map b) size in
      let* b := reanalyzeList lt current_time b in
      Ok (upd_buffer b (m_prio_heap b) (delete addr (m_stall_msg_map b)) (m_deferred_msg_map b)
            (m_stall_map_size b))
  end.

Definition reanalyzeAllMessages (current_time : Z) (b : MessageBuffer) : res MessageBuffer :=
  let* b := fold_res (fun al b =>
    let size := m_stall_map_size b - Z.of_nat (length (snd al)) in
    let* _ := assert_ "m_stall_map_size >= 0" (0 <=? size) in
    reanalyzeList (snd al) current_time
      (upd_buffer b (m_prio_heap b) (m_stall_msg_map b) (m_deferred_msg_map b) size))
    (stall_entries b) b in
  Ok (upd_buffer b (m_prio_heap b) ∅ (m_deferred_msg_map b) (m_stall_map_size b)).

Definition stallMessage (curTick addr current_time : Z) (b : MessageBuffer) : res (bool * MessageBuffer) :=
  let* ' (ready, _) := isReady current_time b in
  let* _ := assert_ "isReady(current_time)" ready in
  let* ' (message, _, cb, b) := dequeue curTick current_time false b in
  let stalled := default [] (m_stall_msg_map b !! addr) ++ [message] in
  let b := upd_buffer b (m_prio_heap b) (<[addr := stalled]> (m_stall_msg_map b)) (m_deferred_msg_map b)
             (m_stall_map_size b + 1) in
  Ok (cb, upd_counts b (m_not_avail_count b) (m_msg_count b) (m_buf_msgs b) (m_stall_time b)
            (m_stall_count b + 1)).

Definition hasStalledMsg (addr : Z) (b : MessageBuffer) : bool :=
  bool_decide (is_Some (m_stall_msg_map b !! addr)).

Definition deferEnqueueingMessage (addr : Z) (message : Message) (b : MessageBuffer) : MessageBuffer :=
  upd_buffer b (m_prio_heap b) (m_stall_msg_map b)
    (<[addr := default [] (m_deferred_msg_map b !! addr) ++ [message]]> (m_deferred_msg_map b))
    (m_stall_map_size b).

Definition enqueueDeferredMessages (rt : Z → Z) (addr curTime delay : Z) (ruby_is_random ruby_warmup : bool)
    (b : MessageBuffer) : res (MessageBuffer * list Z) :=
  match m_deferred_msg_map b !! addr with
  | None => Err (EAssert "!isDeferredMsgMapEmpty(addr)")
  | Some msg_vec =>
      let* _ := assert_ "msg_vec.size() > 0" (0 <? Z.of_nat (length msg_vec)) in
      let* ' (b, ticks) := fold_res (fun m '(b, ticks) =>
        let* ' (b, t) := enqueue (rt (Z.of_nat (length ticks))) m curTime delay ruby_is_random ruby_warmup false b in
        Ok (b, ticks ++ [t])) msg_vec (b, []) in
      Ok (upd_buffer b (m_prio_heap b) (m_stall_msg_map b) (delete addr (m_deferred_msg_map b))
            (m_stall_map_size b), ticks)
  end.

Definition isDeferredMsgMapEmpty (addr : Z) (b : MessageBuffer) : bool :=
  negb (bool_decide (is_Some (m_deferred_msg_map b !! addr))).

Definition delayHead (rt current_time delta : Z) (ruby_is_random ruby_warmup : bool) (b : MessageBuffer)
    : res (MessageBuffer * Z) :=
  match m_prio_heap b with
  | [] => Err EOutOfRange
  | m :: heap =>
      enqueue rt m current_time delta ruby_is_random ruby_warmup false
        (upd_buffer b heap (m_stall_msg_map b) (m_deferred_msg_map b) (m_stall_map_size b))
  end.

Definition MaxTick : Z := 2 ^ 64 - 1.

Definition readyTime (b : MessageBuffer) : Z :=
  match m_prio_heap b with [] => MaxTick | m :: _ => m_LastEnqueueTime m end.

(** ** functionalAccess *)

Inductive access_kind := AccessRead | AccessReadMask | AccessWrite.

Section functional.
(** The message's own accessor for the kind at hand, and the order in which the
    heap's vector holds its messages, which the heap algorithms leave open. *)
Context {M : Type} (access : Message → M → bool * M) (layout : list Message → list Message).

(** Accumulates the count; a plain read stops at the first hit. *)
Fixpoint access_list (kind : access_kind) (l : list Message) (num : Z) (s : M) : Z * bool * M :=
  match l with
  | [] => (num, false, s)
  | m :: l' =>
      let '(hit, s) := access m s in
      match kind, hit with
      | AccessRead, true => (1, true, s)
      | _, true => access_list kind l' (u32 (num + 1)) s
      | _, false => access_list kind l' num s
      end
  end.

Definition functionalAccess (kind : access_kind) (b : MessageBuffer) (s : M) : Z * M :=
  let '(num, stop, s) := access_list kind (layout (m_prio_heap b)) 0 s in
  if stop then (num, s)
  else
    let '(num, _, s) := foldl (fun '(num, stop, s) al =>
      if stop : bool then (num, stop, s) else access_list kind (snd al) num s)
      (num, false, s) (stall_entries b) in
    (num, s).

Definition functionalWrite (b : MessageBuffer) (s : M) : Z * M := functionalAccess AccessWrite b s.
Definition functionalRead (b : MessageBuffer) (s : M) : bool * M :=
  let '(n, s) := functionalAccess AccessRead b s in (n =? 1, s).
Definition functionalRead_mask (b : MessageBuffer) (s : M) : bool * M :=
  let '(n, s) := functionalAccess AccessReadMask b s in (n =? 1, s).

End functional.

(** ** Strict FIFO order *)

(** [l] goes before [r]. *)
Definition msg_before (l r : Message) : Prop := msg_greater r l = true.

Lemma heap_push_length m h : length (heap_push m h) = S (length h).
Proof. induction h as [|x h IH]; simpl; [done|]. destruct (msg_greater x m); simpl; lia. Qed.

Lemma heap_push_last m h : Forall (fun x => msg_greater x m = false) h → heap_push m h = h ++ [m].
Proof. induction 1 as [|x h Hx Hh IH]; simpl; [done|]. by rewrite Hx, IH. Qed.

Lemma heap_push_front m x h : msg_greater x m = true → heap_push m (x :: h) = m :: x :: h.
Proof. simpl. by intros ->. Qed.

(** The message as [enqueue] stores it. *)
Definition stamped (current_time arrival_time counter : Z) (m : Message) : Message :=
  upd_message m arrival_time (u64 (m_DelayedTicks m + (current_time - m_LastEnqueueTime m))) counter.

(** What a successful [enqueue] did. *)
Lemma enqueue_ok rt m t delta rnd warm byp b b' a :
  enqueue rt m t delta rnd warm byp b = Ok (b', a) →
  m_prio_heap b' = heap_push (stamped t a (u64 (m_msg_counter b + 1)) m) (m_prio_heap b) ∧
  a = snd (arrival rt t delta rnd b) ∧
  (m_strict_fifo b = true → byp = false → m_last_message_strict_fifo_bypassed b = false →
   fst (arrival rt t delta rnd b) ≤ a) ∧
  b' = upd_counts
         (upd_times b (heap_push (stamped t a (u64 (m_msg_counter b + 1)) m) (m_prio_heap b))
            (m_dequeues_this_cy b) (Z.max (m_time_last_time_enqueue b) t) (m_time_last_time_pop b)
            (if warm then fst (arrival rt t delta rnd b) else a) (m_size_at_cycle_start b)
            (m_stalled_at_cycle_start b)
            ((if m_time_last_time_enqueue b <? t then 0 else m_msgs_this_cycle b) + 1)
            (u64 (m_msg_counter b + 1)) byp)
         (m_not_avail_count b) (m_msg_count b) (m_buf_msgs b + 1) (m_stall_time b) (m_stall_count b) ∧
  (m_max_size b = 0 ∨ heap_size b' + m_stall_map_size b' ≤ m_max_size b).
Proof.
  unfold enqueue. intros H. apply rbind_ok in H as (? & _ & H).
  destruct (arrival rt t delta rnd b) as [la at_]. apply rbind_ok in H as (? & _ & H).
  apply rbind_ok in H as (? & Hfifo & H). apply rbind_ok in H as (? & _ & H).
  apply rbind_ok in H as (m' & Hm & H). apply rbind_ok in H as (? & Hcap & H). simplify_eq.
  unfold updateDelayedTicks in Hm. apply rbind_ok in Hm as (? & _ & Hm). simplify_eq.
  replace (Z.max (m_time_last_time_enqueue b) t)
    with (if m_time_last_time_enqueue b <? t then t else m_time_last_time_enqueue b)
    by (zcase; lia).
  split_and!; try done.
  - intros Hs -> Hbp. rewrite Hs, Hbp in Hfifo. simpl in Hfifo. simpl.
    destruct (Z.ltb_spec a la); [done|lia].
  - apply assert_ok, orb_true_iff in Hcap as [Hc|Hc]; zbool; [by left|by right].
Qed.

(** What a successful [dequeue] did. *)
Lemma dequeue_ok cur t dec b m d cb b' :
  dequeue cur t dec b = Ok (m, d, cb, b') →
  m_time_last_time_pop b ≤ t ∧
  ∃ m0 h, m_prio_heap b = m0 :: h ∧ m_prio_heap b' = h ∧ m_LastEnqueueTime m0 ≤ t ∧
  m = upd_message m0 (m_LastEnqueueTime m0)
        (u64 (m_DelayedTicks m0 + (t - m_LastEnqueueTime m0))) (msg_counter m0) ∧
  m_time_last_time_pop b' = t ∧
  m_time_last_time_enqueue b' = m_time_last_time_enqueue b ∧
  m_msgs_this_cycle b' = m_msgs_this_cycle b ∧
  m_stall_map_size b' = m_stall_map_size b ∧ m_stall_msg_map b' = m_stall_msg_map b ∧
  m_deferred_msg_map b' = m_deferred_msg_map b ∧
  m_max_size b' = m_max_size b ∧
  m_strict_fifo b' = m_strict_fifo b ∧ m_last_arrival_time b' = m_last_arrival_time b ∧
  m_last_message_strict_fifo_bypassed b' = m_last_message_strict_fifo_bypassed b ∧
  m_msg_counter b' = m_msg_counter b ∧
  (m_size_at_cycle_start b' + m_stalled_at_cycle_start b'
   = if m_time_last_time_pop b <? t then heap_size b + m_stall_map_size b
     else m_size_at_cycle_start b + m_stalled_at_cycle_start b).
Proof.
  unfold dequeue, isReady. intros H. apply rbind_ok in H as ([r c] & Hr & H).
  apply rbind_ok in Hr as (u & Hpop & Hr). apply assert_ok in Hpop. zbool. simplify_eq.
  apply rbind_ok in H as (? & Hrd & H). apply assert_ok in Hrd.
  destruct (m_prio_heap b) as [|m0 h] eqn:Hh; [done|]. zbool.
  apply rbind_ok in H as (m' & Hm & H). unfold updateDelayedTicks in Hm.
  apply rbind_ok in Hm as (? & _ & Hm). simplify_eq. split; [lia|]. exists m0, h.
  destruct dec; simpl; split_and!; try done; by zcase; [done|lia].
Qed.

(** A sender and a receiver using the buffer in order. *)
Inductive buf_op :=
  | Send (m : Message) (current_time delta : Z) (ruby_is_random : bool) (rt : Z)
  | Receive (current_time : Z).

Definition run_op (op : buf_op) (s : MessageBuffer * list Z) : res (MessageBuffer * list Z) :=
  match op with
  | Send m t delta rnd rt =>
      let* ' (b, _) := enqueue rt m t delta rnd false false (fst s) in Ok (b, snd s)
  | Receive t =>
      let* ' (m, _, _, b) := dequeue t t true (fst s) in Ok (b, snd s ++ [msg_handle m])
  end.

Definition sent (op : buf_op) : list Z := match op with Send m _ _ _ _ => [msg_handle m] | _ => [] end.

(** The state of a strict FIFO that was only used in order. *)
Record fifo_ok (b : MessageBuffer) (n : Z) : Prop := {
  fifo_strict : m_strict_fifo b = true;
  fifo_plain : m_last_message_strict_fifo_bypassed b = false;
  fifo_count : 0 ≤ m_msg_counter b ≤ n;
  fifo_last : ∀ m, m ∈ m_prio_heap b →
    m_LastEnqueueTime m ≤ m_last_arrival_time b ∧ msg_counter m ≤ m_msg_counter b
}.

Lemma arrival_fst rt t delta rnd b : m_last_arrival_time b ≤ fst (arrival rt t delta rnd b).
Proof. unfold arrival. destruct (m_randomization b), rnd, (m_strict_fifo b); simpl; try zcase; simpl; lia. Qed.

Lemma enqueue_appends rt m t delta rnd b b' a n :
  fifo_ok b n → n < 2 ^ 64 - 1 → enqueue rt m t delta rnd false false b = Ok (b', a) →
  m_prio_heap b' = m_prio_heap b ++ [stamped t a (m_msg_counter b + 1) m] ∧ fifo_ok b' (n + 1).
Proof.
  intros [Hs Hp Hc Hl] Hn H. apply enqueue_ok in H as (Hh & _ & Hle & Hb & _).
  specialize (Hle Hs eq_refl Hp). pose proof (arrival_fst rt t delta rnd b).
  rewrite u64_small in Hh, Hb by lia.
  rewrite heap_push_last in Hh.
  2:{ apply Forall_forall. intros x [? ?]%Hl. unfold msg_greater. simpl. repeat zcase; lia || done. }
  split; [done|]. split.
  - by rewrite Hb.
  - by rewrite Hb.
  - rewrite Hb. simpl. lia.
  - assert (m_last_arrival_time b' = a ∧ m_msg_counter b' = m_msg_counter b + 1) as [-> ->] by by rewrite Hb.
    intros x. rewrite Hh. intros [[? ?]%Hl| ->%list_elem_of_singleton]%elem_of_app; simpl; lia.
Qed.

Lemma dequeue_pops cur t dec b m d cb b' n :
  fifo_ok b n → dequeue cur t dec b = Ok (m, d, cb, b') →
  ∃ m0, m_prio_heap b = m0 :: m_prio_heap b' ∧ msg_handle m = msg_handle m0 ∧ fifo_ok b' n.
Proof.
  intros [Hs Hp Hc Hl] H.
  apply dequeue_ok in H as (_ & m0 & h & Hh & Hh' & _ & -> & _ & _ & _ & _ & _ & _ & _ & E1 & E2 & E3 & E4 & _).
  exists m0. rewrite Hh'. split_and!; [done..|]. split; [congruence..|by rewrite E4|].
  intros x Hx. rewrite E2, E4. apply Hl. rewrite Hh. rewrite Hh' in Hx. by right.
Qed.

Lemma run_fifo ops b n out b' out' :
  fifo_ok b n → n + Z.of_nat (length ops) < 2 ^ 64 →
  fold_res run_op ops (b, out) = Ok (b', out') →
  out' ++ map msg_handle (m_prio_heap b')
  = out ++ map msg_handle (m_prio_heap b) ++ concat (map sent ops).
Proof.
  revert b n out. induction ops as [|op ops IH]; intros b n out Hb Hn H.
  { simpl in *. simplify_eq. by rewrite app_nil_r. }
  cbn [fold_res] in H. apply rbind_ok in H as ([b1 o1] & H1 & H). cbn [length] in Hn.
  destruct op as [m t delta rnd rt|t]; cbn [run_op fst snd] in H1.
  - apply rbind_ok in H1 as ([b2 a] & H1 & Heq). simplify_eq.
    destruct (enqueue_appends _ _ _ _ _ _ _ _ n Hb ltac:(lia) H1) as [Hh Hb1].
    rewrite (IH b1 (n + 1) o1 Hb1 ltac:(lia) H), Hh, map_app. simpl. by rewrite <- app_assoc.
  - apply rbind_ok in H1 as ([[[m d] cb] b2] & H1 & Heq). simplify_eq.
    destruct (dequeue_pops _ _ _ _ _ _ _ _ n Hb H1) as (m0 & Hh & Hm & Hb1).
    rewrite (IH b1 n _ Hb1 ltac:(lia) H), Hh, Hm. simpl. by rewrite <- app_assoc.
Qed.

(** C21: A buffer created with strict ordering refines a FIFO queue. For every
    sequence of in-order sends and receives that the buffer's assertions and its
    panic on reordering accept, the messages received so far followed by those
    still in the heap are exactly the messages sent, in the order they were sent. *)
Theorem message_buffer_refines_fifo size rate rand zero ops b out :
  Z.of_nat (length ops) < 2 ^ 64 →
  fold_res run_op ops (new_MessageBuffer size rate true rand zero, []) = Ok (b, out) →
  out ++ map msg_handle (m_prio_heap b) = concat (map sent ops).
Proof.
  intros Hn H. eapply (run_fifo ops _ 0) in H; [exact H| |lia].
  split; simpl; [done|done|lia|]. by intros m Hm%elem_of_nil.
Qed.

Definition ex_message (h : Z) : Message :=
  {| msg_handle := h; msg_time := 0; m_LastEnqueueTime := 0; m_DelayedTicks := 0; msg_counter := 0;
     msg_destination := []; msg_size_type := Control |}.

Lemma message_buffer_refines_fifo_witness :
  let ops := [Send (ex_message 1) 10 5 false 0; Send (ex_message 2) 10 5 false 0; Receive 15;
              Send (ex_message 3) 16 5 false 0; Receive 16] in
  ∃ b, fold_res run_op ops (new_MessageBuffer 4 0 true disabled false, []) = Ok (b, [1; 2]) ∧
       [1; 2] ++ map msg_handle (m_prio_heap b) = [1; 2; 3].
Proof.
  intros ops.
  destruct (fold_res run_op ops (new_MessageBuffer 4 0 true disabled false, [])) as [[b out]|] eqn:E;
    [|by vm_compute in E].
  pose proof (message_buffer_refines_fifo 4 0 disabled false ops b out ltac:(by vm_compute) E) as H.
  assert (out = [1; 2]) as -> by (vm_compute in E; by simplify_eq). exists b. by split.
Defined.

(** ** Capacity *)

Definition occupancy (b : MessageBuffer) : Z := heap_size b + m_stall_map_size b.

(** Every operation that touches the heap, the stall map or the bookkeeping,
    performed at a given time. *)
Inductive buf_step (t : Z) (b : MessageBuffer) : MessageBuffer → Prop :=
  | S_enqueue rt m delta rnd warm byp b' a :
      enqueue rt m t delta rnd warm byp b = Ok (b', a) → buf_step t b b'
  | S_dequeue cur dec m d cb b' : dequeue cur t dec b = Ok (m, d, cb, b') → buf_step t b b'
  | S_stall cur addr cb b' : stallMessage cur addr t b = Ok (cb, b') → buf_step t b b'
  | S_recycle lat b' a : recycle t lat b = Ok (b', a) → buf_step t b b'
  | S_reanalyze addr b' : reanalyzeMessages addr t b = Ok b' → buf_step t b b'
  | S_reanalyzeAll b' : reanalyzeAllMessages t b = Ok b' → buf_step t b b'
  | S_delayHead rt delta rnd warm b' a : delayHead rt t delta rnd warm b = Ok (b', a) → buf_step t b b'
  | S_defer addr m : buf_step t b (deferEnqueueingMessage addr m b)
  | S_enqueueDeferred rt addr delta rnd warm b' ts :
      enqueueDeferredMessages rt addr t delta rnd warm b = Ok (b', ts) → buf_step t b b'
  | S_slots n : buf_step t b (snd (areNSlotsAvailable n t b))
  | S_getSize : buf_step t b (snd (getSize t b))
  | S_callback cb : buf_step t b (set_callback cb b)
  | S_clear : 0 < t → buf_step t b (clear b)
  | S_clearStats : buf_step t b (clearStats b).

(** The buffers reachable by operations at non-decreasing times. *)
Inductive buf_reachable : Z → MessageBuffer → Prop :=
  | BR_new size rate ordered rand zero : buf_reachable 0 (new_MessageBuffer size rate ordered rand zero)
  | BR_step now t b b' : buf_reachable now b → now ≤ t → buf_step t b b' → buf_reachable t b'.

(** From [t] on, the sender never sees less than what the buffer holds. *)
Record no_overcommit (t : Z) (b : MessageBuffer) : Prop := {
  noc_enq : m_time_last_time_enqueue b ≤ t;
  noc_pop : m_time_last_time_pop b ≤ t;
  noc_msgs : 0 ≤ m_msgs_this_cycle b;
  noc_size : ∀ u, t ≤ u → occupancy b ≤ visible_size u b
}.

Lemma no_overcommit_later t u b : no_overcommit t b → t ≤ u → no_overcommit u b.
Proof. intros [] ?. split; [lia..|]. intros v ?. apply noc_size0. lia. Qed.

(** Operations that keep the bookkeeping and do not add to the occupancy. *)
Lemma no_overcommit_frame t b b' :
  no_overcommit t b → occupancy b' ≤ occupancy b →
  m_time_last_time_enqueue b' = m_time_last_time_enqueue b →
  m_time_last_time_pop b' = m_time_last_time_pop b →
  m_msgs_this_cycle b' = m_msgs_this_cycle b →
  m_size_at_cycle_start b' = m_size_at_cycle_start b →
  m_stalled_at_cycle_start b' = m_stalled_at_cycle_start b →
  no_overcommit t b'.
Proof.
  intros [He Hp Hm Hs] Ho E1 E2 E3 E4 E5. split; [congruence..|].
  intros u Hu. specialize (Hs u Hu). unfold visible_size in *. rewrite E1, E2, E3, E4, E5.
  destruct (m_time_last_time_pop b <? u); unfold occupancy in *; lia.
Qed.

Lemma no_overcommit_enqueue rt m delta rnd warm byp t b b' a :
  no_overcommit t b → enqueue rt m t delta rnd warm byp b = Ok (b', a) → no_overcommit t b'.
Proof.
  intros [He Hp Hm Hs] H. apply enqueue_ok in H as (Hh & _ & _ & Hb & _).
  assert (Hocc : occupancy b' = occupancy b + 1).
  { unfold occupancy, heap_size. rewrite Hh, heap_push_length, Hb. simpl. lia. }
  split; [rewrite Hb; simpl; try zcase; lia..|].
  intros u Hu. specialize (Hs u Hu). unfold visible_size in *.
  assert (m_time_last_time_pop b' = m_time_last_time_pop b) as -> by by rewrite Hb.
  destruct (Z.ltb_spec (m_time_last_time_pop b) u) as [|Hpu]; [unfold occupancy; lia|].
  rewrite Hb in *. simpl in *. revert Hs. repeat zcase; lia.
Qed.

Lemma no_overcommit_pop k cur dec t b m d cb b' b'' :
  no_overcommit t b → dequeue cur t dec b = Ok (m, d, cb, b') → 0 ≤ k ≤ 1 →
  occupancy b'' = occupancy b' + k →
  m_time_last_time_enqueue b'' = m_time_last_time_enqueue b' →
  m_time_last_time_pop b'' = m_time_last_time_pop b' →
  m_msgs_this_cycle b'' = m_msgs_this_cycle b' →
  m_size_at_cycle_start b'' = m_size_at_cycle_start b' →
  m_stalled_at_cycle_start b'' = m_stalled_at_cycle_start b' →
  no_overcommit t b''.
Proof.
  intros [He Hp Hm Hs] H Hk Ho E1 E2 E3 E4 E5.
  apply dequeue_ok in H as (_ & m0 & h & Hh & Hh' & _ & _ & P1 & P2 & P3 & P4 & _ & _ & _ & _ & _ & _ & _ & P5).
  assert (Hocc : occupancy b' = occupancy b - 1).
  { unfold occupancy, heap_size. rewrite Hh, Hh', P4. simpl. lia. }
  split; [lia..|]. intros u Hu. specialize (Hs u Hu). unfold visible_size in *.
  rewrite E1, E2, E3, E4, E5, P1, P2, P3.
  destruct (Z.ltb_spec t u); [unfold occupancy in *; lia|].
  assert (u = t) as -> by lia. unfold occupancy in *. revert Hs P5. repeat zcase; lia.
Qed.

Lemma no_overcommit_reanalyzeList lt u t b b' k :
  reanalyzeList lt u b = Ok b' →
  no_overcommit t (upd_buffer b (m_prio_heap b) (m_stall_msg_map b) (m_deferred_msg_map b)
                     (m_stall_map_size b + Z.of_nat (length lt) + k)) →
  no_overcommit t (upd_buffer b' (m_prio_heap b') (m_stall_msg_map b') (m_deferred_msg_map b')
                     (m_stall_map_size b' + k)) ∧
  m_stall_map_size b' = m_stall_map_size b.
Proof.
  unfold reanalyzeList. revert b. induction lt as [|m lt IH]; intros b H Hb; simpl in H.
  { simplify_eq. simpl in Hb. rewrite Z.add_0_r in Hb. by split. }
  apply rbind_ok in H as (b1 & H1 & H). apply rbind_ok in H1 as (? & _ & H1).
  injection H1 as <-. apply IH in H as [H Hsz]; [by split|].
  eapply no_overcommit_frame; [exact Hb| |done..].
  unfold occupancy, heap_size. simpl. rewrite heap_push_length. lia.
Qed.

Lemma no_overcommit_reanalyze lt u t b b' stalls :
  no_overcommit t b →
  reanalyzeList lt u (upd_buffer b (m_prio_heap b) (m_stall_msg_map b) (m_deferred_msg_map b)
                        (m_stall_map_size b - Z.of_nat (length lt))) = Ok b' →
  no_overcommit t (upd_buffer b' (m_prio_heap b') stalls (m_deferred_msg_map b') (m_stall_map_size b')).
Proof.
  intros Hb H. apply (no_overcommit_reanalyzeList lt u t _ _ 0) in H as [H _].
  - eapply no_overcommit_frame; [exact H| |done..]. unfold occupancy, heap_size. simpl. lia.
  - eapply no_overcommit_frame; [exact Hb| |done..]. unfold occupancy, heap_size. simpl. lia.
Qed.

(** A chain of buffer updates each of which keeps the invariant. *)
Lemma fold_res_keeps {A S} (P : S → Prop) (f : A → S → res S) l s s' :
  (∀ x t t', x ∈ l → P t → f x t = Ok t' → P t') → P s → fold_res f l s = Ok s' → P s'.
Proof.
  revert s. induction l as [|x l IH]; intros s Hf Hs H; simpl in H; [by simplify_eq|].
  apply rbind_ok in H as (t & Ht & H). eapply IH; [|by eapply Hf; [left|..]|done].
  intros y u u' Hy. apply Hf. by right.
Qed.

Lemma no_overcommit_step now t b b' :
  no_overcommit now b → now ≤ t → buf_step t b b' → no_overcommit t b'.
Proof.
  intros Hb Hle Hstep. apply (no_overcommit_later _ t) in Hb; [|done]. clear now Hle.
  destruct Hstep as [rt m delta rnd warm byp b' a H|cur dec m d cb b' H|cur addr cb b' H|lat b' a H|addr b' H
    |b' H|rt delta rnd warm b' a H|addr m|rt addr delta rnd warm b' ts H|n| |cb|Ht|].
  - by eapply no_overcommit_enqueue.
  - eapply (no_overcommit_pop 0); try done; lia.
  - unfold stallMessage in H. apply rbind_ok in H as ([r c] & _ & H). apply rbind_ok in H as (? & _ & H).
    apply rbind_ok in H as ([[[m d] cb'] b1] & H & Heq). simplify_eq.
    eapply (no_overcommit_pop 1); try done. unfold occupancy, heap_size. simpl. lia.
  - unfold recycle in H. apply rbind_ok in H as ([r c] & _ & H). apply rbind_ok in H as (? & _ & H).
    destruct (m_prio_heap b) as [|m h] eqn:Hh; [done|]. simplify_eq.
    eapply no_overcommit_frame; [exact Hb| |done..].
    unfold occupancy, heap_size. simpl. rewrite heap_push_length, Hh. simpl. lia.
  - unfold reanalyzeMessages in H. destruct (m_stall_msg_map b !! addr) as [lt|]; [|done].
    apply rbind_ok in H as (? & _ & H). apply rbind_ok in H as (b1 & H & Heq). simplify_eq.
    by eapply no_overcommit_reanalyze.
  - unfold reanalyzeAllMessages in H. apply rbind_ok in H as (b1 & H & Heq). simplify_eq.
    apply (fold_res_keeps (no_overcommit t)) in H.
    + eapply no_overcommit_frame; [exact H| |done..]. unfold occupancy, heap_size. simpl. lia.
    + intros al u u' _ Hu Hf. apply rbind_ok in Hf as (? & _ & Hf).
      eapply (no_overcommit_reanalyze _ _ _ _ _ (m_stall_msg_map u')) in Hf; [|exact Hu]. by destruct u'.
    + done.
  - unfold delayHead in H. destruct (m_prio_heap b) as [|m h] eqn:Hh; [done|].
    eapply no_overcommit_enqueue; [|done]. eapply no_overcommit_frame; [exact Hb| |done..].
    unfold occupancy, heap_size. simpl. rewrite Hh. simpl. lia.
  - by eapply no_overcommit_frame.
  - unfold enqueueDeferredMessages in H. destruct (m_deferred_msg_map b !! addr) as [v|]; [|done].
    apply rbind_ok in H as (? & _ & H). apply rbind_ok in H as ([b1 tl] & H & Heq). simplify_eq.
    apply (fold_res_keeps (fun s => no_overcommit t (fst s))) in H; [|clear H|done].
    + by eapply no_overcommit_frame.
    + intros m [u us] [u' us'] _ Hu Hf. apply rbind_ok in Hf as ([u1 a] & Hf & Heq). simplify_eq.
      by eapply no_overcommit_enqueue.
  - unfold areNSlotsAvailable. repeat (zcase; simpl; try done). by eapply no_overcommit_frame.
  - unfold getSize. zcase; simpl; [done|]. by eapply no_overcommit_frame.
  - by eapply no_overcommit_frame.
  - split; simpl; [lia..|]. intros u Hu. unfold visible_size. simpl. zcase; [done|lia].
  - by eapply no_overcommit_frame.
Qed.

Lemma reachable_no_overcommit t b : buf_reachable t b → no_overcommit t b.
Proof.
  induction 1; [|by eapply no_overcommit_step].
  split; simpl; [lia..|]. intros u Hu. unfold visible_size, occupancy, heap_size. simpl. repeat zcase; lia.
Qed.

(** A call of [enqueue] by a sender: the message, the delay, the flags of the system,
    and what [random_time] returns if the buffer asks it. *)
Record Enqueue := {
  sd_rt : Z; sd_message : Message; sd_delta : Z; sd_random : bool; sd_warmup : bool; sd_bypass : bool
}.

Definition send (t : Z) (x : Enqueue) (b : MessageBuffer) : res MessageBuffer :=
  let* ' (b, _) := enqueue (sd_rt x) (sd_message x) t (sd_delta x) (sd_random x) (sd_warmup x) (sd_bypass x) b in Ok b.

(** The sender's burst: [areNSlotsAvailable] was asked for the whole of it. *)
Definition send_burst (t : Z) (xs : list Enqueue) (b : MessageBuffer) : res MessageBuffer := fold_res (send t) xs b.

(** The assertion of [enqueue] on the capacity. *)
Definition over_capacity : error := EAssert "heap + stall map <= m_max_size".

(** What lets a burst with the fixed delay [delta] and no random delays through the
    other checks of [enqueue]: the buffer does not ask for random delays on its own
    (the default [ruby_system] follows the system), the delay is positive, time does
    not wrap, and no earlier message arrives later. *)
Record burst_ok (t delta : Z) (b : MessageBuffer) : Prop := {
  burst_plain : m_randomization b ≠ enabled;
  burst_delta : 0 < delta;
  burst_time : 0 ≤ t ∧ t + delta < 2 ^ 64;
  burst_fifo : m_last_arrival_time b ≤ t + delta
}.

Definition plain_send (t delta : Z) (x : Enqueue) : Prop :=
  sd_delta x = delta ∧ sd_random x = false ∧ m_LastEnqueueTime (sd_message x) ≤ t.

Lemma enqueue_succeeds rt m t delta warm byp b :
  burst_ok t delta b → m_LastEnqueueTime m ≤ t →
  m_max_size b = 0 ∨ occupancy b + 1 ≤ m_max_size b →
  ∃ b', enqueue rt m t delta false warm byp b = Ok (b', t + delta) ∧ burst_ok t delta b' ∧
        occupancy b' = occupancy b + 1 ∧ m_max_size b' = m_max_size b.
Proof.
  intros [Hr Hd [Ht Hw] Hl] Hm Hcap. unfold enqueue, arrival, updateDelayedTicks, assert_.
  assert (match m_randomization b with disabled => true | enabled => false | ruby_system => negb false end = true) as ->
    by (by destruct (m_randomization b)).
  rewrite (u64_small (t + delta)) by lia.
  rewrite (proj2 (Z.eqb_neq delta 0)), (proj2 (Z.leb_le t (t + delta))), (proj2 (Z.leb_le _ t)),
    (proj2 (Z.ltb_ge (t + delta) _)) by lia. simpl. rewrite andb_false_r. simpl.
  set (b' := upd_counts _ _ _ _ _ _).
  assert (Ho : occupancy b' = occupancy b + 1).
  { unfold occupancy, heap_size, b'. simpl. rewrite heap_push_length. lia. }
  change (heap_size b' + m_stall_map_size b) with (occupancy b').
  assert ((m_max_size b =? 0) || (occupancy b' <=? m_max_size b) = true) as ->.
  { apply orb_true_iff. rewrite Z.eqb_eq, Z.leb_le. destruct Hcap; [by left|right; lia]. }
  exists b'. split_and!; [done| |done..]. split; [done|done|done|]. simpl. destruct warm; lia.
Qed.

(** Whatever the arguments, with room the assertion on the capacity holds. *)
Lemma send_capacity t x b :
  m_max_size b = 0 ∨ occupancy b + 1 ≤ m_max_size b →
  match send t x b with
  | Ok b' => occupancy b' = occupancy b + 1 ∧ m_max_size b' = m_max_size b
  | Err e => e ≠ over_capacity
  end.
Proof.
  intros Hcap. unfold send, enqueue. destruct ((sd_delta x =? 0) && _); [done|]. cbn [rbind].
  destruct (arrival _ t (sd_delta x) (sd_random x) b) as [last_arr arr]. unfold assert_.
  destruct (t <=? arr); [|done]. cbn [rbind]. destruct (m_strict_fifo b && _ && _); [done|]. cbn [rbind].
  destruct (m_LastEnqueueTime (sd_message x) <=? t) eqn:El; [|done]. cbn [rbind].
  unfold updateDelayedTicks, assert_. rewrite El. cbn [rbind]. cbv zeta.
  set (b' := upd_counts _ _ _ _ _ _).
  assert (Ho : occupancy b' = occupancy b + 1).
  { unfold occupancy, heap_size, b'. simpl. rewrite heap_push_length. lia. }
  change (heap_size b' + m_stall_map_size b') with (occupancy b'). change (m_max_size b') with (m_max_size b).
  assert ((m_max_size b =? 0) || (occupancy b' <=? m_max_size b) = true) as ->; [|done].
  apply orb_true_iff. rewrite Z.eqb_eq, Z.leb_le. destruct Hcap; [by left|right; lia].
Qed.

Lemma send_burst_capacity t xs b :
  m_max_size b = 0 ∨ occupancy b + Z.of_nat (length xs) ≤ m_max_size b →
  match send_burst t xs b with
  | Ok b' => occupancy b' = occupancy b + Z.of_nat (length xs)
  | Err e => e ≠ over_capacity
  end.
Proof.
  unfold send_burst. revert b. induction xs as [|x xs IH]; intros b Hcap; simpl; [lia|]. cbn [length] in Hcap.
  pose proof (send_capacity t x b ltac:(lia)) as Hx. destruct (send t x b) as [b1|e]; [|done]. cbn [rbind].
  destruct Hx as [Ho Hm]. specialize (IH b1 ltac:(rewrite Hm; lia)). destruct (fold_res _ xs b1); [lia|done].
Qed.

Lemma send_burst_succeeds t delta xs b :
  burst_ok t delta b → Forall (plain_send t delta) xs →
  m_max_size b = 0 ∨ occupancy b + Z.of_nat (length xs) ≤ m_max_size b →
  is_ok (send_burst t xs b) = true.
Proof.
  unfold send_burst. intros Hb Hxs. revert b Hb. induction Hxs as [|x xs (Hd & Hr & Hm) Hxs IH]; intros b Hb Hcap; [done|].
  cbn [length] in Hcap. simpl. unfold send at 1. rewrite Hd, Hr.
  destruct (enqueue_succeeds (sd_rt x) (sd_message x) t delta (sd_warmup x) (sd_bypass x) b Hb Hm) as (b1 & -> & Hb1 & Ho & Hx); [lia|].
  cbn [rbind]. apply IH; [done|rewrite Hx; lia].
Qed.

(** C16: A slot that [areNSlotsAvailable] grants is really there. Take any buffer
    reachable by enqueues, dequeues, stalls, re-analyses, recycles, deferrals,
    clears and resets at non-decreasing times, and a positive answer for [n] slots
    (sizes below 2^32). The query changes nothing, and [n] calls of [enqueue] at
    that time, with any messages, delays, random times and flags, never trip the
    assertion on the capacity, although pops of the current cycle are hidden from
    the sender and stalled messages are kept in a separate map: the calls either
    all succeed and add exactly [n] messages, or the burst stops at another check
    of [enqueue] (zero delay, order, time). Without random delays, with one positive
    delay and no earlier message that arrives later ([burst_ok]), all succeed. *)
Theorem granted_slots_are_free now t b xs b1 :
  buf_reachable now b → now ≤ t →
  0 ≤ visible_size t b + Z.of_nat (length xs) < 2 ^ 32 →
  areNSlotsAvailable (Z.of_nat (length xs)) t b = (true, b1) →
  b1 = b ∧
  match send_burst t xs b with
  | Ok b' => occupancy b' = occupancy b + Z.of_nat (length xs)
  | Err e => e ≠ over_capacity
  end ∧
  ∀ delta, burst_ok t delta b → Forall (plain_send t delta) xs → is_ok (send_burst t xs b) = true.
Proof.
  intros Hr Hle Hrange Ha. destruct (reachable_no_overcommit _ _ Hr) as [_ _ _ Hs].
  specialize (Hs t Hle). unfold areNSlotsAvailable, u32 in Ha. rewrite Z.mod_small in Ha by done.
  assert (b1 = b ∧ (m_max_size b = 0 ∨ occupancy b + Z.of_nat (length xs) ≤ m_max_size b)) as [-> Hcap].
  { destruct (Z.eqb_spec (m_max_size b) 0) as [Hz|Hz]; [simplify_eq; by split; [|left]|].
    destruct (Z.leb_spec (visible_size t b + Z.of_nat (length xs)) (m_max_size b)); simplify_eq. split; [done|right; lia]. }
  split_and!; [done|by apply send_burst_capacity|]. intros delta Hb Hxs. by apply (send_burst_succeeds t delta).
Qed.

Definition ex_send (h : Z) : Enqueue :=
  {| sd_rt := 0; sd_message := ex_message h; sd_delta := 5; sd_random := false; sd_warmup := false; sd_bypass := false |}.

(** A buffer of size 3, with the default randomisation, and one message received
    in cycle 20: two more fit. *)
Lemma granted_slots_are_free_witness :
  ∃ b, buf_reachable 20 b ∧ m_max_size b = 3 ∧ visible_size 20 b = 1 ∧
       ∃ b', send_burst 20 [ex_send 2; ex_send 3] b = Ok b' ∧ occupancy b' = 2.
Proof.
  set (b0 := new_MessageBuffer 3 0 true ruby_system false).
  destruct (enqueue 0 (ex_message 1) 10 5 false false false b0) as [[b1 a]|] eqn:E1; [|by vm_compute in E1].
  destruct (dequeue 20 20 true b1) as [[[[m d] cb] b2]|] eqn:E2; [|by vm_compute in E1; simplify_eq; vm_compute in E2].
  assert (R : buf_reachable 20 b2).
  { eapply (BR_step 10 20); [eapply (BR_step 0 10); [apply (BR_new 3 0 true ruby_system false)|lia|]|lia|].
    - by eapply S_enqueue.
    - by eapply S_dequeue. }
  exists b2. vm_compute in E1. simplify_eq. vm_compute in E2. simplify_eq.
  split_and!; [done..|].
  match type of R with buf_reachable _ ?b =>
    destruct (granted_slots_are_free 20 20 b [ex_send 2; ex_send 3] b) as (_ & Ho & Hall);
      [exact R|lia|by vm_compute|by vm_compute|];
    assert (is_ok (send_burst 20 [ex_send 2; ex_send 3] b) = true) as Hok
      by (apply (Hall 5); [by split; vm_compute|by repeat constructor]);
    destruct (send_burst 20 [ex_send 2; ex_send 3] b) as [b'|]; [|discriminate]
  end.
  exists b'. split; [done|]. rewrite Ho. by vm_compute.
Defined.

(** After [clearStats] a new message overtakes an older one that arrives at the same
    time. *)
Example clearStats_reorders :
  match (let* b := send 10 (ex_send 1) (new_MessageBuffer 0 0 true disabled false) in
         let* b := send 10 (ex_send 2) b in send 10 (ex_send 3) (clearStats b)) with
  | Ok b => map msg_handle (m_prio_heap b) = [1; 3; 2]
  | Err _ => False
  end.
Proof. by vm_compute. Qed.
