(* ===== verification/NetworkInterface.v ===== *)
(** * Network interfaces: garnet/NetworkInterface.{hh,cc}

    The interface between a protocol controller and its router. It cuts the
    messages of the protocol's buffers into flits, sends them under credit flow
    control, and hands the message of every tail flit it receives to the
    protocol, stalling the tail (and its credit) while there is no room. *)

From S2P Require Import Prelude IntMath Clocked Consumer MessageBuffer NetDest Flit RoutingUnit.
From S2P Require Import VirtualChannel NetworkLink InputUnit OutputUnit SwitchAllocator Router.

(** ** Ports *)

Record OutputPort := {
  op_vnets : list Z;
  outFlitQueue : flitBuffer;
  outNetLink : Z;
  inCreditLink : Z;
  vcRoundRobin : Z;
  op_routerID : Z;
  op_bitWidth : Z
}.

Definition new_OutputPort (outLink creditLink : Z) (l : NetworkLink) (routerID : Z) : OutputPort :=
  {| op_vnets := mVnets l; outFlitQueue := new_flitBuffer; outNetLink := outLink;
     inCreditLink := creditLink; vcRoundRobin := 0; op_routerID := routerID; op_bitWidth := bitWidth l |}.

Definition set_vcRoundRobin (vc : Z) (p : OutputPort) : OutputPort :=
  {| op_vnets := op_vnets p; outFlitQueue := outFlitQueue p; outNetLink := outNetLink p;
     inCreditLink := inCreditLink p; vcRoundRobin := vc; op_routerID := op_routerID p;
     op_bitWidth := op_bitWidth p |}.

Definition with_outFlitQueue (p : OutputPort) (q : flitBuffer) : OutputPort :=
  {| op_vnets := op_vnets p; outFlitQueue := q; outNetLink := outNetLink p;
     inCreditLink := inCreditLink p; vcRoundRobin := vcRoundRobin p; op_routerID := op_routerID p;
     op_bitWidth := op_bitWidth p |}.

(** [messageEnqueuedThisCycle] is not set by the constructor. *)
Record InputPort := {
  ip_vnets : list Z;
  outCreditQueue : flitBuffer;
  inNetLink : Z;
  outCreditLink : Z;
  ip_bitWidth : Z;
  m_stall_queue : list flit;
  messageEnqueuedThisCycle : option bool
}.

Definition new_InputPort (inLink creditLink : Z) (l : NetworkLink) : InputPort :=
  {| ip_vnets := mVnets l; outCreditQueue := new_flitBuffer; inNetLink := inLink;
     outCreditLink := creditLink; ip_bitWidth := bitWidth l; m_stall_queue := [];
     messageEnqueuedThisCycle := None |}.

Definition upd_inport (p : InputPort) (q : flitBuffer) (stall : list flit) (enq : option bool) : InputPort :=
  {| ip_vnets := ip_vnets p; outCreditQueue := q; inNetLink := inNetLink p;
     outCreditLink := outCreditLink p; ip_bitWidth := ip_bitWidth p; m_stall_queue := stall;
     messageEnqueuedThisCycle := enq |}.

Definition sendCredit (cFlit : flit) (p : InputPort) : InputPort :=
  upd_inport p (insert cFlit (outCreditQueue p)) (m_stall_queue p) (messageEnqueuedThisCycle p).

(** [isVnetSupported] of both kinds of port. *)
Definition isVnetSupported (vnets : list Z) (pVnet : Z) : bool :=
  Nat.eqb (length vnets) 0 || existsb (fun it => it =? pVnet) vnets.

(** ** NetworkInterface *)

Record NiStats := {
  m_local_flits_injected : list Z;
  m_local_flits_received : list Z;
  m_local_flit_network_latency : list Z;
  m_local_flit_queueing_latency : list Z;
  m_local_total_hops : Z;
  m_local_packets_injected : list Z;
  m_local_packets_received : list Z;
  m_local_packet_network_latency : list Z;
  m_local_packet_queueing_latency : list Z
}.

Record NetworkInterface := {
  ni_id : Z;
  ni_virtual_networks : Z;
  ni_vc_per_vnet : Z;
  m_vc_allocator : list Z;
  outPorts : list OutputPort;
  inPorts : list InputPort;
  m_deadlock_threshold : Z;
  ni_outVcState : list OutVcState;
  ni_stall_count : list Z;
  niOutVcs : list flitBuffer;
  m_ni_out_vcs_enqueue_time : list Z;
  inNode_ptr : list (option Z);       (* handles of the protocol's buffers *)
  outNode_ptr : list (option Z);
  vc_busy_counter : list Z;
  ni_stats : NiStats;
  ni_router : option Z;               (* id of m_router *)
  ni_consumer : Consumer
}.

Definition new_NetworkInterface (id virt_nets deadlock_threshold : Z) : NetworkInterface :=
  let zeros := replicate (Z.to_nat virt_nets) 0 in
  {| ni_id := id; ni_virtual_networks := virt_nets; ni_vc_per_vnet := 0; m_vc_allocator := zeros;
     outPorts := []; inPorts := []; m_deadlock_threshold := deadlock_threshold; ni_outVcState := [];
     ni_stall_count := zeros; niOutVcs := []; m_ni_out_vcs_enqueue_time := []; inNode_ptr := [];
     outNode_ptr := []; vc_busy_counter := zeros;
     ni_stats := {| m_local_flits_injected := zeros; m_local_flits_received := zeros;
       m_local_flit_network_latency := zeros; m_local_flit_queueing_latency := zeros;
       m_local_total_hops := 0; m_local_packets_injected := zeros; m_local_packets_received := zeros;
       m_local_packet_network_latency := zeros; m_local_packet_queueing_latency := zeros |};
     ni_router := None; ni_consumer := new_Consumer |}.

(** The members that the wakeup changes. *)
Definition upd_ni (n : NetworkInterface) (alloc busy : list Z) (ovs : list OutVcState)
    (vcs : list flitBuffer) (times : list Z) (ops : list OutputPort) (ips : list InputPort)
    (stalls : list Z) (st : NiStats) (k : Consumer) : NetworkInterface :=
  {| ni_id := ni_id n; ni_virtual_networks := ni_virtual_networks n; ni_vc_per_vnet := ni_vc_per_vnet n;
     m_vc_allocator := alloc; outPorts := ops; inPorts := ips;
     m_deadlock_threshold := m_deadlock_threshold n; ni_outVcState := ovs; ni_stall_count := stalls;
     niOutVcs := vcs; m_ni_out_vcs_enqueue_time := times; inNode_ptr := inNode_ptr n;
     outNode_ptr := outNode_ptr n; vc_busy_counter := busy; ni_stats := st; ni_router := ni_router n;
     ni_consumer := k |}.

Definition with_alloc (n : NetworkInterface) (alloc busy : list Z) : NetworkInterface :=
  upd_ni n alloc busy (ni_outVcState n) (niOutVcs n) (m_ni_out_vcs_enqueue_time n) (outPorts n)
    (inPorts n) (ni_stall_count n) (ni_stats n) (ni_consumer n).
Definition with_vc_data (n : NetworkInterface) (ovs : list OutVcState) (vcs : list flitBuffer)
    (times : list Z) : NetworkInterface :=
  upd_ni n (m_vc_allocator n) (vc_busy_counter n) ovs vcs times (outPorts n) (inPorts n)
    (ni_stall_count n) (ni_stats n) (ni_consumer n).
Definition with_outPorts (n : NetworkInterface) (ps : list OutputPort) : NetworkInterface :=
  upd_ni n (m_vc_allocator n) (vc_busy_counter n) (ni_outVcState n) (niOutVcs n)
    (m_ni_out_vcs_enqueue_time n) ps (inPorts n) (ni_stall_count n) (ni_stats n) (ni_consumer n).
Definition with_inPorts (n : NetworkInterface) (ps : list InputPort) (stalls : list Z) : NetworkInterface :=
  upd_ni n (m_vc_allocator n) (vc_busy_counter n) (ni_outVcState n) (niOutVcs n)
    (m_ni_out_vcs_enqueue_time n) (outPorts n) ps stalls (ni_stats n) (ni_consumer n).
Definition with_nistats (n : NetworkInterface) (st : NiStats) : NetworkInterface :=
  upd_ni n (m_vc_allocator n) (vc_busy_counter n) (ni_outVcState n) (niOutVcs n)
    (m_ni_out_vcs_enqueue_time n) (outPorts n) (inPorts n) (ni_stall_count n) st (ni_consumer n).
Definition with_niconsumer (n : NetworkInterface) (k : Consumer) : NetworkInterface :=
  upd_ni n (m_vc_allocator n) (vc_busy_counter n) (ni_outVcState n) (niOutVcs n)
    (m_ni_out_vcs_enqueue_time n) (outPorts n) (inPorts n) (ni_stall_count n) (ni_stats n) k.

(** ** The objects an interface shares with the rest of the system

    The links and the protocol's buffers, by handle; the messages that the flits
    carry; the packet numbers and traffic counters of the network; and the
    calls that schedule other objects, in order. *)

Inductive ni_effect :=
  | NiSchedule (c : consumer_ref) (tick : Z)        (* scheduleEventAbsolute on a link *)
  | NiRegister (router_id tick : Z)                 (* GarnetNetwork::registerWakeup *)
  | NiBufferWakeup (buffer tick : Z)                (* the consumer of a protocol buffer *)
  | NiCallback (buffer : Z).                        (* a dequeue callback *)

Record World := {
  w_links : Links;
  w_buffers : gmap Z MessageBuffer;
  w_messages : gmap Z Message;
  w_next_message : Z;
  m_next_packet_id : Z;
  m_data_traffic : gmap (Z * Z) Z;
  m_ctrl_traffic : gmap (Z * Z) Z;
  w_effects : list ni_effect
}.

Definition with_w_links (w : World) (ls : Links) : World :=
  {| w_links := ls; w_buffers := w_buffers w; w_messages := w_messages w;
     w_next_message := w_next_message w; m_next_packet_id := m_next_packet_id w;
     m_data_traffic := m_data_traffic w; m_ctrl_traffic := m_ctrl_traffic w; w_effects := w_effects w |}.
Definition with_w_buffers (w : World) (bs : gmap Z MessageBuffer) : World :=
  {| w_links := w_links w; w_buffers := bs; w_messages := w_messages w;
     w_next_message := w_next_message w; m_next_packet_id := m_next_packet_id w;
     m_data_traffic := m_data_traffic w; m_ctrl_traffic := m_ctrl_traffic w; w_effects := w_effects w |}.
Definition say (e : ni_effect) (w : World) : World :=
  {| w_links := w_links w; w_buffers := w_buffers w; w_messages := w_messages w;
     w_next_message := w_next_message w; m_next_packet_id := m_next_packet_id w;
     m_data_traffic := m_data_traffic w; m_ctrl_traffic := m_ctrl_traffic w;
     w_effects := w_effects w ++ [e] |}.

Definition get_buffer (h : Z) (w : World) : res MessageBuffer :=
  match w_buffers w !! h with Some b => Ok b | None => Err EOutOfRange end.
Definition set_buffer (h : Z) (b : MessageBuffer) (w : World) : World :=
  with_w_buffers w (<[h := b]> (w_buffers w)).

(** A dereferenced pointer of [inNode_ptr] or [outNode_ptr]. *)
Definition node_ptr (v : list (option Z)) (vnet : Z) : res Z :=
  let* p := vec_get v vnet in match p with Some h => Ok h | None => Err EUninit end.

(** ** Wiring *)

(** [NetworkInterface::addInPort] *)
Definition ni_addInPort (in_link credit_link : Z) (n : NetworkInterface) (ls : Links)
    : res (NetworkInterface * Links) :=
  let* l := get_link in_link ls in
  let port := Z.of_nat (length (inPorts n)) in
  let n := with_inPorts n (inPorts n ++ [new_InputPort in_link credit_link l]) (ni_stall_count n) in
  let* ls := upd_link_at in_link (setLinkConsumer (ConsNI (ni_id n))) ls in
  let* ls := upd_link_at credit_link (setSourceQueue (QNICredit (ni_id n) port)) ls in
  if negb (ni_vc_per_vnet n =? 0) then
    let* ls := upd_link_at in_link (setVcsPerVnet (ni_vc_per_vnet n)) ls in
    let* ls := upd_link_at credit_link (setVcsPerVnet (ni_vc_per_vnet n)) ls in
    Ok (n, ls)
  else Ok (n, ls).

(** The per-VC data of [addOutPort], created with the first output port. *)
Definition size_vcs (n : NetworkInterface) (router consumerVcs : Z) (ovs : list OutVcState)
    : NetworkInterface :=
  let num := Z.to_nat (consumerVcs * ni_virtual_networks n) in
  {| ni_id := ni_id n; ni_virtual_networks := ni_virtual_networks n; ni_vc_per_vnet := consumerVcs;
     m_vc_allocator := m_vc_allocator n; outPorts := outPorts n; inPorts := inPorts n;
     m_deadlock_threshold := m_deadlock_threshold n; ni_outVcState := ovs;
     ni_stall_count := ni_stall_count n; niOutVcs := replicate num new_flitBuffer;
     m_ni_out_vcs_enqueue_time := replicate num INFINITE_; inNode_ptr := inNode_ptr n;
     outNode_ptr := outNode_ptr n; vc_busy_counter := vc_busy_counter n; ni_stats := ni_stats n;
     ni_router := Some router; ni_consumer := ni_consumer n |}.

Definition set_router (router : Z) (n : NetworkInterface) : NetworkInterface :=
  {| ni_id := ni_id n; ni_virtual_networks := ni_virtual_networks n; ni_vc_per_vnet := ni_vc_per_vnet n;
     m_vc_allocator := m_vc_allocator n; outPorts := outPorts n; inPorts := inPorts n;
     m_deadlock_threshold := m_deadlock_threshold n; ni_outVcState := ni_outVcState n;
     ni_stall_count := ni_stall_count n; niOutVcs := niOutVcs n;
     m_ni_out_vcs_enqueue_time := m_ni_out_vcs_enqueue_time n; inNode_ptr := inNode_ptr n;
     outNode_ptr := outNode_ptr n; vc_busy_counter := vc_busy_counter n; ni_stats := ni_stats n;
     ni_router := Some router; ni_consumer := ni_consumer n |}.

(** [NetworkInterface::addOutPort]; [router] is the id of [router_ptr]. *)
Definition ni_addOutPort (cfg : NetConfig) (out_link credit_link router_id router consumerVcs : Z)
    (n : NetworkInterface) (ls : Links) : res (NetworkInterface * Links) :=
  let n := match ni_router n with None => set_router router n | Some _ => n end in
  let* l := get_link out_link ls in
  let port := Z.of_nat (length (outPorts n)) in
  let n := with_outPorts n (outPorts n ++ [new_OutputPort out_link credit_link l router_id]) in
  let* _ := assert_ "consumerVcs > 0" (0 <? consumerVcs) in
  let* ' (n, ls) :=
    (if Nat.eqb (length (niOutVcs n)) 0 then
      let* ovs := for_range 0 (Z.to_nat (consumerVcs * ni_virtual_networks n))
        (fun i ovs => let* o := new_OutVcState cfg i consumerVcs in Ok (ovs ++ [o])) (ni_outVcState n) in
      let n := size_vcs n (default router (ni_router n)) consumerVcs ovs in
      let* ls := fold_res (fun iPort ls =>
        let* ls := upd_link_at (inNetLink iPort) (setVcsPerVnet (ni_vc_per_vnet n)) ls in
        upd_link_at credit_link (setVcsPerVnet (ni_vc_per_vnet n)) ls) (inPorts n) ls in
      Ok (n, ls)
    else if negb (consumerVcs =? ni_vc_per_vnet n)
    then Err (EFatal "Connected Physical links have different vc requests") else Ok (n, ls)) in
  let* ls := upd_link_at out_link (setSourceQueue (QNIOut (ni_id n) port)) ls in
  let* ls := upd_link_at out_link (setVcsPerVnet (ni_vc_per_vnet n)) ls in
  let* ls := upd_link_at credit_link (setLinkConsumer (ConsNI (ni_id n))) ls in
  let* ls := upd_link_at credit_link (setVcsPerVnet (ni_vc_per_vnet n)) ls in
  Ok (n, ls).

(** [NetworkInterface::addNode] *)
Definition addNode (ins outs : list (option Z)) (n : NetworkInterface) : NetworkInterface :=
  {| ni_id := ni_id n; ni_virtual_networks := ni_virtual_networks n; ni_vc_per_vnet := ni_vc_per_vnet n;
     m_vc_allocator := m_vc_allocator n; outPorts := outPorts n; inPorts := inPorts n;
     m_deadlock_threshold := m_deadlock_threshold n; ni_outVcState := ni_outVcState n;
     ni_stall_count := ni_stall_count n; niOutVcs := niOutVcs n;
     m_ni_out_vcs_enqueue_time := m_ni_out_vcs_enqueue_time n; inNode_ptr := ins;
     outNode_ptr := outs; vc_busy_counter := vc_busy_counter n; ni_stats := ni_stats n;
     ni_router := ni_router n; ni_consumer := ni_consumer n |}.

(** [NetworkInterface::dequeueCallback] *)
Definition dequeueCallback (env : ClockEnv) (n : NetworkInterface) : res NetworkInterface :=
  let* k := scheduleEventAbsolute env (clockEdge env 1) (ni_consumer n) in
  Ok (with_niconsumer n k).

(** ** Ports by virtual network *)

Definition getInportForVnet (vnet : Z) (n : NetworkInterface) : option InputPort :=
  snd <$> list_find (fun p => isVnetSupported (ip_vnets p) vnet = true) (inPorts n).

(** The index of the port, and the port. *)
Definition getOutportForVnet (vnet : Z) (n : NetworkInterface) : option (nat * OutputPort) :=
  list_find (fun p => isVnetSupported (op_vnets p) vnet = true) (outPorts n).

(** [NetworkInterface::get_router_id] *)
Definition ni_get_router_id (vnet : Z) (n : NetworkInterface) : res Z :=
  match getOutportForVnet vnet n with
  | Some (_, p) => Ok (op_routerID p)
  | None => Err (EAssert "oPort")
  end.

Fixpoint get_vnet_from (vc i : Z) (fuel : nat) (n : NetworkInterface) : res Z :=
  match fuel with
  | O => Err (EFatal "Could not determine vc")
  | S fuel' =>
      if (i * ni_vc_per_vnet n <=? vc) && (vc <? (i + 1) * ni_vc_per_vnet n) then Ok i
      else get_vnet_from vc (i + 1) fuel' n
  end.

Definition ni_get_vnet (vc : Z) (n : NetworkInterface) : res Z :=
  get_vnet_from vc 0 (Z.to_nat (ni_virtual_networks n)) n.

(** ** Statistics *)

Definition bump (v : list Z) (i d : Z) : res (list Z) := vec_upd v i (fun x => Ok (u64 (x + d))).

Definition incrementStats (env : ClockEnv) (t_flit : flit) (st : NiStats) : res NiStats :=
  let vnet := m_vnet t_flit in
  let* received := bump (m_local_flits_received st) vnet 1 in
  let network_delay := u64 (m_dequeue_time t_flit - m_enqueue_time t_flit - cyclesToTicks env 1) in
  let* src_queueing_delay := match src_delay t_flit with Some d => Ok d | None => Err EUninit end in
  let dest_queueing_delay := u64 (curTick env - m_dequeue_time t_flit) in
  let queueing_delay := u64 (src_queueing_delay + dest_queueing_delay) in
  let* net_lat := bump (m_local_flit_network_latency st) vnet network_delay in
  let* q_lat := bump (m_local_flit_queueing_latency st) vnet queueing_delay in
  let* ' (p_recv, p_net, p_q) :=
    (if bool_decide (m_type t_flit = TAIL_) || bool_decide (m_type t_flit = HEAD_TAIL_) then
      let* a := bump (m_local_packets_received st) vnet 1 in
      let* b := bump (m_local_packet_network_latency st) vnet network_delay in
      let* c := bump (m_local_packet_queueing_latency st) vnet queueing_delay in
      Ok (a, b, c)
    else Ok (m_local_packets_received st, m_local_packet_network_latency st,
             m_local_packet_queueing_latency st)) in
  Ok {| m_local_flits_injected := m_local_flits_injected st; m_local_flits_received := received;
        m_local_flit_network_latency := net_lat; m_local_flit_queueing_latency := q_lat;
        m_local_total_hops := u64 (m_local_total_hops st + hops_traversed (m_route t_flit));
        m_local_packets_injected := m_local_packets_injected st; m_local_packets_received := p_recv;
        m_local_packet_network_latency := p_net; m_local_packet_queueing_latency := p_q |}.

Definition with_injected (st : NiStats) (flits packets : list Z) : NiStats :=
  {| m_local_flits_injected := flits; m_local_flits_received := m_local_flits_received st;
     m_local_flit_network_latency := m_local_flit_network_latency st;
     m_local_flit_queueing_latency := m_local_flit_queueing_latency st;
     m_local_total_hops := m_local_total_hops st; m_local_packets_injected := packets;
     m_local_packets_received := m_local_packets_received st;
     m_local_packet_network_latency := m_local_packet_network_latency st;
     m_local_packet_queueing_latency := m_local_packet_queueing_latency st |}.

(** ** Injection *)

(** [NetworkInterface::calculateVC]: [None] is the source's -1. *)
Fixpoint calculateVC_loop (env : ClockEnv) (vnet : Z) (i : nat) (n : NetworkInterface)
    : res (option Z * NetworkInterface) :=
  match i with
  | O =>
      let* c := vec_get (vc_busy_counter n) vnet in
      let* busy := vec_set (vc_busy_counter n) vnet (c + 1) in
      if m_deadlock_threshold n <? c + 1 then Err (EPanic "Possible network deadlock")
      else Ok (None, with_alloc n (m_vc_allocator n) busy)
  | S i' =>
      let* delta := vec_get (m_vc_allocator n) vnet in
      let next := if delta + 1 =? ni_vc_per_vnet n then 0 else delta + 1 in
      let* alloc := vec_set (m_vc_allocator n) vnet next in
      let n := with_alloc n alloc (vc_busy_counter n) in
      let vc := vnet * ni_vc_per_vnet n + delta in
      let* o := vec_get (ni_outVcState n) vc in
      if ovc_isInState IDLE_ (curTick env) o then
        let* busy := vec_set (vc_busy_counter n) vnet 0 in
        Ok (Some vc, with_alloc n (m_vc_allocator n) busy)
      else calculateVC_loop env vnet i' n
  end.

Definition calculateVC (env : ClockEnv) (vnet : Z) (n : NetworkInterface) : res (option Z * NetworkInterface) :=
  calculateVC_loop env vnet (Z.to_nat (ni_vc_per_vnet n)) n.

(** The machine a global node number belongs to. *)
Fixpoint machine_of_node (rs : RubySystem) (destID m : Z) (fuel : nat) : option MachineID :=
  match fuel with
  | O => None
  | S fuel' =>
      if (MachineType_base_number rs m <=? destID) && (destID <? MachineType_base_number rs (m + 1))
      then Some {| mach_type := m; mach_num := destID - MachineType_base_number rs m |}
      else machine_of_node rs destID (m + 1) fuel'
  end.

(** The destination sets of one copy of a multicast message and of the rest.
    The source also removes the node from [net_msg_dest], a local copy of the
    message's set that is not read again. *)
Definition split_dest (rs : RubySystem) (destID : Z) (copy_dest msg_dest : NetDest) : res (NetDest * NetDest) :=
  let* personal_dest := resize rs in
  let* ' (personal_dest, copy_dest) :=
    match machine_of_node rs destID 0 (Z.to_nat (MachineType_NUM rs)) with
    | Some tempID =>
        let* p := clear personal_dest in
        let* p := add rs tempID p in
        Ok (p, p)
    | None => Ok (personal_dest, copy_dest)
    end in
  let* rest := removeNetDest personal_dest msg_dest in
  Ok (copy_dest, rest).

Definition with_destination (m : Message) (d : NetDest) : Message :=
  {| msg_handle := msg_handle m; msg_time := msg_time m; m_LastEnqueueTime := m_LastEnqueueTime m;
     m_DelayedTicks := m_DelayedTicks m; msg_counter := msg_counter m; msg_destination := d;
     msg_size_type := msg_size_type m |}.

(** [msg_ptr->clone()]: a new message object. *)
Definition clone (m : Message) (h : Z) : Message :=
  {| msg_handle := h; msg_time := msg_time m; m_LastEnqueueTime := m_LastEnqueueTime m;
     m_DelayedTicks := m_DelayedTicks m; msg_counter := msg_counter m;
     msg_destination := msg_destination m; msg_size_type := msg_size_type m |}.

(** [GarnetNetwork::update_traffic_distribution] *)
Definition update_traffic_distribution (cfg : NetConfig) (route : RouteInfo) (w : World) : res World :=
  let key := (src_router route, dest_router route) in
  let* ty := get_vnet_type cfg (vnet route) in
  let inc m := <[key := default 0 (m !! key) + 1]> m in
  Ok {| w_links := w_links w; w_buffers := w_buffers w; w_messages := w_messages w;
        w_next_message := w_next_message w; m_next_packet_id := m_next_packet_id w;
        m_data_traffic := if bool_decide (ty = DATA_VNET_) then inc (m_data_traffic w) else m_data_traffic w;
        m_ctrl_traffic := if bool_decide (ty = DATA_VNET_) then m_ctrl_traffic w else inc (m_ctrl_traffic w);
        w_effects := w_effects w |}.

(** The message of a packet and its number enter the network. *)
Definition take_packet_id (m : Message) (w : World) : World :=
  {| w_links := w_links w; w_buffers := w_buffers w;
     w_messages := <[w_next_message w := m]> (w_messages w); w_next_message := w_next_message w + 1;
     m_next_packet_id := m_next_packet_id w + 1; m_data_traffic := m_data_traffic w;
     m_ctrl_traffic := m_ctrl_traffic w; w_effects := w_effects w |}.

(** The flits of one packet. *)
Definition packet_flits (packet_id vc vnet : Z) (route : RouteInfo) (num_flits : Z) (msg : MsgPtr)
    (size width now delay : Z) : list flit :=
  map (fun i => set_src_delay (Some delay) (new_flit packet_id i vc vnet route num_flits msg size width now))
    (seqZ 0 num_flits).

Section network.
(** The system; the configuration; the sizes of control and data messages;
    [GarnetNetwork::get_router_id]. *)
Context (rs : RubySystem) (cfg : NetConfig) (ctrl_size data_size : Z) (router_of : Z → Z → res Z).

(** One copy of the message for [destID], on output VC [vc]. *)
Definition send_copy (env : ClockEnv) (vnet : Z) (oPort : OutputPort) (num_flits : Z) (multi : bool)
    (destID vc : Z) (msg : Message) (n : NetworkInterface) (w : World)
    : res (Message * NetworkInterface * World) :=
  let new_msg := clone msg (w_next_message w) in
  let* ' (new_dest, rest) :=
    (if multi then split_dest rs destID (msg_destination new_msg) (msg_destination msg)
     else Ok (msg_destination new_msg, msg_destination msg)) in
  let new_msg := with_destination new_msg new_dest in
  let msg := with_destination msg rest in
  let* dest_rt := router_of destID vnet in
  let route := {| Flit.vnet := vnet; net_dest := new_dest; src_ni := ni_id n; src_router := op_routerID oPort;
                  dest_ni := destID; dest_router := dest_rt; hops_traversed := -1 |} in
  let* packets := bump (m_local_packets_injected (ni_stats n)) vnet 1 in
  let* w := update_traffic_distribution cfg route w in
  let packet_id := m_next_packet_id w in
  let handle := w_next_message w in
  let w := take_packet_id new_msg w in
  let size := MessageSizeType_to_int ctrl_size data_size (msg_size_type msg) in
  let flits := packet_flits packet_id vc vnet route num_flits (Some handle) size (op_bitWidth oPort)
                 (curTick env) (u64 (curTick env - msg_time msg)) in
  let* injected := fold_res (fun _ v => bump v vnet 1) flits (m_local_flits_injected (ni_stats n)) in
  let n := with_nistats n (with_injected (ni_stats n) injected packets) in
  let* vcs := fold_res (fun fl vcs => vec_upd vcs vc (fun b => Ok (insert fl b))) flits (niOutVcs n) in
  let* times := vec_set (m_ni_out_vcs_enqueue_time n) vc (curTick env) in
  let* ovs := vec_upd (ni_outVcState n) vc (fun o => Ok (ovc_setState ACTIVE_ (curTick env) o)) in
  Ok (msg, with_vc_data n ovs vcs times, w).

Fixpoint flitisize_loop (env : ClockEnv) (vnet : Z) (oPort : OutputPort) (num_flits : Z) (multi : bool)
    (dests : list Z) (msg : Message) (n : NetworkInterface) (w : World)
    : res (bool * Message * NetworkInterface * World) :=
  match dests with
  | [] => Ok (true, msg, n, w)
  | destID :: dests' =>
      let* ' (vc, n) := calculateVC env vnet n in
      match vc with
      | None => Ok (false, msg, n, w)
      | Some vc =>
          let* ' (msg, n, w) := send_copy env vnet oPort num_flits multi destID vc msg n w in
          flitisize_loop env vnet oPort num_flits multi dests' msg n w
      end
  end.

(** [NetworkInterface::flitisizeMessage]; the message is returned as the call
    leaves it. *)
Definition flitisizeMessage (env : ClockEnv) (msg : Message) (vnet : Z) (n : NetworkInterface) (w : World)
    : res (bool * Message * NetworkInterface * World) :=
  let* dest_nodes := getAllDest rs (msg_destination msg) in
  match getOutportForVnet vnet n with
  | None => Err (EAssert "oPort")
  | Some (_, oPort) =>
      let num_flits := divCeil (MessageSizeType_to_int ctrl_size data_size (msg_size_type msg))
                         (op_bitWidth oPort) in
      flitisize_loop env vnet oPort num_flits (1 <? Z.of_nat (length dest_nodes)) dest_nodes msg n w
  end.

(** [NetworkInterface::scheduleFlit] *)
Definition scheduleFlit (env : ClockEnv) (t_flit : flit) (n : NetworkInterface) (w : World)
    : res (NetworkInterface * World) :=
  let* router := match ni_router n with Some r => Ok r | None => Err (EAssert "m_router != nullptr") end in
  match getOutportForVnet (m_vnet t_flit) n with
  | None => Err (EPanic "No output port found for vnet")
  | Some (i, p) =>
      let n := with_outPorts n (<[i := with_outFlitQueue p (insert t_flit (outFlitQueue p))]> (outPorts n)) in
      let w := say (NiSchedule (ConsLink (outNetLink p)) (clockEdge env 1)) w in
      Ok (n, say (NiRegister router (clockEdge env 1)) w)
  end.

(** In an ordered vnet a VC is a candidate unless a ready VC holds an older
    packet. *)
Fixpoint older_ready (env : ClockEnv) (t_vc : Z) (i : nat) (mine : Z) (n : NetworkInterface) : res bool :=
  match i with
  | O => Ok false
  | S i' =>
      let* b := vec_get (niOutVcs n) t_vc in
      let* t := vec_get (m_ni_out_vcs_enqueue_time n) t_vc in
      if isReady (curTick env) b && (t <? mine) then Ok true
      else older_ready env (t_vc + 1) i' mine n
  end.

Definition is_candidate_vc (env : ClockEnv) (t_vnet vc : Z) (n : NetworkInterface) : res bool :=
  let* ordered := isVNetOrdered cfg t_vnet in
  if ordered then
    let* mine := vec_get (m_ni_out_vcs_enqueue_time n) vc in
    let* older := older_ready env (t_vnet * ni_vc_per_vnet n) (Z.to_nat (ni_vc_per_vnet n)) mine n in
    Ok (negb older)
  else Ok true.

(** The VC is sent from: one flit leaves it. *)
Definition send_from_vc (env : ClockEnv) (port : nat) (oPort : OutputPort) (vc : Z) (n : NetworkInterface)
    (w : World) : res (NetworkInterface * World) :=
  let n := with_outPorts n (<[port := set_vcRoundRobin vc oPort]> (outPorts n)) in
  let* ovs := vec_upd (ni_outVcState n) vc ovc_decrement_credit in
  let* b := vec_get (niOutVcs n) vc in
  let* ' (t_flit, b) := getTopFlit b in
  let* vcs := vec_set (niOutVcs n) vc b in
  let n := with_vc_data n ovs vcs (m_ni_out_vcs_enqueue_time n) in
  let t_flit := set_time (clockEdge env 1) t_flit in
  let* ' (n, w) := scheduleFlit env t_flit n w in
  if bool_decide (m_type t_flit = TAIL_) || bool_decide (m_type t_flit = HEAD_TAIL_) then
    let* times := vec_set (m_ni_out_vcs_enqueue_time n) vc INFINITE_ in
    Ok (with_vc_data n (ni_outVcState n) (niOutVcs n) times, w)
  else Ok (n, w).

(** [NetworkInterface::scheduleOutputPort] *)
Fixpoint schedule_loop (env : ClockEnv) (port : nat) (oPort : OutputPort) (vc : Z) (i : nat)
    (n : NetworkInterface) (w : World) : res (NetworkInterface * World) :=
  match i with
  | O => Ok (n, w)
  | S i' =>
      let vc := if vc + 1 =? Z.of_nat (length (niOutVcs n)) then 0 else vc + 1 in
      let* t_vnet := ni_get_vnet vc n in
      if isVnetSupported (op_vnets oPort) t_vnet then
        let* b := vec_get (niOutVcs n) vc in
        let* o := vec_get (ni_outVcState n) vc in
        if isReady (curTick env) b && ovc_has_credit o then
          let* cand := is_candidate_vc env t_vnet vc n in
          if cand then send_from_vc env port oPort vc n w
          else schedule_loop env port oPort vc i' n w
        else schedule_loop env port oPort vc i' n w
      else schedule_loop env port oPort vc i' n w
  end.

Definition scheduleOutputPort (env : ClockEnv) (port : nat) (s : NetworkInterface * World)
    : res (NetworkInterface * World) :=
  let '(n, w) := s in
  match outPorts n !! port with
  | None => Err EOutOfRange
  | Some oPort => schedule_loop env port oPort (vcRoundRobin oPort) (length (niOutVcs n)) n w
  end.

(** [NetworkInterface::scheduleOutputLink] *)
Definition scheduleOutputLink (env : ClockEnv) (n : NetworkInterface) (w : World) : res (NetworkInterface * World) :=
  fold_res (scheduleOutputPort env) (seq 0 (length (outPorts n))) (n, w).

End network.

(** ** Ejection *)

Section ejection.
(** [getRandomization], [getWarmupEnabled], and what [random_time] returns when
    a given message is handed to a buffer that randomises. *)
Context (ruby_is_random ruby_warmup : bool) (rt : Z → Z).

(** [outNode_ptr[vnet]->areNSlotsAvailable(1, curTime)] *)
Definition slot_for (env : ClockEnv) (vnet : Z) (n : NetworkInterface) (w : World) : res (bool * World) :=
  let* h := node_ptr (outNode_ptr n) vnet in
  let* b := get_buffer h w in
  let '(ok, b) := MessageBuffer.areNSlotsAvailable 1 (clockEdge env 0) b in
  Ok (ok, set_buffer h b w).

(** [outNode_ptr[vnet]->enqueue(t_flit->get_msg_ptr(), ...)]: the message leaves
    the network. *)
Definition deliver (env : ClockEnv) (t_flit : flit) (n : NetworkInterface) (w : World) : res World :=
  let* h := node_ptr (outNode_ptr n) (m_vnet t_flit) in
  let* b := get_buffer h w in
  let* mh := match m_msg_ptr t_flit with Some mh => Ok mh | None => Err (EAssert "msg_ptr != NULL") end in
  let* msg := match w_messages w !! mh with Some m => Ok m | None => Err EOutOfRange end in
  let* ' (b, arrival) := MessageBuffer.enqueue (rt mh) msg (clockEdge env 0) (cyclesToTicks env 1)
                           ruby_is_random ruby_warmup false b in
  let w := set_buffer h b w in
  let w := {| w_links := w_links w; w_buffers := w_buffers w; w_messages := delete mh (w_messages w);
              w_next_message := w_next_message w; m_next_packet_id := m_next_packet_id w;
              m_data_traffic := m_data_traffic w; m_ctrl_traffic := m_ctrl_traffic w;
              w_effects := w_effects w |} in
  Ok (say (NiBufferWakeup h arrival) w).

(** The loop over one stall queue: the first stalled flit whose buffer has room
    leaves it. [checked] are the flits passed over. *)
Fixpoint unstall (env : ClockEnv) (p : InputPort) (checked rest : list flit) (n : NetworkInterface) (w : World)
    : res (InputPort * NetworkInterface * World) :=
  match rest with
  | [] => Ok (p, n, w)
  | stallFlit :: rest' =>
      let vnet := m_vnet stallFlit in
      let* ' (room, w) := slot_for env vnet n w in
      if room then
        let* w := deliver env stallFlit n w in
        let p := sendCredit (new_Credit (m_vc stallFlit) true (curTick env)) p in
        let* st := incrementStats env stallFlit (ni_stats n) in
        let n := with_nistats n st in
        let p := upd_inport p (outCreditQueue p) (checked ++ rest') (Some true) in
        let* c := vec_get (ni_stall_count n) vnet in
        let* stalls := vec_set (ni_stall_count n) vnet (c - 1) in
        let n := with_inPorts n (inPorts n) stalls in
        let* w :=
          (if c - 1 =? 0 then
             let* h := node_ptr (outNode_ptr n) vnet in
             let* b := get_buffer h w in
             Ok (set_buffer h (MessageBuffer.unregisterDequeueCallback b) w)
           else Ok w) in
        Ok (p, n, w)
      else unstall env p (checked ++ [stallFlit]) rest' n w
  end.

(** One iteration of [checkStallQueue]. *)
Definition check_stall_port (env : ClockEnv) (i : nat) (s : NetworkInterface * World)
    : res (NetworkInterface * World) :=
  let '(n, w) := s in
  match inPorts n !! i with
  | None => Err EOutOfRange
  | Some iPort =>
      let iPort := upd_inport iPort (outCreditQueue iPort) (m_stall_queue iPort) (Some false) in
      let* ' (iPort, n, w) := unstall env iPort [] (m_stall_queue iPort) n w in
      Ok (with_inPorts n (<[i := iPort]> (inPorts n)) (ni_stall_count n), w)
  end.

Definition checkStallQueue (env : ClockEnv) (n : NetworkInterface) (w : World) : res (NetworkInterface * World) :=
  fold_res (check_stall_port env) (seq 0 (length (inPorts n))) (n, w).

(** What [wakeup] does with a flit it took from an input link. *)
Definition receive_flit (env : ClockEnv) (t_flit : flit) (iPort : InputPort) (n : NetworkInterface) (w : World)
    : res (InputPort * NetworkInterface * World) :=
  let* _ := assert_ "t_flit->m_width == iPort->bitWidth()" (m_width t_flit =? ip_bitWidth iPort) in
  let vnet := m_vnet t_flit in
  let t_flit := set_dequeue_time (curTick env) t_flit in
  if bool_decide (m_type t_flit = TAIL_) || bool_decide (m_type t_flit = HEAD_TAIL_) then
    let* enqueued := match messageEnqueuedThisCycle iPort with Some b => Ok b | None => Err EUninit end in
    let* ' (room, w) := (if enqueued then Ok (false, w) else slot_for env vnet n w) in
    if room then
      let* w := deliver env t_flit n w in
      let iPort := sendCredit (new_Credit (m_vc t_flit) true (curTick env)) iPort in
      let* st := incrementStats env t_flit (ni_stats n) in
      Ok (iPort, with_nistats n st, w)
    else
      let iPort := upd_inport iPort (outCreditQueue iPort) (m_stall_queue iPort ++ [t_flit])
                     (messageEnqueuedThisCycle iPort) in
      let* stalls := vec_upd (ni_stall_count n) vnet (fun c => Ok (c + 1)) in
      let n := with_inPorts n (inPorts n) stalls in
      let* h := node_ptr (outNode_ptr n) vnet in
      let* b := get_buffer h w in
      Ok (iPort, n, set_buffer h (MessageBuffer.registerDequeueCallback b) w)
  else
    let iPort := sendCredit (new_Credit (m_vc t_flit) false (curTick env)) iPort in
    let* st := incrementStats env t_flit (ni_stats n) in
    Ok (iPort, with_nistats n st, w).

Definition receive_port (env : ClockEnv) (i : nat) (s : NetworkInterface * World) : res (NetworkInterface * World) :=
  let '(n, w) := s in
  match inPorts n !! i with
  | None => Err EOutOfRange
  | Some iPort =>
      let* l := get_link (inNetLink iPort) (w_links w) in
      if link_isReady (curTick env) l then
        let* ' (t_flit, l) := consumeLink l in
        let w := with_w_links w (<[inNetLink iPort := l]> (w_links w)) in
        let* ' (iPort, n, w) := receive_flit env t_flit iPort n w in
        Ok (with_inPorts n (<[i := iPort]> (inPorts n)) (ni_stall_count n), w)
      else Ok (n, w)
  end.

(** One credit per output port. *)
Definition credit_port (env : ClockEnv) (i : nat) (s : NetworkInterface * World) : res (NetworkInterface * World) :=
  let '(n, w) := s in
  match outPorts n !! i with
  | None => Err EOutOfRange
  | Some oPort =>
      let* l := get_link (inCreditLink oPort) (w_links w) in
      if link_isReady (curTick env) l then
        let* ' (t_credit, l) := consumeLink l in
        let w := with_w_links w (<[inCreditLink oPort := l]> (w_links w)) in
        let* ovs := vec_upd (ni_outVcState n) (m_vc t_credit) ovc_increment_credit in
        let* free := match m_is_free_signal t_credit with Some f => Ok f | None => Err EUninit end in
        let* ovs :=
          (if free : bool
           then vec_upd ovs (m_vc t_credit) (fun o => Ok (ovc_setState IDLE_ (curTick env) o))
           else Ok ovs) in
        Ok (with_vc_data n ovs (niOutVcs n) (m_ni_out_vcs_enqueue_time n), w)
      else Ok (n, w)
  end.

(** Links with credits waiting are scheduled for the next cycle. *)
Definition schedule_credit_links (env : ClockEnv) (n : NetworkInterface) (w : World) : World :=
  foldl (fun w iPort =>
    if 0 <? getSize (outCreditQueue iPort)
    then say (NiSchedule (ConsLink (outCreditLink iPort)) (clockEdge env 1)) w else w) w (inPorts n).
End ejection.

(** ** Wakeup *)

(** [MessageBuffer::isReady] on a buffer whose consumer is this interface. *)
Definition node_isReady (env : ClockEnv) (h : Z) (n : NetworkInterface) (w : World)
    : res (bool * NetworkInterface) :=
  let* b := get_buffer h w in
  let* ' (ready, resched) := MessageBuffer.isReady (clockEdge env 0) b in
  if resched then
    let* k := scheduleEvent env 1 (ni_consumer n) in Ok (ready, with_niconsumer n k)
  else Ok (ready, n).

(** [NetworkInterface::checkReschedule]: whether anything is left to do. *)
Fixpoint nodes_ready (env : ClockEnv) (ptrs : list (option Z)) (n : NetworkInterface) (w : World)
    : res (bool * NetworkInterface) :=
  match ptrs with
  | [] => Ok (false, n)
  | None :: ptrs' => nodes_ready env ptrs' n w
  | Some h :: ptrs' =>
      let* ' (ready, n) := node_isReady env h n w in
      if ready then Ok (true, n) else nodes_ready env ptrs' n w
  end.

Fixpoint links_ready (env : ClockEnv) (hs : list Z) (w : World) : res bool :=
  match hs with
  | [] => Ok false
  | h :: hs' =>
      let* l := get_link h (w_links w) in
      if link_isReady (curTick env) l then Ok true else links_ready env hs' w
  end.

Definition checkReschedule (env : ClockEnv) (n : NetworkInterface) (w : World) : res NetworkInterface :=
  let again n := let* k := scheduleEvent env 1 (ni_consumer n) in Ok (with_niconsumer n k) in
  let* ' (msgs, n) := nodes_ready env (inNode_ptr n) n w in
  if msgs then again n
  else if existsb (isReady (clockEdge env 1)) (niOutVcs n) then again n
  else
    let* flits := links_ready env (map inNetLink (inPorts n)) w in
    if flits then again n
    else
      let* credits := links_ready env (map inCreditLink (outPorts n)) w in
      if credits then again n else Ok n.

Section wakeup.
Context (rs : RubySystem) (cfg : NetConfig) (ctrl_size data_size : Z) (router_of : Z → Z → res Z).
Context (ruby_is_random ruby_warmup : bool) (rt : Z → Z).

(** The first loop of [wakeup]: one message per virtual network. *)
Definition inject_vnet (env : ClockEnv) (vnet : Z) (s : NetworkInterface * World) : res (NetworkInterface * World) :=
  let '(n, w) := s in
  let* p := vec_get (inNode_ptr n) vnet in
  match p with
  | None => Ok (n, w)
  | Some h =>
      let* ' (ready, n) := node_isReady env h n w in
      if ready then
        let* b := get_buffer h w in
        let* msg := MessageBuffer.peek b in
        let* ' (done, msg, n, w) := flitisizeMessage rs cfg ctrl_size data_size router_of env msg vnet n w in
        let b := MessageBuffer.upd_buffer b (msg :: tail (m_prio_heap b)) (MessageBuffer.m_stall_msg_map b)
                   (MessageBuffer.m_deferred_msg_map b) (MessageBuffer.m_stall_map_size b) in
        if done : bool then
          let* ' (_, _, cb, b) := MessageBuffer.dequeue (curTick env) (clockEdge env 0) true b in
          let w := set_buffer h b w in
          Ok (n, if cb : bool then say (NiCallback h) w else w)
        else Ok (n, set_buffer h b w)
      else Ok (n, w)
  end.

(** [NetworkInterface::wakeup] *)
Definition ni_wakeup (env : ClockEnv) (n : NetworkInterface) (w : World) : res (NetworkInterface * World) :=
  let* _ := assert_ "m_router != nullptr" (bool_decide (is_Some (ni_router n))) in
  let* _ := assert_ "curTick() == clockEdge()" (curTick env =? clockEdge env 0) in
  let* ' (n, w) := for_range 0 (length (inNode_ptr n)) (inject_vnet env) (n, w) in
  let* ' (n, w) := scheduleOutputLink cfg env n w in
  let* ' (n, w) := checkStallQueue ruby_is_random ruby_warmup rt env n w in
  let* ' (n, w) := fold_res (receive_port ruby_is_random ruby_warmup rt env) (seq 0 (length (inPorts n))) (n, w) in
  let* ' (n, w) := fold_res (credit_port env) (seq 0 (length (outPorts n))) (n, w) in
  let w := schedule_credit_links env n w in
  let* n := checkReschedule env n w in
  Ok (n, w).
End wakeup.

(** ** Functional accesses *)

Section functional.
Context {M : Type} (access : MsgPtr → M → bool * M).

(** [NetworkInterface::functionalRead]: the VCs, then the output queues. *)
Definition ni_functionalRead (n : NetworkInterface) (m : M) : bool * M :=
  let s := foldl (fun '(read, m) ni_out_vc =>
    let '(r, m) := buffer_functionalRead access ni_out_vc m in (if r then true else read, m)) (false, m) (niOutVcs n) in
  foldl (fun '(read, m) oPort =>
    let '(r, m) := buffer_functionalRead access (outFlitQueue oPort) m in (if r then true else read, m)) s (outPorts n).

(** [NetworkInterface::functionalWrite] *)
Definition ni_functionalWrite (n : NetworkInterface) (m : M) : Z * M :=
  let s := foldl (fun '(num, m) ni_out_vc =>
    let '(k, m) := buffer_functionalWrite access ni_out_vc m in (u32 (num + k), m)) (0, m) (niOutVcs n) in
  foldl (fun '(num, m) oPort =>
    let '(k, m) := buffer_functionalWrite access (outFlitQueue oPort) m in (u32 (num + k), m)) s (outPorts n).
End functional.
