(* ===== verification/NiSteps.v ===== *)
(** * The steps of a network interface

    A wakeup of a network interface is a sequence of six kinds of steps: changes
    of the allocation state or the consumer only, copies of a message entering an
    output VC, flits leaving an output VC, stalled flits delivered, flits received
    from a link and credits received from a link. A reflexive and transitive
    relation that all of them satisfy holds across the wakeup. *)

From S2P Require Import Prelude IntMath Clocked Consumer MessageBuffer NetDest Flit RoutingUnit.
From S2P Require Import VirtualChannel NetworkLink InputUnit OutputUnit SwitchAllocator Router NetworkInterface.

(** What injection, ejection and credits act on is untouched. *)
Record ni_same (n n' : NetworkInterface) : Prop := {
  sn_in : inPorts n' = inPorts n;
  sn_out : outPorts n' = outPorts n;
  sn_state : ni_outVcState n' = ni_outVcState n;
  sn_vcs : niOutVcs n' = niOutVcs n;
  sn_stats : ni_stats n' = ni_stats n
}.

Lemma slot_for_links env vnet n w ok w' : slot_for env vnet n w = Ok (ok, w') → w_links w' = w_links w.
Proof.
  unfold slot_for. intros (h & _ & (b & _ & H)%rbind_ok)%rbind_ok.
  destruct (MessageBuffer.areNSlotsAvailable _ _ b). by simplify_eq.
Qed.

Lemma deliver_links rnd warm rt env f n w w' : deliver rnd warm rt env f n w = Ok w' → w_links w' = w_links w.
Proof.
  unfold deliver. intros (h & _ & (b & _ & (mh & _ & (m & _ & ([b' a] & _ & H)%rbind_ok)%rbind_ok)%rbind_ok)%rbind_ok)%rbind_ok.
  by simplify_eq.
Qed.

Lemma schedule_credit_links_links env n w : w_links (schedule_credit_links env n w) = w_links w.
Proof.
  unfold schedule_credit_links. generalize (inPorts n). intros l. revert w.
  induction l as [|p l IH]; intros w; simpl; [done|]. rewrite IH. by destruct (0 <? _).
Qed.

Section steps.
Context (rs : RubySystem) (cfg : NetConfig) (cs ds : Z) (ro : Z → Z → res Z) (rnd warm : bool) (rt : Z → Z) (env : ClockEnv).
Context (R : NetworkInterface * Links → NetworkInterface * Links → Prop) `{!PreOrder R}.

Hypothesis Hsame : ∀ n ls n', ni_same n n' → R (n, ls) (n', ls).
Hypothesis Hcopy : ∀ vnet p nf multi d vc msg n w msg' n' w',
  send_copy rs cfg cs ds ro env vnet p nf multi d vc msg n w = Ok (msg', n', w') → R (n, w_links w) (n', w_links w').
Hypothesis Hsend : ∀ port p vc n w n' w',
  outPorts n !! port = Some p → send_from_vc env port p vc n w = Ok (n', w') → R (n, w_links w) (n', w_links w').
Hypothesis Hstall : ∀ i n w n' w',
  check_stall_port rnd warm rt env i (n, w) = Ok (n', w') → R (n, w_links w) (n', w_links w').
Hypothesis Hreceive : ∀ i n w n' w',
  receive_port rnd warm rt env i (n, w) = Ok (n', w') → R (n, w_links w) (n', w_links w').
Hypothesis Hcredit : ∀ i n w n' w', credit_port env i (n, w) = Ok (n', w') → R (n, w_links w) (n', w_links w').

Lemma calculateVC_rel vnet n ls vc n' : calculateVC env vnet n = Ok (vc, n') → R (n, ls) (n', ls).
Proof using Hsame PreOrder0.
  unfold calculateVC. generalize (Z.to_nat (ni_vc_per_vnet n)) as i. intros i. revert n.
  induction i as [|i IH]; intros n H; cbn [calculateVC_loop] in H.
  - apply rbind_ok in H as (c & _ & (busy & _ & H)%rbind_ok).
    destruct (m_deadlock_threshold n <? c + 1); [done|]. injection H as <- <-. by apply Hsame.
  - apply rbind_ok in H as (d & _ & (al & _ & (o & _ & H)%rbind_ok)%rbind_ok).
    destruct (ovc_isInState IDLE_ (curTick env) o).
    + apply rbind_ok in H as (busy & _ & H). injection H as <- <-. by apply Hsame.
    + apply IH in H. etrans; [|exact H]. by apply Hsame.
Qed.

Lemma flitisize_rel msg vnet n w ok msg' n' w' :
  flitisizeMessage rs cfg cs ds ro env msg vnet n w = Ok (ok, msg', n', w') → R (n, w_links w) (n', w_links w').
Proof using Hsame Hcopy PreOrder0.
  unfold flitisizeMessage. intros H. apply rbind_ok in H as (dests & _ & H).
  destruct (getOutportForVnet vnet n) as [[i p]|]; [|done]. revert H.
  generalize (1 <? Z.of_nat (length dests)) as multi.
  generalize (divCeil (MessageSizeType_to_int cs ds (msg_size_type msg)) (op_bitWidth p)) as nf.
  intros nf multi. revert msg n w. induction dests as [|d dests IH]; intros msg n w H; cbn [flitisize_loop] in H.
  { by injection H as <- <- <- <-. }
  apply rbind_ok in H as ([[vc|] n1] & Hvc & H); apply (calculateVC_rel _ _ (w_links w)) in Hvc;
    [|by injection H as <- <- <- <-].
  apply rbind_ok in H as ([[m1 n2] w1] & Hs & H). apply Hcopy in Hs. apply IH in H.
  etrans; [exact Hvc|]. by etrans.
Qed.

Lemma node_isReady_rel h n w ls ok n' : node_isReady env h n w = Ok (ok, n') → R (n, ls) (n', ls).
Proof using Hsame PreOrder0.
  unfold node_isReady. intros (b & _ & ([r s] & _ & H)%rbind_ok)%rbind_ok.
  destruct s; [|by injection H as <- <-]. apply rbind_ok in H as (k & _ & H).
  injection H as <- <-. by apply Hsame.
Qed.

Lemma inject_vnet_rel v n w n' w' :
  inject_vnet rs cfg cs ds ro env v (n, w) = Ok (n', w') → R (n, w_links w) (n', w_links w').
Proof using Hsame Hcopy PreOrder0.
  unfold inject_vnet. intros ([h|] & _ & H)%rbind_ok; [|by injection H as <- <-].
  apply rbind_ok in H as ([r n1] & Hr & H). apply (node_isReady_rel _ _ _ (w_links w)) in Hr.
  destruct r; [|by injection H as <- <-].
  apply rbind_ok in H as (b & _ & (msg & _ & ([[[ok msg'] n2] w2] & Hf & H)%rbind_ok)%rbind_ok).
  apply flitisize_rel in Hf. assert (R (n, w_links w) (n2, w_links w2)) as Hk by by etrans.
  destruct ok; [|by injection H as <- <-].
  apply rbind_ok in H as ([[[m d] cb] b'] & _ & H). injection H as <- <-. by destruct cb.
Qed.

Lemma scheduleOutputPort_rel port n w n' w' :
  scheduleOutputPort cfg env port (n, w) = Ok (n', w') → R (n, w_links w) (n', w_links w').
Proof using Hsend PreOrder0.
  unfold scheduleOutputPort. destruct (outPorts n !! port) as [p|] eqn:Hp; [|done].
  generalize (length (niOutVcs n)) as i, (vcRoundRobin p) as vc. intros i.
  induction i as [|i IH]; intros vc H; cbn [schedule_loop] in H; [by injection H as <- <-|].
  apply rbind_ok in H as (tv & _ & H). destruct (isVnetSupported (op_vnets p) tv); [|by eapply IH].
  apply rbind_ok in H as (b & _ & (o & _ & H)%rbind_ok).
  destruct (isReady (curTick env) b && ovc_has_credit o); [|by eapply IH].
  apply rbind_ok in H as (cand & _ & H). destruct cand; [by eapply Hsend|by eapply IH].
Qed.

Lemma checkReschedule_rel n w ls n' : checkReschedule env n w = Ok n' → R (n, ls) (n', ls).
Proof using Hsame PreOrder0.
  unfold checkReschedule. intros ([msgs n1] & Hm & H)%rbind_ok.
  assert (R (n, ls) (n1, ls)) as Hq.
  { revert Hm. generalize (inNode_ptr n) as l. intros l. clear H. revert n.
    induction l as [|[h|] l IH]; intros n Hm; simpl in Hm.
    - by injection Hm as <- <-.
    - apply rbind_ok in Hm as ([r n2] & Hr & Hm). apply (node_isReady_rel _ _ _ ls) in Hr.
      destruct r; [by injection Hm as <- <-|]. etrans; [exact Hr|]. by apply IH.
    - by apply IH. }
  assert (∀ n2, (let* k := scheduleEvent env 1 (ni_consumer n1) in Ok (with_niconsumer n1 k)) = Ok n2 → R (n, ls) (n2, ls)) as Hagain.
  { intros n2 (k & _ & H2)%rbind_ok. injection H2 as <-. etrans; [exact Hq|]. by apply Hsame. }
  destruct msgs; [by apply Hagain|]. destruct (existsb _ _); [by apply Hagain|].
  apply rbind_ok in H as (fl & _ & H). destruct fl; [by apply Hagain|].
  apply rbind_ok in H as (cr & _ & H). destruct cr; [by apply Hagain|]. by injection H as <-.
Qed.

Lemma fold_res_ni_rel {A} (f : A → NetworkInterface * World → res (NetworkInterface * World)) l n w n' w' :
  (∀ x m u m' u', f x (m, u) = Ok (m', u') → R (m, w_links u) (m', w_links u')) →
  fold_res f l (n, w) = Ok (n', w') → R (n, w_links w) (n', w_links w').
Proof using PreOrder0.
  intros Hf H. apply (fold_res_keeps (fun s => R (n, w_links w) (fst s, w_links (snd s)))) in H; [done| |done].
  intros x [m u] [m' u'] _ Hm Hx. etrans; [exact Hm|by eapply Hf].
Qed.

Lemma ni_wakeup_rel n w n' w' :
  ni_wakeup rs cfg cs ds ro rnd warm rt env n w = Ok (n', w') → R (n, w_links w) (n', w_links w').
Proof using Hsame Hcopy Hsend Hstall Hreceive Hcredit PreOrder0.
  intros H. unfold ni_wakeup in H. apply rbind_ok in H as (_ & _ & (_ & _ & H)%rbind_ok).
  apply rbind_ok in H as ([n1 w1] & H1 & ([n2 w2] & H2 & ([n3 w3] & H3 & H)%rbind_ok)%rbind_ok).
  apply rbind_ok in H as ([n4 w4] & H4 & ([n5 w5] & H5 & (n6 & H6 & H)%rbind_ok)%rbind_ok). injection H as <- <-.
  rewrite schedule_credit_links_links. transitivity (n1, w_links w1).
  { apply (for_range_inv (fun _ s => R (n, w_links w) (fst s, w_links (snd s)))) in H1; [done|done|].
    intros i [m u] [m' u'] _ Hm Hx. etrans; [exact Hm|by eapply inject_vnet_rel]. }
  transitivity (n2, w_links w2); [by eapply fold_res_ni_rel; [|exact H2]; intros; eapply scheduleOutputPort_rel|].
  transitivity (n3, w_links w3); [by eapply fold_res_ni_rel; [|exact H3]|].
  transitivity (n4, w_links w4); [by eapply fold_res_ni_rel; [|exact H4]|].
  transitivity (n5, w_links w5); [by eapply fold_res_ni_rel; [|exact H5]|].
  by eapply checkReschedule_rel.
Qed.

End steps.
