(* ===== verification/NiCredit.v ===== *)
(** * Credits and buffers around a network interface

    The counterpart of CreditFlow.v for network interfaces. On the sending side
    the sum is made of the credits in hand and the flits in the output queue; on
    the receiving side of the flits in the stall queue and the credits waiting to
    go back. A wakeup of the interface keeps both sums, with what is on the links
    it reads. *)

From S2P Require Import Prelude IntMath Clocked Consumer MessageBuffer NetDest Flit RoutingUnit.
From S2P Require Import VirtualChannel NetworkLink InputUnit OutputUnit SwitchAllocator Router RouterFrame CreditFlow NetworkInterface NiSteps.

(** ** Counting *)

Definition ip_held (v : Z) (p : InputPort) : Z := lsum (on_vc v) (m_stall_queue p) + vc_count v (outCreditQueue p).
Definition ni_in_held (v i : Z) (n : NetworkInterface) : Z := vat (ip_held v) (inPorts n) i.
Definition ni_out_held (v : Z) (n : NetworkInterface) : Z :=
  vat m_credit_count (ni_outVcState n) v + lsum (fun p => vc_count v (outFlitQueue p)) (outPorts n).

(** The links an interface reads flits and credits from. *)
Definition ni_in_links (n : NetworkInterface) : list Z := map inNetLink (inPorts n).
Definition ni_in_credits (n : NetworkInterface) : list Z := map inCreditLink (outPorts n).

Definition ni_sole_in (i : nat) (h : Z) (n : NetworkInterface) : Prop :=
  (∀ j, ni_in_links n !! j = Some h ↔ j = i) ∧ h ∉ ni_in_credits n.

(** Every flit in an output VC carries the number of that VC. *)
Definition tagged (n : NetworkInterface) : Prop :=
  ∀ vc b, vec_get (niOutVcs n) vc = Ok b → Forall (fun f => m_vc f = vc) (m_buffer b).

(** What a step of the interface keeps. The sum of the sending side is that of
    an interface with one output port. *)
Record ni_keeps (n : NetworkInterface) (ls : Links) (n' : NetworkInterface) (ls' : Links) : Prop := {
  nk_in : ni_in_links n' = ni_in_links n;
  nk_credits : ni_in_credits n' = ni_in_credits n;
  nk_ends : same_ends ls ls';
  nk_frame h : h ∉ ni_in_links n → h ∉ ni_in_credits n → ls' !! h = ls !! h;
  nk_tagged : tagged n → tagged n';
  nk_counters : Forall2 ovc_keeps (ni_outVcState n) (ni_outVcState n');
  nk_in_balance v i h : ni_sole_in i h n →
    ni_in_held v (Z.of_nat i) n' + on_link v h ls' = ni_in_held v (Z.of_nat i) n + on_link v h ls;
  nk_out_balance v h : tagged n → ni_in_credits n = [h] → h ∉ ni_in_links n →
    ni_out_held v n' + on_link v h ls' = ni_out_held v n + on_link v h ls
}.

Lemma ni_keeps_refl n ls : ni_keeps n ls n ls.
Proof. by split. Qed.

Lemma ni_keeps_trans n1 ls1 n2 ls2 n3 ls3 :
  ni_keeps n1 ls1 n2 ls2 → ni_keeps n2 ls2 n3 ls3 → ni_keeps n1 ls1 n3 ls3.
Proof.
  intros [Ei1 Ec1 He1 Hf1 Ht1 Hc1 Hi1 Ho1] [Ei2 Ec2 He2 Hf2 Ht2 Hc2 Hi2 Ho2]. split.
  - congruence.
  - congruence.
  - by etrans.
  - intros h Hl Hc. rewrite Hf2, Hf1; [done|done|done|by rewrite Ei1|by rewrite Ec1].
  - auto.
  - by etrans.
  - intros v i h Hs. rewrite Hi2, Hi1; [done|done|]. unfold ni_sole_in. by rewrite Ei1, Ec1.
  - intros v h Ht Hc Hh. rewrite Ho2, Ho1; [done|done|done|done|auto|congruence|by rewrite Ei1].
Qed.

(** ** Steps on one side *)

Lemma map_list_insert {A B} (g : A → B) l i x y : l !! i = Some x → g y = g x → map g (<[i := y]> l) = map g l.
Proof.
  intros Hx Hg. change (g <$> <[i := y]> l = g <$> l). rewrite list_fmap_insert, Hg.
  apply list_insert_id. by rewrite list_lookup_fmap, Hx.
Qed.

Lemma vat_insert {A} (g : A → Z) l j x y i :
  l !! j = Some x → vat g (<[j := y]> l) i = vat g l i + (if Z.of_nat j =? i then g y - g x else 0).
Proof.
  intros Hx. pose proof (lookup_lt_Some _ _ _ Hx). apply (vat_set g _ (Z.of_nat j) x y).
  - apply vec_get_ok. split; [lia|]. by rewrite Nat2Z.id.
  - rewrite vec_set_in_range by lia. by rewrite Nat2Z.id.
Qed.

(** An input port changes, and with it at most the link it reads. *)
Lemma ni_keeps_in n ls n' ls' i p p' :
  outPorts n' = outPorts n → ni_outVcState n' = ni_outVcState n → niOutVcs n' = niOutVcs n →
  inPorts n !! i = Some p → inPorts n' = <[i := p']> (inPorts n) → inNetLink p' = inNetLink p →
  same_ends ls ls' → (∀ h, h ≠ inNetLink p → ls' !! h = ls !! h) →
  (∀ v, ip_held v p' + on_link v (inNetLink p) ls' = ip_held v p + on_link v (inNetLink p) ls) →
  ni_keeps n ls n' ls'.
Proof.
  intros Eo Es Ev Hp Ei El He Hf Hb.
  assert (ni_in_links n !! i = Some (inNetLink p)) as Hi.
  { unfold ni_in_links. change (map ?f ?l) with (f <$> l). by rewrite list_lookup_fmap, Hp. }
  pose proof (list_elem_of_lookup_2 _ _ _ Hi) as Hin.
  assert (∀ v h, h ≠ inNetLink p → on_link v h ls' = on_link v h ls) as Hl
    by (intros v h Hh; unfold on_link; by rewrite Hf).
  split.
  - unfold ni_in_links. rewrite Ei. by eapply map_list_insert.
  - unfold ni_in_credits. by rewrite Eo.
  - done.
  - intros h Hh _. apply Hf. by intros ->.
  - unfold tagged. by rewrite Ev.
  - by rewrite Es.
  - intros v j h [Hs _]. unfold ni_in_held. rewrite Ei, (vat_insert _ _ _ _ _ _ Hp).
    destruct (Z.eqb_spec (Z.of_nat i) (Z.of_nat j)) as [->%(inj Z.of_nat)|Hne].
    + rewrite (proj2 (Hs j) eq_refl) in Hi. simplify_eq. specialize (Hb v). lia.
    + rewrite Hl; [lia|]. intros ->. apply Hne. f_equal. by apply Hs.
  - intros v h _ _ Hh. rewrite Hl by (by intros ->). unfold ni_out_held. by rewrite Eo, Es.
Qed.

(** The sending side changes, and at most the credit links. *)
Lemma ni_keeps_out n ls n' ls' :
  inPorts n' = inPorts n → ni_in_credits n' = ni_in_credits n → same_ends ls ls' →
  (∀ h, h ∉ ni_in_credits n → ls' !! h = ls !! h) → (tagged n → tagged n') →
  Forall2 ovc_keeps (ni_outVcState n) (ni_outVcState n') →
  (∀ v h, tagged n → ni_in_credits n = [h] → ni_out_held v n' + on_link v h ls' = ni_out_held v n + on_link v h ls) →
  ni_keeps n ls n' ls'.
Proof.
  intros Ei Ec He Hf Ht Hk Hb. split; [unfold ni_in_links; by rewrite Ei|done|done|by intros; apply Hf|done|done| |].
  - intros v i h [_ Hh]. unfold ni_in_held, on_link. by rewrite Ei, Hf.
  - intros v h Htg Hc _. by apply Hb.
Qed.

(** The interface changes in ways that do not matter here. *)
Lemma ni_keeps_same n ls n' :
  inPorts n' = inPorts n → outPorts n' = outPorts n → ni_outVcState n' = ni_outVcState n →
  niOutVcs n' = niOutVcs n → ni_keeps n ls n' ls.
Proof.
  intros Ei Eo Es Ev. apply ni_keeps_out; [done|unfold ni_in_credits; by rewrite Eo|done|done| | |].
  - unfold tagged. by rewrite Ev.
  - by rewrite Es.
  - intros v h _ _. unfold ni_out_held. by rewrite Eo, Es.
Qed.

(** ** Injection *)

(** The flits of a packet all carry its VC. *)
Lemma tagged_insert vc flits (vcs vcs' : list flitBuffer) :
  (∀ c b, vec_get vcs c = Ok b → Forall (fun f => m_vc f = c) (m_buffer b)) →
  Forall (fun f => m_vc f = vc) flits →
  fold_res (fun fl vcs => vec_upd vcs vc (fun b => Ok (insert fl b))) flits vcs = Ok vcs' →
  ∀ c b, vec_get vcs' c = Ok b → Forall (fun f => m_vc f = c) (m_buffer b).
Proof.
  intros Hv Hf. revert vcs Hv. induction Hf as [|f fs Hf _ IH]; intros vcs Hv H; simpl in H; [by simplify_eq|].
  apply rbind_ok in H as (vcs1 & Hu & H). eapply IH; [|exact H]. intros c b Hc.
  unfold vec_upd in Hu. apply rbind_ok in Hu as (b0 & Hb0 & Hs). cbn [rbind] in Hs.
  destruct (decide (c = vc)) as [->|Hne].
  - rewrite (vec_get_set_eq _ _ _ _ Hs) in Hc. simplify_eq/=. apply Forall_app. split; [by apply Hv|]. by constructor.
  - rewrite (vec_get_set_ne _ _ _ _ _ Hs) in Hc by done. by apply Hv.
Qed.

Lemma packet_flits_vc pid vc vnet route nf msg size width now delay :
  Forall (fun f => m_vc f = vc) (packet_flits pid vc vnet route nf msg size width now delay).
Proof. apply Forall_forall. intros f (i & -> & _)%list_elem_of_fmap. done. Qed.

Lemma send_copy_keeps rs cfg cs ds ro env vnet p nf multi d vc msg n w msg' n' w' :
  send_copy rs cfg cs ds ro env vnet p nf multi d vc msg n w = Ok (msg', n', w') →
  ni_keeps n (w_links w) n' (w_links w').
Proof.
  unfold send_copy. intros H. apply rbind_ok in H as ([nd rest] & _ & (rt & _ & (pk & _ & (w1 & Hw & H)%rbind_ok)%rbind_ok)%rbind_ok).
  apply rbind_ok in H as (inj & _ & (vcs & Hvcs & (ts & _ & (ovs & Ho & H)%rbind_ok)%rbind_ok)%rbind_ok).
  simplify_eq. assert (w_links (take_packet_id (with_destination (clone msg (w_next_message w)) nd) w1) = w_links w) as ->.
  { unfold update_traffic_distribution in Hw. apply rbind_ok in Hw as (ty & _ & Hw). by simplify_eq. }
  apply ni_keeps_out; [done|done|done|done| | |].
  - intros Ht. unfold tagged. simpl in *. eapply tagged_insert; [exact Ht|apply packet_flits_vc|exact Hvcs].
  - simpl. eapply Forall2_vec_upd; [apply _| |exact Ho]. by intros s s' [= <-].
  - intros v h _ _. unfold ni_out_held. simpl.
    assert (vat m_credit_count ovs v = vat m_credit_count (ni_outVcState n) v + (if vc =? v then 0 else 0)) as ->.
    { eapply vat_upd; [|exact Ho]. intros x y _ [= <-]. simpl. lia. }
    zcase; lia.
Qed.

(** ** Sending *)

Lemma lsum_insert {A} (g : A → Z) l i x y : l !! i = Some x → lsum g (<[i := y]> l) = lsum g l - g x + g y.
Proof.
  intros Hx. pose proof (lookup_lt_Some _ _ _ Hx). apply (lsum_vec_set g _ (Z.of_nat i)).
  - apply vec_get_ok. split; [lia|]. by rewrite Nat2Z.id.
  - rewrite vec_set_in_range by lia. by rewrite Nat2Z.id.
Qed.

(** The flit that leaves an output VC. *)
Lemma tagged_top n vc b f b' vcs :
  tagged n → vec_get (niOutVcs n) vc = Ok b → getTopFlit b = Ok (f, b') → vec_set (niOutVcs n) vc b' = Ok vcs →
  m_vc f = vc ∧ ∀ c x, vec_get vcs c = Ok x → Forall (fun g => m_vc g = c) (m_buffer x).
Proof.
  intros Ht Hb Hg Hs. pose proof (Ht vc b Hb) as Hall. unfold getTopFlit in Hg.
  destruct (m_buffer b) as [|g rest]; [done|]. simplify_eq. apply Forall_cons in Hall as [Hf Hr].
  split; [done|]. intros c x Hx. destruct (decide (c = vc)) as [->|Hne].
  - rewrite (vec_get_set_eq _ _ _ _ Hs) in Hx. by simplify_eq.
  - rewrite (vec_get_set_ne _ _ _ _ _ Hs) in Hx by done. by apply Ht.
Qed.

Lemma send_from_vc_keeps env port p vc n w n' w' :
  outPorts n !! port = Some p → send_from_vc env port p vc n w = Ok (n', w') → ni_keeps n (w_links w) n' (w_links w').
Proof.
  intros Hp. unfold send_from_vc. intros (ovs & Ho & (b & Hb & ([f b'] & Hg & (vcs & Hs & H)%rbind_ok)%rbind_ok)%rbind_ok)%rbind_ok.
  cbv zeta in H. simpl in Ho, Hb, Hs. apply rbind_ok in H as ([n1 w1] & Hf & H).
  assert (inPorts n' = inPorts n1 ∧ outPorts n' = outPorts n1 ∧ niOutVcs n' = niOutVcs n1 ∧
          ni_outVcState n' = ni_outVcState n1 ∧ w' = w1) as (Ei & Eo & Ev & Es & ->).
  { destruct (bool_decide _ || bool_decide _) in H; [|by simplify_eq].
    apply rbind_ok in H as (ts & _ & H). by simplify_eq. }
  unfold scheduleFlit in Hf. apply rbind_ok in Hf as (r & _ & Hf). simpl in Hf.
  destruct (getOutportForVnet _ _) as [[i q]|] eqn:Eg; [|done]. injection Hf as <- <-.
  simpl in Ei, Eo, Ev, Es.
  unfold getOutportForVnet in Eg. apply list_find_Some in Eg as (Hq & _ & _). simpl in Hq.
  assert (map inCreditLink (<[port := set_vcRoundRobin vc p]> (outPorts n)) = map inCreditLink (outPorts n)) as Em
    by by eapply map_list_insert.
  apply ni_keeps_out; [done| |done|done| | |].
  - unfold ni_in_credits. rewrite Eo, <-Em. by eapply map_list_insert.
  - intros Ht. unfold tagged. rewrite Ev. by eapply tagged_top.
  - rewrite Es. by eapply Forall2_vec_upd; [apply _|apply decrement_keeps|].
  - intros v h Ht _. unfold ni_out_held. rewrite Es, Eo.
    rewrite (lsum_insert _ _ _ _ _ Hq). simpl. rewrite vc_count_insert.
    rewrite (lsum_insert _ _ _ _ _ Hp). simpl.
    assert (vat m_credit_count ovs v = vat m_credit_count (ni_outVcState n) v + (if vc =? v then -1 else 0)) as ->.
    { eapply vat_upd; [|exact Ho]. intros x y _. unfold ovc_decrement_credit. intros. inv_res. simpl. lia. }
    destruct (tagged_top n vc b f b' vcs Ht Hb Hg Hs) as [Hvc _]. unfold on_vc. simpl. rewrite Hvc. zcase; simpl; lia.
Qed.

(** ** Receiving *)

Section receive.
Context (rnd warm : bool) (rt : Z → Z).

(** What the sending side and the links look like, and the sum at the port. *)
Record port_step (p : InputPort) (n : NetworkInterface) (w : World) (p' : InputPort) (n' : NetworkInterface) (w' : World)
    (d : Z → Z) : Prop := {
  ps_out : outPorts n' = outPorts n;
  ps_in : inPorts n' = inPorts n;
  ps_state : ni_outVcState n' = ni_outVcState n;
  ps_vcs : niOutVcs n' = niOutVcs n;
  ps_link : inNetLink p' = inNetLink p;
  ps_links : w_links w' = w_links w;
  ps_held v : ip_held v p' = ip_held v p + d v
}.

Lemma sendCredit_held v p f t free :
  ip_held v (sendCredit (new_Credit (m_vc f) free t) p) = ip_held v p + on_vc v f.
Proof. unfold ip_held, sendCredit. simpl. rewrite vc_count_insert. unfold on_vc. simpl. lia. Qed.

(** A stalled flit that leaves is replaced by its credit. *)
Lemma unstall_step env p checked rest n w p' n' w' :
  m_stall_queue p = checked ++ rest → unstall rnd warm rt env p checked rest n w = Ok (p', n', w') →
  port_step p n w p' n' w' (fun _ => 0).
Proof.
  revert checked n w. induction rest as [|f rest IH]; intros checked n w Hq H; cbn [unstall] in H.
  { injection H as <- <- <-. split; [done..|]. intros v. lia. }
  apply rbind_ok in H as ([room w1] & Hslot%slot_for_links & H). destruct room.
  - apply rbind_ok in H as (w2 & Hdel%deliver_links & (st & _ & (c & _ & (sts & _ & (w3 & Hw3 & H)%rbind_ok)%rbind_ok)%rbind_ok)%rbind_ok).
    injection H as <- <- <-. split; [done..| |].
    + destruct (c - 1 =? 0); [|simplify_eq; congruence].
      apply rbind_ok in Hw3 as (h & _ & (b & _ & Hw3)%rbind_ok). injection Hw3 as <-. simpl. congruence.
    + intros v. pose proof (sendCredit_held v p f (curTick env) true) as Hc. unfold ip_held in *. simpl in *.
      rewrite Hq in Hc. rewrite Hq, !lsum_app in *. simpl in *. lia.
  - apply IH in H as []; [|by rewrite <-app_assoc]. split; [done..|congruence|done].
Qed.

Lemma check_stall_port_keeps env i n w n' w' :
  check_stall_port rnd warm rt env i (n, w) = Ok (n', w') → ni_keeps n (w_links w) n' (w_links w').
Proof.
  unfold check_stall_port. destruct (inPorts n !! i) as [p|] eqn:Hp; [|done].
  intros ([[p' n1] w1] & Hu & H)%rbind_ok. injection H as <- <-.
  apply unstall_step in Hu as [Eo Ei Es Ev El Ew Hh]; [|done]. simpl in El.
  eapply (ni_keeps_in _ _ _ _ i p p'); simpl; [done|done|done|done|by rewrite Ei|done|by rewrite Ew|by rewrite Ew|].
  intros v. rewrite Hh, Ew. unfold ip_held. simpl. lia.
Qed.

(** A received flit is stalled, or its credit goes back. *)
Lemma receive_flit_step env f p n w p' n' w' :
  receive_flit rnd warm rt env f p n w = Ok (p', n', w') → port_step p n w p' n' w' (fun v => on_vc v f).
Proof.
  unfold receive_flit. intros (_ & _ & H)%rbind_ok. cbv zeta in H.
  change (m_vc (set_dequeue_time (curTick env) f)) with (m_vc f) in H.
  destruct (bool_decide _ || bool_decide _) in H.
  - apply rbind_ok in H as (enq & _ & ([room w1] & Hroom & H)%rbind_ok).
    assert (w_links w1 = w_links w) as Hw1 by (destruct enq; [by simplify_eq|by eapply slot_for_links]).
    destruct room.
    + apply rbind_ok in H as (w2 & Hdel%deliver_links & (st & _ & H)%rbind_ok). injection H as <- <- <-.
      split; [done..|congruence|]. intros v. apply sendCredit_held.
    + apply rbind_ok in H as (sts & _ & (h & _ & (b & _ & H)%rbind_ok)%rbind_ok). injection H as <- <- <-.
      split; [done..|]. intros v. unfold ip_held. simpl. rewrite lsum_app. simpl.
      change (on_vc v (set_dequeue_time (curTick env) f)) with (on_vc v f). lia.
  - apply rbind_ok in H as (st & _ & H). injection H as <- <- <-. split; [done..|]. intros v. apply sendCredit_held.
Qed.

Lemma receive_port_keeps env i n w n' w' :
  receive_port rnd warm rt env i (n, w) = Ok (n', w') → ni_keeps n (w_links w) n' (w_links w').
Proof.
  unfold receive_port. destruct (inPorts n !! i) as [p|] eqn:Hp; [|done].
  intros (l & Hl%get_link_some & H)%rbind_ok. destruct (link_isReady _ l); [|injection H as <- <-; apply ni_keeps_refl].
  apply rbind_ok in H as ([f l'] & Hc & ([[p' n1] w1] & Hr & H)%rbind_ok). injection H as <- <-.
  apply receive_flit_step in Hr as [Eo Ei Es Ev El Ew Hh]. simpl in Ew.
  pose proof (consumeLink_same_ends _ _ _ _ _ Hl Hc) as He.
  eapply (ni_keeps_in _ _ _ _ i p p'); simpl; [done|done|done|done|by rewrite Ei|done|by rewrite Ew| |].
  - intros h Hne. rewrite Ew. by apply lookup_insert_ne.
  - intros v. rewrite Hh, Ew, (on_link_insert v _ _ _ _ _ Hl), Z.eqb_refl.
    apply (consumeLink_vc v) in Hc. unfold on_link. lia.
Qed.

(** ** Credits *)

Lemma credit_port_keeps env i n w n' w' :
  credit_port env i (n, w) = Ok (n', w') → ni_keeps n (w_links w) n' (w_links w').
Proof.
  unfold credit_port. destruct (outPorts n !! i) as [p|] eqn:Hp; [|done].
  intros (l & Hl%get_link_some & H)%rbind_ok. destruct (link_isReady _ l); [|injection H as <- <-; apply ni_keeps_refl].
  apply rbind_ok in H as ([f l'] & Hc & (ovs & Ho & (free & _ & (ovs' & Ho' & H)%rbind_ok)%rbind_ok)%rbind_ok).
  injection H as <- <-.
  assert (ni_in_credits n !! i = Some (inCreditLink p)) as Hi.
  { unfold ni_in_credits. change (map ?f ?l) with (f <$> l). by rewrite list_lookup_fmap, Hp. }
  apply ni_keeps_out; simpl; [done|done|by eapply consumeLink_same_ends| |done| |].
  - intros h Hh. apply lookup_insert_ne. intros <-. apply Hh. by eapply list_elem_of_lookup_2.
  - transitivity ovs; [by eapply Forall2_vec_upd; [apply _|apply increment_keeps|]|].
    destruct free; [|by simplify_eq]. eapply Forall2_vec_upd; [apply _| |exact Ho']. by intros s s' [= <-].
  - intros v h _ Hcr. rewrite Hcr in Hi. apply list_lookup_singleton_Some in Hi as [_ Hh].
    rewrite (on_link_insert v _ _ _ _ _ Hl), Hh, Z.eqb_refl. unfold ni_out_held. simpl.
    assert (vat m_credit_count ovs' v = vat m_credit_count ovs v) as ->.
    { destruct free; [|by simplify_eq].
      assert (vat m_credit_count ovs' v = vat m_credit_count ovs v + (if m_vc f =? v then 0 else 0)) as ->; [|zcase; lia].
      eapply vat_upd; [|exact Ho']. intros x y _ [= <-]. simpl. lia. }
    assert (vat m_credit_count ovs v = vat m_credit_count (ni_outVcState n) v + (if m_vc f =? v then 1 else 0)) as ->.
    { eapply vat_upd; [|exact Ho]. intros x y _. unfold ovc_increment_credit. intros. inv_res. done. }
    apply (consumeLink_vc v) in Hc. unfold on_vc in Hc. revert Hc. zcase; simpl; lia.
Qed.

(** ** The wakeup *)

Definition ni_keeps_rel (s s' : NetworkInterface * Links) : Prop := ni_keeps (fst s) (snd s) (fst s') (snd s').

#[local] Instance ni_keeps_preorder : PreOrder ni_keeps_rel.
Proof. split; [intros s; apply ni_keeps_refl|intros s1 s2 s3; apply ni_keeps_trans]. Qed.

Lemma ni_wakeup_keeps rs cfg cs ds ro env n w n' w' :
  ni_wakeup rs cfg cs ds ro rnd warm rt env n w = Ok (n', w') → ni_keeps n (w_links w) n' (w_links w').
Proof.
  apply (ni_wakeup_rel rs cfg cs ds ro rnd warm rt env ni_keeps_rel).
  - intros m ls m' []. by apply ni_keeps_same.
  - intros *. apply send_copy_keeps.
  - intros *. apply send_from_vc_keeps.
  - intros *. apply check_stall_port_keeps.
  - intros *. apply receive_port_keeps.
  - intros *. apply credit_port_keeps.
Qed.

End receive.
