(* ===== verification/NiLedger.v ===== *)
(** * The flits that pass through a network interface

    A wakeup of an interface creates flits, moves flits, takes flits off the
    network and consumes credits. This file accounts for them: the weight of what
    is in the interface and on the links changes by what was injected, received
    and consumed, and the counters [m_local_flits_injected] and
    [m_local_flits_received] count exactly that. *)

From S2P Require Import Prelude IntMath Clocked Consumer MessageBuffer NetDest Flit RoutingUnit.
From S2P Require Import VirtualChannel NetworkLink InputUnit OutputUnit SwitchAllocator Router RouterFrame CreditFlow NetworkInterface NiSteps NiCredit.

(** ** Weights *)

Definition ip_count (p : mark → Z) (i : InputPort) : Z := lsum (fcount p) (m_stall_queue i) + bcount p (outCreditQueue i).
Definition op_count (p : mark → Z) (o : OutputPort) : Z := bcount p (outFlitQueue o).
Definition ni_count (p : mark → Z) (n : NetworkInterface) : Z :=
  lsum (bcount p) (niOutVcs n) + lsum (op_count p) (outPorts n) + lsum (ip_count p) (inPorts n).

Definition on_vnet (v : Z) (f : flit) : Z := if m_vnet f =? v then 1 else 0.

(** The value of a per-vnet statistic. *)
Definition stat_at (l : list Z) (v : Z) : Z := vat (fun x => x) l v.

(** ** What a step moves *)

Record ni_moves (n : NetworkInterface) (ls : Links) (n' : NetworkInterface) (ls' : Links)
    (inj recv taken : list flit) : Prop := {
  mv_weight p : (∀ free, p (credit_mark free) = 0) →
    ni_count p n' + links_count p ls' =
    ni_count p n + links_count p ls + lsum (fcount p) inj - lsum (fcount p) recv - lsum (fcount p) taken;
  mv_injected v : u64 (stat_at (m_local_flits_injected (ni_stats n')) v) =
    u64 (stat_at (m_local_flits_injected (ni_stats n)) v + lsum (on_vnet v) inj);
  mv_received v : u64 (stat_at (m_local_flits_received (ni_stats n')) v) =
    u64 (stat_at (m_local_flits_received (ni_stats n)) v + lsum (on_vnet v) recv);
  mv_inj : Forall (fun f => is_Some (src_delay f) ∧ m_is_free_signal f = None) inj;
  mv_recv : Forall (fun f => is_Some (src_delay f)) recv;
  mv_taken : Forall (fun f => is_Some (m_is_free_signal f)) taken
}.

Lemma u64_add_l x y z : u64 x = u64 y → u64 (x + z) = u64 (y + z).
Proof. unfold u64. intros H. by rewrite <-(Z.add_mod_idemp_l x), H, Z.add_mod_idemp_l by lia. Qed.

Lemma u64_idem x y : u64 (u64 x + y) = u64 (x + y).
Proof. unfold u64. by rewrite Z.add_mod_idemp_l by lia. Qed.

Lemma ni_moves_trans n1 ls1 n2 ls2 n3 ls3 inj recv taken inj' recv' taken' :
  ni_moves n1 ls1 n2 ls2 inj recv taken → ni_moves n2 ls2 n3 ls3 inj' recv' taken' →
  ni_moves n1 ls1 n3 ls3 (inj ++ inj') (recv ++ recv') (taken ++ taken').
Proof.
  intros [W1 I1 R1 A1 B1 C1] [W2 I2 R2 A2 B2 C2]. split.
  - intros p Hp. rewrite (W2 p Hp), (W1 p Hp), !lsum_app. lia.
  - intros v. by rewrite I2, lsum_app, (u64_add_l _ _ _ (I1 v)), Z.add_assoc.
  - intros v. by rewrite R2, lsum_app, (u64_add_l _ _ _ (R1 v)), Z.add_assoc.
  - by apply Forall_app.
  - by apply Forall_app.
  - by apply Forall_app.
Qed.

(** Nothing enters or leaves. *)
Lemma ni_moves_quiet n ls n' ls' :
  (∀ p, (∀ free, p (credit_mark free) = 0) → ni_count p n' + links_count p ls' = ni_count p n + links_count p ls) →
  ni_stats n' = ni_stats n → ni_moves n ls n' ls' [] [] [].
Proof.
  intros Hw Hs. split; [|by intros v; rewrite Hs, Z.add_0_r|by intros v; rewrite Hs, Z.add_0_r|constructor..].
  intros p Hp. rewrite (Hw p Hp). simpl. lia.
Qed.

Lemma ni_moves_same n ls n' :
  inPorts n' = inPorts n → outPorts n' = outPorts n → niOutVcs n' = niOutVcs n → ni_stats n' = ni_stats n →
  ni_moves n ls n' ls [] [] [].
Proof. intros Ei Eo Ev Es. apply ni_moves_quiet; [|done]. intros p _. unfold ni_count. by rewrite Ei, Eo, Ev. Qed.

Lemma ni_moves_refl n ls : ni_moves n ls n ls [] [] [].
Proof. by apply ni_moves_same. Qed.

(** A step that moves some flits. *)
Definition ni_passes (n : NetworkInterface) (ls : Links) (n' : NetworkInterface) (ls' : Links) : Prop :=
  ∃ inj recv taken, ni_moves n ls n' ls' inj recv taken.

Lemma ni_passes_refl n ls : ni_passes n ls n ls.
Proof. exists [], [], []. apply ni_moves_refl. Qed.

Lemma ni_passes_trans n1 ls1 n2 ls2 n3 ls3 :
  ni_passes n1 ls1 n2 ls2 → ni_passes n2 ls2 n3 ls3 → ni_passes n1 ls1 n3 ls3.
Proof. intros (i & r & t & H) (i' & r' & t' & H'). do 3 eexists. by eapply ni_moves_trans. Qed.

Lemma ni_passes_same n ls n' :
  inPorts n' = inPorts n → outPorts n' = outPorts n → niOutVcs n' = niOutVcs n → ni_stats n' = ni_stats n →
  ni_passes n ls n' ls.
Proof. intros. exists [], [], []. by apply ni_moves_same. Qed.

(** ** Injection *)

Lemma bump_stat l i d l' v :
  bump l i d = Ok l' → u64 (stat_at l' v) = u64 (stat_at l v + (if i =? v then d else 0)).
Proof.
  unfold bump, vec_upd. intros (x & Hx & Hs)%rbind_ok. cbn [rbind] in Hs. unfold stat_at.
  rewrite (vat_set _ _ _ _ _ _ _ Hx Hs). destruct (Z.eqb_spec i v) as [<-|]; [|done].
  unfold vat. rewrite Hx. unfold u64.
  replace (x + ((x + d) mod 2 ^ 64 - x)) with ((x + d) mod 2 ^ 64) by lia. by rewrite Z.mod_mod.
Qed.

Lemma bump_all vnet (flits : list flit) l l' v :
  Forall (fun f => m_vnet f = vnet) flits → fold_res (fun _ s => bump s vnet 1) flits l = Ok l' →
  u64 (stat_at l' v) = u64 (stat_at l v + lsum (on_vnet v) flits).
Proof.
  intros Hall. revert l. induction Hall as [|f fs Hf _ IH]; intros l H; simpl in H.
  { injection H as <-. simpl. by rewrite Z.add_0_r. }
  apply rbind_ok in H as (l1 & Hb & H). apply IH in H. rewrite H.
  rewrite (u64_add_l _ _ _ (bump_stat _ _ _ _ v Hb)). f_equal. unfold lsum at 2. simpl. fold (lsum (on_vnet v) fs).
  unfold on_vnet at 2. rewrite Hf. lia.
Qed.

Lemma insert_all_count p vc flits vcs vcs' :
  fold_res (fun fl vcs => vec_upd vcs vc (fun b => Ok (insert fl b))) flits vcs = Ok vcs' →
  lsum (bcount p) vcs' = lsum (bcount p) vcs + lsum (fcount p) flits.
Proof.
  revert vcs. induction flits as [|f fs IH]; intros vcs H; simpl in H; [injection H as <-; simpl; lia|].
  apply rbind_ok in H as (vcs1 & Hu & H). rewrite (IH _ H).
  apply (lsum_vec_upd (bcount p)) in Hu as (b & b' & _ & [= <-] & ->). rewrite bcount_insert. simpl. lia.
Qed.

(** The flits of a packet. *)
Lemma packet_flits_data pid vc vnet route nf msg size width now delay :
  Forall (fun f => m_vnet f = vnet ∧ is_Some (src_delay f) ∧ m_is_free_signal f = None)
    (packet_flits pid vc vnet route nf msg size width now delay).
Proof. apply Forall_forall. intros f (i & -> & _)%list_elem_of_fmap. split_and!; [done|by eexists|done]. Qed.

Lemma send_copy_moves rs cfg cs ds ro env vnet p nf multi d vc msg n w msg' n' w' :
  send_copy rs cfg cs ds ro env vnet p nf multi d vc msg n w = Ok (msg', n', w') →
  ni_passes n (w_links w) n' (w_links w').
Proof.
  unfold send_copy. intros H. apply rbind_ok in H as ([nd rest] & _ & (rt & _ & (pk & _ & (w1 & Hw & H)%rbind_ok)%rbind_ok)%rbind_ok).
  apply rbind_ok in H as (inj & Hinj & (vcs & Hvcs & (ts & _ & (ovs & Ho & H)%rbind_ok)%rbind_ok)%rbind_ok).
  simplify_eq. assert (w_links (take_packet_id (with_destination (clone msg (w_next_message w)) nd) w1) = w_links w) as ->.
  { unfold update_traffic_distribution in Hw. apply rbind_ok in Hw as (ty & _ & Hw). by simplify_eq. }
  match type of Hinj with fold_res _ (packet_flits ?a ?b ?c ?d ?e ?f ?g ?h ?i ?j) _ = _ =>
    pose proof (packet_flits_data a b c d e f g h i j) as Hdata;
    remember (packet_flits a b c d e f g h i j) as flits eqn:E; clear E end.
  exists flits, [], []. split; [| | |by eapply Forall_impl; [exact Hdata|by intros f (_ & ? & ?)]|constructor|constructor].
  - intros q _. unfold ni_count. simpl. simpl in Hvcs. rewrite (insert_all_count q _ _ _ _ Hvcs). lia.
  - intros v. simpl. eapply bump_all; [|exact Hinj]. eapply Forall_impl; [exact Hdata|]. by intros f (? & _).
  - intros v. simpl. by rewrite Z.add_0_r.
Qed.

(** ** Sending *)

Lemma send_from_vc_moves env port p vc n w n' w' :
  outPorts n !! port = Some p → send_from_vc env port p vc n w = Ok (n', w') → ni_passes n (w_links w) n' (w_links w').
Proof.
  intros Hp. unfold send_from_vc. intros (ovs & Ho & (b & Hb & ([f b'] & Hg & (vcs & Hs & H)%rbind_ok)%rbind_ok)%rbind_ok)%rbind_ok.
  cbv zeta in H. simpl in Ho, Hb, Hs. apply rbind_ok in H as ([n1 w1] & Hf & H).
  assert (inPorts n' = inPorts n1 ∧ outPorts n' = outPorts n1 ∧ niOutVcs n' = niOutVcs n1 ∧
          ni_stats n' = ni_stats n1 ∧ w' = w1) as (Ei & Eo & Ev & Es & ->).
  { destruct (bool_decide _ || bool_decide _) in H; [|by simplify_eq].
    apply rbind_ok in H as (ts & _ & H). by simplify_eq. }
  unfold scheduleFlit in Hf. apply rbind_ok in Hf as (r & _ & Hf). simpl in Hf.
  destruct (getOutportForVnet _ _) as [[i q]|] eqn:Eg; [|done]. injection Hf as <- <-.
  simpl in Ei, Eo, Ev, Es.
  unfold getOutportForVnet in Eg. apply list_find_Some in Eg as (Hq & _ & _). simpl in Hq.
  exists [], [], []. apply ni_moves_quiet; [|done].
  intros w0 _. unfold ni_count. rewrite Ei, Eo, Ev.
  rewrite (lsum_insert _ _ _ _ _ Hq), (lsum_insert _ _ _ _ _ Hp), (lsum_vec_set (bcount w0) _ _ _ _ _ Hb Hs).
  unfold op_count. simpl. rewrite bcount_insert. apply (bcount_getTop w0) in Hg.
  change (fcount w0 (set_time (clockEdge env 1) f)) with (fcount w0 f). lia.
Qed.


(** ** Receiving *)

Lemma incrementStats_received env f st st' :
  incrementStats env f st = Ok st' →
  is_Some (src_delay f) ∧ m_local_flits_injected st' = m_local_flits_injected st ∧
  ∀ v, u64 (stat_at (m_local_flits_received st') v) = u64 (stat_at (m_local_flits_received st) v + on_vnet v f).
Proof.
  unfold incrementStats. intros (received & Hr & H)%rbind_ok. cbv zeta in H.
  apply rbind_ok in H as (d & Hd & (nl & _ & (ql & _ & ([[a b] c] & _ & [= <-])%rbind_ok)%rbind_ok)%rbind_ok). simpl.
  split_and!; [destruct (src_delay f); [by eexists|done]|done|]. intros v. exact (bump_stat _ _ _ _ v Hr).
Qed.

(** What a step does to one input port: [d] came in from the link. *)
Record port_moves (p : InputPort) (n : NetworkInterface) (p' : InputPort) (n' : NetworkInterface)
    (d recv : list flit) : Prop := {
  pm_out : outPorts n' = outPorts n;
  pm_in : inPorts n' = inPorts n;
  pm_vcs : niOutVcs n' = niOutVcs n;
  pm_injected : m_local_flits_injected (ni_stats n') = m_local_flits_injected (ni_stats n);
  pm_weight q : (∀ free, q (credit_mark free) = 0) →
    ip_count q p' = ip_count q p + lsum (fcount q) d - lsum (fcount q) recv;
  pm_received v : u64 (stat_at (m_local_flits_received (ni_stats n')) v) =
    u64 (stat_at (m_local_flits_received (ni_stats n)) v + lsum (on_vnet v) recv);
  pm_recv : Forall (fun f => is_Some (src_delay f)) recv
}.

Lemma sendCredit_count q p vc free t :
  (∀ free, q (credit_mark free) = 0) → ip_count q (sendCredit (new_Credit vc free t) p) = ip_count q p.
Proof.
  intros Hq. unfold ip_count. simpl. rewrite bcount_insert.
  assert (fcount q (new_Credit vc free t) = 0) as -> by apply Hq. lia.
Qed.

Section receive.
Context (rnd warm : bool) (rt : Z → Z).

Lemma unstall_moves env p checked rest n w p' n' w' :
  m_stall_queue p = checked ++ rest → unstall rnd warm rt env p checked rest n w = Ok (p', n', w') →
  w_links w' = w_links w ∧ inNetLink p' = inNetLink p ∧ ∃ recv, port_moves p n p' n' [] recv.
Proof.
  revert checked n w. induction rest as [|f rest IH]; intros checked n w Hq H; cbn [unstall] in H.
  { injection H as <- <- <-. split_and!; [done|done|]. exists []. split; [done..| | |constructor].
    - intros q _. simpl. lia.
    - intros v. simpl. by rewrite Z.add_0_r. }
  apply rbind_ok in H as ([room w1] & Hslot%slot_for_links & H). destruct room.
  - apply rbind_ok in H as (w2 & Hdel%deliver_links & (st & Hst & (c & _ & (sts & _ & (w3 & Hw3 & H)%rbind_ok)%rbind_ok)%rbind_ok)%rbind_ok).
    apply incrementStats_received in Hst as (Hd & Hinj & Hrec). injection H as <- <- <-. split_and!; [|done|].
    + destruct (c - 1 =? 0); [|simplify_eq; congruence].
      apply rbind_ok in Hw3 as (h & _ & (b & _ & Hw3)%rbind_ok). injection Hw3 as <-. simpl. congruence.
    + exists [f]. split; [done..| | |by repeat constructor].
      * intros q Hz. pose proof (sendCredit_count q p (m_vc f) true (curTick env) Hz) as Hc. unfold ip_count in *.
        simpl in *. rewrite Hq, !lsum_app in *. simpl in *. lia.
      * intros v. simpl. by rewrite Hrec, Z.add_0_r.
  - apply IH in H as (E1 & E2 & recv & Hm); [|by rewrite <-app_assoc]. split_and!; [congruence|done|by exists recv].
Qed.

Lemma receive_flit_moves env f p n w p' n' w' :
  receive_flit rnd warm rt env f p n w = Ok (p', n', w') →
  w_links w' = w_links w ∧ inNetLink p' = inNetLink p ∧ ∃ recv, port_moves p n p' n' [f] recv.
Proof.
  unfold receive_flit. intros (_ & _ & H)%rbind_ok. cbv zeta in H.
  set (g := set_dequeue_time (curTick env) f) in *.
  destruct (bool_decide _ || bool_decide _) in H.
  - apply rbind_ok in H as (enq & _ & ([room w1] & Hroom & H)%rbind_ok).
    assert (w_links w1 = w_links w) as Hw1 by (destruct enq; [by simplify_eq|by eapply slot_for_links]).
    destruct room.
    + apply rbind_ok in H as (w2 & Hdel%deliver_links & (st & Hst & H)%rbind_ok). injection H as <- <- <-.
      apply incrementStats_received in Hst as (Hd & Hinj & Hrec). split_and!; [congruence|done|].
      exists [g]. split; [done..| | |by repeat constructor].
      * intros q Hz. rewrite (sendCredit_count q p _ true (curTick env) Hz). simpl.
        change (fcount q g) with (fcount q f). lia.
      * intros v. simpl. by rewrite Hrec, Z.add_0_r.
    + apply rbind_ok in H as (sts & _ & (h & _ & (b & _ & H)%rbind_ok)%rbind_ok). injection H as <- <- <-.
      split_and!; [done|done|]. exists []. split; [done..| | |constructor].
      * intros q _. unfold ip_count. simpl. rewrite lsum_app. simpl. change (fcount q g) with (fcount q f). lia.
      * intros v. simpl. by rewrite Z.add_0_r.
  - apply rbind_ok in H as (st & Hst & H). injection H as <- <- <-.
    apply incrementStats_received in Hst as (Hd & Hinj & Hrec). split_and!; [done|done|].
    exists [g]. split; [done..| | |by repeat constructor].
    + intros q Hz. rewrite (sendCredit_count q p _ false (curTick env) Hz). simpl.
      change (fcount q g) with (fcount q f). lia.
    + intros v. simpl. by rewrite Hrec, Z.add_0_r.
Qed.

(** The port is stored back. *)
Lemma port_passes i p p' n n1 ls ls' d recv stalls :
  inPorts n !! i = Some p → port_moves p n p' n1 d recv →
  (∀ q, links_count q ls = links_count q ls' + lsum (fcount q) d) →
  ni_passes n ls (with_inPorts n1 (<[i := p']> (inPorts n1)) stalls) ls'.
Proof.
  intros Hp [Eo Ei Ev Einj Hw Hr Hf] Hl. exists [], recv, [].
  split; [| |done|constructor|done|constructor].
  - intros q Hz. unfold ni_count. simpl. rewrite Eo, Ei, Ev, (lsum_insert _ _ _ _ _ Hp), (Hw q Hz), (Hl q). lia.
  - intros v. simpl. by rewrite Einj, Z.add_0_r.
Qed.

Lemma check_stall_port_moves env i n w n' w' :
  check_stall_port rnd warm rt env i (n, w) = Ok (n', w') → ni_passes n (w_links w) n' (w_links w').
Proof.
  unfold check_stall_port. destruct (inPorts n !! i) as [p|] eqn:Hp; [|done].
  intros ([[p' n1] w1] & Hu & H)%rbind_ok. injection H as <- <-.
  apply unstall_moves in Hu as (Ew & _ & recv & [Eo Ei Ev Einj Hw Hr Hf]); [|done].
  eapply (port_passes i p p' n n1 _ _ [] recv); [done|by split|]. intros q. rewrite Ew. simpl. lia.
Qed.

Lemma receive_port_moves env i n w n' w' :
  receive_port rnd warm rt env i (n, w) = Ok (n', w') → ni_passes n (w_links w) n' (w_links w').
Proof.
  unfold receive_port. destruct (inPorts n !! i) as [p|] eqn:Hp; [|done].
  intros (l & Hl%get_link_some & H)%rbind_ok. destruct (link_isReady _ l); [|injection H as <- <-; apply ni_passes_refl].
  apply rbind_ok in H as ([f l'] & Hc & ([[p' n1] w1] & Hr & H)%rbind_ok). injection H as <- <-.
  apply receive_flit_moves in Hr as (Ew & _ & recv & Hm). simpl in Ew.
  eapply (port_passes i p p' n n1 _ _ [f] recv); [done|done|]. intros q. rewrite Ew, (links_count_insert q _ _ _ _ Hl).
  apply (link_consume_count q) in Hc. simpl. lia.
Qed.

(** ** Credits *)

Lemma credit_port_moves env i n w n' w' :
  credit_port env i (n, w) = Ok (n', w') → ni_passes n (w_links w) n' (w_links w').
Proof.
  unfold credit_port. destruct (outPorts n !! i) as [p|] eqn:Hp; [|done].
  intros (l & Hl%get_link_some & H)%rbind_ok. destruct (link_isReady _ l); [|injection H as <- <-; apply ni_passes_refl].
  apply rbind_ok in H as ([f l'] & Hc & (ovs & Ho & (free & Hfree & (ovs' & Ho' & H)%rbind_ok)%rbind_ok)%rbind_ok).
  injection H as <- <-. exists [], [], [f].
  split; [| | |constructor|constructor|].
  - intros q Hz. simpl. rewrite (links_count_insert q _ _ _ _ Hl). apply (link_consume_count q) in Hc.
    change (ni_count q (with_vc_data n ovs' (niOutVcs n) (m_ni_out_vcs_enqueue_time n))) with (ni_count q n). simpl. lia.
  - intros v. simpl. by rewrite Z.add_0_r.
  - intros v. simpl. by rewrite Z.add_0_r.
  - repeat constructor. by destruct (m_is_free_signal f); [eexists|].
Qed.

(** ** The wakeup *)

Definition ni_passes_rel (s s' : NetworkInterface * Links) : Prop := ni_passes (fst s) (snd s) (fst s') (snd s').

#[local] Instance ni_passes_preorder : PreOrder ni_passes_rel.
Proof. split; [intros s; apply ni_passes_refl|intros s1 s2 s3; apply ni_passes_trans]. Qed.

Lemma ni_wakeup_passes rs cfg cs ds ro env n w n' w' :
  ni_wakeup rs cfg cs ds ro rnd warm rt env n w = Ok (n', w') → ni_passes n (w_links w) n' (w_links w').
Proof.
  apply (ni_wakeup_rel rs cfg cs ds ro rnd warm rt env ni_passes_rel).
  - intros m ls m' []. by apply ni_passes_same.
  - intros *. apply send_copy_moves.
  - intros *. apply send_from_vc_moves.
  - intros *. apply check_stall_port_moves.
  - intros *. apply receive_port_moves.
  - intros *. apply credit_port_moves.
Qed.

End receive.
