(* ===== verification/Injection.v ===== *)
(** * Injection of packets into the network

    Properties of the injection side of NetworkInterface.cc: how
    [flitisizeMessage] splits a multicast message, what packets it writes into
    the output VCs, and which VC [calculateVC] picks. *)

From S2P Require Import Prelude IntMath Clocked Consumer MessageBuffer NetDest Flit RoutingUnit.
From S2P Require Import VirtualChannel NetworkLink InputUnit OutputUnit SwitchAllocator Router NetworkInterface.

(** ** Splitting destinations *)

Section split.
Context (rs : RubySystem) (Hrs : ruby_system_ok rs).

Lemma machine_of_node_from x m fuel :
  x ∈ all_nodes rs → 0 ≤ m ≤ fst x → fst x < m + Z.of_nat fuel →
  machine_of_node rs (node_number rs x) m fuel = Some {| mach_type := fst x; mach_num := snd x |}.
Proof.
  intros Hx. pose proof Hx as [Hi Hj]%elem_of_nodes_from.
  assert (0 < MachineType_NUM rs) by apply (rs_num rs Hrs).
  pose proof (rs_base_succ rs Hrs (fst x) ltac:(lia)) as Hsucc.
  revert m. induction fuel as [|fuel IH]; intros m Hm Hf; [lia|]. cbn [machine_of_node].
  unfold node_number in *. destruct (decide (m = fst x)) as [->|Hne].
  - rewrite (proj2 (Z.leb_le _ _)), (proj2 (Z.ltb_lt _ _)) by lia. simpl. do 2 f_equal. lia.
  - pose proof (base_number_mono rs Hrs (m + 1) (fst x) ltac:(lia) ltac:(lia)).
    rewrite (proj2 (Z.ltb_ge _ (MachineType_base_number rs (m + 1)))) by lia.
    rewrite andb_false_r. apply IH; lia.
Qed.

Lemma machine_of_node_ok x :
  x ∈ all_nodes rs →
  machine_of_node rs (node_number rs x) 0 (Z.to_nat (MachineType_NUM rs))
  = Some {| mach_type := fst x; mach_num := snd x |}.
Proof. intros Hx. pose proof Hx as [Hi Hj]%elem_of_nodes_from. apply machine_of_node_from; [done|lia|lia]. Qed.

(** One node goes to the copy, the others stay. *)
Lemma split_dest_ok x cd d :
  x ∈ all_nodes rs → netdest_wf rs d →
  ∃ p rest, split_dest rs (node_number rs x) cd d = Ok (p, rest) ∧ netdest_wf rs p ∧ netdest_wf rs rest ∧
    (∀ y, y ∈ all_nodes rs → in_dest p y ↔ y = x) ∧
    (∀ y, y ∈ all_nodes rs → in_dest rest y ↔ in_dest d y ∧ y ≠ x).
Proof.
  intros Hx Hd. unfold split_dest. rewrite (resize_empty rs Hrs). cbn [rbind].
  rewrite machine_of_node_ok by done. rewrite (clear_no_dest rs Hrs). cbn [rbind].
  pose proof Hx as [Hi Hj]%elem_of_nodes_from. assert (0 < MachineType_NUM rs) by apply (rs_num rs Hrs).
  destruct (add_has rs Hrs {| mach_type := fst x; mach_num := snd x |} (no_dest rs)) as (p & Hp & Hwp & Hhas);
    [by apply no_dest_wf|simpl; lia|simpl; lia|]. simpl in Hhas. rewrite Hp. cbn [rbind].
  destruct (removeNetDest_combines rs Hrs d p) as (rest & Hr & Hwr & Hcomb); [done..|].
  rewrite Hr. cbn [rbind]. exists p, rest.
  assert (∀ y, y ∈ all_nodes rs → in_dest p y ↔ y = x) as Hpx.
  { intros [i j] [Hyi Hyj]%elem_of_nodes_from. unfold in_dest. simpl in *.
    rewrite Hhas, no_dest_has by lia. simpl. destruct x as [xi xj]. simpl.
    rewrite andb_true_iff, !Z.eqb_eq. naive_solver. }
  split_and!; [done..|]. intros y Hy. pose proof (Hpx y Hy) as Hiff.
  apply elem_of_nodes_from in Hy as [Hyi Hyj]. unfold in_dest in *.
  rewrite Hcomb by lia. rewrite andb_true_iff, negb_true_iff, <-Hiff.
  destruct (has p (fst y) (snd y)); intuition congruence.
Qed.

(** The lists of nodes before and after. *)
Lemma split_dest_nodes x xs cd d :
  netdest_wf rs d → filter (in_dest d) (all_nodes rs) = x :: xs →
  ∃ p rest, split_dest rs (node_number rs x) cd d = Ok (p, rest) ∧ netdest_wf rs p ∧ netdest_wf rs rest ∧
    filter (in_dest p) (all_nodes rs) = [x] ∧ filter (in_dest rest) (all_nodes rs) = xs.
Proof.
  intros Hd Hf.
  assert (x ∈ filter (in_dest d) (all_nodes rs)) as [Hxd Hx]%list_elem_of_filter by (rewrite Hf; left).
  destruct (split_dest_ok x cd d Hx Hd) as (p & rest & Hs & Hwp & Hwr & Hp & Hr).
  pose proof (NoDup_nodes_from rs 0 (Z.to_nat (MachineType_NUM rs))) as Hnd.
  exists p, rest. split_and!; [done..| |by eapply filter_remove_head].
  assert (filter (fun y => y = x) (all_nodes rs) = [x]) as <-.
  { fold (all_nodes rs) in Hnd. clear -Hx Hnd. induction (all_nodes rs) as [|z l IH]; [by apply elem_of_nil in Hx|].
    apply NoDup_cons in Hnd as [Hz Hnd]. rewrite filter_cons. case_decide as E.
    - subst z. f_equal. clear -Hz. induction l as [|y l IH]; [done|]. rewrite filter_cons.
      apply not_elem_of_cons in Hz as [? ?]. by rewrite decide_False, IH by done.
    - apply elem_of_cons in Hx as [->|Hx]; [done|]. by apply IH. }
  by apply filter_ext_elem.
Qed.
End split.

(** ** One packet *)

Lemma insert_flits vc flits vcs b :
  vec_get vcs vc = Ok b →
  fold_res (fun fl vcs => vec_upd vcs vc (fun b => Ok (insert fl b))) flits vcs
  = Ok (<[Z.to_nat vc := with_buffer b (m_buffer b ++ flits)]> vcs).
Proof.
  revert vcs b. induction flits as [|f flits IH]; intros vcs b Hb; simpl.
  - rewrite app_nil_r. apply vec_get_ok in Hb as [_ Hb].
    replace (with_buffer b (m_buffer b)) with b by (by destruct b). by rewrite list_insert_id.
  - unfold vec_upd. rewrite Hb. cbn [rbind]. pose proof (vec_get_range _ _ _ Hb).
    rewrite vec_set_in_range by done. cbn [rbind].
    rewrite (IH _ (insert f b)).
    + rewrite list_insert_insert_eq. simpl. by rewrite <-app_assoc.
    + apply vec_get_ok. split; [lia|]. apply list_lookup_insert_eq. lia.
Qed.

Section packets.
Context (rs : RubySystem) (cfg : NetConfig) (ctrl_size data_size : Z) (router_of : Z → Z → res Z).

(** What [send_copy] did. *)
Lemma send_copy_ok env vnet oPort nf multi destID vc msg n w msg' n' w' :
  send_copy rs cfg ctrl_size data_size router_of env vnet oPort nf multi destID vc msg n w = Ok (msg', n', w') →
  ∃ new_dest rest route,
    (if multi then split_dest rs destID (msg_destination msg) (msg_destination msg)
     else Ok (msg_destination msg, msg_destination msg)) = Ok (new_dest, rest) ∧
    msg' = with_destination msg rest ∧
    w_messages w' = <[w_next_message w := with_destination (clone msg (w_next_message w)) new_dest]> (w_messages w) ∧
    w_next_message w' = w_next_message w + 1 ∧ m_next_packet_id w' = m_next_packet_id w + 1 ∧
    net_dest route = new_dest ∧ dest_ni route = destID ∧ Flit.vnet route = vnet ∧
    (∀ b, vec_get (niOutVcs n) vc = Ok b → niOutVcs n' = <[Z.to_nat vc := with_buffer b (m_buffer b ++
      packet_flits (m_next_packet_id w) vc vnet route nf (Some (w_next_message w))
        (MessageSizeType_to_int ctrl_size data_size (msg_size_type msg)) (op_bitWidth oPort) (curTick env)
        (u64 (curTick env - msg_time msg)))]> (niOutVcs n)) ∧
    (∃ o, vec_get (ni_outVcState n) vc = Ok o ∧
      ni_outVcState n' = <[Z.to_nat vc := ovc_setState ACTIVE_ (curTick env) o]> (ni_outVcState n)).
Proof.
  unfold send_copy. intros H. apply rbind_ok in H as ([new_dest rest] & Hsplit & H).
  apply rbind_ok in H as (rt & _ & H). apply rbind_ok in H as (pk & _ & H).
  apply rbind_ok in H as (w1 & Hw1 & H). apply rbind_ok in H as (inj & _ & H).
  apply rbind_ok in H as (vcs & Hvcs & H). apply rbind_ok in H as (times & Ht & H).
  apply rbind_ok in H as (ovs & Ho & H). injection H as <- <- <-.
  unfold update_traffic_distribution in Hw1. apply rbind_ok in Hw1 as (ty & _ & Hw1). injection Hw1 as <-.
  simpl in Hvcs. apply vec_upd_ok in Ho as (o & o' & Hg & [= <-] & ->).
  exists new_dest, rest, {| Flit.vnet := vnet; net_dest := new_dest; src_ni := ni_id n;
    src_router := op_routerID oPort; dest_ni := destID; dest_router := rt; hops_traversed := -1 |}.
  simpl. split_and!; try reflexivity; [exact Hsplit| |by exists o].
  intros b Hb. rewrite (insert_flits _ _ _ b Hb) in Hvcs. by injection Hvcs as <-.
Qed.

(** ** The loop over the destinations *)

(** [calculateVC] leaves the world and the flits alone. *)
Lemma calculateVC_frame env vnet n vc n' :
  calculateVC env vnet n = Ok (vc, n') → niOutVcs n' = niOutVcs n ∧ ni_outVcState n' = ni_outVcState n.
Proof using Type.
  unfold calculateVC. generalize (Z.to_nat (ni_vc_per_vnet n)) as i. intros i. revert n.
  induction i as [|i IH]; intros n H; cbn [calculateVC_loop] in H.
  - apply rbind_ok in H as (c & _ & H). apply rbind_ok in H as (busy & _ & H).
    destruct (m_deadlock_threshold n <? c + 1); [done|]. by injection H as <- <-.
  - apply rbind_ok in H as (d & _ & H). apply rbind_ok in H as (al & _ & H).
    apply rbind_ok in H as (o & _ & H). destruct (ovc_isInState IDLE_ (curTick env) o).
    + apply rbind_ok in H as (busy & _ & H). by injection H as <- <-.
    + by apply IH in H.
Qed.

(** The packets created so far: message [i] is for the [i]-th node. *)
Definition copies_for (w w' : World) (ms : list Message) (xs : list (Z * Z)) : Prop :=
  w_next_message w' = w_next_message w + Z.of_nat (length ms) ∧
  (∀ h, h < w_next_message w → w_messages w' !! h = w_messages w !! h) ∧
  ∀ i m, ms !! i = Some m →
    w_messages w' !! (w_next_message w + Z.of_nat i) = Some m ∧ netdest_wf rs (msg_destination m) ∧
    ∃ x, xs !! i = Some x ∧ filter (in_dest (msg_destination m)) (all_nodes rs) = [x].

Lemma copies_for_nil w xs : copies_for w w [] xs.
Proof using Type. split_and!; [simpl; lia|done|by intros i m [=]]. Qed.

Lemma flitisize_loop_multi (Hrs : ruby_system_ok rs) env vnet oPort nf xs msg n w ok msg' n' w' :
  netdest_wf rs (msg_destination msg) → filter (in_dest (msg_destination msg)) (all_nodes rs) = xs →
  flitisize_loop rs cfg ctrl_size data_size router_of env vnet oPort nf true (node_number rs <$> xs) msg n w
  = Ok (ok, msg', n', w') →
  ∃ ms, (length ms ≤ length xs)%nat ∧ (ok = true ↔ length ms = length xs) ∧ copies_for w w' ms xs ∧
    netdest_wf rs (msg_destination msg') ∧
    filter (in_dest (msg_destination msg')) (all_nodes rs) = drop (length ms) xs.
Proof.
  revert msg n w. induction xs as [|x xs IH]; intros msg n w Hwf Hf H; cbn [flitisize_loop fmap list_fmap] in H.
  - injection H as <- <- <- <-. exists []. split_and!; [done|done|apply copies_for_nil|done|done].
  - apply rbind_ok in H as ([[vc|] n1] & Hvc & H).
    2:{ injection H as <- <- <- <-. exists []. split_and!; [simpl; lia|done|apply copies_for_nil|done|done]. }
    apply rbind_ok in H as ([[msg1 n2] w1] & Hcopy & H).
    apply send_copy_ok in Hcopy as (nd & rest & route & Hsplit & -> & Hm & Hn & _).
    destruct (split_dest_nodes rs Hrs x xs (msg_destination msg) (msg_destination msg) Hwf Hf)
      as (p & rest' & Hs & Hwp & Hwr & Hp & Hr). rewrite Hs in Hsplit. injection Hsplit as <- <-.
    destruct (IH (with_destination msg rest') n2 w1 Hwr Hr H) as (ms & Hlen & Hok & (Hnext & Hold & Hms) & Hwf' & Hdrop).
    exists (with_destination (clone msg (w_next_message w)) p :: ms).
    split_and!; [simpl; lia|simpl; rewrite Hok; lia| |done|done].
    split_and!; [rewrite Hnext, Hn; simpl; lia| |].
    + intros h Hh. rewrite Hold, Hm by lia. by rewrite lookup_insert_ne by lia.
    + intros [|i] m Him; simpl in Him.
      * injection Him as <-. rewrite Z.add_0_r, Hold, Hm, lookup_insert_eq by lia. split_and!; [done..|].
        by exists x.
      * destruct (Hms i m Him) as (Hl & Hw & Hx). rewrite Hn in Hl. split_and!; [|done..].
        by replace (w_next_message w + Z.of_nat (S i)) with (w_next_message w + 1 + Z.of_nat i) by lia.
Qed.

Lemma flitisize_loop_single env vnet oPort nf xs msg n w ok msg' n' w' :
  (length xs ≤ 1)%nat → netdest_wf rs (msg_destination msg) →
  filter (in_dest (msg_destination msg)) (all_nodes rs) = xs →
  flitisize_loop rs cfg ctrl_size data_size router_of env vnet oPort nf false (node_number rs <$> xs) msg n w
  = Ok (ok, msg', n', w') →
  ∃ ms, (length ms ≤ length xs)%nat ∧ (ok = true ↔ length ms = length xs) ∧ copies_for w w' ms xs ∧
    msg_destination msg' = msg_destination msg.
Proof using Type.
  intros Hl Hwf Hf H. destruct xs as [|x [|y xs]]; cbn [flitisize_loop fmap list_fmap] in H; simpl in Hl; [|..|lia].
  - injection H as <- <- <- <-. exists []. split_and!; [done|done|apply copies_for_nil|done].
  - apply rbind_ok in H as ([[vc|] n1] & Hvc & H).
    2:{ injection H as <- <- <- <-. exists []. split_and!; [simpl; lia|done|apply copies_for_nil|done]. }
    apply rbind_ok in H as ([[msg1 n2] w1] & Hcopy & H). injection H as <- <- <- <-.
    apply send_copy_ok in Hcopy as (nd & rest & route & [= <- <-] & -> & Hm & Hn & _).
    eexists [_]. split_and!; [done|done| |done]. split_and!; [simpl; lia| |].
    + intros h Hh. by rewrite Hm, lookup_insert_ne by lia.
    + intros [|i] m [= <-]. rewrite Z.add_0_r, Hm, lookup_insert_eq. split_and!; [done..|]. by exists x.
Qed.

Lemma copies_single_dest (Hrs : ruby_system_ok rs) w w' ms xs i m :
  copies_for w w' ms xs → ms !! i = Some m →
  w_messages w' !! (w_next_message w + Z.of_nat i) = Some m ∧
  ∃ d, (node_number rs <$> xs) !! i = Some d ∧ getAllDest rs (msg_destination m) = Ok [d].
Proof.
  intros (_ & _ & Hms) Hi. destruct (Hms i m Hi) as (Hl & Hw & x & Hx & Hf). split; [done|].
  exists (node_number rs x). split; [by rewrite list_lookup_fmap, Hx|].
  by rewrite getAllDest_filter, Hf.
Qed.

End packets.

(** The message [m] is for the nodes [dests], in the order the code visits them. *)
Definition addressed_to (rs : RubySystem) (dests : list Z) (m : Message) : Prop :=
  getAllDest rs (msg_destination m) = Ok dests.

(** C10: Every destination of a message gets exactly one packet. A call of
    [flitisizeMessage] creates, in order, one copy of the message for each of
    its first [k] destination nodes, addressed to that node alone; it returns
    true exactly when it served all of them. If it runs out of output VCs it
    returns false and leaves in the message precisely the destinations not yet
    served, so that the retry in a later cycle neither skips nor repeats a node. *)
Theorem multicast_exactly_once rs cfg ctrl_size data_size router_of env msg vnet n w dests ok msg' n' w' :
  ruby_system_ok rs → netdest_wf rs (msg_destination msg) →
  addressed_to rs dests msg →
  flitisizeMessage rs cfg ctrl_size data_size router_of env msg vnet n w = Ok (ok, msg', n', w') →
  ∃ ms, (ok = true ↔ length ms = length dests) ∧
    w_next_message w' = w_next_message w + Z.of_nat (length ms) ∧
    (∀ i m, ms !! i = Some m →
       w_messages w' !! (w_next_message w + Z.of_nat i) = Some m ∧
       ∃ d, dests !! i = Some d ∧ addressed_to rs [d] m) ∧
    (ok = false → addressed_to rs (drop (length ms) dests) msg').
Proof.
  intros Hrs Hwf Hd H. unfold addressed_to in *. unfold flitisizeMessage in H. rewrite Hd in H. cbn [rbind] in H.
  rewrite getAllDest_filter in Hd by done. injection Hd as <-.
  destruct (getOutportForVnet vnet n) as [[i oPort]|]; [|done].
  set (xs := filter _ _) in *. rewrite length_fmap in *.
  destruct (Z.ltb_spec 1 (Z.of_nat (length xs))).
  - eapply flitisize_loop_multi in H as (ms & Hl & Hok & Hc & Hw & Hf); [|done..]. exists ms.
    split_and!; [done|by apply Hc|intros; by eapply copies_single_dest|].
    intros _. by rewrite getAllDest_filter, Hf, <-fmap_drop.
  - eapply flitisize_loop_single in H as (ms & Hl & Hok & Hc & Hm); [|lia|done|done]. exists ms.
    split_and!; [done|by apply Hc|intros; by eapply copies_single_dest|].
    intros ->. rewrite Hm, getAllDest_filter by done. fold xs. f_equal.
    destruct ms as [|m ms]; [done|]. simpl in Hl. destruct Hok as [_ Hok]. discriminate Hok. simpl. lia.
Qed.

(** An interface with one virtual network and two output VCs, and a message for
    the nodes 1, 2 and 4: two copies are sent, node 4 stays in the message. *)
Definition ex_ni_links : Links :=
  <[0 := new_NetworkLink 0 1 1 [] 16]> (<[1 := new_NetworkLink 1 1 1 [] 16]> ∅).
Definition ex_ni : NetworkInterface :=
  match ni_addOutPort ex_cfg 0 1 0 0 2 (new_NetworkInterface 3 1 100) ex_ni_links with
  | Ok (n, _) => n | Err _ => new_NetworkInterface 3 1 100 end.
Definition ex_world : World :=
  {| w_links := ex_ni_links; w_buffers := ∅; w_messages := ∅; w_next_message := 70; m_next_packet_id := 5;
     m_data_traffic := ∅; m_ctrl_traffic := ∅; w_effects := [] |}.
Definition ex_multicast : Message := with_destination (ex_message 9) (ex_dest 6 1).

Lemma multicast_exactly_once_witness :
  ∃ msg' n' w', flitisizeMessage ex_rs ex_cfg 8 72 (fun d _ => Ok d) ex_clock ex_multicast 0 ex_ni ex_world
                = Ok (false, msg', n', w') ∧
    getAllDest ex_rs (msg_destination msg') = Ok [4] ∧
    ∃ ms, length ms = 2%nat ∧ w_next_message w' = 70 + Z.of_nat (length ms) ∧
      ∀ i m, ms !! i = Some m → w_messages w' !! (70 + Z.of_nat i) = Some m ∧
        ∃ d, [1; 2; 4] !! i = Some d ∧ getAllDest ex_rs (msg_destination m) = Ok [d].
Proof.
  destruct (flitisizeMessage ex_rs ex_cfg 8 72 (fun d _ => Ok d) ex_clock ex_multicast 0 ex_ni ex_world)
    as [[[[ok msg'] n'] w']|] eqn:E; [|by vm_compute in E].
  assert (ok = false ∧ getAllDest ex_rs (msg_destination msg') = Ok [4] ∧ w_next_message w' = 72)
    as (-> & Hd & Hw) by (vm_compute in E; injection E as <- <- <- <-; by vm_compute).
  exists msg', n', w'. split_and!; [done|done|].
  destruct (multicast_exactly_once ex_rs ex_cfg 8 72 (fun d _ => Ok d) ex_clock ex_multicast 0 ex_ni ex_world
    [1; 2; 4] false msg' n' w' ex_rs_ok) as (ms & _ & Hn & Hms & _);
    [apply (ex_dest_wf 6 1); lia|vm_compute; reflexivity|exact E|].
  exists ms. rewrite Hw in Hn |- *. simpl in Hn. split_and!; [lia|lia|exact Hms].
Defined.

(** ** The flits of a packet *)

Definition is_head (f : flit) : bool := bool_decide (m_type f = HEAD_) || bool_decide (m_type f = HEAD_TAIL_).
Definition is_tail (f : flit) : bool := bool_decide (m_type f = TAIL_) || bool_decide (m_type f = HEAD_TAIL_).

Lemma packet_flits_nth pid vc vnet route nf msg size width now delay i f :
  packet_flits pid vc vnet route nf msg size width now delay !! i = Some f →
  Z.of_nat i < nf ∧
  f = set_src_delay (Some delay) (new_flit pid (Z.of_nat i) vc vnet route nf msg size width now).
Proof.
  unfold packet_flits. intros H. apply list_lookup_fmap_Some in H as (z & -> & Hz).
  apply lookup_seqZ in Hz as [-> Hz]. by rewrite Z.add_0_l.
Qed.

Lemma packet_flits_length pid vc vnet route nf msg size width now delay :
  length (packet_flits pid vc vnet route nf msg size width now delay) = Z.to_nat nf.
Proof. unfold packet_flits. by rewrite length_map, length_seqZ. Qed.

(** C20: A packet is well formed on the wire. The copy of a message that
    [flitisizeMessage] sends on output VC [vc] appends to that VC, and to no
    other, exactly the flits 0 to n-1 for n = ceil(size / width), all with one
    fresh packet number and the handle of the message copy; the first flit and
    only it is a head, the last and only it is a tail, and every flit satisfies
    the shape that width conversion relies on; the VC is marked active. *)
Theorem injected_packet_shape rs cfg ctrl_size data_size router_of env vnet oPort nf multi destID vc msg n w
    msg' n' w' b :
  send_copy rs cfg ctrl_size data_size router_of env vnet oPort nf multi destID vc msg n w = Ok (msg', n', w') →
  vec_get (niOutVcs n) vc = Ok b →
  nf = divCeil (MessageSizeType_to_int ctrl_size data_size (msg_size_type msg)) (op_bitWidth oPort) →
  0 < op_bitWidth oPort →
  ∃ fs, niOutVcs n' = <[Z.to_nat vc := with_buffer b (m_buffer b ++ fs)]> (niOutVcs n) ∧
    length fs = Z.to_nat nf ∧ m_next_packet_id w' = m_next_packet_id w + 1 ∧
    (∀ i f, fs !! i = Some f →
       m_id f = Z.of_nat i ∧ m_packet_id f = m_next_packet_id w ∧ m_vc f = vc ∧ m_vnet f = vnet ∧
       m_msg_ptr f = Some (w_next_message w) ∧ dest_ni (m_route f) = destID ∧ data_flit_wf f ∧
       (is_head f = true ↔ i = 0%nat) ∧ (is_tail f = true ↔ Z.of_nat i = nf - 1)) ∧
    ∃ o, vec_get (ni_outVcState n') vc = Ok o ∧ ovc_state o = ACTIVE_.
Proof.
  intros H Hb Hnf Hw.
  apply send_copy_ok in H as (nd & rest & route & _ & _ & _ & _ & Hpid & _ & Hdest & _ & Hvcs & o & Ho & Hos).
  eexists. split; [by apply Hvcs|]. split; [apply packet_flits_length|]. split; [done|]. split.
  - intros i f [Hi ->]%packet_flits_nth. simpl. split_and!; try done.
    + unfold data_flit_wf. simpl. split_and!; [done|done|lia|exact Hnf|lia|done].
    + unfold is_head. simpl. unfold flit_type_of. repeat zcase; split; intros Hx; first [by vm_compute in Hx|lia|done].
    + unfold is_tail. simpl. unfold flit_type_of. repeat zcase; split; intros Hx; first [by vm_compute in Hx|lia|done].
  - pose proof (vec_get_range _ _ _ Ho). rewrite Hos.
    exists (ovc_setState ACTIVE_ (curTick env) o). split; [|done].
    apply vec_get_ok. split; [lia|]. rewrite list_lookup_insert_eq by lia. done.
Qed.

(** A data message of 72 bytes on a 16-byte link is a packet of five flits. *)
Lemma injected_packet_shape_witness :
  ∃ p msg' n' w' fs, getOutportForVnet 0 ex_ni = Some (0%nat, p) ∧
    send_copy ex_rs ex_cfg 8 72 (fun d _ => Ok d) ex_clock 0 p 5 true 1 1
      {| msg_handle := 9; msg_time := 0; m_LastEnqueueTime := 0; m_DelayedTicks := 0; msg_counter := 0;
         msg_destination := ex_dest 6 1; msg_size_type := Data |} ex_ni ex_world = Ok (msg', n', w') ∧
    niOutVcs n' = [new_flitBuffer; with_buffer new_flitBuffer fs] ∧ map m_id fs = [0; 1; 2; 3; 4].
Proof.
  set (msg := {| msg_handle := 9; msg_time := 0; m_LastEnqueueTime := 0; m_DelayedTicks := 0; msg_counter := 0;
         msg_destination := ex_dest 6 1; msg_size_type := Data |}).
  destruct (getOutportForVnet 0 ex_ni) as [[i p]|] eqn:Ep; [|by vm_compute in Ep].
  destruct (send_copy ex_rs ex_cfg 8 72 (fun d _ => Ok d) ex_clock 0 p 5 true 1 1 msg ex_ni ex_world)
    as [[[msg' n'] w']|] eqn:E; [|by vm_compute in Ep; injection Ep as <- <-; vm_compute in E].
  destruct (injected_packet_shape ex_rs ex_cfg 8 72 (fun d _ => Ok d) ex_clock 0 p 5 true 1 1 msg ex_ni ex_world
    msg' n' w' new_flitBuffer E) as (fs & Hfs & Hlen & _ & Hf & _);
    [by vm_compute|by vm_compute in Ep; injection Ep as <- <-|by vm_compute in Ep; injection Ep as <- <-|].
  exists p, msg', n', w', fs. assert (i = 0%nat) as -> by (vm_compute in Ep; by injection Ep as <- _).
  split_and!; [done|done|done|].
  assert (length fs = 5%nat) as H5 by exact Hlen.
  destruct fs as [|f0 [|f1 [|f2 [|f3 [|f4 [|]]]]]]; try discriminate H5. simpl.
  rewrite (proj1 (Hf 0%nat f0 eq_refl)), (proj1 (Hf 1%nat f1 eq_refl)), (proj1 (Hf 2%nat f2 eq_refl)),
    (proj1 (Hf 3%nat f3 eq_refl)), (proj1 (Hf 4%nat f4 eq_refl)). done.
Defined.

(** ** Output VC allocation *)

(** VC [d mod vcs] of the virtual network is free. *)
Definition idle_at (env : ClockEnv) (n : NetworkInterface) (vnet d : Z) : bool :=
  match vec_get (ni_outVcState n) (vnet * ni_vc_per_vnet n + d mod ni_vc_per_vnet n) with
  | Ok o => ovc_isInState IDLE_ (curTick env) o
  | Err _ => false
  end.

(** The per-VC data of virtual network [vnet] exist, with the allocator at [d]
    and the busy counter at [c]. *)
Record vnet_alloc (n : NetworkInterface) (vnet d c : Z) : Prop := {
  va_vnet : 0 ≤ vnet;
  va_vcs : 0 < ni_vc_per_vnet n;
  va_room : (vnet + 1) * ni_vc_per_vnet n ≤ Z.of_nat (length (ni_outVcState n));
  va_alloc : vec_get (m_vc_allocator n) vnet = Ok d;
  va_range : 0 ≤ d < ni_vc_per_vnet n;
  va_busy : vec_get (vc_busy_counter n) vnet = Ok c
}.

Lemma vnet_alloc_step n vnet d c d' alloc :
  vnet_alloc n vnet d c → vec_set (m_vc_allocator n) vnet d' = Ok alloc → 0 ≤ d' < ni_vc_per_vnet n →
  vnet_alloc (with_alloc n alloc (vc_busy_counter n)) vnet d' c.
Proof. intros [] Hs Hd'. split; simpl; try done. by eapply vec_get_set_eq. Qed.

Lemma mod_next d v : 0 ≤ d < v → (if d + 1 =? v then 0 else d + 1) = (d + 1) mod v.
Proof.
  intros Hd. zcase; [|by rewrite Z.mod_small by lia]. replace (d + 1) with v by lia. by rewrite Z.mod_same by lia.
Qed.

Lemma calculateVC_loop_spec env vnet i n d c :
  vnet_alloc n vnet d c →
  (∃ k n', 0 ≤ k < Z.of_nat i ∧ idle_at env n vnet (d + k) = true ∧
     (∀ j, 0 ≤ j < k → idle_at env n vnet (d + j) = false) ∧
     calculateVC_loop env vnet i n
     = Ok (Some (vnet * ni_vc_per_vnet n + (d + k) mod ni_vc_per_vnet n), n') ∧
     vnet_alloc n' vnet ((d + k + 1) mod ni_vc_per_vnet n) 0) ∨
  (∀ j, 0 ≤ j < Z.of_nat i → idle_at env n vnet (d + j) = false) ∧
  (c + 1 ≤ m_deadlock_threshold n →
   ∃ n', calculateVC_loop env vnet i n = Ok (None, n') ∧
         vnet_alloc n' vnet ((d + Z.of_nat i) mod ni_vc_per_vnet n) (c + 1)) ∧
  (m_deadlock_threshold n < c + 1 →
   calculateVC_loop env vnet i n = Err (EPanic "Possible network deadlock")).
Proof.
  revert n d. induction i as [|i IH]; intros n d Hva; pose proof Hva as [Hv0 Hv Hroom Ha Hr Hb];
    cbn [calculateVC_loop].
  - right. split; [lia|]. rewrite Hb. cbn [rbind]. pose proof (vec_get_range _ _ _ Hb).
    rewrite vec_set_in_range by done. cbn [rbind]. split; intros Ht.
    + rewrite (proj2 (Z.ltb_ge _ _)) by lia. eexists. split; [done|]. rewrite Z.add_0_r, Z.mod_small by done.
      split; simpl; try done. apply vec_get_ok. split; [lia|]. apply list_lookup_insert_eq. lia.
    + by rewrite (proj2 (Z.ltb_lt _ _)) by lia.
  - rewrite Ha. cbn [rbind]. rewrite mod_next by done. pose proof (vec_get_range _ _ _ Ha).
    assert (0 ≤ (d + 1) mod ni_vc_per_vnet n < ni_vc_per_vnet n) as Hr' by (apply Z.mod_pos_bound; lia).
    destruct (vec_set (m_vc_allocator n) vnet ((d + 1) mod ni_vc_per_vnet n)) as [alloc|] eqn:Es;
      [|by rewrite vec_set_in_range in Es]. cbn [rbind].
    pose proof (vnet_alloc_step n vnet d c _ alloc Hva Es Hr') as Hva'.
    set (n1 := with_alloc n alloc (vc_busy_counter n)) in *.
    change (ni_vc_per_vnet n1) with (ni_vc_per_vnet n). change (ni_outVcState n1) with (ni_outVcState n).
    destruct (vec_get_in_range (ni_outVcState n) (vnet * ni_vc_per_vnet n + d)) as [o Ho]; [nia|].
    rewrite Ho. cbn [rbind].
    assert (idle_at env n vnet (d + 0) = ovc_isInState IDLE_ (curTick env) o) as Hd0.
    { unfold idle_at. rewrite Z.add_0_r, Z.mod_small by done. by rewrite Ho. }
    destruct (ovc_isInState IDLE_ (curTick env) o) eqn:Eo.
    + left. change (vc_busy_counter n1) with (vc_busy_counter n). pose proof (vec_get_range _ _ _ Hb).
      rewrite vec_set_in_range by done. cbn [rbind]. eexists 0, _. rewrite Z.add_0_r, Z.mod_small by done.
      rewrite Z.add_0_r in Hd0. split_and!; [lia|lia|done|lia|done|].
      destruct Hva'. split; simpl in *; try done. apply vec_get_ok. split; [lia|]. apply list_lookup_insert_eq. lia.
    + assert (∀ j, 0 ≤ j → idle_at env n1 vnet ((d + 1) mod ni_vc_per_vnet n + j) = idle_at env n vnet (d + (j + 1))) as Hshift.
      { intros j Hj. unfold idle_at. change (ni_vc_per_vnet n1) with (ni_vc_per_vnet n).
        change (ni_outVcState n1) with (ni_outVcState n). rewrite Zplus_mod_idemp_l.
        by replace (d + (j + 1)) with (d + 1 + j) by lia. }
      assert (∀ k, ((d + 1) mod ni_vc_per_vnet n + k) mod ni_vc_per_vnet n = (d + (k + 1)) mod ni_vc_per_vnet n) as Hmod.
      { intros k. rewrite Zplus_mod_idemp_l. f_equal. lia. }
      destruct (IH n1 _ Hva') as [(k & n' & Hk & Hid & Hbef & Hrun & Hva2)|(Hbusy & Hnone & Hpanic)].
      * left. exists (k + 1), n'. rewrite Hshift in Hid by lia.
        change (ni_vc_per_vnet n1) with (ni_vc_per_vnet n) in *. rewrite Hmod in Hrun.
        split_and!; [lia|lia|done| |done|].
        -- intros j Hj. destruct (decide (j = 0)) as [->|]; [done|].
           replace j with (j - 1 + 1) by lia. rewrite <-Hshift by lia. apply Hbef. lia.
        -- rewrite <-Z.add_assoc, Hmod in Hva2. by rewrite <-Z.add_assoc.
      * right. change (ni_vc_per_vnet n1) with (ni_vc_per_vnet n) in *.
        change (m_deadlock_threshold n1) with (m_deadlock_threshold n) in *. split_and!; [|..|done].
        -- intros j Hj. destruct (decide (j = 0)) as [->|]; [done|].
           replace j with (j - 1 + 1) by lia. rewrite <-Hshift by lia. apply Hbusy. lia.
        -- intros Ht. destruct (Hnone Ht) as (n' & Hrun & Hva2). exists n'. split; [done|].
           rewrite Hmod in Hva2. by replace (Z.of_nat (S i)) with (Z.of_nat i + 1) by lia.
Qed.

(** C28: Output VC allocation is a fair round robin with deadlock detection. From
    any allocator position, [calculateVC] returns the first idle VC of the
    virtual network in cyclic order, moves the allocator just behind it and
    clears the busy counter; if all VCs are busy it leaves the allocator where
    it was, counts one more failure and returns -1, and it panics exactly when
    the count passes the deadlock threshold. *)
Theorem calculateVC_round_robin env vnet n d c :
  vnet_alloc n vnet d c →
  (∃ k n', 0 ≤ k < ni_vc_per_vnet n ∧ idle_at env n vnet (d + k) = true ∧
     (∀ j, 0 ≤ j < k → idle_at env n vnet (d + j) = false) ∧
     calculateVC env vnet n = Ok (Some (vnet * ni_vc_per_vnet n + (d + k) mod ni_vc_per_vnet n), n') ∧
     vnet_alloc n' vnet ((d + k + 1) mod ni_vc_per_vnet n) 0) ∨
  (∀ j, 0 ≤ j < ni_vc_per_vnet n → idle_at env n vnet (d + j) = false) ∧
  (c + 1 ≤ m_deadlock_threshold n →
   ∃ n', calculateVC env vnet n = Ok (None, n') ∧ vnet_alloc n' vnet d (c + 1)) ∧
  (m_deadlock_threshold n < c + 1 →
   calculateVC env vnet n = Err (EPanic "Possible network deadlock")).
Proof.
  intros Hva. pose proof (va_vcs _ _ _ _ Hva). pose proof (va_range _ _ _ _ Hva) as Hr.
  pose proof (calculateVC_loop_spec env vnet (Z.to_nat (ni_vc_per_vnet n)) n d c Hva) as H1.
  rewrite Z2Nat.id in H1 by lia. unfold calculateVC.
  replace ((d + ni_vc_per_vnet n) mod ni_vc_per_vnet n) with d in H1; [exact H1|].
  rewrite <-(Z.mul_1_l (ni_vc_per_vnet n)) at 1. rewrite Z.mod_add by lia. by rewrite Z.mod_small.
Qed.

Lemma calculateVC_round_robin_witness :
  vnet_alloc ex_ni 0 0 0 ∧
  ∃ n', calculateVC ex_clock 0 ex_ni = Ok (Some 0, n') ∧ vnet_alloc n' 0 1 0.
Proof.
  assert (vnet_alloc ex_ni 0 0 0) as Hva by (split; by vm_compute). split; [done|].
  destruct (calculateVC_round_robin ex_clock 0 ex_ni 0 0 Hva) as [(k & n' & Hk & Hi & Hb & Hr & Ha)|(Hb & _)].
  - destruct (decide (k = 0)) as [->|Hk0]; [by exists n'|].
    specialize (Hb 0 ltac:(lia)). by vm_compute in Hb.
  - specialize (Hb 0 ltac:(by vm_compute)). by vm_compute in Hb.
Defined.
