(* ===== verification/Ejection.v ===== *)
(** * Ejection of packets from the network

    Properties of the receiving side of NetworkInterface.cc. A tail flit that
    finds no room in its protocol buffer waits in the stall queue of its port;
    the interface is woken by a callback on that buffer. The invariant below
    says that the callback is always there when it is needed. *)

From S2P Require Import Prelude IntMath Clocked Consumer MessageBuffer NetDest Flit RoutingUnit.
From S2P Require Import VirtualChannel NetworkLink InputUnit OutputUnit SwitchAllocator Router NetworkInterface.

(** Stalled flits of virtual network [v]. *)
Definition of_vnet (v : Z) (q : list flit) : Z := Z.of_nat (length (filter (fun f => m_vnet f = v) q)).
Definition stalled (v : Z) (ps : list InputPort) : Z := lsum (fun p => of_vnet v (m_stall_queue p)) ps.

Lemma of_vnet_app v q1 q2 : of_vnet v (q1 ++ q2) = of_vnet v q1 + of_vnet v q2.
Proof. unfold of_vnet. rewrite filter_app, length_app. lia. Qed.

Lemma of_vnet_one v f : of_vnet v [f] = if decide (m_vnet f = v) then 1 else 0.
Proof. unfold of_vnet. rewrite filter_cons. by case_decide. Qed.

Lemma of_vnet_cons v f q : of_vnet v (f :: q) = (if decide (m_vnet f = v) then 1 else 0) + of_vnet v q.
Proof. rewrite <-of_vnet_one. apply (of_vnet_app v [f] q). Qed.

(** Whether a callback is registered on a buffer. *)
Definition callback_of (w : World) (h : Z) : option bool := m_dequeue_callback <$> w_buffers w !! h.

Record stall_ok (n : NetworkInterface) (w : World) : Prop := {
  so_count : ∀ v c, vec_get (ni_stall_count n) v = Ok c → c = stalled v (inPorts n);
  so_callback : ∀ v c h cb, vec_get (ni_stall_count n) v = Ok c → 0 < c →
    vec_get (outNode_ptr n) v = Ok (Some h) → callback_of w h = Some cb → cb = true;
  so_distinct : ∀ v v' h, vec_get (outNode_ptr n) v = Ok (Some h) →
    vec_get (outNode_ptr n) v' = Ok (Some h) → v = v'
}.

(** Only the stall queues, their counters and the callbacks matter. *)
Lemma stall_ok_frame n w n' w' :
  stall_ok n w →
  (∀ v, stalled v (inPorts n') = stalled v (inPorts n)) → ni_stall_count n' = ni_stall_count n →
  outNode_ptr n' = outNode_ptr n →
  (∀ v h, vec_get (outNode_ptr n) v = Ok (Some h) → callback_of w' h = callback_of w h) →
  stall_ok n' w'.
Proof.
  intros [Hc Hcb Hd] E1 E2 E3 E4. split; rewrite ?E2, ?E3; [|..|done].
  - intros v c Hv. rewrite E1. by apply Hc.
  - intros v c h cb Hv Hpos Hh. rewrite (E4 v h Hh). by eapply Hcb.
Qed.

(** ** Buffers keep their callback *)

Lemma callback_set_same h b b' w h' :
  w_buffers w !! h = Some b → m_dequeue_callback b' = m_dequeue_callback b →
  callback_of (set_buffer h b' w) h' = callback_of w h'.
Proof.
  intros Hb Hcb. unfold callback_of. simpl. destruct (decide (h = h')) as [->|].
  - rewrite lookup_insert_eq, Hb. simpl. by rewrite Hcb.
  - by rewrite lookup_insert_ne.
Qed.

Lemma callback_set_new h b w h' :
  callback_of (set_buffer h b w) h' = if decide (h = h') then Some (m_dequeue_callback b) else callback_of w h'.
Proof.
  unfold callback_of. simpl. case_decide as E; [subst; by rewrite lookup_insert_eq|by rewrite lookup_insert_ne].
Qed.

Lemma get_buffer_ok h w b : get_buffer h w = Ok b ↔ w_buffers w !! h = Some b.
Proof. unfold get_buffer. destruct (w_buffers w !! h); naive_solver. Qed.

Lemma node_ptr_ok v i h : node_ptr v i = Ok h ↔ vec_get v i = Ok (Some h).
Proof. unfold node_ptr. destruct (vec_get v i) as [[h'|]|]; simpl; naive_solver. Qed.

Lemma slot_for_callbacks env vnet n w ok w' :
  slot_for env vnet n w = Ok (ok, w') → ∀ h, callback_of w' h = callback_of w h.
Proof.
  unfold slot_for. intros H h'. apply rbind_ok in H as (h & _ & H). apply rbind_ok in H as (b & Hb & H).
  apply get_buffer_ok in Hb.
  destruct (MessageBuffer.areNSlotsAvailable 1 (clockEdge env 0) b) as [ok' b'] eqn:E. injection H as <- <-.
  apply callback_set_same with b; [done|]. unfold areNSlotsAvailable in E.
  destruct (m_max_size b =? 0); [by simplify_eq|]. by destruct (_ <=? _) in E; simplify_eq.
Qed.

Lemma deliver_callbacks rnd warm rt env f n w w' :
  deliver rnd warm rt env f n w = Ok w' → ∀ h, callback_of w' h = callback_of w h.
Proof.
  unfold deliver. intros H h'. apply rbind_ok in H as (h & _ & H). apply rbind_ok in H as (b & Hb & H).
  apply rbind_ok in H as (mh & _ & H). apply rbind_ok in H as (m & _ & H).
  apply rbind_ok in H as ([b' a] & He & H). injection H as <-. apply get_buffer_ok in Hb.
  change (callback_of (set_buffer h b' w) h' = callback_of w h'). apply callback_set_same with b; [done|].
  by apply enqueue_ok in He as (_ & _ & _ & -> & _).
Qed.

(** ** The stall queues *)

Section stalls.
Context (rnd warm : bool) (rt : Z → Z).

(** Either nothing was ready, or one stalled flit left the queue. *)
Lemma unstall_cases env p checked rest n w p' n' w' :
  unstall rnd warm rt env p checked rest n w = Ok (p', n', w') →
  inPorts n' = inPorts n ∧ outNode_ptr n' = outNode_ptr n ∧ inNode_ptr n' = inNode_ptr n ∧
  ((p' = p ∧ ni_stall_count n' = ni_stall_count n ∧ ∀ h, callback_of w' h = callback_of w h) ∨
   ∃ f l1 l2 c h, checked ++ rest = l1 ++ f :: l2 ∧ m_stall_queue p' = l1 ++ l2 ∧
     vec_get (ni_stall_count n) (m_vnet f) = Ok c ∧
     vec_set (ni_stall_count n) (m_vnet f) (c - 1) = Ok (ni_stall_count n') ∧
     (c - 1 ≠ 0 ∧ (∀ h, callback_of w' h = callback_of w h) ∨
      c - 1 = 0 ∧ vec_get (outNode_ptr n) (m_vnet f) = Ok (Some h) ∧
        ∀ h', h' ≠ h → callback_of w' h' = callback_of w h')).
Proof.
  revert checked n w. induction rest as [|f rest IH]; intros checked n w H; cbn [unstall] in H.
  { injection H as <- <- <-. split_and!; [done..|]. by left. }
  apply rbind_ok in H as ([room w1] & Hslot & H). pose proof (slot_for_callbacks _ _ _ _ _ _ Hslot) as Hcb1.
  destruct room.
  - apply rbind_ok in H as (w2 & Hdel & H). pose proof (deliver_callbacks _ _ _ _ _ _ _ _ Hdel) as Hcb2.
    apply rbind_ok in H as (st & _ & H). apply rbind_ok in H as (c & Hc & H).
    apply rbind_ok in H as (sts & Hs & H). apply rbind_ok in H as (w3 & Hw3 & H).
    injection H as <- <- <-. split_and!; [done..|]. right. simpl in Hc, Hs, Hw3.
    destruct (Z.eqb_spec (c - 1) 0) as [Hz|Hz].
    + apply rbind_ok in Hw3 as (h & Hh & Hw3). apply rbind_ok in Hw3 as (b & Hb & Hw3). injection Hw3 as <-.
      exists f, checked, rest, c, h. split_and!; [done..|]. right. split_and!; [done|by apply node_ptr_ok|].
      intros h' Hne. rewrite callback_set_new, decide_False by done. by rewrite Hcb2, Hcb1.
    + injection Hw3 as <-. exists f, checked, rest, c, 0. split_and!; [done..|]. left. split; [done|].
      intros h. by rewrite Hcb2, Hcb1.
  - apply IH in H as (E1 & E2 & E3 & H). split_and!; [done..|].
    destruct H as [(-> & Hst & Hcb)|(g & l1 & l2 & c & h & Hl & Hq & Hc & Hs & Hcase)].
    + left. split_and!; [done..|]. intros h. by rewrite Hcb, Hcb1.
    + right. exists g, l1, l2, c, h. rewrite <-app_assoc in Hl. split_and!; [done..|].
      destruct Hcase as [[? Hcb]|(? & ? & Hcb)]; [left; split; [done|]; intros h'; by rewrite Hcb, Hcb1|].
      right. split_and!; [done..|]. intros h' ?. by rewrite Hcb, Hcb1.
Qed.

Lemma stalled_insert v ps i p p' :
  ps !! i = Some p →
  stalled v (<[i := p']> ps) = stalled v ps - of_vnet v (m_stall_queue p) + of_vnet v (m_stall_queue p').
Proof.
  intros Hp. unfold stalled.
  assert (vec_get ps (Z.of_nat i) = Ok p) as Hg by (apply vec_get_ok; rewrite Nat2Z.id; split; [lia|done]).
  pose proof (vec_get_range _ _ _ Hg).
  eapply (lsum_vec_set (fun p => of_vnet v (m_stall_queue p)) _ (Z.of_nat i)); [exact Hg|].
  rewrite vec_set_in_range by done. by rewrite Nat2Z.id.
Qed.

(** The counter of one virtual network and the queues change together. *)
Lemma stall_ok_count n w n' w' v0 c0 k :
  stall_ok n w → vec_get (ni_stall_count n) v0 = Ok c0 →
  vec_set (ni_stall_count n) v0 (c0 + k) = Ok (ni_stall_count n') → outNode_ptr n' = outNode_ptr n →
  (∀ v, stalled v (inPorts n') = stalled v (inPorts n) + if decide (v0 = v) then k else 0) →
  (∀ v h cb, v ≠ v0 → vec_get (outNode_ptr n) v = Ok (Some h) → callback_of w' h = Some cb → callback_of w h = Some cb) →
  (∀ h cb, 0 < c0 + k → vec_get (outNode_ptr n) v0 = Ok (Some h) → callback_of w' h = Some cb → cb = true) →
  stall_ok n' w'.
Proof.
  intros [Hc Hcb Hd] Hc0 Hset Eo Hst Hother Hv0. split; rewrite ?Eo; [|..|done].
  - intros v c Hv. rewrite Hst. case_decide as E.
    + subst v. rewrite (vec_get_set_eq _ _ _ _ Hset) in Hv. injection Hv as <-. by rewrite (Hc v0 c0 Hc0).
    + rewrite (vec_get_set_ne _ _ _ _ _ Hset E) in Hv. rewrite (Hc v c Hv). lia.
  - intros v c h cb Hv Hpos Hh Hcbw. destruct (decide (v = v0)) as [->|E].
    + rewrite (vec_get_set_eq _ _ _ _ Hset) in Hv. injection Hv as <-. by eapply Hv0.
    + rewrite (vec_get_set_ne _ _ _ _ _ Hset) in Hv by done. eapply Hcb; [done|done|done|]. by eapply Hother.
Qed.

Lemma check_stall_port_ok env i n w n' w' :
  stall_ok n w → check_stall_port rnd warm rt env i (n, w) = Ok (n', w') →
  stall_ok n' w' ∧ outNode_ptr n' = outNode_ptr n ∧ inNode_ptr n' = inNode_ptr n.
Proof.
  intros Hok H. unfold check_stall_port in H. destruct (inPorts n !! i) as [p|] eqn:Hp; [|done].
  apply rbind_ok in H as ([[p1 n1] w1] & H & Heq). injection Heq as <- <-.
  apply unstall_cases in H as (Ein & Eout & Enode & Hcase). split_and!; [|done|done].
  destruct Hcase as [(-> & Hst & Hcb)|(f & l1 & l2 & c & h & Hl & Hq & Hc & Hs & Hcase)].
  - eapply stall_ok_frame; [done| |done|done|by intros]. intros v. simpl. rewrite Ein.
    rewrite (stalled_insert v _ _ p) by done. simpl. lia.
  - replace (c - 1) with (c + -1) in Hs by lia. eapply stall_ok_count; [done|exact Hc|exact Hs|done|..].
    + intros v. simpl. rewrite Ein, (stalled_insert v _ _ p) by done. simpl in Hl.
      rewrite Hl, Hq, !of_vnet_app, of_vnet_cons. case_decide; lia.
    + intros v h' cb Hne Hh'. destruct Hcase as [[_ Hcb]|(_ & Hh & Hcb)]; [by rewrite Hcb|].
      rewrite Hcb; [done|]. intros ->. by apply Hne, (so_distinct _ _ Hok v (m_vnet f) h).
    + intros h' cb Hpos Hh'. destruct Hcase as [[_ Hcb]|(Hz & _)]; [|lia].
      rewrite Hcb. eapply (so_callback _ _ Hok); [exact Hc|lia|done].
Qed.

Lemma receive_flit_ok env f i p n w p' n' w' :
  stall_ok n w → inPorts n !! i = Some p →
  receive_flit rnd warm rt env f p n w = Ok (p', n', w') →
  stall_ok (with_inPorts n' (<[i := p']> (inPorts n')) (ni_stall_count n')) w' ∧
  outNode_ptr n' = outNode_ptr n ∧ inNode_ptr n' = inNode_ptr n.
Proof.
  intros Hok Hp H. unfold receive_flit in H. apply rbind_ok in H as (_ & _ & H).
  set (f' := set_dequeue_time (curTick env) f) in *.
  destruct (bool_decide (m_type f' = TAIL_) || bool_decide (m_type f' = HEAD_TAIL_)).
  2:{ apply rbind_ok in H as (st & _ & H). injection H as <- <- <-. split_and!; [|done..].
      eapply stall_ok_frame; [done| |done|done|done]. intros v. simpl.
      rewrite (stalled_insert v _ _ p) by done. simpl. lia. }
  apply rbind_ok in H as (enq & _ & H). apply rbind_ok in H as ([room w1] & Hroom & H).
  assert (∀ h, callback_of w1 h = callback_of w h) as Hcb1.
  { destruct enq; [by injection Hroom as <- <-|by eapply slot_for_callbacks]. }
  destruct room.
  - apply rbind_ok in H as (w2 & Hdel & H). pose proof (deliver_callbacks _ _ _ _ _ _ _ _ Hdel) as Hcb2.
    apply rbind_ok in H as (st & _ & H). injection H as <- <- <-. split_and!; [|done..].
    eapply stall_ok_frame; [done| |done|done|intros v h _; by rewrite Hcb2, Hcb1]. intros v. simpl.
    rewrite (stalled_insert v _ _ p) by done. simpl. lia.
  - apply rbind_ok in H as (sts & Hs & H). apply rbind_ok in H as (h & Hh & H).
    apply rbind_ok in H as (b & Hb & H). injection H as <- <- <-. split_and!; [|done..].
    apply node_ptr_ok in Hh. apply vec_upd_ok in Hs as (c & c' & Hc & [= <-] & ->).
    eapply (stall_ok_count n w _ _ (m_vnet f) c 1); [done|exact Hc|..].
    + simpl. by rewrite vec_set_in_range by (by eapply vec_get_range).
    + done.
    + intros v. simpl. rewrite (stalled_insert v _ _ p) by done. simpl. rewrite of_vnet_app, of_vnet_one. simpl. lia.
    + intros v h' cb Hne Hh' Hcb. rewrite callback_set_new in Hcb. case_decide as E; [|by rewrite <-Hcb1].
      subst h'. exfalso. apply Hne. by apply (so_distinct _ _ Hok v (m_vnet f) h).
    + intros h' cb _ Hh' Hcb. simpl in Hh. rewrite Hh in Hh'. injection Hh' as <-.
      rewrite callback_set_new, decide_True in Hcb by done. by injection Hcb as <-.
Qed.

Lemma receive_port_ok env i n w n' w' :
  stall_ok n w → receive_port rnd warm rt env i (n, w) = Ok (n', w') →
  stall_ok n' w' ∧ outNode_ptr n' = outNode_ptr n ∧ inNode_ptr n' = inNode_ptr n.
Proof.
  intros Hok H. unfold receive_port in H. destruct (inPorts n !! i) as [p|] eqn:Hp; [|done].
  apply rbind_ok in H as (l & _ & H). destruct (link_isReady (curTick env) l); [|by injection H as <- <-].
  apply rbind_ok in H as ([f l'] & _ & H). apply rbind_ok in H as ([[p1 n1] w1] & H & Heq).
  injection Heq as <- <-. eapply receive_flit_ok in H as (Hok' & Eo & Ei); [..|exact Hp].
  - by split_and!.
  - by eapply stall_ok_frame.
Qed.

End stalls.

(** ** The rest of the wakeup leaves the stall queues alone *)

Record quiet (n n' : NetworkInterface) : Prop := {
  q_in : inPorts n' = inPorts n;
  q_count : ni_stall_count n' = ni_stall_count n;
  q_out : outNode_ptr n' = outNode_ptr n;
  q_node : inNode_ptr n' = inNode_ptr n
}.

#[export] Instance quiet_refl : Reflexive quiet.
Proof. by split. Qed.
#[export] Instance quiet_trans : Transitive quiet.
Proof. intros a b c [] []. split; congruence. Qed.
#[export] Hint Extern 0 (quiet _ _) => split; reflexivity : garnet.

Lemma stall_ok_quiet n w n' w' :
  stall_ok n w → quiet n n' → (∀ h, callback_of w' h = callback_of w h) → stall_ok n' w'.
Proof. intros Hok [E1 E2 E3 _] Hcb. eapply stall_ok_frame; [done|by rewrite E1|done|done|done]. Qed.

Lemma calculateVC_quiet env vnet n vc n' : calculateVC env vnet n = Ok (vc, n') → quiet n n'.
Proof.
  unfold calculateVC. generalize (Z.to_nat (ni_vc_per_vnet n)) as i. intros i. revert n.
  induction i as [|i IH]; intros n H; cbn [calculateVC_loop] in H.
  - apply rbind_ok in H as (c & _ & H). apply rbind_ok in H as (busy & _ & H).
    destruct (m_deadlock_threshold n <? c + 1); [done|]. injection H as <- <-. auto with garnet.
  - apply rbind_ok in H as (d & _ & H). apply rbind_ok in H as (al & _ & H).
    apply rbind_ok in H as (o & _ & H). destruct (ovc_isInState IDLE_ (curTick env) o).
    + apply rbind_ok in H as (busy & _ & H). injection H as <- <-. auto with garnet.
    + apply IH in H. by etrans; [|exact H].
Qed.

Lemma send_copy_quiet rs cfg cs ds ro env vnet p nf multi d vc msg n w msg' n' w' :
  send_copy rs cfg cs ds ro env vnet p nf multi d vc msg n w = Ok (msg', n', w') →
  quiet n n' ∧ w_buffers w' = w_buffers w.
Proof.
  unfold send_copy. intros H. apply rbind_ok in H as ([? ?] & _ & H). apply rbind_ok in H as (? & _ & H).
  apply rbind_ok in H as (? & _ & H). apply rbind_ok in H as (w1 & Hw & H). apply rbind_ok in H as (? & _ & H).
  apply rbind_ok in H as (? & _ & H). apply rbind_ok in H as (? & _ & H). apply rbind_ok in H as (? & _ & H).
  injection H as <- <- <-. split; [by split|]. unfold update_traffic_distribution in Hw.
  apply rbind_ok in Hw as (? & _ & Hw). by injection Hw as <-.
Qed.

Lemma flitisize_quiet rs cfg cs ds ro env msg vnet n w ok msg' n' w' :
  flitisizeMessage rs cfg cs ds ro env msg vnet n w = Ok (ok, msg', n', w') →
  quiet n n' ∧ w_buffers w' = w_buffers w.
Proof.
  unfold flitisizeMessage. intros H. apply rbind_ok in H as (dests & _ & H).
  destruct (getOutportForVnet vnet n) as [[i p]|]; [|done]. revert H.
  generalize (1 <? Z.of_nat (length dests)) as multi. generalize (divCeil (MessageSizeType_to_int cs ds (msg_size_type msg)) (op_bitWidth p)) as nf.
  intros nf multi. revert msg n w. induction dests as [|d dests IH]; intros msg n w H; cbn [flitisize_loop] in H.
  { by injection H as <- <- <- <-. }
  apply rbind_ok in H as ([[vc|] n1] & Hvc & H); apply calculateVC_quiet in Hvc; [|by injection H as <- <- <- <-].
  apply rbind_ok in H as ([[m1 n2] w1] & Hs & H). apply send_copy_quiet in Hs as [Hq Hw].
  apply IH in H as [Hq' Hw']. split; [by etrans; [|etrans]|congruence].
Qed.

Lemma scheduleFlit_quiet env f n w n' w' :
  scheduleFlit env f n w = Ok (n', w') → quiet n n' ∧ w_buffers w' = w_buffers w.
Proof.
  unfold scheduleFlit. intros H. apply rbind_ok in H as (r & _ & H).
  destruct (getOutportForVnet (m_vnet f) n) as [[i p]|]; [|done]. injection H as <- <-. split; [by split|done].
Qed.

Lemma send_from_vc_quiet env port p vc n w n' w' :
  send_from_vc env port p vc n w = Ok (n', w') → quiet n n' ∧ w_buffers w' = w_buffers w.
Proof.
  unfold send_from_vc. intros H. apply rbind_ok in H as (? & _ & H). apply rbind_ok in H as (? & _ & H).
  apply rbind_ok in H as ([f b] & _ & H). apply rbind_ok in H as (? & _ & H).
  apply rbind_ok in H as ([n1 w1] & Hs & H). apply scheduleFlit_quiet in Hs as [Hq Hw].
  destruct (bool_decide _ || bool_decide _) in H.
  - apply rbind_ok in H as (? & _ & H). injection H as <- <-. split; [|done].
    destruct Hq. by split.
  - injection H as <- <-. split; [|done]. destruct Hq. by split.
Qed.

Lemma scheduleOutputPort_quiet cfg env port n w n' w' :
  scheduleOutputPort cfg env port (n, w) = Ok (n', w') → quiet n n' ∧ w_buffers w' = w_buffers w.
Proof.
  unfold scheduleOutputPort. destruct (outPorts n !! port) as [p|]; [|done].
  generalize (length (niOutVcs n)) as i, (vcRoundRobin p) as vc. intros i.
  induction i as [|i IH]; intros vc H; cbn [schedule_loop] in H; [by injection H as <- <-|].
  apply rbind_ok in H as (tv & _ & H). destruct (isVnetSupported (op_vnets p) tv); [|by eapply IH].
  apply rbind_ok in H as (b & _ & H). apply rbind_ok in H as (o & _ & H).
  destruct (isReady (curTick env) b && ovc_has_credit o); [|by eapply IH].
  apply rbind_ok in H as (cand & _ & H). destruct cand; [by eapply send_from_vc_quiet|by eapply IH].
Qed.

Lemma credit_port_quiet env i n w n' w' :
  credit_port env i (n, w) = Ok (n', w') → quiet n n' ∧ w_buffers w' = w_buffers w.
Proof.
  unfold credit_port. destruct (outPorts n !! i) as [p|]; [|done]. intros H.
  apply rbind_ok in H as (l & _ & H). destruct (link_isReady (curTick env) l); [|by injection H as <- <-].
  apply rbind_ok in H as ([c l'] & _ & H). apply rbind_ok in H as (? & _ & H).
  apply rbind_ok in H as (? & _ & H). apply rbind_ok in H as (? & _ & H). injection H as <- <-.
  split; [by split|done].
Qed.

Lemma node_isReady_quiet env h n w ok n' : node_isReady env h n w = Ok (ok, n') → quiet n n'.
Proof.
  unfold node_isReady. intros H. apply rbind_ok in H as (b & _ & H). apply rbind_ok in H as ([r s] & _ & H).
  destruct s; [|by injection H as <- <-]. apply rbind_ok in H as (k & _ & H). injection H as <- <-. by split.
Qed.

Lemma checkReschedule_quiet env n w n' : checkReschedule env n w = Ok n' → quiet n n'.
Proof.
  unfold checkReschedule. intros H. apply rbind_ok in H as ([msgs n1] & Hm & H).
  assert (quiet n n1) as Hq.
  { revert Hm. generalize (inNode_ptr n) as l. intros l. clear H. revert n. induction l as [|[h|] l IH]; intros n Hm; simpl in Hm.
    - by injection Hm as <- <-.
    - apply rbind_ok in Hm as ([r n2] & Hr & Hm). apply node_isReady_quiet in Hr.
      destruct r; [by injection Hm as <- <-|]. etrans; [done|]. by apply IH.
    - by apply IH. }
  assert (∀ n2, (let* k := scheduleEvent env 1 (ni_consumer n1) in Ok (with_niconsumer n1 k)) = Ok n2 → quiet n n2) as Hagain.
  { intros n2 H2. apply rbind_ok in H2 as (k & _ & H2). injection H2 as <-. destruct Hq. by split. }
  destruct msgs; [by apply Hagain|]. destruct (existsb _ _); [by apply Hagain|].
  apply rbind_ok in H as (fl & _ & H). destruct fl; [by apply Hagain|].
  apply rbind_ok in H as (cr & _ & H). destruct cr; [by apply Hagain|]. by injection H as <-.
Qed.

(** The buffers of the two directions are different objects. *)
Definition nodes_disjoint (n : NetworkInterface) : Prop :=
  ∀ v v' h, vec_get (inNode_ptr n) v = Ok (Some h) → vec_get (outNode_ptr n) v' ≠ Ok (Some h).

Lemma inject_vnet_ok rs cfg cs ds ro env v n w n' w' :
  stall_ok n w → nodes_disjoint n →
  inject_vnet rs cfg cs ds ro env v (n, w) = Ok (n', w') → stall_ok n' w' ∧ quiet n n'.
Proof.
  intros Hok Hdis H. unfold inject_vnet in H. apply rbind_ok in H as ([h|] & Hp & H); [|by injection H as <- <-].
  apply rbind_ok in H as ([r n1] & Hr & H). apply node_isReady_quiet in Hr.
  assert (∀ n2 w2 b, quiet n n2 → w_buffers w2 = w_buffers w → stall_ok n2 (set_buffer h b w2)) as Hset.
  { intros n2 w2 b [E1 E2 E3 E4] Hw. eapply stall_ok_frame; [exact Hok|by rewrite E1|done|done|].
    intros v' h' Hh'. unfold callback_of. simpl. rewrite Hw.
    rewrite lookup_insert_ne; [done|]. intros ->. by apply (Hdis v v' h'). }
  destruct r.
  2:{ injection H as <- <-. split; [|done]. by eapply stall_ok_quiet. }
  apply rbind_ok in H as (b & _ & H). apply rbind_ok in H as (msg & _ & H).
  apply rbind_ok in H as ([[[ok msg'] n2] w2] & Hf & H). apply flitisize_quiet in Hf as [Hq Hw].
  assert (quiet n n2) by (by etrans).
  destruct ok.
  - apply rbind_ok in H as ([[[m d] cb] b'] & _ & H). injection H as <- <-. split; [|done].
    specialize (Hset n2 w2 b' ltac:(done) Hw). destruct cb; [|done].
    by eapply stall_ok_quiet; [exact Hset|reflexivity|].
  - injection H as <- <-. split; [|done]. by apply Hset.
Qed.

Lemma nodes_disjoint_same n n' :
  nodes_disjoint n → outNode_ptr n' = outNode_ptr n → inNode_ptr n' = inNode_ptr n → nodes_disjoint n'.
Proof. unfold nodes_disjoint. by intros ? -> ->. Qed.

(** The invariant of an interface and the buffers it uses. *)
Definition ni_ok (s : NetworkInterface * World) : Prop := stall_ok (fst s) (snd s) ∧ nodes_disjoint (fst s).

Lemma ni_ok_quiet n w n' w' : ni_ok (n, w) → quiet n n' → w_buffers w' = w_buffers w → ni_ok (n', w').
Proof.
  intros [Hok Hdis] Hq Hw. split.
  - eapply stall_ok_quiet; [exact Hok|done|]. intros h. unfold callback_of. simpl. by rewrite Hw.
  - by eapply nodes_disjoint_same; [exact Hdis|apply Hq|apply Hq].
Qed.

Lemma schedule_credit_links_buffers env n w : w_buffers (schedule_credit_links env n w) = w_buffers w.
Proof.
  unfold schedule_credit_links. generalize (inPorts n). intros l. revert w.
  induction l as [|p l IH]; intros w; simpl; [done|]. rewrite IH. by destruct (0 <? _).
Qed.

Lemma ni_wakeup_ok rs cfg cs ds ro rnd warm rt env n w n' w' :
  ni_ok (n, w) → ni_wakeup rs cfg cs ds ro rnd warm rt env n w = Ok (n', w') → ni_ok (n', w').
Proof.
  intros Hok H. unfold ni_wakeup in H. apply rbind_ok in H as (_ & _ & H). apply rbind_ok in H as (_ & _ & H).
  apply rbind_ok in H as ([n1 w1] & H1 & H). apply rbind_ok in H as ([n2 w2] & H2 & H).
  apply rbind_ok in H as ([n3 w3] & H3 & H). apply rbind_ok in H as ([n4 w4] & H4 & H).
  apply rbind_ok in H as ([n5 w5] & H5 & H). apply rbind_ok in H as (n6 & H6 & H). injection H as <- <-.
  assert (ni_ok (n1, w1)) as Hok1.
  { eapply (for_range_inv (fun _ => ni_ok)) in H1; [exact H1|done|]. intros i [m u] [m' u'] _ [Ho Hd] Hi.
    eapply inject_vnet_ok in Hi as [Ho' Hq]; [|done..]. split; [done|].
    by eapply nodes_disjoint_same; [exact Hd|apply Hq|apply Hq]. }
  assert (ni_ok (n2, w2)) as Hok2.
  { eapply (fold_res_keeps ni_ok); [|exact Hok1|exact H2]. intros i [m u] [m' u'] _ Hm Hi.
    apply scheduleOutputPort_quiet in Hi as [? ?]. by eapply ni_ok_quiet. }
  assert (ni_ok (n3, w3)) as Hok3.
  { eapply (fold_res_keeps ni_ok); [|exact Hok2|exact H3]. intros i [m u] [m' u'] _ [Ho Hd] Hi.
    apply check_stall_port_ok in Hi as (? & ? & ?); [|done]. split; [done|]. by eapply nodes_disjoint_same. }
  assert (ni_ok (n4, w4)) as Hok4.
  { eapply (fold_res_keeps ni_ok); [|exact Hok3|exact H4]. intros i [m u] [m' u'] _ [Ho Hd] Hi.
    apply receive_port_ok in Hi as (? & ? & ?); [|done]. split; [done|]. by eapply nodes_disjoint_same. }
  assert (ni_ok (n5, w5)) as Hok5.
  { eapply (fold_res_keeps ni_ok); [|exact Hok4|exact H5]. intros i [m u] [m' u'] _ Hm Hi.
    apply credit_port_quiet in Hi as [? ?]. by eapply ni_ok_quiet. }
  eapply ni_ok_quiet; [exact Hok5|by eapply checkReschedule_quiet|apply schedule_credit_links_buffers].
Qed.

(** ** Sequences of wakeups *)

Section runs.
Context (rs : RubySystem) (cfg : NetConfig) (cs ds : Z) (ro : Z → Z → res Z) (rnd warm : bool) (rt : Z → Z).

(** The interface wakes up at some time, or the protocol and the links use
    their side of the buffers, which leaves the callbacks alone. *)
Inductive ni_step : NetworkInterface * World → NetworkInterface * World → Prop :=
  | ni_step_wakeup env n w n' w' :
      ni_wakeup rs cfg cs ds ro rnd warm rt env n w = Ok (n', w') → ni_step (n, w) (n', w')
  | ni_step_outside n w w' : (∀ h, callback_of w' h = callback_of w h) → ni_step (n, w) (n, w').

(** An interface that has not received anything yet. *)
Record ni_fresh (n : NetworkInterface) : Prop := {
  fresh_queues : Forall (fun p => m_stall_queue p = []) (inPorts n);
  fresh_counts : Forall (fun c => c = 0) (ni_stall_count n);
  fresh_nodes : nodes_disjoint n;
  fresh_distinct : ∀ v v' h, vec_get (outNode_ptr n) v = Ok (Some h) →
    vec_get (outNode_ptr n) v' = Ok (Some h) → v = v'
}.

Lemma ni_fresh_ok n w : ni_fresh n → ni_ok (n, w).
Proof.
  intros [Hq Hc Hn Hd]. split; [|done]. split; [|..|done].
  - intros v c [_ Hv]%vec_get_ok. rewrite Forall_lookup in Hc. rewrite (Hc _ _ Hv).
    unfold stalled. simpl. clear -Hq. induction Hq as [|p ps Hp Hps IH]; [done|]. simpl. by rewrite Hp, <-IH.
  - intros v c h cb [_ Hv]%vec_get_ok Hpos. rewrite Forall_lookup in Hc. specialize (Hc _ _ Hv). simpl in Hc. lia.
Qed.

Lemma ni_step_ok s s' : ni_ok s → ni_step s s' → ni_ok s'.
Proof.
  intros Hok Hstep. destruct Hstep as [env n w n' w' H|n w w' Hcb]; [by eapply ni_wakeup_ok|].
  destruct Hok as [Hok Hd]. split; [|done]. by eapply stall_ok_quiet; [exact Hok|reflexivity|].
Qed.

End runs.

(** C9: A stalled message is never forgotten. After any sequence of wakeups of a
    network interface, interleaved with anything the protocol and the links do
    on their side, the stall counter of every virtual network is the number of
    tail flits waiting for it in the stall queues, and while it is positive the
    dequeue callback is registered on the protocol buffer those flits wait for,
    so that the receiver's next dequeue wakes the interface. (The two directions
    and the virtual networks use different buffers.) *)
Theorem stalled_flits_have_callback rs cfg cs ds ro rnd warm rt n0 w0 n w v c h cb :
  ni_fresh n0 → rtc (ni_step rs cfg cs ds ro rnd warm rt) (n0, w0) (n, w) →
  vec_get (ni_stall_count n) v = Ok c → vec_get (outNode_ptr n) v = Ok (Some h) →
  callback_of w h = Some cb →
  c = stalled v (inPorts n) ∧ (0 < c → cb = true).
Proof.
  intros Hf Hrun Hc Hh Hcb. assert (ni_ok (n, w)) as [[Hco Hca _] _].
  { apply (ni_fresh_ok n0 w0) in Hf. revert Hf Hrun. generalize (n0, w0), (n, w). clear.
    intros s s' Hs Hrun. induction Hrun as [|x y z Hxy _ IH]; [done|]. apply IH. by eapply ni_step_ok. }
  split; [by apply Hco|]. intros Hpos. by eapply Hca.
Qed.

(** One tail flit arrives while the protocol buffer, of size 1, is full. *)
Definition ex_full_buffer : MessageBuffer :=
  match MessageBuffer.enqueue 0 (ex_message 1) 100 50 false false false
          (new_MessageBuffer 1 0 true disabled false) with
  | Ok (b, _) => b | Err _ => new_MessageBuffer 1 0 true disabled false end.
Definition ex_eject_links : Links :=
  <[0 := with_linkBuffer (new_NetworkLink 0 1 1 [] 16)
      {| m_buffer := [set_src_delay (Some 0) (new_flit 5 0 1 0 new_RouteInfo 1 (Some 40) 8 16 400)];
         max_size := INFINITE_ |}]>
  (<[1 := new_NetworkLink 1 1 1 [] 16]> (<[2 := new_NetworkLink 2 1 1 [] 16]> (<[3 := new_NetworkLink 3 1 1 [] 16]> ∅))).
Definition ex_eject_ni : NetworkInterface * Links :=
  match (let* ' (n, ls) := ni_addOutPort ex_cfg 2 3 0 0 2 (new_NetworkInterface 3 1 100) ex_eject_links in
         ni_addInPort 0 1 n ls) with
  | Ok (n, ls) => (addNode [None] [Some 7] n, ls) | Err _ => (new_NetworkInterface 3 1 100, ∅) end.
Definition ex_eject_world : World :=
  {| w_links := snd ex_eject_ni; w_buffers := {[7 := ex_full_buffer]}; w_messages := {[40 := ex_message 40]};
     w_next_message := 70; m_next_packet_id := 5; m_data_traffic := ∅; m_ctrl_traffic := ∅; w_effects := [] |}.

Lemma stalled_flits_have_callback_witness :
  ∃ n w, rtc (ni_step ex_rs ex_cfg 8 72 (fun d _ => Ok d) false false (fun _ => 0))
           (fst ex_eject_ni, ex_eject_world) (n, w) ∧
         vec_get (ni_stall_count n) 0 = Ok 1 ∧ 1 = stalled 0 (inPorts n) ∧ callback_of w 7 = Some true.
Proof.
  destruct (ni_wakeup ex_rs ex_cfg 8 72 (fun d _ => Ok d) false false (fun _ => 0) ex_clock
    (fst ex_eject_ni) ex_eject_world) as [[n w]|] eqn:E; [|by vm_compute in E].
  assert (vec_get (ni_stall_count n) 0 = Ok 1 ∧ vec_get (outNode_ptr n) 0 = Ok (Some 7) ∧
    ∃ cb, callback_of w 7 = Some cb) as (Hc & Hh & cb & Hcb).
  { vm_compute in E. injection E as <- <-. split; [vm_compute; reflexivity|]. split; [vm_compute; reflexivity|].
    eexists. vm_compute. reflexivity. }
  assert (rtc (ni_step ex_rs ex_cfg 8 72 (fun d _ => Ok d) false false (fun _ => 0))
           (fst ex_eject_ni, ex_eject_world) (n, w)) as Hrun by (by apply rtc_once, (ni_step_wakeup _ _ _ _ _ _ _ _ ex_clock)).
  destruct (stalled_flits_have_callback ex_rs ex_cfg 8 72 (fun d _ => Ok d) false false (fun _ => 0)
    (fst ex_eject_ni) ex_eject_world n w 0 1 7 cb) as [Hst Hpos]; [|exact Hrun|exact Hc|exact Hh|exact Hcb|].
  - split.
    + repeat constructor.
    + repeat constructor.
    + intros v v' h [? Hv]%vec_get_ok _. change (inNode_ptr (fst ex_eject_ni)) with [@None Z] in Hv.
      destruct (Z.to_nat v) as [|[|k]]; discriminate Hv.
    + intros v v' h [Hv0 Hv]%vec_get_ok [Hv0' Hv']%vec_get_ok.
      change (outNode_ptr (fst ex_eject_ni)) with [Some 7] in Hv, Hv'.
      apply lookup_lt_Some in Hv, Hv'. simpl in Hv, Hv'. lia.
  - exists n, w. rewrite (Hpos ltac:(lia)) in Hcb. by split_and!.
Defined.
