(* ===== verification/NetworkBridge.v ===== *)
(** * Bridges: garnet/NetworkBridge.{hh,cc}

    A bridge sits between a link and the object at one end of it and adapts
    clock domain ([enCdc]) and flit width ([enSerDes]). It is itself a
    [CreditLink]: its base object is in the store of links under the bridge's
    handle, the members the class adds are in the store of bridges under the
    same handle. Each connection has two bridges, one for flits and one for the
    credits that come back, and each is the other's [coBridge]. *)

From S2P Require Import Prelude IntMath Clocked Consumer NetDest Flit RoutingUnit NetworkLink Router.

Inductive CDCType := LINK_OBJECT | OBJECT_LINK.

Record NetworkBridge := {
  coBridge : option Z;
  nLink : Z;
  enCdc : bool;
  enSerDes : bool;
  mType : CDCType;
  cdcLatency : Z;
  serDesLatency : Z;
  lastScheduledAt : Z;
  lenBuffer : list Z;
  sizeSent : list Z;
  flitsSent : list Z;
  extraCredit : list (list Z)
}.

(** The objects a bridge touches, and the wakeups it asked for. *)
Record BridgeWorld := {
  bw_bridges : gmap Z NetworkBridge;
  bw_links : Links;
  bw_scheduled : list (consumer_ref * Z)
}.

Definition get_bridge (h : Z) (w : BridgeWorld) : res NetworkBridge :=
  match bw_bridges w !! h with Some b => Ok b | None => Err EOutOfRange end.

Definition put_bridge (h : Z) (b : NetworkBridge) (w : BridgeWorld) : BridgeWorld :=
  {| bw_bridges := <[h := b]> (bw_bridges w); bw_links := bw_links w; bw_scheduled := bw_scheduled w |}.

Definition with_bw_links (w : BridgeWorld) (ls : Links) : BridgeWorld :=
  {| bw_bridges := bw_bridges w; bw_links := ls; bw_scheduled := bw_scheduled w |}.

Definition with_counters (b : NetworkBridge) (len size sent : list Z) (extra : list (list Z)) : NetworkBridge :=
  {| coBridge := coBridge b; nLink := nLink b; enCdc := enCdc b; enSerDes := enSerDes b; mType := mType b;
     cdcLatency := cdcLatency b; serDesLatency := serDesLatency b; lastScheduledAt := lastScheduledAt b;
     lenBuffer := len; sizeSent := size; flitsSent := sent; extraCredit := extra |}.

Definition with_last (b : NetworkBridge) (t : Z) : NetworkBridge :=
  {| coBridge := coBridge b; nLink := nLink b; enCdc := enCdc b; enSerDes := enSerDes b; mType := mType b;
     cdcLatency := cdcLatency b; serDesLatency := serDesLatency b; lastScheduledAt := t;
     lenBuffer := lenBuffer b; sizeSent := sizeSent b; flitsSent := flitsSent b; extraCredit := extraCredit b |}.

(** The constructor: [base] is the [CreditLink] part, [link] the handle of
    [p.link], [h] the handle of the bridge. *)
Definition new_NetworkBridge (base : NetworkLink) (vtype : CDCType) (cdc_latency serdes_latency link h : Z)
    (w : BridgeWorld) : res BridgeWorld :=
  let b := {| coBridge := None; nLink := link; enCdc := true; enSerDes := true; mType := vtype;
              cdcLatency := cdc_latency; serDesLatency := serdes_latency; lastScheduledAt := 0;
              lenBuffer := []; sizeSent := []; flitsSent := []; extraCredit := [] |} in
  let ls := <[h := base]> (bw_links w) in
  let* ls :=
    match vtype with
    | LINK_OBJECT =>
        let* ls := upd_link_at link (setLinkConsumer (ConsLink h)) ls in
        upd_link_at h (setSourceQueue (QLink link)) ls
    | OBJECT_LINK =>
        let* ls := upd_link_at link (setSourceQueue (QLink h)) ls in
        upd_link_at h (setLinkConsumer (ConsLink link)) ls
    end in
  Ok (put_bridge h b (with_bw_links w ls)).

(** [setVcsPerVnet]; the associated link is a plain link. *)
Definition bridge_setVcsPerVnet (consumerVcs h : Z) (w : BridgeWorld) : res BridgeWorld :=
  let* b := get_bridge h w in
  let* l := get_link h (bw_links w) in
  let* ls := upd_link_at h (setVcsPerVnet consumerVcs) (bw_links w) in
  let n := u32 (consumerVcs * nl_virt_nets l) in
  let b := with_counters b (resize_vec n 0 (lenBuffer b)) (resize_vec n 0 (sizeSent b))
             (resize_vec n 0 (flitsSent b)) (resize_vec n [] (extraCredit b)) in
  let* ls := upd_link_at (nLink b) (setVcsPerVnet consumerVcs) ls in
  Ok (put_bridge h b (with_bw_links w ls)).

Definition initBridge (coBrid : Z) (cdc_en serdes_en : bool) (h : Z) (w : BridgeWorld) : res BridgeWorld :=
  let* b := get_bridge h w in
  Ok (put_bridge h
    {| coBridge := Some coBrid; nLink := nLink b; enCdc := cdc_en; enSerDes := serdes_en; mType := mType b;
       cdcLatency := cdcLatency b; serDesLatency := serDesLatency b; lastScheduledAt := lastScheduledAt b;
       lenBuffer := lenBuffer b; sizeSent := sizeSent b; flitsSent := flitsSent b; extraCredit := extraCredit b |} w).

Definition neutralize (vc eCredit h : Z) (w : BridgeWorld) : res BridgeWorld :=
  let* b := get_bridge h w in
  let* extra := vec_upd (extraCredit b) vc (fun q => Ok (q ++ [eCredit])) in
  Ok (put_bridge h (with_counters b (lenBuffer b) (sizeSent b) (flitsSent b) extra) w).

(** [coBridge->neutralize(vc, eCredit)] *)
Definition neutralize_co (vc eCredit h : Z) (w : BridgeWorld) : res BridgeWorld :=
  let* b := get_bridge h w in
  let* co := match coBridge b with Some co => Ok co | None => Err EUninit end in
  neutralize vc eCredit co w.

(** [front()] of an empty queue is undefined. *)
Definition front_credit (extra : list (list Z)) (vc : Z) : res Z :=
  let* q := vec_get extra vc in
  let* x := match q with x :: _ => Ok x | [] => Err EOutOfRange end in
  let* _ := assert_ "extraCredit[vc].front()" (negb (x =? 0)) in
  Ok x.

Definition pop_credit (extra : list (list Z)) (vc : Z) : res (list (list Z)) :=
  vec_upd extra vc (fun q => Ok (tail q)).

(** [ceil] and [floor] of a [float] quotient, for operands below 2^24, where
    they are those of the rational quotient; the conversion of an infinite
    quotient to [int] is undefined. *)
Definition ceil_quot (a b : Z) : res Z := if b =? 0 then Err EUninit else Ok (divCeil a b).
Definition floor_quot (a b : Z) : res Z := if b =? 0 then Err EUninit else Ok (a / b).

Section bridge.
(** The clock of the object behind a consumer. *)
Context (consumer_clock : consumer_ref → ClockEnv).

Definition scheduleFlit (t_flit : flit) (latency h : Z) (w : BridgeWorld) : res BridgeWorld :=
  let* b := get_bridge h w in
  let* l := get_link h (bw_links w) in
  let totLatency := if enCdc b then latency + cdcLatency b else latency in
  let* k := match link_consumer l with Some k => Ok k | None => Err EUninit end in
  let sendTime := clockEdge (consumer_clock k) totLatency in
  let nextAvailTick := u64 (lastScheduledAt b + cyclesToTicks (consumer_clock k) 1) in
  let sendTime := Z.max nextAvailTick sendTime in
  Ok {| bw_bridges := <[h := with_last b sendTime]> (bw_bridges w);
        bw_links := <[h := with_linkBuffer l (insert (set_time sendTime t_flit) (linkBuffer l))]> (bw_links w);
        bw_scheduled := bw_scheduled w ++ [(k, sendTime)] |}.

(** What the deserializer does to its counters: whether a flit can be sent, and
    the number of flits it is made of. *)
Definition deserialize_count (t_flit : flit) (cur_width target_width : Z) (b : NetworkBridge)
    : res (Z * Z * NetworkBridge) :=
  let vc := m_vc t_flit in
  match m_type t_flit with
  | CREDIT_ =>
      let* len := vec_upd (lenBuffer b) vc (fun n => Ok (n + 1)) in
      let* front := front_credit (extraCredit b) vc in
      let* n := vec_get len vc in
      if n =? front then
        let* extra := pop_credit (extraCredit b) vc in
        let* len := vec_set len vc 0 in
        Ok (1, 0, with_counters b len (sizeSent b) (flitsSent b) extra)
      else Ok (0, 0, with_counters b len (sizeSent b) (flitsSent b) (extraCredit b))
  | TAIL_ | HEAD_TAIL_ =>
      let* sent := vec_get (sizeSent b) vc in
      let* flitPossible := ceil_quot (msgSize t_flit - sent) target_width in
      let* _ := assert_ "flitPossible < 2" (flitPossible <? 2) in
      let* done_ := vec_get (flitsSent b) vc in
      let num_flits := m_id t_flit + 1 - done_ in
      let* flits := vec_set (flitsSent b) vc 0 in
      let* size := vec_set (sizeSent b) vc 0 in
      Ok (flitPossible, num_flits, with_counters b (lenBuffer b) size flits (extraCredit b))
  | _ =>
      let* sent := vec_get (sizeSent b) vc in
      let* flitPossible := floor_quot ((m_id t_flit + 1) * cur_width - sent) target_width in
      let* _ := assert_ "flitPossible < 2" (flitPossible <? 2) in
      let* done_ := vec_get (flitsSent b) vc in
      let num_flits := m_id t_flit + 1 - done_ in
      if negb (flitPossible =? 0) then
        let* size := vec_set (sizeSent b) vc (sent + target_width) in
        let* flits := vec_set (flitsSent b) vc (m_id t_flit + 1) in
        Ok (flitPossible, num_flits, with_counters b (lenBuffer b) size flits (extraCredit b))
      else Ok (flitPossible, num_flits, b)
  end.

(** The number of flits the serializer makes of one, with its counters. *)
Definition serialize_count (t_flit : flit) (cur_width target_width : Z) (b : NetworkBridge)
    : res (Z * NetworkBridge) :=
  let vc := m_vc t_flit in
  match m_type t_flit with
  | CREDIT_ =>
      let* front := front_credit (extraCredit b) vc in
      let* extra := pop_credit (extraCredit b) vc in
      Ok (front, with_counters b (lenBuffer b) (sizeSent b) (flitsSent b) extra)
  | HEAD_ | BODY_ =>
      let* sent := vec_get (sizeSent b) vc in
      let* flitPossible := floor_quot ((m_id t_flit + 1) * cur_width - sent) target_width in
      if negb (flitPossible =? 0) then
        let* size := vec_set (sizeSent b) vc (sent + flitPossible * target_width) in
        let* flits := vec_upd (flitsSent b) vc (fun n => Ok (n + flitPossible)) in
        Ok (flitPossible, with_counters b (lenBuffer b) size flits (extraCredit b))
      else Ok (flitPossible, b)
  | _ =>
      let* sent := vec_get (sizeSent b) vc in
      let* flitPossible := ceil_quot (msgSize t_flit - sent) target_width in
      let* size := vec_set (sizeSent b) vc 0 in
      let* flits := vec_set (flitsSent b) vc 0 in
      Ok (flitPossible, with_counters b (lenBuffer b) size flits (extraCredit b))
  end.

(** [lenBuffer[vc] = 0] *)
Definition reset_len (vc h : Z) (w : BridgeWorld) : res BridgeWorld :=
  let* b := get_bridge h w in
  let* len := vec_set (lenBuffer b) vc 0 in
  Ok (put_bridge h (with_counters b len (sizeSent b) (flitsSent b) (extraCredit b)) w).

Definition deserialize_and_send (t_flit : flit) (cur_width target_width h : Z) (b : NetworkBridge) (w : BridgeWorld)
    : res BridgeWorld :=
  let vc := m_vc t_flit in
  let* ' (flitPossible, num_flits, b) := deserialize_count t_flit cur_width target_width b in
  let w := put_bridge h b w in
  if negb (flitPossible =? 0) then
    let* len := vec_get (lenBuffer b) vc in
    let* fl := deserialize t_flit len num_flits target_width in
    let* w := (if bool_decide (m_type t_flit = CREDIT_) then Ok w else neutralize_co vc num_flits h w) in
    let* w := reset_len vc h w in
    scheduleFlit fl (serDesLatency b) h w
  else Ok w.

Definition serialize_and_send (t_flit : flit) (cur_width target_width h : Z) (b : NetworkBridge) (w : BridgeWorld)
    : res BridgeWorld :=
  let vc := m_vc t_flit in
  let* ' (flitPossible, b) := serialize_count t_flit cur_width target_width b in
  let w := put_bridge h b w in
  let* _ := assert_ "flitPossible > 0" (0 <? flitPossible) in
  let* w := for_range 0 (Z.to_nat flitPossible) (fun i w =>
    let* fl := serialize t_flit i flitPossible target_width in
    scheduleFlit fl (serDesLatency b) h w) w in
  if bool_decide (m_type t_flit = CREDIT_) then Ok w else neutralize_co vc flitPossible h w.

(** The width on the near and on the far side of the bridge. *)
Definition bridge_widths (b : NetworkBridge) (self link : NetworkLink) : Z * Z :=
  match mType b with
  | OBJECT_LINK => (bitWidth self, bitWidth link)
  | LINK_OBJECT => (bitWidth link, bitWidth self)
  end.

Definition flitisizeAndSend (t_flit : flit) (h : Z) (w : BridgeWorld) : res BridgeWorld :=
  let* b := get_bridge h w in
  if enSerDes b then
    let* self := get_link h (bw_links w) in
    let* link := get_link (nLink b) (bw_links w) in
    let '(cur_width, target_width) := bridge_widths b self link in
    let* _ := assert_ "target_width != cur_width" (negb (target_width =? cur_width)) in
    if cur_width <? target_width then deserialize_and_send t_flit cur_width target_width h b w
    else serialize_and_send t_flit cur_width target_width h b w
  else scheduleFlit t_flit 0 h w.

(** [NetworkBridge::wakeup]: [c] is the bridge's own Consumer base object,
    [srcq] the queue [link_srcQueue] points to. *)
Definition bridge_wakeup (env : ClockEnv) (c : Consumer) (h : Z) (srcq : flitBuffer) (w : BridgeWorld)
    : res (Consumer * flitBuffer * BridgeWorld) :=
  let* ' (srcq, w) :=
    (if isReady (curTick env) srcq then
       let* ' (t_flit, srcq) := getTopFlit srcq in
       let* w := flitisizeAndSend t_flit h w in
       Ok (srcq, w)
     else Ok (srcq, w)) in
  let* c := (if isEmpty srcq then Ok c else scheduleEvent env 1 c) in
  Ok (c, srcq, w).

(** ** Properties *)

(** The fields all flits of a packet share. *)
Record Ident := {
  id_packet : Z; id_vnet : Z; id_vc : Z; id_route : RouteInfo; id_msg : MsgPtr; id_size : Z;
  id_enqueue : Z; id_delay : option Z
}.

Definition ident (f : flit) : Ident :=
  {| id_packet := m_packet_id f; id_vnet := m_vnet f; id_vc := m_vc f; id_route := m_route f;
     id_msg := m_msg_ptr f; id_size := msgSize f; id_enqueue := m_enqueue_time f; id_delay := src_delay f |}.

(** [f] is flit [id] of the packet [x] cut into flits of the given width. *)
Definition piece (x : Ident) (width id : Z) (f : flit) : Prop :=
  data_flit_wf f ∧ m_id f = id ∧ m_width f = width ∧ ident f = x.

Definition pieces (x : Ident) (width lo : Z) (fs : list flit) : Prop :=
  ∀ j f, fs !! j = Some f → piece x width (lo + Z.of_nat j) f.

(** All flits of the packet [x], in order. *)
Definition packet_of (x : Ident) (width : Z) (fs : list flit) : Prop :=
  Z.of_nat (length fs) = divCeil (id_size x) width ∧ pieces x width 0 fs.

Lemma pieces_app x width lo fs gs :
  pieces x width lo fs → pieces x width (lo + Z.of_nat (length fs)) gs → pieces x width lo (fs ++ gs).
Proof.
  intros Hf Hg j f [Hj|[Hj Hl]]%lookup_app_Some; [by apply Hf|].
  apply Hg in Hl. by replace (lo + Z.of_nat j) with (lo + Z.of_nat (length fs) + Z.of_nat (j - length fs)) by lia.
Qed.

Lemma piece_set_time x width id f t : piece x width id f → piece x width id (set_time t f).
Proof. done. Qed.

Lemma divCeil_mul r w : 0 < w → divCeil (r * w) w = r.
Proof. intros. unfold divCeil. symmetry. apply (Z.div_unique _ w r (w - 1)); lia. Qed.

Lemma serialize_piece x r w i f j k :
  0 < w → 1 < r → piece x (r * w) i f → 0 ≤ j < r → i * r + j < divCeil (id_size x) w →
  ∃ g, serialize f j k w = Ok g ∧ piece x w (i * r + j) g.
Proof.
  intros Hw Hr ((Hc & _ & Hid & _) & Hi & Hwd & Hx) Hj Hlt. rewrite Hi in Hid. subst x. simpl in Hlt.
  unfold serialize. rewrite Hc. unfold flit_serialize. rewrite Hwd, Hi, divCeil_mul by done.
  assert (w < r * w) by nia.
  unfold assert_. rewrite (proj2 (Z.ltb_lt w (r * w))) by done. cbn [rbind].
  rewrite (proj2 (Z.ltb_lt _ _)) by done. cbn [rbind].
  assert (0 ≤ i * r) by nia. eexists. split; [done|]. repeat split; simpl; (done || lia).
Qed.

Lemma deserialize_piece x r w i f k n :
  0 < w → 1 < r → piece x w i f →
  ∃ g, deserialize f k n (r * w) = Ok g ∧ piece x (r * w) (i / r) g.
Proof.
  intros Hw Hr ((Hc & _ & Hid & Hsz & Hlt & _) & Hi & Hwd & Hx). subst x.
  unfold deserialize. rewrite Hc. unfold flit_deserialize. rewrite Hwd, divCeil_mul by done.
  assert (divCeil (m_id f + 1) r - 1 = i / r) as ->.
  { rewrite Hi. unfold divCeil. replace (i + 1 + r - 1) with (i + 1 * r) by lia. rewrite Z.div_add by lia. lia. }
  assert (i / r < divCeil (msgSize f) (r * w)).
  { apply Z.nle_gt. rewrite <-divCeil_least by nia. intros Hle.
    assert (divCeil (msgSize f) w ≤ i / r * r)
      by (apply (proj1 (divCeil_least _ _ _ Hw)); by rewrite <-Z.mul_assoc).
    pose proof (Z.mul_div_le i r). rewrite Hwd in Hsz. lia. }
  unfold assert_. rewrite (proj2 (Z.ltb_lt _ _)) by done. simpl.
  assert (0 ≤ i / r) by (apply Z.div_pos; lia).
  eexists. split; [done|]. repeat split; simpl; (done || nia).
Qed.

(** *** A bridge and its co-bridge *)

(** In [w], bridge [h] is [b], converts from width [cur] to [target], has the
    co-bridge [co] and the flits [out] waiting for its consumer. *)
Definition side_at (h co cur target : Z) (w : BridgeWorld) (b : NetworkBridge) (out : list flit) : Prop :=
  bw_bridges w !! h = Some b ∧ coBridge b = Some co ∧ enSerDes b = true ∧
  ∃ l n k, bw_links w !! h = Some l ∧ bw_links w !! nLink b = Some n ∧ link_consumer l = Some k ∧
    m_buffer (linkBuffer l) = out ∧ bridge_widths b l n = (cur, target).

(** Bridges that differ only in their counters. *)
Definition same_config (b b' : NetworkBridge) : Prop :=
  coBridge b' = coBridge b ∧ enSerDes b' = enSerDes b ∧ nLink b' = nLink b ∧ mType b' = mType b.

(** The values of the counters of one VC, and the queue of pending ratios. *)
Definition counters_at (b : NetworkBridge) (vc len size sent : Z) (q : list Z) : Prop :=
  vec_get (lenBuffer b) vc = Ok len ∧ vec_get (sizeSent b) vc = Ok size ∧
  vec_get (flitsSent b) vc = Ok sent ∧ vec_get (extraCredit b) vc = Ok q.

Section pair.
Context (h co cur target ccur ctarget : Z).

Definition pair_at (w : BridgeWorld) (b cb : NetworkBridge) (out cout : list flit) : Prop :=
  h ≠ co ∧ side_at h co cur target w b out ∧ side_at co h ccur ctarget w cb cout.

Lemma pair_put w b b' cb out cout :
  pair_at w b cb out cout → same_config b b' → pair_at (put_bridge h b' w) b' cb out cout.
Proof.
  intros (Hne & (Hb & Hco & Hs & l & n & k & Hl & Hn & Hk & Ho & Hw) & Hc) (Eco & Es & En & Em).
  split; [done|]. split.
  - split; [apply lookup_insert_eq|]. split; [congruence|]. split; [congruence|].
    exists l, n, k. rewrite En. unfold bridge_widths in *. rewrite Em. done.
  - destruct Hc as (Hcb & Hc). split; [|done]. simpl. by rewrite lookup_insert_ne.
Qed.

Lemma pair_schedule w b cb out cout f lat :
  pair_at w b cb out cout →
  ∃ w' t, scheduleFlit f lat h w = Ok w' ∧ pair_at w' (with_last b t) cb (out ++ [set_time t f]) cout.
Proof.
  intros (Hne & (Hb & Hco & Hs & l & n & k & Hl & Hn & Hk & Ho & Hw) & Hcb & Hcco & Hcs & l2 & n2 & k2 & Hc).
  unfold scheduleFlit, get_bridge, get_link. rewrite Hb, Hl. simpl. rewrite Hk. cbn [rbind]. cbv zeta.
  set (t := Z.max _ _). set (l' := with_linkBuffer l _).
  assert (∀ a x, bw_links w !! a = Some x →
    ∃ x', <[h := l']> (bw_links w) !! a = Some x' ∧ bitWidth x' = bitWidth x) as Hfr.
  { intros a x Hx. destruct (decide (a = h)) as [->|]; [|exists x; by rewrite lookup_insert_ne].
    exists l'. rewrite lookup_insert_eq. by simplify_eq. }
  eexists. exists t. split; [done|]. split; [done|]. split.
  - split; [apply lookup_insert_eq|]. split; [done|]. split; [done|].
    destruct (Hfr _ _ Hn) as (n' & Hn' & Ew). exists l', n', k. simpl. rewrite lookup_insert_eq.
    split_and!; [done|done|done|by rewrite Ho|].
    rewrite <-Hw. unfold bridge_widths. simpl. by rewrite Ew.
  - split; [simpl; by rewrite lookup_insert_ne|]. split; [done|]. split; [done|].
    destruct Hc as (Hl2 & Hn2 & Hk2 & Ho2 & Hw2). destruct (Hfr _ _ Hn2) as (n' & Hn' & Ew).
    exists l2, n', k2. simpl. rewrite (lookup_insert_ne _ h co) by done.
    split_and!; [done|done|done|done|]. rewrite <-Hw2. unfold bridge_widths. by rewrite Ew.
Qed.

Lemma pair_neutralize w b cb out cout vc q k :
  pair_at w b cb out cout → vec_get (extraCredit cb) vc = Ok q →
  ∃ w', neutralize_co vc k h w = Ok w' ∧
    pair_at w' b (with_counters cb (lenBuffer cb) (sizeSent cb) (flitsSent cb)
                    (<[Z.to_nat vc := q ++ [k]]> (extraCredit cb))) out cout.
Proof.
  intros (Hne & Hs & Hc) Hq. pose proof Hs as (Hb & Hco & _). pose proof Hc as (Hcb & _).
  unfold neutralize_co, get_bridge. rewrite Hb. simpl. rewrite Hco. simpl.
  unfold neutralize, get_bridge. rewrite Hcb. simpl.
  unfold vec_upd. rewrite Hq. simpl. rewrite vec_set_in_range by by eapply vec_get_range.
  eexists. split; [done|]. split; [done|]. split.
  - destruct Hs as (_ & Hs). split; [|done]. simpl. by rewrite lookup_insert_ne.
  - destruct Hc as (_ & Hs' & He & Hc). split; [apply lookup_insert_eq|]. done.
Qed.

(** The width conversion is chosen by the widths of the two links. *)
Lemma flitisize_pair w b cb out cout f :
  pair_at w b cb out cout → cur ≠ target →
  flitisizeAndSend f h w
  = if cur <? target then deserialize_and_send f cur target h b w
    else serialize_and_send f cur target h b w.
Proof.
  intros (_ & (Hb & _ & Hs & l & n & k & Hl & Hn & _ & _ & Hw) & _) Hne.
  unfold flitisizeAndSend, get_bridge, get_link. rewrite Hb. simpl. rewrite Hs, Hl. simpl. rewrite Hn. simpl.
  rewrite Hw. unfold assert_. rewrite (proj2 (Z.eqb_neq target cur)) by done. done.
Qed.

(** The loop of the serializer sends what [serialize] makes of the flit. *)
Lemma serialize_loop w b cb out cout f k lat (P : Z → flit → Prop) :
  pair_at w b cb out cout →
  (∀ i, 0 ≤ i < Z.of_nat k → ∃ g, serialize f i (Z.of_nat k) target = Ok g ∧ ∀ t, P i (set_time t g)) →
  ∃ w' t fs, for_range 0 k (fun i w => let* fl := serialize f i (Z.of_nat k) target in scheduleFlit fl lat h w) w = Ok w' ∧
    pair_at w' (with_last b t) cb (out ++ fs) cout ∧ length fs = k ∧
    ∀ j g, fs !! j = Some g → P (Z.of_nat j) g.
Proof.
  intros Hp Hser.
  destruct (for_range_ok (fun i w' => ∃ t fs, pair_at w' (with_last b t) cb (out ++ fs) cout ∧
      Z.of_nat (length fs) = i ∧ ∀ j g, fs !! j = Some g → P (Z.of_nat j) g) 0 k
    (fun i w => let* fl := serialize f i (Z.of_nat k) target in scheduleFlit fl lat h w) w)
    as (w' & Hrun & t & fs & Hw' & Hlen & Hfs).
  - exists (lastScheduledAt b), []. rewrite app_nil_r. split; [by destruct b|]. done.
  - intros i w1 Hi (t & fs & Hw1 & Hlen & Hfs). destruct (Hser i) as (g & Hg & HP); [lia|]. rewrite Hg. simpl.
    destruct (pair_schedule _ _ _ _ _ g lat Hw1) as (w2 & t2 & Hs & Hw2). exists w2. split; [done|].
    exists t2, (fs ++ [set_time t2 g]). rewrite app_assoc. split; [done|]. rewrite length_app. simpl. split; [lia|].
    intros j g' [?|[Hj Hl]]%lookup_app_Some; [by apply Hfs|].
    apply list_lookup_singleton_Some in Hl as [Hz <-]. replace (Z.of_nat j) with i by lia. apply HP.
  - exists w', t, fs. split_and!; [done|done|lia|done].
Qed.

End pair.
End bridge.
