(* ===== verification/SerDes.v ===== *)
(** * Packets and credits across a bridge

    What a bridge does to a whole packet when the wide flits are an integral
    number of narrow ones, what its co-bridge does to the credits that come
    back, and the spacing of the flits a bridge sends. *)

From S2P Require Import Prelude IntMath Clocked Consumer NetDest Flit RoutingUnit NetworkLink Router NetworkBridge.

(** ** Counters *)

Lemma vec_set_get {A} (l : list A) i (x y : A) :
  vec_get l i = Ok x → vec_set l i y = Ok (<[Z.to_nat i := y]> l) ∧ vec_get (<[Z.to_nat i := y]> l) i = Ok y.
Proof.
  intros Hi%vec_get_range. pose proof (vec_set_in_range l i y Hi) as Hs. split; [done|by eapply vec_get_set_eq].
Qed.

(** Only the last flit of a packet has a tail type. *)
Lemma flit_type_last i n :
  0 ≤ i < n →
  if i + 1 <? n then flit_type_of i n = HEAD_ ∨ flit_type_of i n = BODY_
  else flit_type_of i n = TAIL_ ∨ flit_type_of i n = HEAD_TAIL_.
Proof.
  intros Hi. unfold flit_type_of. repeat zcase; try lia; auto.
Qed.

Lemma piece_type x width i f :
  piece x width i f → 0 ≤ i < divCeil (id_size x) width ∧ m_type f = flit_type_of i (divCeil (id_size x) width).
Proof. intros ((_ & _ & ? & Hs & ? & Ht) & <- & <- & <-). simpl. rewrite <-Hs. auto. Qed.

Section ratio.
Context (r w : Z) (Hr : 1 < r) (Hw : 0 < w) (x : Ident).

Abbreviation S := (id_size x).
Abbreviation vc := (id_vc x).
Abbreviation wide := (r * w).
Abbreviation n_wide := (divCeil (id_size x) (r * w)).
Abbreviation n_narrow := (divCeil (id_size x) w).

Lemma divCeil_bounds a b : 0 < b → (divCeil a b - 1) * b < a ≤ divCeil a b * b.
Proof using Type.
  intros Hb. split; [|by apply divCeil_least]. apply Z.nle_gt. rewrite divCeil_least by done. lia.
Qed.

(** The number of narrow flits the serializer makes of wide flit [i]. *)
Definition cut (i : Z) : Z := if i + 1 <? n_wide then r else n_narrow - i * r.

Lemma cut_spec i :
  0 ≤ i < n_wide →
  0 < cut i ≤ r ∧ i * r + cut i ≤ n_narrow ∧ (i + 1 = n_wide → i * r + cut i = n_narrow) ∧
  (i + 1 < n_wide → cut i = r) ∧ (i + 1 = n_wide → divCeil (S - i * wide) w = cut i).
Proof using Hr Hw.
  intros Hi. pose proof (divCeil_bounds S w Hw) as Hn.
  assert (0 < wide) as Hwide by nia. pose proof (divCeil_bounds S wide Hwide) as HN. unfold cut.
  assert (∀ m, m * wide < S → m * r < n_narrow) as Hlow.
  { intros m Hm. apply Z.nle_gt. intros Hle%(proj2 (divCeil_least _ _ _ Hw)). lia. }
  assert (n_narrow ≤ n_wide * r) as Hup by (apply (proj1 (divCeil_least _ _ _ Hw)); lia).
  destruct (Z.ltb_spec (i + 1) n_wide).
  - assert ((n_wide - 1) * r < n_narrow) by (apply Hlow; lia). split_and!; try lia; nia.
  - assert (n_wide = i + 1) as E by lia. rewrite E in Hup, HN. assert (i * r < n_narrow) by (apply Hlow; lia).
    split_and!; try lia.
    intros _. unfold divCeil. replace (S - i * wide + w - 1) with (S + w - 1 + - (i * r) * w) by lia.
    rewrite Z.div_add by lia. fold (divCeil S w). lia.
Qed.

Lemma serialize_count_data i f b len sent q :
  piece x wide i f → counters_at b vc len (i * wide) sent q →
  ∃ b' sent', serialize_count f wide w b = Ok (cut i, b') ∧ same_config b b' ∧
    counters_at b' vc len (if i + 1 <? n_wide then (i + 1) * wide else 0)
      (if i + 1 <? n_wide then sent' else 0) q.
Proof using Hr Hw.
  intros Hp (Hl & Hs & Hf & Hq). destruct (piece_type _ _ _ _ Hp) as [Hi Ht].
  destruct Hp as (_ & Hid & _ & Hx). destruct (cut_spec i Hi) as (Hk & _ & _ & Hk1 & Hk2).
  assert (m_vc f = vc) as Hvc by by rewrite <-Hx. assert (msgSize f = S) as HS by by rewrite <-Hx.
  pose proof (flit_type_last i n_wide Hi) as Hty. rewrite <-Ht in Hty.
  unfold serialize_count, floor_quot, ceil_quot. rewrite Hvc, HS, Hid, Hs. rewrite (proj2 (Z.eqb_neq w 0)) by lia. cbn [rbind].
  destruct (Z.ltb_spec (i + 1) n_wide).
  - assert (((i + 1) * wide - i * wide) / w = cut i) as ->.
    { rewrite Hk1 by lia. replace ((i + 1) * wide - i * wide) with wide by lia. by rewrite Z.div_mul by lia. }
    destruct (vec_set_get _ _ _ (i * wide + cut i * w) Hs) as [Es Es'].
    destruct (vec_set_get _ _ _ (sent + cut i) Hf) as [Ef Ef'].
    assert (i * wide + cut i * w = (i + 1) * wide) as Esum by (rewrite Hk1 by lia; lia).
    destruct Hty as [-> | ->]; cbn [rbind]; rewrite (proj2 (Z.eqb_neq (cut i) 0)) by lia; cbn [negb];
      rewrite Es; cbn [rbind]; unfold vec_upd; rewrite Hf; cbn [rbind]; rewrite Ef; cbn [rbind];
      eexists _, (sent + cut i); rewrite <-Esum; done.
  - rewrite Hk2 by lia.
    destruct (vec_set_get _ _ _ 0 Hs) as [Es Es']. destruct (vec_set_get _ _ _ 0 Hf) as [Ef Ef'].
    destruct Hty as [-> | ->]; cbn [rbind]; rewrite Es; cbn [rbind]; rewrite Ef; cbn [rbind];
      eexists _, 0; done.
Qed.


(** Of narrow flit [i], the deserializer sends a wide flit when it completes one
    or is the last. *)
Definition completes (i : Z) : bool := (i + 1 =? n_narrow) || ((i + 1) mod r =? 0).

Lemma div_succ i : (i + 1) / r = i / r + (if (i + 1) mod r =? 0 then 1 else 0).
Proof using Hr.
  pose proof (Z.div_mod i r) as H1. pose proof (Z.mod_pos_bound i r) as H2.
  pose proof (Z.div_mod (i + 1) r) as H3. pose proof (Z.mod_pos_bound (i + 1) r) as H4.
  destruct (Z.eqb_spec ((i + 1) mod r) 0); nia.
Qed.

Lemma last_wide i : i + 1 = n_narrow → divCeil (S - i / r * wide) wide = 1 ∧ n_wide = i / r + 1.
Proof using Hr Hw.
  intros Hi. pose proof (divCeil_bounds S w Hw) as HS. rewrite <-Hi in HS.
  assert (0 < wide) by nia. pose proof (Z.div_mod i r) as H1. pose proof (Z.mod_pos_bound i r) as H2.
  assert (0 < S - i / r * wide ≤ wide) by nia.
  assert (divCeil (S - i / r * wide) wide = 1) as E.
  { unfold divCeil. symmetry. apply (Z.div_unique _ wide 1 (S - i / r * wide - 1)); lia. }
  split; [done|]. rewrite <-E. unfold divCeil.
  replace (S + wide - 1) with (S - i / r * wide + wide - 1 + i / r * wide) by lia. rewrite Z.div_add by lia. lia.
Qed.

Lemma deserialize_count_data i f b len q :
  piece x w i f → counters_at b vc len (i / r * wide) (i / r * r) q →
  ∃ b', deserialize_count f w wide b = Ok (Z.b2z (completes i), i + 1 - i / r * r, b') ∧ same_config b b' ∧
    counters_at b' vc len (if i + 1 =? n_narrow then 0 else (i + 1) / r * wide)
      (if i + 1 =? n_narrow then 0 else (i + 1) / r * r) q.
Proof using Hr Hw.
  intros Hp (Hl & Hs & Hf & Hq). destruct (piece_type _ _ _ _ Hp) as [Hi Ht].
  destruct Hp as (_ & Hid & _ & Hx).
  assert (m_vc f = vc) as Hvc by by rewrite <-Hx. assert (msgSize f = S) as HS by by rewrite <-Hx.
  pose proof (flit_type_last i n_narrow Hi) as Hty. rewrite <-Ht in Hty.
  unfold deserialize_count, floor_quot, ceil_quot, completes, assert_.
  rewrite Hvc, HS, Hid, Hs, Hf. rewrite (proj2 (Z.eqb_neq wide 0)) by nia. cbn [rbind].
  destruct (Z.eqb_spec (i + 1) n_narrow) as [Heq|Hne].
  - rewrite (proj2 (Z.ltb_ge _ _)) in Hty by lia. rewrite (proj1 (last_wide i Heq)).
    destruct (vec_set_get _ _ _ 0 Hs) as [Es Es']. destruct (vec_set_get _ _ _ 0 Hf) as [Ef Ef'].
    destruct Hty as [-> | ->]; cbn [rbind Z.ltb Z.compare]; rewrite Ef; cbn [rbind]; rewrite Es; cbn [rbind];
      eexists; done.
  - rewrite (proj2 (Z.ltb_lt _ _)) in Hty by lia. cbn [orb].
    assert (((i + 1) * w - i / r * wide) / wide = Z.b2z ((i + 1) mod r =? 0)) as ->.
    { replace ((i + 1) * w - i / r * wide) with ((i + 1 + - (i / r) * r) * w) by lia.
      rewrite Z.div_mul_cancel_r, Z.div_add, div_succ by lia. destruct ((i + 1) mod r =? 0); simpl; lia. }
    rewrite div_succ. destruct ((i + 1) mod r =? 0) eqn:E; simpl Z.b2z.
    + destruct (vec_set_get _ _ _ (i / r * wide + wide) Hs) as [Es Es'].
      destruct (vec_set_get _ _ _ (i + 1) Hf) as [Ef Ef'].
      assert ((i / r + 1) * r = i + 1) as E2.
      { pose proof (Z.div_mod (i + 1) r). pose proof (div_succ i) as Hd. rewrite E in Hd. zbool. nia. }
      rewrite E2. replace ((i / r + 1) * wide) with (i / r * wide + wide) by lia.
      destruct Hty as [-> | ->]; cbn [rbind Z.ltb Z.eqb Z.compare negb]; rewrite Es; cbn [rbind]; rewrite Ef;
        cbn [rbind]; eexists; done.
    + rewrite Z.add_0_r. destruct Hty as [-> | ->]; cbn [rbind Z.ltb Z.eqb Z.compare negb]; by exists b.
Qed.

End ratio.

(** ** Packets *)

Section packets.
Context (consumer_clock : consumer_ref → ClockEnv) (r w : Z) (Hr : 1 < r) (Hw : 0 < w) (x : Ident).
Context (h co ccur ctarget : Z).

Abbreviation vc := (id_vc x).
Abbreviation wide := (r * w).

Lemma counters_push b len size sent q k :
  counters_at b vc len size sent q →
  counters_at (with_counters b (lenBuffer b) (sizeSent b) (flitsSent b) (<[Z.to_nat vc := q ++ [k]]> (extraCredit b)))
    vc len size sent (q ++ [k]).
Proof using Type.
  intros (? & ? & ? & Hq). split_and!; [done..|]. simpl. by destruct (vec_set_get _ _ _ (q ++ [k]) Hq).
Qed.

Lemma not_credit i width f : piece x width i f → m_type f ≠ CREDIT_.
Proof using Type.
  intros [Hi Ht]%piece_type. rewrite Ht. unfold flit_type_of. by repeat zcase.
Qed.

Lemma serialize_step W b cb out cout i f len sent q clen csize csent cq :
  pair_at h co wide w ccur ctarget W b cb out cout → piece x wide i f →
  counters_at b vc len (i * wide) sent q → counters_at cb vc clen csize csent cq →
  ∃ W' b' cb' gs sent', flitisizeAndSend consumer_clock f h W = Ok W' ∧
    pair_at h co wide w ccur ctarget W' b' cb' (out ++ gs) cout ∧
    pieces x w (i * r) gs ∧ Z.of_nat (length gs) = cut r w x i ∧
    counters_at b' vc len (if i + 1 <? divCeil (id_size x) wide then (i + 1) * wide else 0)
      (if i + 1 <? divCeil (id_size x) wide then sent' else 0) q ∧
    counters_at cb' vc clen csize csent (cq ++ [cut r w x i]).
Proof using Hr Hw.
  intros Hpair Hp Hc Hcc. assert (m_vc f = vc) as Hvc by by destruct Hp as (_ & _ & _ & <-).
  destruct (piece_type _ _ _ _ Hp) as [Hi _].
  destruct (cut_spec r w Hr Hw x i Hi) as (Hk & Hle & _).
  rewrite (flitisize_pair _ _ _ _ _ _ _ _ _ _ _ _ _ Hpair) by nia.
  rewrite (proj2 (Z.ltb_ge wide w)) by nia. unfold serialize_and_send.
  destruct (serialize_count_data r w Hr Hw x i f b len sent q Hp Hc) as (b1 & sent' & Hcount & Hsame & Hc1).
  rewrite Hcount. cbn [rbind]. unfold assert_. rewrite (proj2 (Z.ltb_lt _ _)) by lia. cbn [rbind].
  destruct (serialize_loop consumer_clock h co wide w ccur ctarget (put_bridge h b1 W) b1 cb out cout f
    (Z.to_nat (cut r w x i)) (serDesLatency b1) (fun j g => piece x w (i * r + j) g))
    as (W2 & t & gs & Hrun & Hpair2 & Hlen & Hgs).
  { by eapply pair_put. }
  { rewrite Z2Nat.id by lia. intros j Hj.
    destruct (serialize_piece x r w i f j (cut r w x i)) as (g & Hg & Hpg); [done|done|done|lia|lia|]. eauto. }
  rewrite Z2Nat.id in Hrun by lia. rewrite Hrun. cbn [rbind].
  rewrite bool_decide_eq_false_2 by by eapply not_credit. rewrite Hvc.
  destruct (pair_neutralize _ _ _ _ _ _ _ _ _ _ _ vc cq (cut r w x i) Hpair2) as (W3 & Hneu & Hpair3);
    [by destruct Hcc as (_ & _ & _ & ?)|].
  eexists W3, _, _, gs, sent'. split_and!; [done|exact Hpair3|exact Hgs|lia|exact Hc1|by apply counters_push].
Qed.

Lemma deserialize_step W b cb out cout i f q clen csize csent cq :
  pair_at h co w wide ccur ctarget W b cb out cout → piece x w i f →
  counters_at b vc 0 (i / r * wide) (i / r * r) q → counters_at cb vc clen csize csent cq →
  ∃ W' b' cb' gs, flitisizeAndSend consumer_clock f h W = Ok W' ∧
    pair_at h co w wide ccur ctarget W' b' cb' (out ++ gs) cout ∧
    pieces x wide (i / r) gs ∧ length gs = Z.to_nat (Z.b2z (completes r w x i)) ∧
    counters_at b' vc 0 (if i + 1 =? divCeil (id_size x) w then 0 else (i + 1) / r * wide)
      (if i + 1 =? divCeil (id_size x) w then 0 else (i + 1) / r * r) q ∧
    counters_at cb' vc clen csize csent (cq ++ if completes r w x i then [i + 1 - i / r * r] else []).
Proof using Hr Hw.
  intros Hpair Hp Hc Hcc. assert (m_vc f = vc) as Hvc by by destruct Hp as (_ & _ & _ & <-).
  rewrite (flitisize_pair _ _ _ _ _ _ _ _ _ _ _ _ _ Hpair) by nia.
  rewrite (proj2 (Z.ltb_lt w wide)) by nia. unfold deserialize_and_send.
  destruct (deserialize_count_data r w Hr Hw x i f b 0 q Hp Hc) as (b1 & Hcount & Hsame & Hc1).
  rewrite Hcount. cbn [rbind]. rewrite Hvc.
  assert (Hpair1 : pair_at h co w wide ccur ctarget (put_bridge h b1 W) b1 cb out cout) by by eapply pair_put.
  destruct (completes r w x i); cbn [Z.b2z Z.eqb negb].
  2:{ exists (put_bridge h b1 W), b1, cb, []. rewrite !app_nil_r. done. }
  pose proof Hc1 as (Hlen & Hrest). rewrite Hlen. cbn [rbind].
  destruct (deserialize_piece x r w i f 0 (i + 1 - i / r * r) Hw Hr Hp) as (g & Hg & Hpg).
  rewrite Hg. cbn [rbind]. rewrite bool_decide_eq_false_2 by by eapply not_credit.
  destruct (pair_neutralize _ _ _ _ _ _ _ _ _ _ _ vc cq (i + 1 - i / r * r) Hpair1) as (W2 & Hneu & Hpair2);
    [by destruct Hcc as (_ & _ & _ & ?)|].
  rewrite Hneu. cbn [rbind]. unfold reset_len at 1, get_bridge at 1.
  pose proof Hpair2 as (_ & (-> & _) & _). cbn [rbind].
  destruct (vec_set_get _ _ _ 0 Hlen) as [Es Es']. rewrite Es. cbn [rbind].
  set (b2 := with_counters b1 _ _ _ _).
  assert (Hpair3 := pair_put _ _ _ _ _ _ W2 b1 b2 _ _ _ Hpair2 ltac:(done)).
  destruct (pair_schedule consumer_clock _ _ _ _ _ _ _ _ _ _ _ g (serDesLatency b1) Hpair3)
    as (W4 & t & Hs & Hpair4).
  eexists W4, _, _, [set_time t g]. split_and!; [done|exact Hpair4| |done|done|by apply counters_push].
  intros [|j] g' Hl; [|done]. simplify_eq/=. by rewrite Z.add_0_r.
Qed.


(** *** Serializing a packet *)

Abbreviation n_wide := (divCeil (id_size x) (r * w)).
Abbreviation n_narrow := (divCeil (id_size x) w).
Abbreviation total := (lsum (fun k : Z => k)).

(** What holds after [i] wide flits of the packet went through the serializer. *)
Definition serialized (len : Z) (q : list Z) (clen csize csent : Z) (cq : list Z) (out cout : list flit)
    (i : nat) (W : BridgeWorld) : Prop :=
  ∃ b cb gs ks sent, pair_at h co wide w ccur ctarget W b cb (out ++ gs) cout ∧ pieces x w 0 gs ∧
    Z.of_nat (length gs) = (if Z.of_nat i <? n_wide then Z.of_nat i * r else n_narrow) ∧
    counters_at b vc len (if Z.of_nat i <? n_wide then Z.of_nat i * wide else 0)
      (if Z.of_nat i <? n_wide then sent else 0) q ∧
    counters_at cb vc clen csize csent (cq ++ ks) ∧
    ks = map (cut r w x) (seqZ 0 (Z.of_nat i)) ∧ total ks = Z.of_nat (length gs) ∧ Forall (Z.lt 0) ks.

Lemma serialized_step len q clen csize csent cq out cout i f W :
  piece x wide (Z.of_nat i) f → serialized len q clen csize csent cq out cout i W →
  ∃ W', flitisizeAndSend consumer_clock f h W = Ok W' ∧
    serialized len q clen csize csent cq out cout (S i) W'.
Proof using Hr Hw.
  intros Hp (b & cb & gs & ks & sent & Hpair & Hgs & Hlen & Hc & Hcc & Hks & Htot & Hpos).
  destruct (piece_type _ _ _ _ Hp) as [Hi _].
  destruct (cut_spec r w Hr Hw x _ Hi) as (Hk & _ & Hlast & Hmid & _).
  rewrite (proj2 (Z.ltb_lt _ _)) in Hlen, Hc by lia.
  destruct (serialize_step W b cb _ cout _ f len sent q clen csize csent _ Hpair Hp Hc Hcc)
    as (W' & b' & cb' & gs' & sent' & Hrun & Hpair' & Hgs' & Hlen' & Hc' & Hcc').
  exists W'. split; [done|]. exists b', cb', (gs ++ gs'), (ks ++ [cut r w x (Z.of_nat i)]), sent'.
  replace (Z.of_nat (S i)) with (Z.of_nat i + 1) by lia. rewrite !app_assoc, !length_app, lsum_app.
  split_and!; [done| | |done|done| |simpl; lia|apply Forall_app_2; [done|apply Forall_singleton; lia]].
  - apply pieces_app; [done|]. rewrite Hlen. by rewrite Z.add_0_l.
  - rewrite Nat2Z.inj_add, Hlen, Hlen'. destruct (Z.ltb_spec (Z.of_nat i + 1) n_wide); [rewrite Hmid by done; lia|].
    apply Hlast. lia.
  - rewrite seqZ_app, map_app, <-Hks by lia. by rewrite Z.add_0_l.
Qed.

(** C32: A serializing bridge between widths of an integral ratio, wide = [r] * narrow,
    sends a packet on as the same packet. After all flits of one packet went in, in
    order and with no flit of another packet in between, the bridge has sent exactly
    the flits 0 to ceil(size/w)-1 of that packet at the narrow width, in order; its
    counters of the VC are back to 0, so that the next packet can follow; and its
    co-bridge has been told for each wide flit how many narrow ones it became: [r]
    for all but the last, and the rest for the last, which adds up to what was
    sent. For other ratios the serializer aborts ([nonintegral_widths_abort]). *)
Theorem bridge_serializes_packet W b cb out cout fs len sent q clen csize csent cq :
  0 < id_size x → packet_of x wide fs →
  pair_at h co wide w ccur ctarget W b cb out cout →
  counters_at b vc len 0 sent q → counters_at cb vc clen csize csent cq →
  ∃ W' b' cb' gs ks, fold_res (fun f => flitisizeAndSend consumer_clock f h) fs W = Ok W' ∧
    pair_at h co wide w ccur ctarget W' b' cb' (out ++ gs) cout ∧ packet_of x w gs ∧
    counters_at b' vc len 0 0 q ∧ counters_at cb' vc clen csize csent (cq ++ ks) ∧
    ks = map (cut r w x) (seqZ 0 (Z.of_nat (length fs))) ∧ total ks = Z.of_nat (length gs) ∧ Forall (Z.lt 0) ks.
Proof using Hr Hw.
  intros HS [Hn Hfs] Hpair Hc Hcc.
  assert (0 < n_wide) by (apply divCeil_pos; nia).
  destruct (fold_res_ok (serialized len q clen csize csent cq out cout)
    (fun f => flitisizeAndSend consumer_clock f h) fs W) as (W' & Hrun & Hend).
  - exists b, cb, [], [], sent. rewrite !app_nil_r, (proj2 (Z.ltb_lt _ _)) by lia. done.
  - intros i f t Hf Ht. apply Hfs in Hf. by apply serialized_step.
  - destruct Hend as (b' & cb' & gs & ks & sent' & Hend). rewrite Hn, Z.ltb_irrefl in Hend.
    destruct Hend as (Hp & Hg & Hl & Hrest). exists W', b', cb', gs, ks. by rewrite Hn.
Qed.

(** *** Deserializing a packet *)

(** What holds after [i] narrow flits went through the deserializer. *)
Definition deserialized (q : list Z) (clen csize csent : Z) (cq : list Z) (out cout : list flit)
    (i : nat) (W : BridgeWorld) : Prop :=
  ∃ b cb gs ks, pair_at h co w wide ccur ctarget W b cb (out ++ gs) cout ∧ pieces x wide 0 gs ∧
    Z.of_nat (length gs) = (if Z.of_nat i =? n_narrow then n_wide else Z.of_nat i / r) ∧
    counters_at b vc 0 (if Z.of_nat i =? n_narrow then 0 else Z.of_nat i / r * wide)
      (if Z.of_nat i =? n_narrow then 0 else Z.of_nat i / r * r) q ∧
    counters_at cb vc clen csize csent (cq ++ ks) ∧
    length ks = length gs ∧ total ks = (if Z.of_nat i =? n_narrow then n_narrow else Z.of_nat i / r * r) ∧
    Forall (Z.lt 0) ks.

Lemma deserialized_step q clen csize csent cq out cout i f W :
  piece x w (Z.of_nat i) f → deserialized q clen csize csent cq out cout i W →
  ∃ W', flitisizeAndSend consumer_clock f h W = Ok W' ∧
    deserialized q clen csize csent cq out cout (S i) W'.
Proof using Hr Hw.
  intros Hp (b & cb & gs & ks & Hpair & Hgs & Hlen & Hc & Hcc & Hks & Htot & Hpos).
  destruct (piece_type _ _ _ _ Hp) as [Hi _]. revert Hlen Hc Htot.
  rewrite (proj2 (Z.eqb_neq (Z.of_nat i) n_narrow)) by lia. intros Hlen Hc Htot.
  destruct (deserialize_step W b cb _ cout _ f q clen csize csent _ Hpair Hp Hc Hcc)
    as (W' & b' & cb' & gs' & Hrun & Hpair' & Hgs' & Hlen' & Hc' & Hcc').
  exists W'. split; [done|].
  set (k := Z.of_nat i + 1 - Z.of_nat i / r * r) in *.
  exists b', cb', (gs ++ gs'), (ks ++ if completes r w x (Z.of_nat i) then [k] else []).
  assert (0 < k) by (pose proof (Z.mul_div_le (Z.of_nat i) r); lia).
  pose proof (div_succ r Hr (Z.of_nat i)) as Hd. pose proof (Z.div_mod (Z.of_nat i + 1) r) as Hm.
  replace (Z.of_nat (S i)) with (Z.of_nat i + 1) by lia. rewrite !app_assoc, !length_app, lsum_app.
  assert (pieces x wide 0 (gs ++ gs')) by (apply pieces_app; [done|]; by rewrite Hlen, Z.add_0_l).
  rewrite Nat2Z.inj_add, Hlen, Htot. unfold completes in *.
  destruct (Z.eqb_spec (Z.of_nat i + 1) n_narrow) as [E|E]; cbn [orb] in *.
  - destruct (last_wide r w Hr Hw x _ E) as [_ Hnw]. rewrite Hnw, Hlen', Hks. simpl.
    split_and!; try done; try lia. apply Forall_app_2; [done|apply Forall_singleton; lia].
  - rewrite Hd. destruct ((Z.of_nat i + 1) mod r =? 0) eqn:E2; zbool; rewrite Hlen'; simpl.
    + rewrite Hd in Hc'. split_and!; try done; try lia. apply Forall_app_2; [done|apply Forall_singleton; lia].
    + rewrite Hd, Z.add_0_r in Hc'. rewrite app_nil_r in *. rewrite Z.add_0_r.
      split_and!; try done; try lia; by rewrite ?Z.add_0_r, ?app_nil_r.
Qed.

(** A deserializing bridge, which gathers narrow flits, likewise sends the
    packet on as the same packet: exactly the flits 0 to ceil(size/(r*w))-1 of
    the wide width, in order, the last one possibly of fewer than [r] flits; the
    co-bridge is told for each wide flit how many narrow ones it took, which
    adds up to the flits that came in. *)
Theorem bridge_deserializes_packet W b cb out cout fs q clen csize csent cq :
  0 < id_size x → packet_of x w fs →
  pair_at h co w wide ccur ctarget W b cb out cout →
  counters_at b vc 0 0 0 q → counters_at cb vc clen csize csent cq →
  ∃ W' b' cb' gs ks, fold_res (fun f => flitisizeAndSend consumer_clock f h) fs W = Ok W' ∧
    pair_at h co w wide ccur ctarget W' b' cb' (out ++ gs) cout ∧ packet_of x wide gs ∧
    counters_at b' vc 0 0 0 q ∧ counters_at cb' vc clen csize csent (cq ++ ks) ∧
    length ks = length gs ∧ total ks = Z.of_nat (length fs) ∧ Forall (Z.lt 0) ks.
Proof using Hr Hw.
  intros HS [Hn Hfs] Hpair Hc Hcc.
  assert (0 < n_narrow) by by apply divCeil_pos.
  destruct (fold_res_ok (deserialized q clen csize csent cq out cout)
    (fun f => flitisizeAndSend consumer_clock f h) fs W) as (W' & Hrun & Hend).
  - exists b, cb, [], []. rewrite !app_nil_r. change (Z.of_nat 0) with 0.
    rewrite Z.div_0_l, (proj2 (Z.eqb_neq 0 n_narrow)) by lia. done.
  - intros i f t Hf Ht. apply Hfs in Hf. by apply deserialized_step.
  - destruct Hend as (b' & cb' & gs & ks & Hend). rewrite Hn, Z.eqb_refl in Hend.
    destruct Hend as (Hp & Hg & Hl & Hc' & Hcc' & Hk & Ht & Hf). rewrite <-Hn in Ht.
    exists W', b', cb', gs, ks. done.
Qed.

End packets.

(** ** Credits *)

(** A credit for [vc]; [free] says that the VC is free again. *)
Definition credit (vc : Z) (free : bool) (f : flit) : Prop :=
  m_type f = CREDIT_ ∧ m_is_free_signal f = Some free ∧ m_vc f = vc.

Section credits.
Context (consumer_clock : consumer_ref → ClockEnv).
Context (h co cur target ccur ctarget vc : Z).

Abbreviation pair := (pair_at h co cur target ccur ctarget).
Abbreviation send := (fun f => flitisizeAndSend consumer_clock f h).

Lemma front_credit_cons b len size sent k q :
  counters_at b vc len size sent (k :: q) → 0 < k →
  front_credit (extraCredit b) vc = Ok k ∧
  ∃ extra, pop_credit (extraCredit b) vc = Ok extra ∧ vec_get extra vc = Ok q.
Proof using Type.
  intros (_ & _ & _ & Hq) Hk. unfold front_credit, pop_credit, vec_upd, assert_. rewrite Hq. cbn [rbind].
  rewrite (proj2 (Z.eqb_neq k 0)) by lia. split; [done|].
  destruct (vec_set_get _ _ _ q Hq) as [Hs Hg]. cbn [tail]. rewrite Hs. eauto.
Qed.

(** The flags of the [k] credits made of one. *)
Definition expand_one (k : Z) (free : bool) : list bool := replicate (Z.to_nat k - 1) false ++ [free].

Lemma expand_one_spec k free gs :
  0 < k → length gs = Z.to_nat k →
  (∀ j g, gs !! j = Some g → credit vc ((Z.of_nat j + 1 =? k) && free) g) →
  Forall2 (credit vc) (expand_one k free) gs.
Proof using Type.
  intros Hk Hlen Hg. unfold expand_one. apply Forall2_same_length_lookup.
  rewrite length_app, length_replicate, Hlen. split; [simpl; lia|].
  intros j fl g [Hj|[Hj Hl]]%lookup_app_Some Hgj; apply Hg in Hgj.
  - apply lookup_replicate in Hj as [-> Hj]. by rewrite (proj2 (Z.eqb_neq _ _)) in Hgj by lia.
  - apply list_lookup_singleton_Some in Hl as [Hz <-]. rewrite length_replicate in Hj, Hz.
    by rewrite (proj2 (Z.eqb_eq _ _)) in Hgj by lia.
Qed.

Lemma credit_serialize_step W b cb out cout len size sent k q free f :
  target < cur → pair W b cb out cout → counters_at b vc len size sent (k :: q) → 0 < k → credit vc free f →
  ∃ W' b' gs, send f W = Ok W' ∧ pair W' b' cb (out ++ gs) cout ∧
    Forall2 (credit vc) (expand_one k free) gs ∧ counters_at b' vc len size sent q.
Proof using Type.
  intros Hlt Hpair Hc Hk (Hty & Hfree & Hvc). destruct (front_credit_cons _ _ _ _ _ _ Hc Hk) as (Hfr & extra & Hpop & Hq).
  rewrite (flitisize_pair _ _ _ _ _ _ _ _ _ _ _ _ _ Hpair) by lia. rewrite (proj2 (Z.ltb_ge _ _)) by lia.
  unfold serialize_and_send, serialize_count. rewrite Hty, Hvc, Hfr. cbn [rbind]. rewrite Hpop. cbn [rbind].
  set (b1 := with_counters b _ _ _ _). unfold assert_. rewrite (proj2 (Z.ltb_lt _ _)) by done. cbn [rbind].
  destruct (serialize_loop consumer_clock h co cur target ccur ctarget (put_bridge h b1 W) b1 cb out cout f
    (Z.to_nat k) (serDesLatency b1) (fun j g => credit vc ((j + 1 =? k) && free) g))
    as (W2 & t & gs & Hrun & Hpair2 & Hlen & Hgs).
  { by eapply pair_put. }
  { rewrite Z2Nat.id by lia. intros j Hj. unfold serialize. rewrite Hfree.
    eexists. split; [done|]. intros t. by split_and!. }
  rewrite Z2Nat.id in Hrun by lia. rewrite Hrun. cbn [rbind]. rewrite bool_decide_eq_true_2 by done.
  eexists W2, _, gs. split; [done|]. split; [exact Hpair2|]. split; [by apply expand_one_spec|].
  destruct Hc as (? & ? & ? & _). by split_and!.
Qed.

(** A credit bridge that serializes returns as many credits as flits were
    gathered: given one credit for each wide flit, it sends, for each, the
    number of credits its partner recorded, in order, all of them not free but
    the last, which carries the flag of the incoming credit; the recorded
    numbers are used up. *)
Theorem credit_serializer_exact W b cb out cout len size sent ks rest frees cs :
  target < cur → pair W b cb out cout → counters_at b vc len size sent (ks ++ rest) → Forall (Z.lt 0) ks →
  Forall2 (credit vc) frees cs → length ks = length cs →
  ∃ W' b' gs, fold_res send cs W = Ok W' ∧ pair W' b' cb (out ++ gs) cout ∧
    Forall2 (credit vc) (concat (zip_with expand_one ks frees)) gs ∧ counters_at b' vc len size sent rest.
Proof using Type.
  intros Hlt Hpair Hc Hpos Hcs. revert W b out frees cs Hpair Hc Hcs.
  induction Hpos as [|k ks Hk Hpos IH]; intros W b out frees cs Hpair Hc Hcs Hlen.
  - destruct Hcs; [|done]. exists W, b, []. by rewrite app_nil_r.
  - destruct Hcs as [|free f frees cs Hf Hcs]; [done|]. injection Hlen as Hlen.
    destruct (credit_serialize_step W b cb out cout len size sent k (ks ++ rest) free f)
      as (W1 & b1 & gs & Hs & Hpair1 & Hgs & Hc1); [done..|].
    destruct (IH W1 b1 (out ++ gs) frees cs) as (W2 & b2 & gs2 & Hs2 & Hpair2 & Hgs2 & Hc2); [done..|].
    exists W2, b2, (gs ++ gs2). simpl in *. rewrite Hs. rewrite app_assoc.
    split_and!; [done|done|by apply Forall2_app|done].
Qed.

(** One credit at the deserializer: counted, and passed on if it completes the
    group. *)
Lemma credit_deserialize_step W b cb out cout len size sent k q free f :
  cur < target → pair W b cb out cout → counters_at b vc len size sent (k :: q) → 0 < k → credit vc free f →
  ∃ W' b' gs, send f W = Ok W' ∧ pair W' b' cb (out ++ gs) cout ∧
    if len + 1 =? k then Forall2 (credit vc) [free] gs ∧ counters_at b' vc 0 size sent q
    else gs = [] ∧ counters_at b' vc (len + 1) size sent (k :: q).
Proof using Type.
  intros Hlt Hpair Hc Hk (Hty & Hfree & Hvc). destruct (front_credit_cons _ _ _ _ _ _ Hc Hk) as (Hfr & extra & Hpop & Hq).
  destruct Hc as (Hl & Hs & Hf & Hqb). destruct (vec_set_get _ _ _ (len + 1) Hl) as [El El'].
  rewrite (flitisize_pair _ _ _ _ _ _ _ _ _ _ _ _ _ Hpair) by lia. rewrite (proj2 (Z.ltb_lt _ _)) by lia.
  unfold deserialize_and_send, deserialize_count, vec_upd. rewrite Hty, Hvc, Hl. cbn [rbind]. rewrite El. cbn [rbind].
  rewrite Hfr. cbn [rbind]. rewrite El'. cbn [rbind]. destruct (len + 1 =? k).
  - rewrite Hpop. cbn [rbind]. destruct (vec_set_get _ _ _ 0 El') as [E0 E0']. rewrite E0. cbn [rbind Z.eqb negb].
    set (b1 := with_counters b _ _ _ _). change (vec_get (lenBuffer b1) vc = Ok 0) in E0'.
    rewrite E0'. cbn [rbind]. unfold deserialize. rewrite Hfree. cbn [rbind].
    rewrite bool_decide_eq_true_2 by done. cbn [rbind].
    assert (Hpair1 := pair_put _ _ _ _ _ _ W b b1 _ _ _ Hpair ltac:(done)).
    unfold reset_len at 1, get_bridge at 1. pose proof Hpair1 as (_ & (-> & _) & _). cbn [rbind].
    destruct (vec_set_get _ _ _ 0 E0') as [E1 E1']. rewrite E1. cbn [rbind].
    set (b2 := with_counters b1 _ _ _ _).
    assert (Hpair2 := pair_put _ _ _ _ _ _ _ b1 b2 _ _ _ Hpair1 ltac:(done)).
    destruct (pair_schedule consumer_clock _ _ _ _ _ _ _ _ _ _ _ (Credit_deserialize free f 0 0 target)
      (serDesLatency b1) Hpair2) as (W4 & t & Hsch & Hpair4).
    eexists W4, _, [_]. split; [exact Hsch|]. split; [exact Hpair4|]. split; [|by split_and!].
    constructor; [|done]. unfold Credit_deserialize. rewrite <-Hvc. destruct free; by split_and!.
  - cbn [Z.eqb negb]. set (b1 := with_counters b _ _ _ _).
    exists (put_bridge h b1 W), b1, []. rewrite app_nil_r. split; [done|]. split; [by eapply pair_put|].
    split; [done|]. by split_and!.
Qed.

(** The credits of one group become one, with the flag of the last. *)
Lemma credit_group frees : ∀ W b cb out cout len size sent k q cs,
  cur < target → pair W b cb out cout → counters_at b vc len size sent (k :: q) → 0 ≤ len < k →
  Forall2 (credit vc) frees cs → len + Z.of_nat (length cs) = k →
  ∃ W' b' g free, fold_res send cs W = Ok W' ∧ pair W' b' cb (out ++ [g]) cout ∧
    last frees = Some free ∧ credit vc free g ∧ counters_at b' vc 0 size sent q.
Proof using Type.
  induction frees as [|free frees IH]; intros W b cb out cout len size sent k q cs Hlt Hpair Hc Hlen Hcs Hk.
  { inversion Hcs; subst. simpl in *. lia. }
  inversion Hcs as [|? f ? cs' Hf Hcs']; subst. cbn [length] in *.
  destruct (credit_deserialize_step W b cb out cout len size sent _ q free f Hlt Hpair Hc)
    as (W1 & b1 & gs & Hs & Hpair1 & H1); [lia|done|]. simpl in Hs |- *. rewrite Hs. cbn [rbind].
  destruct (Z.eqb_spec (len + 1) (len + Z.of_nat (S (length cs')))) as [E|E].
  - destruct H1 as [Hgs Hc1]. inversion Hgs as [|? g ? gs' Hg Hnil]; subst. inversion Hnil; subst.
    destruct Hcs'; [|simpl in E; lia]. exists W1, b1, g, free. done.
  - destruct H1 as [-> Hc1]. rewrite app_nil_r in Hpair1.
    destruct (IH W1 b1 cb out cout (len + 1) size sent _ q cs' Hlt Hpair1 Hc1)
      as (W2 & b2 & g & fl & H2 & Hpair2 & Hlast & Hg & Hc2); [lia|done|simpl; lia|].
    exists W2, b2, g, fl. split_and!; try done. destruct frees; [by inversion Hcs'; subst; simpl in E; lia|done].
Qed.

(** A credit bridge that deserializes returns one credit per wide flit:
    when the credits of the narrow flits come back, group by group as its
    partner recorded them, it sends exactly one credit for each group, with the
    flag of the group's last credit. *)
Theorem credit_deserializer_exact W b cb out cout size sent ks rest groups cs :
  cur < target → pair W b cb out cout → counters_at b vc 0 size sent (ks ++ rest) → Forall (Z.lt 0) ks →
  Forall2 (fun k g => Z.of_nat (length g) = k) ks groups → Forall2 (credit vc) (concat groups) cs →
  ∃ W' b' gs, fold_res send cs W = Ok W' ∧ pair W' b' cb (out ++ gs) cout ∧
    Forall2 (fun g o => ∃ free, last g = Some free ∧ credit vc free o) groups gs ∧
    counters_at b' vc 0 size sent rest.
Proof using Type.
  intros Hlt Hpair Hc Hpos Hgr. revert W b out cs Hpair Hc Hpos.
  induction Hgr as [|k frees ks groups Hk Hgr IH]; intros W b out cs Hpair Hc Hpos Hcs.
  - inversion Hcs; subst. exists W, b, []. by rewrite app_nil_r.
  - simpl in Hcs. apply Forall2_app_inv_l in Hcs as (cs1 & cs2 & Hcs1 & Hcs2 & ->).
    apply Forall_cons in Hpos as [Hk0 Hpos]. pose proof (Forall2_length _ _ _ Hcs1) as Hlen.
    destruct (credit_group frees W b cb out cout 0 size sent k (ks ++ rest) cs1)
      as (W1 & b1 & g & fl & H1 & Hpair1 & Hlast & Hg & Hc1); [done|done|done|lia|done|lia|].
    destruct (IH W1 b1 (out ++ [g]) cs2) as (W2 & b2 & gs & H2 & Hpair2 & Hgs & Hc2); [done..|].
    exists W2, b2, (g :: gs). rewrite fold_res_app, H1. cbn [rbind].
    rewrite <-app_assoc in Hpair2. split_and!; [done|done|constructor; [by exists fl|done]|done].
Qed.

End credits.

(** ** Spacing *)

Section spacing.
Context (consumer_clock : consumer_ref → ClockEnv) (h : Z) (k : consumer_ref).

Abbreviation p := (clockPeriod (consumer_clock k)).

(** Every flit is at least one cycle of the consumer after the one before. *)
Fixpoint spaced (last : Z) (fs : list flit) : Prop :=
  match fs with [] => True | f :: fs => last + p ≤ m_time f ∧ spaced (m_time f) fs end.

(** The time of the last flit sent. *)
Fixpoint last_time (last : Z) (fs : list flit) : Z :=
  match fs with [] => last | f :: fs => last_time (m_time f) fs end.

(** The cycles a flit spends in the bridge. *)
Definition bridge_latency (b : NetworkBridge) : Z :=
  let latency := if enSerDes b then serDesLatency b else 0 in
  if enCdc b then latency + cdcLatency b else latency.

Abbreviation edge_of := (fun b => clockEdge (consumer_clock k) (bridge_latency b)).

(** The times [scheduleFlit] computes one after the other. *)
Fixpoint timed (e last : Z) (fs : list flit) : Prop :=
  match fs with
  | [] => True
  | f :: fs => m_time f = Z.max (u64 (last + u64 (p * 1))) e ∧ timed e (m_time f) fs
  end.

Lemma timed_snoc e last fs g :
  timed e last fs → m_time g = Z.max (u64 (last_time last fs + u64 (p * 1))) e →
  timed e last (fs ++ [g]) ∧ last_time last (fs ++ [g]) = m_time g.
Proof using Type.
  revert last. induction fs as [|f fs IH]; intros last; simpl; [done|]. intros [? ?] ?.
  destruct (IH (m_time f)); [done..|]. done.
Qed.

Lemma timed_spaced e last fs :
  timed e last fs → 0 < p → 0 ≤ last → 0 ≤ e → Z.max last e + p * Z.of_nat (length fs) < 2 ^ 64 → spaced last fs.
Proof using Type.
  revert last. induction fs as [|f fs IH]; intros last Ht Hp Hl He Hb; cbn [spaced timed length] in *; [done|].
  destruct Ht as [Hf Ht]. rewrite !u64_small in Hf by (rewrite ?u64_small; lia).
  split; [lia|]. apply IH; [done|done|lia|done|lia].
Qed.

Lemma timed_lower e last fs : timed e last fs → Forall (fun f => e ≤ m_time f) fs.
Proof using Type.
  revert last. induction fs as [|f fs IH]; intros last; [by constructor|]. intros [Hf Ht].
  constructor; [lia|by eapply IH].
Qed.

(** The bridge sent [new]: how the state it keeps for its consumer changed. *)
Definition sent (b0 : NetworkBridge) (l0 : NetworkLink) (s0 : list (consumer_ref * Z)) (new : list flit)
    (W : BridgeWorld) : Prop :=
  ∃ b l, bw_bridges W !! h = Some b ∧ bw_links W !! h = Some l ∧ link_consumer l = Some k ∧
    same_config b0 b ∧ bridge_latency b = bridge_latency b0 ∧ serDesLatency b = serDesLatency b0 ∧ enCdc b = enCdc b0 ∧
    cdcLatency b = cdcLatency b0 ∧
    lastScheduledAt b = last_time (lastScheduledAt b0) new ∧ timed (edge_of b0) (lastScheduledAt b0) new ∧
    m_buffer (linkBuffer l) = m_buffer (linkBuffer l0) ++ new ∧
    bw_scheduled W = s0 ++ ((fun g => (k, m_time g)) <$> new).

Lemma sent_schedule b0 l0 s0 new W W' f :
  sent b0 l0 s0 new W →
  scheduleFlit consumer_clock f (if enSerDes b0 then serDesLatency b0 else 0) h W = Ok W' →
  ∃ g, sent b0 l0 s0 (new ++ [g]) W'.
Proof using Type.
  intros (b & l & Hb & Hl & Hk & (Hco & Hsd & Hnl & Hmt) & Hbl & Hsl & Hcdc & Hcl & Hlast & Ht & Hbuf & Hsch).
  unfold scheduleFlit, get_bridge, get_link. rewrite Hb, Hl. cbn [rbind]. rewrite Hk. cbn [rbind]. cbv zeta.
  intros [= <-]. rewrite Hcdc, Hcl. change (if enCdc b0 then _ else _) with (bridge_latency b0).
  set (t := Z.max _ _). exists (set_time t f).
  destruct (timed_snoc _ _ _ (set_time t f) Ht) as [Ht' Hl']; [simpl; by rewrite <-Hlast|].
  eexists _, _. split; [apply lookup_insert_eq|]. split; [apply lookup_insert_eq|]. simpl.
  rewrite Hl', Hbuf, Hsch, fmap_app, !app_assoc. by split_and!.
Qed.

Lemma sent_put b0 l0 s0 new W b b' :
  sent b0 l0 s0 new W → bw_bridges W !! h = Some b → (∃ len size snt ex, b' = with_counters b len size snt ex) →
  sent b0 l0 s0 new (put_bridge h b' W).
Proof using Type.
  intros (b1 & l & Hb & Hl & Hk & Hrest) Hb' (? & ? & ? & ? & ->). simplify_eq.
  eexists _, l. split; [apply lookup_insert_eq|]. split; [done|]. by split; [|exact Hrest].
Qed.

Lemma sent_neutralize b0 l0 s0 new W W' vc n :
  sent b0 l0 s0 new W → coBridge b0 ≠ Some h → neutralize_co vc n h W = Ok W' → sent b0 l0 s0 new W'.
Proof using Type.
  intros (b & l & Hb & Hl & Hk & Hcfg & Hrest) Hne. pose proof Hcfg as (Hco & _).
  unfold neutralize_co, get_bridge. rewrite Hb. simpl. rewrite Hco.
  destruct (coBridge b0) as [c|] eqn:Ec; [|done]. simpl. unfold neutralize.
  intros (cb & Hcb & (ex & Hex & Heq)%rbind_ok)%rbind_ok. injection Heq as <-.
  exists b, l. simpl. rewrite lookup_insert_ne by congruence. done.
Qed.


(** The counting steps change nothing but the counters. *)
Definition recounted (b b' : NetworkBridge) : Prop := ∃ len size snt ex, b' = with_counters b len size snt ex.

Lemma recounted_refl b : recounted b b.
Proof using Type. exists (lenBuffer b), (sizeSent b), (flitsSent b), (extraCredit b). by destruct b. Qed.

Lemma serialize_count_recounted f cw tw b n b' : serialize_count f cw tw b = Ok (n, b') → recounted b b'.
Proof using Type.
  unfold serialize_count. destruct (m_type f); intros H; inv_res;
    try (destruct (negb _) in *; inv_res); try apply recounted_refl; unfold recounted; eauto.
Qed.

Lemma deserialize_count_recounted f cw tw b n m b' : deserialize_count f cw tw b = Ok (n, m, b') → recounted b b'.
Proof using Type.
  unfold deserialize_count. destruct (m_type f); intros H; inv_res;
    try (destruct (negb _) in *; inv_res); try (destruct (_ =? _) in *; inv_res);
    try apply recounted_refl; unfold recounted; eauto.
Qed.

Lemma sent_serialize b0 l0 s0 W W' f cw tw b :
  sent b0 l0 s0 [] W → coBridge b0 ≠ Some h → enSerDes b0 = true → bw_bridges W !! h = Some b →
  serDesLatency b = serDesLatency b0 →
  serialize_and_send consumer_clock f cw tw h b W = Ok W' → ∃ new, sent b0 l0 s0 new W'.
Proof using Type.
  intros Hs Hco Hsd Hb Hlat. unfold serialize_and_send.
  intros ([n b1] & Hcount & (_ & _ & (W2 & Hloop & Hneu)%rbind_ok)%rbind_ok)%rbind_ok.
  apply serialize_count_recounted in Hcount.
  assert (serDesLatency b1 = if enSerDes b0 then serDesLatency b0 else 0) as El
    by (rewrite Hsd; destruct Hcount as (? & ? & ? & ? & ->); done).
  apply (for_range_inv (fun _ W => ∃ new, sent b0 l0 s0 new W)) in Hloop as (new & Hnew).
  - destruct (bool_decide _); [injection Hneu as <-; by exists new|].
    exists new. by eapply sent_neutralize.
  - exists []. by eapply sent_put.
  - intros i W3 W4 _ (new & Hnew) (g & _ & Hsch)%rbind_ok. rewrite El in Hsch.
    destruct (sent_schedule _ _ _ _ _ _ _ Hnew Hsch) as (g' & ?). eauto.
Qed.

Lemma sent_deserialize b0 l0 s0 W W' f cw tw b :
  sent b0 l0 s0 [] W → coBridge b0 ≠ Some h → enSerDes b0 = true → bw_bridges W !! h = Some b →
  serDesLatency b = serDesLatency b0 →
  deserialize_and_send consumer_clock f cw tw h b W = Ok W' → ∃ new, sent b0 l0 s0 new W'.
Proof using Type.
  intros Hs Hco Hsd Hb Hlat. unfold deserialize_and_send.
  intros ([[n m] b1] & Hcount & H)%rbind_ok. apply deserialize_count_recounted in Hcount.
  assert (serDesLatency b1 = if enSerDes b0 then serDesLatency b0 else 0) as El
    by (rewrite Hsd; destruct Hcount as (? & ? & ? & ? & ->); done).
  assert (sent b0 l0 s0 [] (put_bridge h b1 W)) as Hs1 by by eapply sent_put.
  destruct (negb _); [|injection H as <-; by exists []].
  apply rbind_ok in H as (len & _ & (fl & _ & (W2 & Hneu & (W3 & Hreset & Hsch)%rbind_ok)%rbind_ok)%rbind_ok).
  assert (sent b0 l0 s0 [] W2) as Hs2.
  { destruct (bool_decide _); [injection Hneu as <-; done|by eapply sent_neutralize]. }
  unfold reset_len, get_bridge in Hreset. pose proof Hs2 as (b2 & l2 & Hb2 & _). rewrite Hb2 in Hreset.
  apply rbind_ok in Hreset as (? & [= <-] & (? & _ & [= <-])%rbind_ok). rewrite El in Hsch.
  eapply sent_schedule in Hsch as (g & Hg); [eauto|]. eapply sent_put; [done|done|eauto].
Qed.

(** A bridge sends at most one flit per cycle of its consumer and never
    early: the flits one call of [flitisizeAndSend] adds to the link buffer come
    no earlier than the bridge's latency from now, each at least one consumer
    cycle after the one before and after the last flit of earlier calls; and the
    consumer is scheduled for exactly the times of these flits. *)
Theorem bridge_spaces_flits W W' f b l :
  bw_bridges W !! h = Some b → coBridge b ≠ Some h → bw_links W !! h = Some l → link_consumer l = Some k →
  flitisizeAndSend consumer_clock f h W = Ok W' →
  ∃ b' l' new, bw_bridges W' !! h = Some b' ∧ bw_links W' !! h = Some l' ∧
    m_buffer (linkBuffer l') = m_buffer (linkBuffer l) ++ new ∧
    bw_scheduled W' = bw_scheduled W ++ ((fun g => (k, m_time g)) <$> new) ∧
    lastScheduledAt b' = last_time (lastScheduledAt b) new ∧
    Forall (fun g => clockEdge (consumer_clock k) (bridge_latency b) ≤ m_time g) new ∧
    (0 < p → 0 ≤ lastScheduledAt b →
     Z.max (lastScheduledAt b) (clockEdge (consumer_clock k) (bridge_latency b)) + p * Z.of_nat (length new) < 2 ^ 64 →
     spaced (lastScheduledAt b) new).
Proof using Type.
  intros Hb Hco Hl Hk Hrun.
  assert (sent b l (bw_scheduled W) [] W) as Hs.
  { exists b, l. simpl. rewrite !app_nil_r. by split_and!. }
  assert (∃ new, sent b l (bw_scheduled W) new W') as (new & b' & l' & Hb' & Hl' & _ & _ & _ & _ & _ & _ & Hlast & Ht & Hbuf & Hsch).
  { unfold flitisizeAndSend, get_bridge in Hrun. rewrite Hb in Hrun. cbn [rbind] in Hrun.
    destruct (enSerDes b) eqn:Esd.
    - apply rbind_ok in Hrun as (l1 & _ & (l2 & _ & Hrun)%rbind_ok). destruct (bridge_widths b l1 l2) as [cw tw].
      apply rbind_ok in Hrun as (_ & _ & Hrun). destruct (cw <? tw);
        [by eapply sent_deserialize|by eapply sent_serialize].
    - eapply (sent_schedule b l (bw_scheduled W) [] W W' f) in Hs as (g & Hg); [by exists [g]|].
      by rewrite Esd. }
  exists b', l', new. split_and!; [done..|by eapply timed_lower|].
  intros Hp H0 Hbound. eapply timed_spaced; [done|done|done|apply u64_range|done].
Qed.

End spacing.

(** ** Examples *)

(** A flit bridge 10 on the link 20 and a credit bridge 11 on the link 21,
    between an object of width [ow] and links of width 16. *)
Definition ex_clk : consumer_ref → ClockEnv := fun _ => ex_clock.

Definition flip (t : CDCType) : CDCType := match t with LINK_OBJECT => OBJECT_LINK | OBJECT_LINK => LINK_OBJECT end.

Definition ex_bridges (ow : Z) (t : CDCType) (ratios : list Z) : res BridgeWorld :=
  let ls := <[20 := new_NetworkLink 20 1 1 [] 16]> (<[21 := new_NetworkLink 21 1 1 [] 16]> ∅) in
  let w := {| bw_bridges := ∅; bw_links := ls; bw_scheduled := [] |} in
  let* w := new_NetworkBridge (new_NetworkLink 10 1 1 [] ow) t 1 1 20 10 w in
  let* w := new_NetworkBridge (new_NetworkLink 11 1 1 [] ow) (flip t) 1 1 21 11 w in
  let* w := initBridge 11 true true 10 w in
  let* w := initBridge 10 true true 11 w in
  let* w := bridge_setVcsPerVnet 2 10 w in
  let* w := bridge_setVcsPerVnet 2 11 w in
  let end_ := match t with LINK_OBJECT => 10 | OBJECT_LINK => 11 end in
  let* ls := upd_link_at end_ (setLinkConsumer (ConsNI 3)) (bw_links w) in
  fold_res (fun k w => neutralize 1 k 11 w) ratios (with_bw_links w ls).

Definition ex_bw (t : CDCType) (ratios : list Z) : BridgeWorld :=
  match ex_bridges 32 t ratios with Ok w => w | Err _ => {| bw_bridges := ∅; bw_links := ∅; bw_scheduled := [] |} end.

Lemma ex_pair_out ratios :
  ratios = [] ∨ ratios = [2; 1] →
  ∃ b cb, pair_at 10 11 32 16 16 32 (ex_bw OBJECT_LINK ratios) b cb [] [] ∧
    counters_at b 1 0 0 0 [] ∧ counters_at cb 1 0 0 0 ratios ∧
    pair_at 11 10 16 32 32 16 (ex_bw OBJECT_LINK ratios) cb b [] [].
Proof.
  intros [-> | ->]; eexists _, _;
    (split; [split; [done|]; split; (split; [vm_compute; reflexivity|]; split; [vm_compute; reflexivity|];
       split; [vm_compute; reflexivity|]; eexists _, _, _; split_and!; vm_compute; reflexivity)|]);
    (split; [split_and!; vm_compute; reflexivity|]; split; [split_and!; vm_compute; reflexivity|]);
    (split; [done|]; split; (split; [vm_compute; reflexivity|]; split; [vm_compute; reflexivity|];
       split; [vm_compute; reflexivity|]; eexists _, _, _; split_and!; vm_compute; reflexivity)).
Qed.

Lemma ex_pair_in ratios :
  ratios = [] ∨ ratios = [2; 1] →
  ∃ b cb, pair_at 10 11 16 32 32 16 (ex_bw LINK_OBJECT ratios) b cb [] [] ∧
    counters_at b 1 0 0 0 [] ∧ counters_at cb 1 0 0 0 ratios ∧
    pair_at 11 10 32 16 16 32 (ex_bw LINK_OBJECT ratios) cb b [] [].
Proof.
  intros [-> | ->]; eexists _, _;
    (split; [split; [done|]; split; (split; [vm_compute; reflexivity|]; split; [vm_compute; reflexivity|];
       split; [vm_compute; reflexivity|]; eexists _, _, _; split_and!; vm_compute; reflexivity)|]);
    (split; [split_and!; vm_compute; reflexivity|]; split; [split_and!; vm_compute; reflexivity|]);
    (split; [done|]; split; (split; [vm_compute; reflexivity|]; split; [vm_compute; reflexivity|];
       split; [vm_compute; reflexivity|]; eexists _, _, _; split_and!; vm_compute; reflexivity)).
Qed.

(** A message of 72 bytes on VC 1: three flits of width 32, five of width 16. *)
Definition ex_packet (width : Z) : list flit :=
  map (fun i => set_src_delay (Some 3) (new_flit 7 i 1 0 new_RouteInfo (divCeil 72 width) (Some 40) 72 width 400))
    (seqZ 0 (divCeil 72 width)).

Definition ex_ident : Ident :=
  {| id_packet := 7; id_vnet := 0; id_vc := 1; id_route := new_RouteInfo; id_msg := Some 40; id_size := 72;
     id_enqueue := 400; id_delay := Some 3 |}.

Lemma ex_packet_of width : 0 < width → packet_of ex_ident width (ex_packet width).
Proof.
  intros Hw. assert (0 < divCeil 72 width) by by apply divCeil_pos. unfold ex_packet. split.
  - rewrite length_map, length_seqZ, Z2Nat.id by lia. done.
  - intros j f (i & -> & Hi)%list_lookup_fmap_Some. apply lookup_seqZ in Hi as [-> Hj]. by repeat split; simpl; try lia.
Qed.

Lemma bridge_serializes_packet_witness :
  ∃ W' gs ks, fold_res (fun f => flitisizeAndSend ex_clk f 10) (ex_packet 32) (ex_bw OBJECT_LINK []) = Ok W' ∧
    packet_of ex_ident 16 gs ∧ length gs = 5%nat ∧ ks = [2; 2; 1].
Proof.
  destruct (ex_pair_out [] (or_introl eq_refl)) as (b & cb & Hp & Hb & Hcb & _).
  destruct (bridge_serializes_packet ex_clk 2 16 ltac:(lia) ltac:(lia) ex_ident 10 11 16 32 (ex_bw OBJECT_LINK []) b cb
    [] [] (ex_packet 32) 0 0 [] 0 0 0 [] ltac:(simpl; lia) (ex_packet_of 32 ltac:(lia)) Hp Hb Hcb)
    as (W' & b' & cb' & gs & ks & Hrun & _ & Hgs & _ & _ & Hks & Htot & _).
  exists W', gs, ks. pose proof (proj1 Hgs) as Hlen. change (divCeil (id_size ex_ident) 16) with 5 in Hlen.
  split; [exact Hrun|]. split; [exact Hgs|]. split; [lia|]. rewrite Hks. vm_compute. reflexivity.
Defined.

Lemma bridge_deserializes_packet_witness :
  ∃ W' gs ks, fold_res (fun f => flitisizeAndSend ex_clk f 10) (ex_packet 16) (ex_bw LINK_OBJECT []) = Ok W' ∧
    packet_of ex_ident 32 gs ∧ length gs = 3%nat ∧ length ks = 3%nat ∧ lsum (fun k => k) ks = 5.
Proof.
  destruct (ex_pair_in [] (or_introl eq_refl)) as (b & cb & Hp & Hb & Hcb & _).
  destruct (bridge_deserializes_packet ex_clk 2 16 ltac:(lia) ltac:(lia) ex_ident 10 11 32 16 (ex_bw LINK_OBJECT []) b cb
    [] [] (ex_packet 16) [] 0 0 0 [] ltac:(simpl; lia) (ex_packet_of 16 ltac:(lia)) Hp Hb Hcb)
    as (W' & b' & cb' & gs & ks & Hrun & _ & Hgs & _ & _ & Hks & Htot & _).
  exists W', gs, ks. pose proof (proj1 Hgs) as Hlen. change (divCeil (id_size ex_ident) (2 * 16)) with 3 in Hlen.
  split; [exact Hrun|]. split; [exact Hgs|]. split; [lia|]. split; [rewrite Hks; lia|]. rewrite Htot.
  vm_compute. reflexivity.
Defined.

Lemma ex_credits frees : Forall2 (credit 1) frees (map (fun free => new_Credit 1 free 400) frees).
Proof. induction frees as [|free frees IH]; simpl; [by constructor|]. constructor; [by split_and!|exact IH]. Qed.

Lemma credit_serializer_exact_witness :
  ∃ W' gs, fold_res (fun f => flitisizeAndSend ex_clk f 11) (map (fun free => new_Credit 1 free 400) [false; true])
             (ex_bw LINK_OBJECT [2; 1]) = Ok W' ∧ Forall2 (credit 1) [false; false; true] gs.
Proof.
  destruct (ex_pair_in [2; 1] (or_intror eq_refl)) as (b & cb & _ & Hb & Hcb & Hp).
  destruct (credit_serializer_exact ex_clk 11 10 32 16 16 32 1 (ex_bw LINK_OBJECT [2; 1]) cb b [] [] 0 0 0 [2; 1] []
    [false; true] (map (fun free => new_Credit 1 free 400) [false; true]) ltac:(lia) Hp Hcb
    ltac:(repeat constructor) (ex_credits [false; true]) eq_refl) as (W' & b' & gs & Hrun & _ & Hgs & _).
  exists W', gs. split; [exact Hrun|exact Hgs].
Defined.

Lemma credit_deserializer_exact_witness :
  ∃ W' g1 g2, fold_res (fun f => flitisizeAndSend ex_clk f 11)
      (map (fun free => new_Credit 1 free 400) [false; false; true]) (ex_bw OBJECT_LINK [2; 1]) = Ok W' ∧
    credit 1 false g1 ∧ credit 1 true g2.
Proof.
  destruct (ex_pair_out [2; 1] (or_intror eq_refl)) as (b & cb & _ & Hb & Hcb & Hp).
  destruct (credit_deserializer_exact ex_clk 11 10 16 32 32 16 1 (ex_bw OBJECT_LINK [2; 1]) cb b [] [] 0 0 [2; 1] []
    [[false; false]; [true]] (map (fun free => new_Credit 1 free 400) [false; false; true]) ltac:(lia) Hp Hcb
    ltac:(repeat constructor) ltac:(repeat constructor) (ex_credits [false; false; true]))
    as (W' & b' & gs & Hrun & _ & Hgs & _).
  inversion Hgs as [|? g1 ? gs1 (f1 & E1 & H1) Hgs1]; subst. inversion Hgs1 as [|? g2 ? gs2 (f2 & E2 & H2) _]; subst.
  injection E1 as <-. injection E2 as <-. exists W', g1, g2. split; [exact Hrun|]. split; [exact H1|exact H2].
Defined.

(** The first wide flit becomes two narrow ones, due one latency of two cycles
    from tick 500 and one cycle later. *)
Definition ex_head : flit := set_src_delay (Some 3) (new_flit 7 0 1 0 new_RouteInfo 3 (Some 40) 72 32 400).
Definition ex_sent : BridgeWorld :=
  match flitisizeAndSend ex_clk ex_head 10 (ex_bw OBJECT_LINK []) with Ok w => w | Err _ => ex_bw OBJECT_LINK [] end.

Lemma bridge_spaces_flits_witness :
  ∃ g1 g2, bw_scheduled ex_sent = [(ConsLink 20, m_time g1); (ConsLink 20, m_time g2)] ∧
    m_time g1 = 1500 ∧ m_time g2 = 2000 ∧ spaced ex_clk (ConsLink 20) 0 [g1; g2].
Proof.
  destruct (bw_bridges (ex_bw OBJECT_LINK []) !! 10) as [b|] eqn:Eb; [|vm_compute in Eb; discriminate Eb].
  destruct (bw_links (ex_bw OBJECT_LINK []) !! 10) as [l|] eqn:El; [|vm_compute in El; discriminate El].
  assert (coBridge b = Some 11 ∧ lastScheduledAt b = 0 ∧ bridge_latency b = 2) as (Hco & Hlast & Hlat).
  { vm_compute in Eb. injection Eb as <-. split; [|split]; reflexivity. }
  assert (link_consumer l = Some (ConsLink 20)) as Hk by (vm_compute in El; injection El as <-; reflexivity).
  destruct (bridge_spaces_flits ex_clk 10 (ConsLink 20) (ex_bw OBJECT_LINK []) ex_sent ex_head b l)
    as (b' & l' & new & _ & _ & _ & Hsch & _ & _ & Hsp);
    [exact Eb|rewrite Hco; discriminate|exact El|exact Hk|vm_compute; reflexivity|].
  assert (bw_scheduled ex_sent = [(ConsLink 20, 1500); (ConsLink 20, 2000)]) as E by (vm_compute; reflexivity).
  assert (bw_scheduled (ex_bw OBJECT_LINK []) = []) as E0 by (vm_compute; reflexivity).
  rewrite E, E0 in Hsch. rewrite E. destruct new as [|g1 [|g2 [|g3 new]]]; simpl in Hsch; try discriminate Hsch.
  injection Hsch as E1 E2. rewrite Hlast, Hlat in Hsp.
  exists g1, g2. rewrite <-E1, <-E2. split; [reflexivity|]. split; [reflexivity|]. split; [reflexivity|].
  apply Hsp; [reflexivity|lia|vm_compute; reflexivity].
Defined.

(** When the wide flits are not a whole number of narrow ones the serializer
    does not work: two flits of width 24 carry a message of 48 bytes, the three
    flits of width 16 it should become get the numbers 0, 2 and 3, and the
    assertion on the number of the last one fails. *)
Example nonintegral_widths_abort :
  (let* w := ex_bridges 24 OBJECT_LINK [] in
   fold_res (fun f => flitisizeAndSend ex_clk f 10)
     (map (fun i => new_flit 7 i 1 0 new_RouteInfo 2 (Some 40) 48 24 400) [0; 1]) w)
  = Err (EAssert "serialize: new_id < new_size").
Proof. vm_compute. reflexivity. Qed.
