(* ===== verification/Fabric.v ===== *)
(** * The whole network as a transition system

    Routers, interfaces, links and bridges are connected by handles: a link reads
    the queue its [link_srcQueue] names and schedules the object its
    [link_consumer] names. This file puts the components together. [fire] is what
    the event queue does with the event of one consumer (the event of a router,
    an output unit, an interface, a link or a bridge); the network moves by such
    events, by [globalWakeup], and by what the protocol does to its buffers. *)

From S2P Require Import Prelude IntMath Clocked Consumer WakeupRing MessageBuffer NetDest Flit RoutingUnit VirtualChannel NetworkLink.
From S2P Require Import InputUnit OutputUnit SwitchAllocator Router RouterFrame GarnetNetwork NetworkInterface NetworkBridge.

(** ** State

    Routers and interfaces are found by their ids, which are their positions.
    The links are those of the network; the links of [y_world] are not used. *)
Record System := {
  y_net : GarnetNetwork;
  y_nis : list NetworkInterface;
  y_bridges : gmap Z NetworkBridge;
  y_world : World
}.

Definition with_net (s : System) (n : GarnetNetwork) : System :=
  {| y_net := n; y_nis := y_nis s; y_bridges := y_bridges s; y_world := y_world s |}.
Definition with_interfaces (s : System) (nis : list NetworkInterface) : System :=
  {| y_net := y_net s; y_nis := nis; y_bridges := y_bridges s; y_world := y_world s |}.
Definition with_world (s : System) (w : World) : System :=
  {| y_net := y_net s; y_nis := y_nis s; y_bridges := y_bridges s; y_world := w |}.
Definition with_bridges (s : System) (bs : gmap Z NetworkBridge) : System :=
  {| y_net := y_net s; y_nis := y_nis s; y_bridges := bs; y_world := y_world s |}.

Definition y_routers (s : System) : list Router := m_routers (y_net s).
Definition y_links (s : System) : Links := n_links (y_net s).

Definition with_routers (s : System) (rs : list Router) : System :=
  let n := y_net s in with_net s (with_region n (n_ring n) rs (n_links n) (n_consumers n) (m_deferred_schedules n)).
Definition with_links (s : System) (ls : Links) : System :=
  let n := y_net s in with_net s (with_region n (n_ring n) (m_routers n) ls (n_consumers n) (m_deferred_schedules n)).
Definition with_ring (s : System) (ring : Ring) : System :=
  let n := y_net s in with_net s (with_region n ring (m_routers n) (n_links n) (n_consumers n) (m_deferred_schedules n)).
Definition with_consumers (s : System) (cs : gmap consumer_ref Consumer) : System :=
  let n := y_net s in with_net s (with_region n (n_ring n) (m_routers n) (n_links n) cs (m_deferred_schedules n)).

(** ** What a pointer to a Consumer or to a queue leads to *)

#[export] Instance queue_ref_eq_dec : EqDecision queue_ref.
Proof. solve_decision. Defined.

Definition get_consumer (c : consumer_ref) (s : System) : res Consumer :=
  match c with
  | ConsRouter id => let* r := vec_get (y_routers s) id in Ok (consumer_of r)
  | ConsNI id => let* n := vec_get (y_nis s) id in Ok (ni_consumer n)
  | _ => match n_consumers (y_net s) !! c with Some k => Ok k | None => Err EOutOfRange end
  end.

Definition put_consumer (c : consumer_ref) (k : Consumer) (s : System) : res System :=
  match c with
  | ConsRouter id => let* rs := vec_upd (y_routers s) id (fun r => Ok (set_consumer k r)) in Ok (with_routers s rs)
  | ConsNI id => let* nis := vec_upd (y_nis s) id (fun n => Ok (with_niconsumer n k)) in Ok (with_interfaces s nis)
  | _ => Ok (with_consumers s (<[c := k]> (n_consumers (y_net s))))
  end.

Definition get_queue (q : queue_ref) (s : System) : res flitBuffer :=
  match q with
  | QRouterOut id p => let* r := vec_get (y_routers s) id in let* o := vec_get (m_output_unit r) p in Ok (outBuffer o)
  | QRouterCredit id p => let* r := vec_get (y_routers s) id in let* u := vec_get (m_input_unit r) p in Ok (creditQueue u)
  | QNIOut id p => let* n := vec_get (y_nis s) id in let* o := vec_get (outPorts n) p in Ok (outFlitQueue o)
  | QNICredit id p => let* n := vec_get (y_nis s) id in let* i := vec_get (inPorts n) p in Ok (outCreditQueue i)
  | QLink h => let* l := get_link h (y_links s) in Ok (linkBuffer l)
  end.

Definition with_credit_queue (p : InputPort) (q : flitBuffer) : InputPort :=
  upd_inport p q (m_stall_queue p) (messageEnqueuedThisCycle p).

Definition put_queue (q : queue_ref) (b : flitBuffer) (s : System) : res System :=
  match q with
  | QRouterOut id p =>
      let* rs := vec_upd (y_routers s) id (fun r =>
        let* os := vec_upd (m_output_unit r) p (fun o => Ok (with_outBuffer o b)) in
        Ok (with_units r (core r) (m_input_unit r) os)) in
      Ok (with_routers s rs)
  | QRouterCredit id p =>
      let* rs := vec_upd (y_routers s) id (fun r =>
        let* us := vec_upd (m_input_unit r) p (fun u => Ok (with_creditQueue u b)) in
        Ok (with_units r (core r) us (m_output_unit r))) in
      Ok (with_routers s rs)
  | QNIOut id p =>
      let* nis := vec_upd (y_nis s) id (fun n =>
        let* ps := vec_upd (outPorts n) p (fun o => Ok (with_outFlitQueue o b)) in Ok (with_outPorts n ps)) in
      Ok (with_interfaces s nis)
  | QNICredit id p =>
      let* nis := vec_upd (y_nis s) id (fun n =>
        let* ps := vec_upd (inPorts n) p (fun i => Ok (with_credit_queue i b)) in
        Ok (with_inPorts n ps (ni_stall_count n))) in
      Ok (with_interfaces s nis)
  | QLink h => let* ls := upd_link_at h (fun l => with_linkBuffer l b) (y_links s) in Ok (with_links s ls)
  end.

(** An object together with its Consumer base. *)
#[export] Instance pair_has_consumer {Y} : HasConsumer (Consumer * Y) :=
  {| consumer_of := fst; set_consumer k x := (k, snd x); consumer_of_set k x := eq_refl |}.

(** ** Events *)

Section fabric.
(** The system and its configuration, the clock periods of the objects, the
    state of the random number generators. *)
Context (rs : RubySystem) (cfg : NetConfig) (ctrl_size data_size : Z) (router_of : Z → Z → res Z).
Context (period_of : consumer_ref → Z) (ruby_is_random ruby_warmup : bool).

Section event.
(** The current tick on the network's clock; what the random number generators
    return during the event. *)
Context (env : ClockEnv) (rnd : Z → Z → Z) (rt : Z → Z).

Abbreviation clock := (consumer_env env period_of).

(** [c->scheduleEventAbsolute(tick)] *)
Definition sys_schedule (e : consumer_ref * Z) (s : System) : res System :=
  let '(c, tick) := e in
  let* k := get_consumer c s in
  let* k := scheduleEventAbsolute (clock c) tick k in
  put_consumer c k s.

(** A router has run outside of a parallel region: its calls take effect. *)
Definition settle_router (id : Z) (r : Router) (ls : Links) (s : System) : res System :=
  let c := core r in
  let* rs := vec_set (y_routers s) id (with_core_of r (with_core c (routingUnit c) (r_consumer c) [])) in
  let* ' (ring, cs) := fold_res (apply_effect env period_of) (r_effects c) (n_ring (y_net s), n_consumers (y_net s)) in
  Ok (with_consumers (with_ring (with_links (with_routers s rs) ls) ring) cs).

(** A call out of an interface; what wakes a protocol controller is outside. *)
Definition apply_ni_effect (e : ni_effect) (s : System) : res System :=
  match e with
  | NiSchedule c tick => sys_schedule (c, tick) s
  | NiRegister id tick => Ok (with_ring s (registerWakeup (clockPeriod env) id tick (n_ring (y_net s))))
  | NiBufferWakeup _ _ | NiCallback _ => Ok s
  end.

Definition clear_ni_effects (w : World) : World :=
  {| w_links := w_links w; w_buffers := w_buffers w; w_messages := w_messages w; w_next_message := w_next_message w;
     m_next_packet_id := m_next_packet_id w; m_data_traffic := m_data_traffic w; m_ctrl_traffic := m_ctrl_traffic w;
     w_effects := [] |}.

Definition wake_router (id : Z) (s : System) : res System :=
  let* r := vec_get (y_routers s) id in
  let* ' (r, ls) := router_wakeup cfg (clock (ConsRouter id)) (rnd id) r (y_links s) in
  settle_router id r ls s.

Definition wake_output_unit (id port : Z) (s : System) : res System :=
  let* r := vec_get (y_routers s) id in
  let* ' (r, ls) := wake_output (clock (ConsOutputUnit id port)) port (r, y_links s) in
  settle_router id r ls s.

Definition wake_ni (id : Z) (s : System) : res System :=
  let* n := vec_get (y_nis s) id in
  let* ' (n, w) := ni_wakeup rs cfg ctrl_size data_size router_of ruby_is_random ruby_warmup rt (clock (ConsNI id)) n
                     (with_w_links (clear_ni_effects (y_world s)) (y_links s)) in
  let* nis := vec_set (y_nis s) id n in
  fold_res apply_ni_effect (w_effects w) (with_world (with_links (with_interfaces s nis) (w_links w)) w).

(** A link or a bridge moves flits from its source queue. *)
Definition wake_link (h : Z) (s : System) : res System :=
  let* l := get_link h (y_links s) in
  let* q := match link_srcQueue l with Some q => Ok q | None => Err (EAssert "link_srcQueue != nullptr") end in
  let* srcq := get_queue q s in
  let* k := get_consumer (ConsLink h) s in
  match y_bridges s !! h with
  | None =>
      let* ' (k, l, srcq, sched) := link_wakeup (clock (ConsLink h)) k l srcq in
      let* s := put_queue q srcq (with_links s (<[h := l]> (y_links s))) in
      let* s := put_consumer (ConsLink h) k s in
      fold_res sys_schedule (match sched with Some e => [e] | None => [] end) s
  | Some _ =>
      let* ' (k, srcq, w) := bridge_wakeup clock (clock (ConsLink h)) k h srcq
                               {| bw_bridges := y_bridges s; bw_links := y_links s; bw_scheduled := [] |} in
      let* s := put_queue q srcq (with_links (with_bridges s (bw_bridges w)) (bw_links w)) in
      let* s := put_consumer (ConsLink h) k s in
      fold_res sys_schedule (bw_scheduled w) s
  end.

(** The virtual call [wakeup()] *)
Definition wakeup_of (c : consumer_ref) (s : System) : res System :=
  match c with
  | ConsRouter id => wake_router id s
  | ConsOutputUnit id port => wake_output_unit id port s
  | ConsNI id => wake_ni id s
  | ConsLink h => wake_link h s
  end.

(** The event of a consumer: [Consumer::processCurrentEvent] on the object. *)
Definition fire (c : consumer_ref) (s : System) : res System :=
  let* k := get_consumer c s in
  let* ' (k, s) := processCurrentEvent (fun x : Consumer * System =>
    let* s := put_consumer c (fst x) (snd x) in
    let* s := wakeup_of c s in
    let* k := get_consumer c s in
    Ok (k, s)) (clock c) (k, s) in
  put_consumer c k s.

End event.

(** ** Steps

    The event of a consumer or of the network is served at the tick it is
    scheduled for; the protocol uses its buffers, and schedules an interface when
    it enqueues a message for it or dequeues one it waits for. *)
Inductive sys_step : System → System → Prop :=
  | step_event env rnd rt c k s s' :
      get_consumer c s = Ok k → m_wakeup_event k = Some (curTick env) →
      fire env rnd rt c s = Ok s' → sys_step s s'
  | step_global env s n' :
      globalWakeupEvent (y_net s) = Some (curTick env) →
      globalWakeup cfg env period_of (y_net s) n' → sys_step s (with_net s n')
  | step_protocol s w : sys_step s (with_world s w)
  | step_notify env id tick s s' : sys_schedule env (ConsNI id, tick) s = Ok s' → sys_step s s'.

End fabric.
