(* ===== verification/FlowControl.v ===== *)
(** * Flow control: no buffer overflows

    A hop goes from an output port of a router, or from a network interface, over
    a link to an input port of a router or of an interface; credits come back
    over a second link. For every virtual channel of a hop, the credits the
    sender holds, the flits it has in flight, the flits the receiver keeps and
    the credits on their way back always add up to the same number, the size of
    the receiver's buffer, whatever the order of events and however the workers of
    the parallel region are interleaved. So no buffer is ever asked to take more
    flits than it has places, although the input buffers themselves are
    unbounded queues and nothing checks their size. *)

From S2P Require Import Prelude IntMath Clocked Consumer WakeupRing MessageBuffer NetDest Flit RoutingUnit VirtualChannel NetworkLink.
From S2P Require Import InputUnit OutputUnit SwitchAllocator Router RouterFrame Interleave GarnetNetwork Parallel CreditFlow NetworkInterface NiCredit NetworkBridge Fabric.

(** ** Hops *)

(** An interface that sends has one output port. *)
Inductive sender := FromRouter (id port : nat) | FromNI (id : nat).
Inductive receiver := ToRouter (id port : nat) | ToNI (id port : nat).

Record Hop := { hop_from : sender; hop_to : receiver; hop_link : Z; hop_credit : Z }.

(** Who takes flits or credits from a link: a port, or another link. *)
Inductive reader :=
  | ReadIn (id port : nat)
  | ReadCredit (id port : nat)
  | ReadNIIn (id port : nat)
  | ReadNICredit (id port : nat)
  | ReadLink (h : Z).

Definition port_of (ports : list (list Z)) (id port : nat) : option Z := ports !! id ≫= (.!! port).

Definition reads (s : System) (x : reader) (h : Z) : Prop :=
  match x with
  | ReadIn id p => port_of (map in_links (y_routers s)) id p = Some h
  | ReadCredit id p => port_of (map in_credits (y_routers s)) id p = Some h
  | ReadNIIn id p => port_of (map ni_in_links (y_nis s)) id p = Some h
  | ReadNICredit id p => port_of (map ni_in_credits (y_nis s)) id p = Some h
  | ReadLink h' => srcs_at (y_links s) h' = Some (QLink h)
  end.

Definition credit_reader (e : sender) : reader :=
  match e with FromRouter id p => ReadCredit id p | FromNI id => ReadNICredit id 0 end.
Definition flit_reader (e : receiver) : reader :=
  match e with ToRouter id p => ReadIn id p | ToNI id p => ReadNIIn id p end.

(** The queues of a sender's flits and of a receiver's credits. *)
Definition flits_of (e : sender) (q : queue_ref) : bool :=
  match e, q with
  | FromRouter id p, QRouterOut id' p' => (id' =? Z.of_nat id) && (p' =? Z.of_nat p)
  | FromNI id, QNIOut id' _ => id' =? Z.of_nat id
  | _, _ => false
  end.
Definition credits_of (e : receiver) (q : queue_ref) : bool :=
  match e, q with
  | ToRouter id p, QRouterCredit id' p' | ToNI id p, QNICredit id' p' => (id' =? Z.of_nat id) && (p' =? Z.of_nat p)
  | _, _ => false
  end.

(** The two links of the hop are its own: only the receiver takes flits from the
    first and only the sender takes credits from the second, only the first takes
    the sender's flits and only the second takes the receiver's credits, and
    neither is a bridge. *)
Record hop_wired (H : Hop) (s : System) : Prop := {
  hw_flits x : reads s x (hop_link H) ↔ x = flit_reader (hop_to H);
  hw_credits x : reads s x (hop_credit H) ↔ x = credit_reader (hop_from H);
  hw_source h q : srcs_at (y_links s) h = Some q → flits_of (hop_from H) q = true ↔ h = hop_link H;
  hw_back h q : srcs_at (y_links s) h = Some q → credits_of (hop_to H) q = true ↔ h = hop_credit H;
  hw_single : match hop_from H with
              | FromNI id => map ni_in_credits (y_nis s) !! id = Some [hop_credit H]
              | FromRouter _ _ => True
              end;
  hw_plain : (hop_link H ∉ dom (y_bridges s)) ∧ (hop_credit H ∉ dom (y_bridges s))
}.

(** ** The sums *)

Definition sender_held (v : Z) (e : sender) (s : System) : Z :=
  match e with
  | FromRouter id p => vat (out_held v (Z.of_nat p)) (y_routers s) (Z.of_nat id)
  | FromNI id => vat (ni_out_held v) (y_nis s) (Z.of_nat id)
  end.
Definition receiver_held (v : Z) (e : receiver) (s : System) : Z :=
  match e with
  | ToRouter id p => vat (in_held v (Z.of_nat p)) (y_routers s) (Z.of_nat id)
  | ToNI id p => vat (ni_in_held v (Z.of_nat p)) (y_nis s) (Z.of_nat id)
  end.

Definition hop_total (v : Z) (H : Hop) (s : System) : Z :=
  sender_held v (hop_from H) s + on_link v (hop_link H) (y_links s)
  + receiver_held v (hop_to H) s + on_link v (hop_credit H) (y_links s).

(** The credit counters of a sender. *)
Definition sender_vcs (e : sender) (s : System) : list OutVcState :=
  match e with
  | FromRouter id p =>
      match y_routers s !! id ≫= (fun r => m_output_unit r !! p) with Some o => outVcState o | None => [] end
  | FromNI id => match y_nis s !! id with Some n => ni_outVcState n | None => [] end
  end.

Definition all_tagged (s : System) : Prop := Forall tagged (y_nis s).

(** ** What a step keeps *)

Record same_layout (s s' : System) : Prop := {
  sl_in : map in_links (y_routers s') = map in_links (y_routers s);
  sl_credits : map in_credits (y_routers s') = map in_credits (y_routers s);
  sl_ni_in : map ni_in_links (y_nis s') = map ni_in_links (y_nis s);
  sl_ni_credits : map ni_in_credits (y_nis s') = map ni_in_credits (y_nis s);
  sl_ends : same_ends (y_links s) (y_links s');
  sl_bridges : dom (y_bridges s') = dom (y_bridges s)
}.

#[export] Instance same_layout_preorder : PreOrder same_layout.
Proof. split; [by split|]. intros s1 s2 s3 [] []. split; [congruence..|by etrans|congruence]. Qed.

Lemma same_layout_reads s s' x h : same_layout s s' → reads s' x h ↔ reads s x h.
Proof.
  intros [E1 E2 E3 E4 He _]. destruct x; simpl; rewrite ?E1, ?E2, ?E3, ?E4; [done..|].
  by destruct (He h0) as [_ ->].
Qed.

Lemma hop_wired_layout H s s' : same_layout s s' → hop_wired H s → hop_wired H s'.
Proof.
  intros Hl [H1 H2 H3 H4 H5 H6]. pose proof Hl as [_ _ _ E4 He Eb]. split.
  - intros x. by rewrite (same_layout_reads s s').
  - intros x. by rewrite (same_layout_reads s s').
  - intros h q. destruct (He h) as [_ ->]. apply H3.
  - intros h q. destruct (He h) as [_ ->]. apply H4.
  - destruct (hop_from H); [done|]. by rewrite E4.
  - by rewrite Eb.
Qed.

(** The connections, the tags of waiting flits and the capacities stay as they
    are, and the credit counters in range. *)
Record static_keeps (s s' : System) : Prop := {
  sk_layout : same_layout s s';
  sk_tagged : all_tagged s → all_tagged s';
  sk_counters e : Forall2 ovc_keeps (sender_vcs e s) (sender_vcs e s')
}.

#[export] Instance static_keeps_preorder : PreOrder static_keeps.
Proof.
  split; [by split|]. intros s1 s2 s3 [L1 T1 C1] [L2 T2 C2]. split; [by etrans|auto|].
  intros e. etrans; [apply C1|apply C2].
Qed.

Record flow_keeps (s s' : System) : Prop := {
  fk_static : static_keeps s s';
  fk_total v H : hop_wired H s → all_tagged s → hop_total v H s' = hop_total v H s
}.

#[export] Instance flow_keeps_preorder : PreOrder flow_keeps.
Proof.
  split; [by split|]. intros s1 s2 s3 [S1 F1] [S2 F2]. split; [by etrans|].
  intros v H Hw Ht. destruct S1 as [L1 T1 _]. rewrite F2, F1; [done|done|done|by eapply hop_wired_layout|auto].
Qed.

(** ** Replacing a router or an interface *)

Lemma port_of_map {A} (g : A → list Z) l id x p : l !! id = Some x → port_of (map g l) id p = g x !! p.
Proof. intros Hx. unfold port_of. change (map ?f ?l) with (f <$> l). by rewrite list_lookup_fmap, Hx. Qed.

Lemma wired_sole_credit H s id p r :
  hop_wired H s → hop_from H = FromRouter id p → y_routers s !! id = Some r → sole_credit p (hop_credit H) r.
Proof.
  intros [_ Hc _ _ _ _] Hf Hr. split.
  - intros j. rewrite <-(port_of_map in_credits _ _ _ _ Hr).
    change (reads s (ReadCredit id j) (hop_credit H) ↔ j = p). rewrite Hc, Hf. simpl. naive_solver.
  - intros [j Hj]%list_elem_of_lookup. rewrite <-(port_of_map in_links _ _ _ _ Hr) in Hj.
    apply (Hc (ReadIn id j)) in Hj. by rewrite Hf in Hj.
Qed.

Lemma wired_sole_in H s id p r :
  hop_wired H s → hop_to H = ToRouter id p → y_routers s !! id = Some r → sole_in p (hop_link H) r.
Proof.
  intros [Hc _ _ _ _ _] Hf Hr. split.
  - intros j. rewrite <-(port_of_map in_links _ _ _ _ Hr).
    change (reads s (ReadIn id j) (hop_link H) ↔ j = p). rewrite Hc, Hf. simpl. naive_solver.
  - intros [j Hj]%list_elem_of_lookup. rewrite <-(port_of_map in_credits _ _ _ _ Hr) in Hj.
    apply (Hc (ReadCredit id j)) in Hj. by rewrite Hf in Hj.
Qed.

Lemma wired_ni_sole_in H s id p n :
  hop_wired H s → hop_to H = ToNI id p → y_nis s !! id = Some n → ni_sole_in p (hop_link H) n.
Proof.
  intros [Hc _ _ _ _ _] Hf Hr. split.
  - intros j. rewrite <-(port_of_map ni_in_links _ _ _ _ Hr).
    change (reads s (ReadNIIn id j) (hop_link H) ↔ j = p). rewrite Hc, Hf. simpl. naive_solver.
  - intros [j Hj]%list_elem_of_lookup. rewrite <-(port_of_map ni_in_credits _ _ _ _ Hr) in Hj.
    apply (Hc (ReadNICredit id j)) in Hj. by rewrite Hf in Hj.
Qed.

(** A link that no port of the router reads is not in its footprint. *)
Lemma unread_footprint s id r h :
  y_routers s !! id = Some r → (∀ p, ¬ reads s (ReadIn id p) h ∧ ¬ reads s (ReadCredit id p) h) → h ∉ footprint r.
Proof.
  intros Hr Hno. unfold footprint. rewrite elem_of_list_to_set, elem_of_app.
  intros [[p Hp]%list_elem_of_lookup|[p Hp]%list_elem_of_lookup]; destruct (Hno p) as [Hi Hc].
  - apply Hi. simpl. by rewrite (port_of_map in_links _ _ _ _ Hr).
  - apply Hc. simpl. by rewrite (port_of_map in_credits _ _ _ _ Hr).
Qed.

Lemma unread_ni s id n h :
  y_nis s !! id = Some n → (∀ p, ¬ reads s (ReadNIIn id p) h ∧ ¬ reads s (ReadNICredit id p) h) →
  (h ∉ ni_in_links n) ∧ (h ∉ ni_in_credits n).
Proof.
  intros Hr Hno. split; intros [p Hp]%list_elem_of_lookup; destruct (Hno p) as [Hi Hc].
  - apply Hi. simpl. by rewrite (port_of_map ni_in_links _ _ _ _ Hr).
  - apply Hc. simpl. by rewrite (port_of_map ni_in_credits _ _ _ _ Hr).
Qed.

Lemma vat_vec_set_nat {A} (g : A → Z) l a x y l' (i : nat) :
  vec_get l a = Ok x → vec_set l a y = Ok l' → (Z.of_nat i = a → g y = g x) → vat g l' (Z.of_nat i) = vat g l (Z.of_nat i).
Proof.
  intros Hx Hs Hg. rewrite (vat_set g _ _ _ _ _ _ Hx Hs). destruct (Z.eqb_spec a (Z.of_nat i)) as [->|]; [|lia].
  rewrite Hg by done. lia.
Qed.

Lemma router_static s a r r' ls' rs' :
  vec_get (y_routers s) a = Ok r → vec_set (y_routers s) a r' = Ok rs' →
  same_ports r r' → credits_keep r r' → same_ends (y_links s) ls' →
  static_keeps s (with_links (with_routers s rs') ls').
Proof.
  intros Hr Hs (Ep1 & Ep2 & _) Hk He.
  pose proof (proj1 (vec_get_ok _ _ _) Hr) as [Ha Hra]. pose proof Hs as Hs'. apply vec_set_ok in Hs' as [Hrange Ers]. split.
  - split; simpl; [|..|done|done|done|done]; (eapply map_vec_set; [exact Hr| |exact Hs]); done.
  - done.
  - intros [id p|id]; [|done]. simpl. change (y_routers (with_links (with_routers s rs') ls')) with rs'.
    rewrite Ers. destruct (decide (id = Z.to_nat a)) as [->|Hne].
    + rewrite list_lookup_insert_eq by lia. simpl. rewrite Hra. simpl.
      destruct (proj1 (Forall2_lookup _ _ _) Hk p) as [o o' Ho|]; [exact Ho|done].
    + by rewrite list_lookup_insert_ne by done.
Qed.

Lemma ni_static s a n n' ls' nis' :
  vec_get (y_nis s) a = Ok n → vec_set (y_nis s) a n' = Ok nis' →
  ni_in_links n' = ni_in_links n → ni_in_credits n' = ni_in_credits n → (tagged n → tagged n') →
  Forall2 ovc_keeps (ni_outVcState n) (ni_outVcState n') → same_ends (y_links s) ls' →
  static_keeps s (with_links (with_interfaces s nis') ls').
Proof.
  intros Hn Hs Ei Ec Ht Hk He.
  pose proof (proj1 (vec_get_ok _ _ _) Hn) as [Ha Hna]. pose proof Hs as Hs'. apply vec_set_ok in Hs' as [Hrange Enis]. split.
  - split; simpl; [done|done|..|done|done]; (eapply map_vec_set; [exact Hn| |exact Hs]); done.
  - unfold all_tagged. change (y_nis (with_links (with_interfaces s nis') ls')) with nis'. rewrite Enis.
    intros Hall. apply Forall_insert; [done|]. apply Ht. by eapply Forall_lookup_1.
  - intros [id p|id]; [done|]. simpl. change (y_nis (with_links (with_interfaces s nis') ls')) with nis'.
    rewrite Enis. destruct (decide (id = Z.to_nat a)) as [->|Hne].
    + by rewrite list_lookup_insert_eq, Hna by lia.
    + by rewrite list_lookup_insert_ne by done.
Qed.

Lemma replace_router s a r r' ls' rs' :
  vec_get (y_routers s) a = Ok r → vec_set (y_routers s) a r' = Ok rs' →
  keeps_balance (r, y_links s) (r', ls') → credits_keep r r' →
  flow_keeps s (with_links (with_routers s rs') ls').
Proof.
  intros Hr Hs (Hp & He & Hf & Hb) Hk. simpl in Hp, He, Hf, Hb.
  pose proof (proj1 (vec_get_ok _ _ _) Hr) as [Ha Hra'].
  assert (∀ h x, (∀ y, reads s y h ↔ y = x) → (∀ p, x ≠ ReadIn (Z.to_nat a) p) → (∀ p, x ≠ ReadCredit (Z.to_nat a) p) →
            ls' !! h = y_links s !! h) as Hout.
  { intros h x Hx H1 H2. apply Hf, (unread_footprint s (Z.to_nat a)); [done|]. intros p.
    rewrite !Hx. split; [by intros <-; eapply H1|by intros <-; eapply H2]. }
  split.
  - by apply router_static with (a := a) (r := r) (r' := r').
  - intros v H Hw _. pose proof Hw as [Hfl Hcr _ _ _ _]. unfold hop_total.
    change (y_links (with_links (with_routers s rs') ls')) with ls'.
    assert (sender_held v (hop_from H) (with_links (with_routers s rs') ls') + on_link v (hop_credit H) ls'
            = sender_held v (hop_from H) s + on_link v (hop_credit H) (y_links s)) as E1.
    { destruct (hop_from H) as [id p|id] eqn:EH; simpl.
      - destruct (decide (id = Z.to_nat a)) as [->|Hne].
        + rewrite (vat_set _ _ _ _ _ _ _ Hr Hs), Z2Nat.id, Z.eqb_refl by done.
          destruct (Hb v) as [_ Ho]. specialize (Ho p (hop_credit H)). unfold out_balance in Ho. simpl in Ho.
          rewrite (vat_get _ _ _ _ Hr). specialize (Ho (wired_sole_credit _ _ _ _ _ Hw EH Hra')). lia.
        + rewrite (vat_vec_set_nat _ _ _ _ _ _ _ Hr Hs) by (intros <-; by rewrite Nat2Z.id in Hne).
          unfold on_link. rewrite (Hout _ _ Hcr); [done|done|]. intros p' [= -> _]. done.
      - unfold on_link. by rewrite (Hout _ _ Hcr). }
    assert (receiver_held v (hop_to H) (with_links (with_routers s rs') ls') + on_link v (hop_link H) ls'
            = receiver_held v (hop_to H) s + on_link v (hop_link H) (y_links s)) as E2.
    { destruct (hop_to H) as [id p|id p] eqn:EH; simpl.
      - destruct (decide (id = Z.to_nat a)) as [->|Hne].
        + rewrite (vat_set _ _ _ _ _ _ _ Hr Hs), Z2Nat.id, Z.eqb_refl by done.
          destruct (Hb v) as [Hi _]. specialize (Hi p (hop_link H)). unfold in_balance in Hi. simpl in Hi.
          rewrite (vat_get _ _ _ _ Hr). specialize (Hi (wired_sole_in _ _ _ _ _ Hw EH Hra')). lia.
        + rewrite (vat_vec_set_nat _ _ _ _ _ _ _ Hr Hs) by (intros <-; by rewrite Nat2Z.id in Hne).
          unfold on_link. rewrite (Hout _ _ Hfl); [done| |done]. intros p' [= -> _]. done.
      - unfold on_link. by rewrite (Hout _ _ Hfl). }
    lia.
Qed.

Lemma replace_ni s a n n' ls' nis' :
  vec_get (y_nis s) a = Ok n → vec_set (y_nis s) a n' = Ok nis' → ni_keeps n (y_links s) n' ls' →
  flow_keeps s (with_links (with_interfaces s nis') ls').
Proof.
  intros Hn Hs [Ei Ec He Hf Ht Hk Hi Ho].
  pose proof (proj1 (vec_get_ok _ _ _) Hn) as [Ha Hna].
  assert (∀ h x, (∀ y, reads s y h ↔ y = x) → (∀ p, x ≠ ReadNIIn (Z.to_nat a) p) → (∀ p, x ≠ ReadNICredit (Z.to_nat a) p) →
            ls' !! h = y_links s !! h) as Hout.
  { intros h x Hx H1 H2. destruct (unread_ni s (Z.to_nat a) n h Hna) as [? ?]; [|by apply Hf]. intros p.
    rewrite !Hx. split; [by intros <-; eapply H1|by intros <-; eapply H2]. }
  split.
  - by apply ni_static with (a := a) (n := n) (n' := n').
  - intros v H Hw Hall. pose proof Hw as [Hfl Hcr _ _ Hone _]. unfold hop_total.
    change (y_links (with_links (with_interfaces s nis') ls')) with ls'.
    assert (sender_held v (hop_from H) (with_links (with_interfaces s nis') ls') + on_link v (hop_credit H) ls'
            = sender_held v (hop_from H) s + on_link v (hop_credit H) (y_links s)) as E1.
    { destruct (hop_from H) as [id p|id] eqn:EH; simpl; [unfold on_link; by rewrite (Hout _ _ Hcr)|].
      destruct (decide (id = Z.to_nat a)) as [->|Hne].
      - rewrite (vat_set _ _ _ _ _ _ _ Hn Hs), Z2Nat.id, Z.eqb_refl, (vat_get _ _ _ _ Hn) by done.
        change (map ?f ?l) with (f <$> l) in Hone. rewrite list_lookup_fmap, Hna in Hone. injection Hone as Hone.
        assert (hop_credit H ∉ ni_in_links n) as Hnot.
        { intros [j Hj]%list_elem_of_lookup. rewrite <-(port_of_map ni_in_links _ _ _ _ Hna) in Hj.
          by apply (Hcr (ReadNIIn (Z.to_nat a) j)) in Hj. }
        specialize (Ho v (hop_credit H) (Forall_lookup_1 _ _ _ _ Hall Hna) Hone Hnot). lia.
      - rewrite (vat_vec_set_nat _ _ _ _ _ _ _ Hn Hs) by (intros <-; by rewrite Nat2Z.id in Hne).
        unfold on_link. rewrite (Hout _ _ Hcr); [done|done|]. intros p' [= -> _]. done. }
    assert (receiver_held v (hop_to H) (with_links (with_interfaces s nis') ls') + on_link v (hop_link H) ls'
            = receiver_held v (hop_to H) s + on_link v (hop_link H) (y_links s)) as E2.
    { destruct (hop_to H) as [id p|id p] eqn:EH; simpl; [unfold on_link; by rewrite (Hout _ _ Hfl)|].
      destruct (decide (id = Z.to_nat a)) as [->|Hne].
      - rewrite (vat_set _ _ _ _ _ _ _ Hn Hs), Z2Nat.id, Z.eqb_refl, (vat_get _ _ _ _ Hn) by done.
        specialize (Hi v p (hop_link H) (wired_ni_sole_in _ _ _ _ _ Hw EH Hna)). lia.
      - rewrite (vat_vec_set_nat _ _ _ _ _ _ _ Hn Hs) by (intros <-; by rewrite Nat2Z.id in Hne).
        unfold on_link. rewrite (Hout _ _ Hfl); [done| |done]. intros p' [= -> _]. done. }
    lia.
Qed.

(** ** Steps that move nothing *)

Lemma keeps_balance_refl r ls : keeps_balance (r, ls) (r, ls).
Proof. reflexivity. Qed.

(** Only what is not counted changes. *)
Lemma flow_inert s s' :
  y_routers s' = y_routers s → y_nis s' = y_nis s → y_links s' = y_links s → dom (y_bridges s') = dom (y_bridges s) →
  flow_keeps s s'.
Proof.
  intros Er En El Eb. split; [split|].
  - split; rewrite ?Er, ?En, ?El; done.
  - unfold all_tagged. by rewrite En.
  - intros [id p|id]; simpl; by rewrite ?Er, ?En.
  - intros v H _ _. unfold hop_total. rewrite El. destruct (hop_from H), (hop_to H); simpl; by rewrite ?Er, ?En.
Qed.

Lemma put_consumer_keeps c k s s' : put_consumer c k s = Ok s' → flow_keeps s s'.
Proof.
  destruct c as [id|id p|id|h]; simpl.
  - intros (rs & Hu & [= <-])%rbind_ok. unfold vec_upd in Hu.
    apply rbind_ok in Hu as (r & Hr & Hs). cbn [rbind] in Hs.
    change (with_routers s rs) with (with_links (with_routers s rs) (y_links s)).
    eapply replace_router; [exact Hr|exact Hs|by apply inside_balance|unfold credits_keep; simpl; reflexivity].
  - intros [= <-]. by apply flow_inert.
  - intros (nis & Hu & [= <-])%rbind_ok. unfold vec_upd in Hu.
    apply rbind_ok in Hu as (n & Hn & Hs). cbn [rbind] in Hs.
    transitivity (with_links (with_interfaces s nis) (y_links s)); [|by apply flow_inert].
    eapply replace_ni; [exact Hn|exact Hs|by apply ni_keeps_same].
  - intros [= <-]. by apply flow_inert.
Qed.

Lemma sys_schedule_keeps period_of env e s s' : sys_schedule period_of env e s = Ok s' → flow_keeps s s'.
Proof.
  destruct e as [c t]. unfold sys_schedule. intros (k & _ & (k' & _ & H)%rbind_ok)%rbind_ok. by eapply put_consumer_keeps.
Qed.

Lemma fold_res_flow {A} (f : A → System → res System) l s s' :
  (∀ x t t', f x t = Ok t' → flow_keeps t t') → fold_res f l s = Ok s' → flow_keeps s s'.
Proof.
  intros Hf H. eapply (fold_res_keeps (flow_keeps s)); [|reflexivity|exact H].
  intros x t t' _ Ht Hx. etrans; [exact Ht|by eapply Hf].
Qed.

(** ** Routers and interfaces run *)

Section events.
Context (rs : RubySystem) (cfg : NetConfig) (ctrl_size data_size : Z) (router_of : Z → Z → res Z).
Context (period_of : consumer_ref → Z) (ruby_is_random ruby_warmup : bool).
Context (env : ClockEnv) (rnd : Z → Z → Z) (rt : Z → Z).

Lemma settle_router_keeps id r r' ls' s s' :
  vec_get (y_routers s) id = Ok r → keeps_balance (r, y_links s) (r', ls') → credits_keep r r' →
  settle_router period_of env id r' ls' s = Ok s' → flow_keeps s s'.
Proof using Type.
  intros Hr Hb Hk. unfold settle_router. intros (rs' & Hs & ([ring cs] & _ & [= <-])%rbind_ok)%rbind_ok.
  transitivity (with_links (with_routers s rs') ls'); [|by apply flow_inert].
  eapply replace_router; [exact Hr|exact Hs| |exact Hk]. etrans; [exact Hb|]. by apply inside_balance.
Qed.

Lemma wake_router_keeps id s s' : wake_router cfg period_of env rnd id s = Ok s' → flow_keeps s s'.
Proof using Type.
  unfold wake_router. intros (r & Hr & ([r' ls'] & Hw & H)%rbind_ok)%rbind_ok.
  eapply settle_router_keeps; [exact Hr|by eapply router_wakeup_balance|by eapply router_wakeup_keeps|exact H].
Qed.

Lemma wake_output_unit_keeps id p s s' : wake_output_unit period_of env id p s = Ok s' → flow_keeps s s'.
Proof using Type.
  unfold wake_output_unit. intros (r & Hr & ([r' ls'] & Hw & H)%rbind_ok)%rbind_ok.
  eapply settle_router_keeps; [exact Hr|by eapply wake_output_balance|by eapply wake_output_keeps in Hw|exact H].
Qed.

Lemma wake_ni_keeps id s s' :
  wake_ni rs cfg ctrl_size data_size router_of period_of ruby_is_random ruby_warmup env rt id s = Ok s' → flow_keeps s s'.
Proof using Type.
  unfold wake_ni. intros (n & Hn & ([n' w] & Hw & (nis & Hs & H)%rbind_ok)%rbind_ok)%rbind_ok.
  apply ni_wakeup_keeps in Hw. transitivity (with_links (with_interfaces s nis) (w_links w)); [by eapply replace_ni|].
  transitivity (with_world (with_links (with_interfaces s nis) (w_links w)) w); [by apply flow_inert|].
  eapply fold_res_flow; [|exact H]. intros [c t|i t|b t|b] u u' Hx; simpl in Hx.
  - exact (sys_schedule_keeps _ _ (c, t) _ _ Hx).
  - injection Hx as <-. by apply flow_inert.
  - by injection Hx as <-.
  - by injection Hx as <-.
Qed.

End events.

(** ** Taking from and adding to a queue *)

(** A queue is exchanged: the sums that contain it change by the difference. *)
Record queue_step (q : queue_ref) (d : Z → Z) (s s' : System) : Prop := {
  qs_static : static_keeps s s';
  qs_sender v e : sender_held v e s' = sender_held v e s + (if flits_of e q then d v else 0);
  qs_receiver v e : receiver_held v e s' = receiver_held v e s + (if credits_of e q then d v else 0);
  qs_link v h : on_link v h (y_links s')
    = on_link v h (y_links s) + (match q with QLink h' => if h' =? h then d v else 0 | _ => 0 end)
}.

Lemma router_queue_step q d s id r r' rs' :
  vec_get (y_routers s) id = Ok r → vec_set (y_routers s) id r' = Ok rs' → same_ports r r' → credits_keep r r' →
  (∀ v p, out_held v p r' - out_held v p r = match q with QRouterOut _ p' => if p' =? p then d v else 0 | _ => 0 end) →
  (∀ v p, in_held v p r' - in_held v p r = match q with QRouterCredit _ p' => if p' =? p then d v else 0 | _ => 0 end) →
  match q with QRouterOut id' _ | QRouterCredit id' _ => id' = id | _ => False end →
  queue_step q d s (with_routers s rs').
Proof.
  intros Hr Hs Hp Hk Ho Hi Hq. split.
  - change (with_routers s rs') with (with_links (with_routers s rs') (y_links s)). by eapply router_static.
  - intros v [a p|a]; simpl; [|destruct q; simpl; (done || lia)].
    rewrite (vat_set _ _ _ _ _ _ _ Hr Hs), Ho. destruct q; simpl; subst; repeat zcase; simpl; lia.
  - intros v [a p|a p]; simpl; [|destruct q; simpl; (done || lia)].
    rewrite (vat_set _ _ _ _ _ _ _ Hr Hs), Hi. destruct q; simpl; subst; repeat zcase; simpl; lia.
  - intros v h. change (y_links (with_routers s rs')) with (y_links s). destruct q; (done || lia).
Qed.

Lemma ni_queue_step q d s id n n' nis' :
  vec_get (y_nis s) id = Ok n → vec_set (y_nis s) id n' = Ok nis' →
  ni_in_links n' = ni_in_links n → ni_in_credits n' = ni_in_credits n →
  niOutVcs n' = niOutVcs n → ni_outVcState n' = ni_outVcState n →
  (∀ v, ni_out_held v n' - ni_out_held v n = match q with QNIOut _ _ => d v | _ => 0 end) →
  (∀ v p, ni_in_held v p n' - ni_in_held v p n = match q with QNICredit _ p' => if p' =? p then d v else 0 | _ => 0 end) →
  match q with QNIOut id' _ | QNICredit id' _ => id' = id | _ => False end →
  queue_step q d s (with_interfaces s nis').
Proof.
  intros Hn Hs Ei Ec Ev Es Ho Hi Hq. split.
  - transitivity (with_links (with_interfaces s nis') (y_links s)); [|by apply flow_inert].
    eapply ni_static; [exact Hn|exact Hs|done|done|unfold tagged; by rewrite Ev|by rewrite Es|done].
  - intros v [a p|a]; simpl; [change (y_routers (with_interfaces s nis')) with (y_routers s); destruct q; simpl; (done || lia)|].
    rewrite (vat_set _ _ _ _ _ _ _ Hn Hs), Ho. destruct q; simpl; subst; repeat zcase; simpl; lia.
  - intros v [a p|a p]; simpl; [change (y_routers (with_interfaces s nis')) with (y_routers s); destruct q; simpl; (done || lia)|].
    rewrite (vat_set _ _ _ _ _ _ _ Hn Hs), Hi. destruct q; simpl; subst; repeat zcase; simpl; lia.
  - intros v h. change (y_links (with_interfaces s nis')) with (y_links s). destruct q; (done || lia).
Qed.

Lemma with_outBuffer_held v o b : ou_held v (with_outBuffer o b) = ou_held v o + (vc_count v b - vc_count v (outBuffer o)).
Proof. unfold ou_held. simpl. lia. Qed.
Lemma with_creditQueue_held v u b : iu_held v (with_creditQueue u b) = iu_held v u + (vc_count v b - vc_count v (creditQueue u)).
Proof. unfold iu_held. simpl. lia. Qed.

Lemma put_queue_step q b b' s s' :
  get_queue q s = Ok b → put_queue q b' s = Ok s' → queue_step q (fun v => vc_count v b' - vc_count v b) s s'.
Proof.
  destruct q as [id p|id p|id p|id p|h]; simpl.
  - intros (r & Hr & (o & Ho & [= <-])%rbind_ok)%rbind_ok (rs' & Hu & [= <-])%rbind_ok.
    unfold vec_upd in Hu. rewrite Hr in Hu. cbn [rbind] in Hu. rewrite Ho in Hu. cbn [rbind] in Hu.
    apply rbind_ok in Hu as (r' & (os & Hos & [= <-])%rbind_ok & Hs).
    eapply router_queue_step; [exact Hr|exact Hs| | | | |done].
    + split_and!; [done| |done]. unfold in_credits. simpl. eapply map_vec_set; [exact Ho| |exact Hos]; done.
    + unfold credits_keep. simpl. eapply Forall2_vec_set; [apply _|exact Ho| |exact Hos]. unfold ou_keeps. simpl. reflexivity.
    + intros v p'. unfold out_held. simpl. rewrite (vat_set _ _ _ _ _ _ _ Ho Hos), with_outBuffer_held. zcase; lia.
    + intros v p'. unfold in_held. simpl. lia.
  - intros (r & Hr & (u & Ho & [= <-])%rbind_ok)%rbind_ok (rs' & Hu & [= <-])%rbind_ok.
    unfold vec_upd in Hu. rewrite Hr in Hu. cbn [rbind] in Hu. rewrite Ho in Hu. cbn [rbind] in Hu.
    apply rbind_ok in Hu as (r' & (us & Hos & [= <-])%rbind_ok & Hs).
    eapply router_queue_step; [exact Hr|exact Hs| | | | |done].
    + split_and!; [|done|done]. unfold in_links. simpl. eapply map_vec_set; [exact Ho| |exact Hos]; done.
    + unfold credits_keep. simpl. reflexivity.
    + intros v p'. unfold out_held. simpl. lia.
    + intros v p'. unfold in_held. simpl. rewrite (vat_set _ _ _ _ _ _ _ Ho Hos), with_creditQueue_held. zcase; lia.
  - intros (n & Hn & (o & Ho & [= <-])%rbind_ok)%rbind_ok (nis' & Hu & [= <-])%rbind_ok.
    unfold vec_upd in Hu. rewrite Hn in Hu. cbn [rbind] in Hu. rewrite Ho in Hu. cbn [rbind] in Hu.
    apply rbind_ok in Hu as (n' & (os & Hos & [= <-])%rbind_ok & Hs).
    eapply ni_queue_step; [exact Hn|exact Hs|done| |done|done| | |done].
    + unfold ni_in_credits. simpl. eapply map_vec_set; [exact Ho| |exact Hos]; done.
    + intros v. unfold ni_out_held. simpl. rewrite (lsum_vec_set _ _ _ _ _ _ Ho Hos). simpl. lia.
    + intros v p'. unfold ni_in_held. simpl. lia.
  - intros (n & Hn & (i & Ho & [= <-])%rbind_ok)%rbind_ok (nis' & Hu & [= <-])%rbind_ok.
    unfold vec_upd in Hu. rewrite Hn in Hu. cbn [rbind] in Hu. rewrite Ho in Hu. cbn [rbind] in Hu.
    apply rbind_ok in Hu as (n' & (os & Hos & [= <-])%rbind_ok & Hs).
    eapply ni_queue_step; [exact Hn|exact Hs| |done|done|done| | |done].
    + unfold ni_in_links. simpl. eapply map_vec_set; [exact Ho| |exact Hos]; done.
    + intros v. unfold ni_out_held. simpl. lia.
    + intros v p'. unfold ni_in_held. simpl. rewrite (vat_set _ _ _ _ _ _ _ Ho Hos). unfold ip_held. simpl. zcase; lia.
  - intros (l & Hl & [= <-])%rbind_ok (ls' & Hu & [= <-])%rbind_ok.
    unfold upd_link_at in Hu. rewrite Hl in Hu. cbn [rbind] in Hu. injection Hu as <-. apply get_link_some in Hl.
    split; [split; [split; [done..| |done]|done|]| | |].
    + simpl. by eapply insert_same_ends.
    + by intros [].
    + intros v [a p|a]; simpl; by rewrite Z.add_0_r.
    + intros v [a p|a p]; simpl; by rewrite Z.add_0_r.
    + intros v h'. exact (on_link_insert v _ _ _ _ _ Hl).
Qed.

(** ** A link takes a flit *)

(** Flits go from queue [q] to the buffer of link [h], which reads it. *)
Lemma link_moves_keeps h l l' q b b' s s' :
  y_links s !! h = Some l → link_srcQueue l = Some q → get_queue q s = Ok b →
  link_consumer l' = link_consumer l → link_srcQueue l' = link_srcQueue l → q ≠ QLink h →
  (∀ v, vc_count v (linkBuffer l') + vc_count v b' = vc_count v (linkBuffer l) + vc_count v b) →
  put_queue q b' (with_links s (<[h := l']> (y_links s))) = Ok s' → flow_keeps s s'.
Proof.
  intros Hl Hq Hb Ec Es Hne Hsum Hput. set (s1 := with_links s (<[h := l']> (y_links s))) in *.
  assert (same_ends (y_links s) (y_links s1)) as He by by eapply insert_same_ends.
  assert (static_keeps s s1) as Hst by (split; [split; done|done|by intros []]).
  assert (get_queue q s1 = Ok b) as Hb1.
  { destruct q as [| | | |h']; try exact Hb. cbn [get_queue] in *. unfold get_link in *.
    change (y_links s1) with (<[h := l']> (y_links s)). rewrite lookup_insert_ne by congruence. exact Hb. }
  destruct (put_queue_step _ _ _ _ _ Hb1 Hput) as [Hst' Hs Hr Hk]. split; [by etrans|].
  intros v H Hw _. destruct Hw as [Hfl Hcr Hsrc Hback _ _].
  assert (srcs_at (y_links s) h = Some q) as Hat by (unfold srcs_at; by rewrite Hl).
  specialize (Hsrc h q Hat). specialize (Hback h q Hat).
  assert (∀ e, sender_held v e s1 = sender_held v e s) as E1 by by intros [].
  assert (∀ e, receiver_held v e s1 = receiver_held v e s) as E2 by by intros [].
  unfold hop_total. rewrite Hs, Hr, !Hk, E1, E2.
  change (y_links s1) with (<[h := l']> (y_links s)). rewrite !(on_link_insert v _ _ _ _ _ Hl).
  assert (∀ x, match q with QLink h' => if h' =? hop_link H then x else 0 | _ => 0 end = 0) as Z1.
  { intros x. destruct q; try done. zcase; [|done]. subst. by apply (Hfl (ReadLink h)) in Hat; destruct (hop_to H). }
  assert (∀ x, match q with QLink h' => if h' =? hop_credit H then x else 0 | _ => 0 end = 0) as Z2.
  { intros x. destruct q; try done. zcase; [|done]. subst. by apply (Hcr (ReadLink h)) in Hat; destruct (hop_from H). }
  rewrite Z1, Z2.
  assert (h = hop_link H → h ≠ hop_credit H) as Hdis.
  { intros -> E. pose proof (proj2 (Hfl _) eq_refl) as Hx. rewrite E in Hx. apply Hcr in Hx.
    by destruct (hop_to H), (hop_from H). }
  specialize (Hsum v).
  destruct (Z.eqb_spec h (hop_link H)) as [E|Hn1]; [rewrite (proj2 Hsrc E)|destruct (flits_of _ q); [by destruct Hn1; apply Hsrc|]];
    (destruct (Z.eqb_spec h (hop_credit H)) as [E'|Hn2]; [rewrite (proj2 Hback E')|destruct (credits_of _ q); [by destruct Hn2; apply Hback|]]);
    (lia || by destruct Hdis).
Qed.

(** ** Links away from the hop *)

(** A bridge, and a link that reads another link, are not part of the hop. *)
Lemma off_hop H s h q :
  hop_wired H s → srcs_at (y_links s) h = Some q → (h ∈ dom (y_bridges s) ∨ ∃ x, q = QLink x) →
  h ≠ hop_link H ∧ h ≠ hop_credit H ∧ flits_of (hop_from H) q = false ∧ credits_of (hop_to H) q = false ∧
  q ≠ QLink (hop_link H) ∧ q ≠ QLink (hop_credit H).
Proof.
  intros [Hfl Hcr Hsrc Hback _ [Hp1 Hp2]] Hat Hoff. specialize (Hsrc h q Hat). specialize (Hback h q Hat).
  assert (h ≠ hop_link H) as H1.
  { intros ->. destruct Hoff as [Hin|[x ->]]; [done|]. apply proj2 in Hsrc. specialize (Hsrc eq_refl). by destruct (hop_from H). }
  assert (h ≠ hop_credit H) as H2.
  { intros ->. destruct Hoff as [Hin|[x ->]]; [done|]. apply proj2 in Hback. specialize (Hback eq_refl). by destruct (hop_to H). }
  split_and!; [done|done|..].
  - destruct (flits_of _ q); [by destruct H1; apply Hsrc|done].
  - destruct (credits_of _ q); [by destruct H2; apply Hback|done].
  - intros ->. by apply (Hfl (ReadLink h)) in Hat; destruct (hop_to H).
  - intros ->. by apply (Hcr (ReadLink h)) in Hat; destruct (hop_from H).
Qed.

Lemma off_hop_link_keeps h q s ls' bs' :
  srcs_at (y_links s) h = Some q → (h ∈ dom (y_bridges s) ∨ ∃ x, q = QLink x) →
  same_ends (y_links s) ls' → (∀ h', h' ≠ h → ls' !! h' = y_links s !! h') → dom bs' = dom (y_bridges s) →
  flow_keeps s (with_links (with_bridges s bs') ls').
Proof.
  intros Hat Hoff He Hf Hd. split; [split; [by split|done|by intros []]|].
  intros v H Hw _. destruct (off_hop H s h q Hw Hat Hoff) as (H1 & H2 & _). unfold hop_total, on_link.
  change (y_links (with_links (with_bridges s bs') ls')) with ls'. rewrite !Hf by done.
  by destruct (hop_from H), (hop_to H).
Qed.

Lemma put_queue_get q b s s' : put_queue q b s = Ok s' → ∃ b0, get_queue q s = Ok b0.
Proof.
  destruct q as [id p|id p|id p|id p|h]; simpl;
    intros (rs' & Hu & _)%rbind_ok; unfold vec_upd, upd_link_at in Hu;
    apply rbind_ok in Hu as (x & -> & Hu); cbn [rbind]; [..|eauto];
    apply rbind_ok in Hu as (y & (us & (u & -> & _)%rbind_ok & _)%rbind_ok & _); cbn [rbind]; eauto.
Qed.

Lemma off_hop_queue_keeps h q b s s' :
  srcs_at (y_links s) h = Some q → (h ∈ dom (y_bridges s) ∨ ∃ x, q = QLink x) →
  put_queue q b s = Ok s' → flow_keeps s s'.
Proof.
  intros Hat Hoff Hput. destruct (put_queue_get _ _ _ _ Hput) as [b0 Hb].
  destruct (put_queue_step _ _ _ _ _ Hb Hput) as [Hst Hs Hr Hk]. split; [done|].
  intros v H Hw _. destruct (off_hop H s h q Hw Hat Hoff) as (_ & _ & F1 & F2 & Q1 & Q2).
  unfold hop_total. rewrite Hs, Hr, !Hk, F1, F2. destruct q as [| | | |h']; [lia..|].
  rewrite !(proj2 (Z.eqb_neq _ _)) by congruence. lia.
Qed.

(** ** Links and bridges run *)

(** What a bridge changes: its own counters, those of its partner, and the
    buffer of its own link. *)
Record bridge_frame (h : Z) (w w' : BridgeWorld) : Prop := {
  bf_dom : dom (bw_bridges w') = dom (bw_bridges w);
  bf_ends : same_ends (bw_links w) (bw_links w');
  bf_links h' : h' ≠ h → bw_links w' !! h' = bw_links w !! h'
}.

#[export] Instance bridge_frame_preorder h : PreOrder (bridge_frame h).
Proof.
  split; [by split|]. intros w1 w2 w3 [D1 E1 L1] [D2 E2 L2]. split; [congruence|by etrans|].
  intros h' Hne. by rewrite L2, L1.
Qed.

Lemma put_bridge_frame h h0 b b' w : get_bridge h0 w = Ok b → bridge_frame h w (put_bridge h0 b' w).
Proof.
  unfold get_bridge. destruct (bw_bridges w !! h0) as [x|] eqn:E; [|done]. intros _. split; [|done|done].
  simpl. rewrite dom_insert_L. apply elem_of_dom_2 in E. set_solver.
Qed.

Lemma scheduleFlit_frame clk f lat h w w' : NetworkBridge.scheduleFlit clk f lat h w = Ok w' → bridge_frame h w w'.
Proof.
  unfold NetworkBridge.scheduleFlit. intros (b & Hb & (l & Hl%get_link_some & (k & _ & [= <-])%rbind_ok)%rbind_ok)%rbind_ok.
  split; simpl.
  - unfold get_bridge in Hb. destruct (bw_bridges w !! h) as [x|] eqn:E; [|done].
    rewrite dom_insert_L. apply elem_of_dom_2 in E. set_solver.
  - by eapply insert_same_ends.
  - intros h' Hne. by apply lookup_insert_ne.
Qed.

Lemma neutralize_co_frame vc n h w w' : neutralize_co vc n h w = Ok w' → bridge_frame h w w'.
Proof.
  unfold neutralize_co, neutralize. intros (b & _ & (co & _ & (b' & Hb & (ex & _ & [= <-])%rbind_ok)%rbind_ok)%rbind_ok)%rbind_ok.
  by eapply put_bridge_frame.
Qed.

Lemma flitisizeAndSend_frame clk f h w w' : flitisizeAndSend clk f h w = Ok w' → bridge_frame h w w'.
Proof.
  unfold flitisizeAndSend. intros (b & Hb & H)%rbind_ok. destruct (enSerDes b); [|by eapply scheduleFlit_frame].
  apply rbind_ok in H as (self & _ & (link & _ & H)%rbind_ok). destruct (bridge_widths b self link) as [cw tw].
  apply rbind_ok in H as (_ & _ & H). destruct (cw <? tw).
  - unfold deserialize_and_send in H. apply rbind_ok in H as ([[fp nf] b'] & _ & H).
    etrans; [exact (put_bridge_frame h h b b' w Hb)|]. destruct (negb _); [|by injection H as <-].
    apply rbind_ok in H as (len & _ & (fl & _ & (w1 & H1 & (w2 & H2 & H)%rbind_ok)%rbind_ok)%rbind_ok).
    transitivity w1; [destruct (bool_decide _); [by injection H1 as <-|by eapply neutralize_co_frame]|].
    transitivity w2; [|by eapply scheduleFlit_frame]. unfold reset_len in H2.
    apply rbind_ok in H2 as (b2 & Hb2 & (l2 & _ & [= <-])%rbind_ok). by eapply put_bridge_frame.
  - unfold serialize_and_send in H. apply rbind_ok in H as ([fp b'] & _ & H).
    etrans; [exact (put_bridge_frame h h b b' w Hb)|]. apply rbind_ok in H as (_ & _ & (w1 & H1 & H)%rbind_ok).
    transitivity w1; [|destruct (bool_decide _); [by injection H as <-|by eapply neutralize_co_frame]].
    apply (for_range_inv (fun _ => bridge_frame h (put_bridge h b' w))) in H1; [done|done|].
    intros i t t' _ Ht (fl & _ & Hx)%rbind_ok. etrans; [exact Ht|by eapply scheduleFlit_frame].
Qed.

Section link_events.
Context (period_of : consumer_ref → Z) (env : ClockEnv).

Lemma link_wakeup_sums ck k l q k' l' q' sched :
  link_wakeup ck k l q = Ok (k', l', q', sched) →
  link_consumer l' = link_consumer l ∧ link_srcQueue l' = link_srcQueue l ∧
  ∀ v, vc_count v (linkBuffer l') + vc_count v q' = vc_count v (linkBuffer l) + vc_count v q.
Proof using Type.
  unfold link_wakeup. intros (_ & _ & (_ & _ & ([[l1 q1] s1] & Hm & (k1 & _ & H)%rbind_ok)%rbind_ok)%rbind_ok)%rbind_ok.
  simplify_eq. destruct (isReady _ q); [|by simplify_eq].
  apply rbind_ok in Hm as ([f q2] & Hg & (_ & _ & (c & _ & (load & _ & Hm)%rbind_ok)%rbind_ok)%rbind_ok). simplify_eq/=.
  split_and!; [done..|]. intros v. rewrite vc_count_insert. apply (vc_count_getTop v) in Hg.
  change (on_vc v (set_time _ f)) with (on_vc v f). lia.
Qed.

Lemma wake_link_keeps h s s' : wake_link period_of env h s = Ok s' → flow_keeps s s'.
Proof using Type.
  unfold wake_link. intros (l & Hl%get_link_some & H)%rbind_ok. apply rbind_ok in H as (q & Hq & (b & Hb & (k & _ & H)%rbind_ok)%rbind_ok).
  destruct (link_srcQueue l) as [q0|] eqn:Eq; [|done]. injection Hq as ->.
  assert (srcs_at (y_links s) h = Some q) as Hat by (unfold srcs_at; by rewrite Hl).
  destruct (y_bridges s !! h) as [br|] eqn:Hbr.
  - apply elem_of_dom_2 in Hbr as Hin.
    apply rbind_ok in H as ([[k' b'] w] & Hw & (s1 & Hs1 & (s2 & Hs2%put_consumer_keeps & H)%rbind_ok)%rbind_ok).
    assert (bridge_frame h {| bw_bridges := y_bridges s; bw_links := y_links s; bw_scheduled := [] |} w) as [Hd He Hf].
    { unfold bridge_wakeup in Hw. apply rbind_ok in Hw as ([b1 w1] & Hm & (k1 & _ & [= _ _ <-])%rbind_ok).
      destruct (isReady _ b); [|by simplify_eq].
      apply rbind_ok in Hm as ([f b2] & _ & (w2 & Hfl%flitisizeAndSend_frame & [= _ <-])%rbind_ok). done. }
    simpl in Hd, He, Hf. set (s0 := with_links (with_bridges s (bw_bridges w)) (bw_links w)) in *.
    transitivity s0; [by eapply off_hop_link_keeps; eauto|].
    transitivity s1; [|transitivity s2; [done|]; eapply fold_res_flow; [|exact H]; intros; by eapply sys_schedule_keeps].
    eapply (off_hop_queue_keeps h); [|left|exact Hs1].
    + destruct (He h) as [_ E]. etrans; [exact E|exact Hat].
    + simpl. by rewrite Hd.
  - apply rbind_ok in H as ([[[k' l'] b'] sched] & Hw%link_wakeup_sums & (s1 & Hs1 & (s2 & Hs2%put_consumer_keeps & H)%rbind_ok)%rbind_ok).
    destruct Hw as (Ec & Es & Hsum).
    transitivity s1; [|transitivity s2; [done|]; eapply fold_res_flow; [|exact H]; intros; by eapply sys_schedule_keeps].
    destruct (decide (q = QLink h)) as [->|Hne]; [|by eapply link_moves_keeps; try exact Hs1; eauto; congruence].
    set (s0 := with_links s (<[h := l']> (y_links s))) in *.
    assert (same_ends (y_links s) (y_links s0)) as He by (eapply insert_same_ends; [exact Hl|done|congruence]).
    transitivity s0.
    + apply (off_hop_link_keeps h (QLink h) s _ (y_bridges s)); [done|right; eauto|done| |done].
      intros h' Hne. by apply lookup_insert_ne.
    + eapply (off_hop_queue_keeps h); [|right; eauto|exact Hs1]. destruct (He h) as [_ ->]. done.
Qed.

End link_events.

(** ** Global wakeups *)

Section global.
Context (cfg : NetConfig) (env : ClockEnv) (period_of : consumer_ref → Z) (rnd : Z → Z → Z) (tick : Z).

Lemma service_router_keeps renv answers r ls r' ls' es :
  service_router cfg renv answers tick r ls = Ok (r', ls', es) → keeps_balance (r, ls) (r', ls') ∧ credits_keep r r'.
Proof using Type.
  unfold service_router. destruct (tryConsumeTick tick (consumer_of r)) as [k due].
  assert (keeps_balance (r, ls) (set_consumer k r, ls)) as Hb by by apply inside_balance.
  assert (credits_keep r (set_consumer k r)) as Hk by (unfold credits_keep; simpl; reflexivity).
  destruct due; [|by intros [= <- <- _]]. intros ([r1 ls1] & Hw & [= <- <- _])%rbind_ok. split.
  - etrans; [exact Hb|]. etrans; [by eapply router_wakeup_balance|]. by apply inside_balance.
  - etrans; [exact Hk|]. by eapply router_wakeup_keeps in Hw.
Qed.

Lemma service_keeps id s rs' ls' es :
  service cfg env period_of rnd tick id (y_routers s, y_links s) = Ok (rs', ls', es) →
  flow_keeps s (with_links (with_routers s rs') ls').
Proof using Type.
  unfold service. intros (r & Hr & ([[r1 ls1] es1] & [Hb Hk]%service_router_keeps & (rs1 & Hs & [= <- <- _])%rbind_ok)%rbind_ok)%rbind_ok.
  by eapply replace_router.
Qed.

Lemma run_one_keeps id s n' : run_one cfg env period_of rnd tick id (y_net s) = Ok n' → flow_keeps s (with_net s n').
Proof using Type.
  unfold run_one. intros ([[rs ls] es] & Hs%service_keeps & ([ring cs] & _ & [= <-])%rbind_ok)%rbind_ok.
  etrans; [exact Hs|by apply flow_inert].
Qed.

Lemma run_mask_keeps fuel : ∀ mask s n',
  run_mask cfg env period_of rnd fuel mask tick (y_net s) = Ok n' → flow_keeps s (with_net s n').
Proof using Type.
  induction fuel as [|fuel IH]; intros mask s n'; simpl; [intros [= <-]; by apply flow_inert|].
  destruct (mask =? 0); [intros [= <-]; by apply flow_inert|]. intros (n1 & H1%run_one_keeps & H2)%rbind_ok.
  etrans; [exact H1|]. exact (IH _ (with_net s n1) _ H2).
Qed.

(** The system in the middle of a parallel region. *)
Definition in_region (s : System) (g : Region) : System := with_links (with_routers s (g_routers g)) (g_links g).

Lemma conf_step_keeps s tid c c' :
  conf_step cfg env period_of rnd tick tid c = Ok c' → flow_keeps (in_region s (snd c)) (in_region s (snd c')).
Proof using Type.
  unfold conf_step. destruct (fst c !! tid) as [[|i rest]|]; [done| |done].
  intros ([new g] & He & [= <-])%rbind_ok. simpl. destruct i; simpl in He; [|by simplify_eq..|].
  - apply rbind_ok in He as ([[rs ls] es] & Hs & [= _ <-]).
    exact (service_keeps _ (in_region s (snd c)) _ _ _ Hs).
  - destruct (g_deferred (snd c) !! tid); by simplify_eq.
Qed.

End global.

Lemma parallel_branch_keeps cfg env period_of tick mask s n' :
  parallel_branch cfg env period_of mask tick (y_net s) n' → flow_keeps s (with_net s n').
Proof.
  intros [ps g n1 Hsteps _ (cs & _ & [= <-])%rbind_ok].
  assert (flow_keeps (in_region s (snd (region_start mask (with_active (y_net s) true)))) (in_region s (snd (ps, g)))) as Hk.
  { induction Hsteps as [c|c c1 c2 (tid & rnd & Hstep) _ IH]; [done|]. etrans; [by eapply conf_step_keeps|exact IH]. }
  etrans; [|etrans; [exact Hk|]]; by apply flow_inert.
Qed.

Lemma globalWakeup_keeps cfg env period_of s n' :
  globalWakeup cfg env period_of (y_net s) n' → flow_keeps s (with_net s n').
Proof.
  intros [ring _|rnd mask ring n1 _ _ _ Hrun|mask ring n1 _ _ _ Hpar]; [by apply flow_inert|..].
  - etrans; [|etrans; [exact (run_mask_keeps _ _ _ _ _ _ _ (with_net s _) _ Hrun)|]]; by apply flow_inert.
  - etrans; [|etrans; [exact (parallel_branch_keeps _ _ _ _ _ (with_net s _) _ Hpar)|]]; by apply flow_inert.
Qed.

(** ** Every step *)

Lemma processCurrentEvent_rel `{HasConsumer X} (R : X → X → Prop) `{!PreOrder R} wakeup env x x' :
  (∀ k y, R y (set_consumer k y)) → (∀ y y', wakeup y = Ok y' → R y y') →
  processCurrentEvent wakeup env x = Ok x' → R x x'.
Proof.
  intros Hset Hwake. unfold processCurrentEvent.
  destruct (match m_wakeup_ticks (consumer_of x) with [] => _ | _ :: _ => _ end) as [v was].
  intros (y & Hy & (c & _ & [= <-])%rbind_ok)%rbind_ok.
  etrans; [apply (Hset {| m_wakeup_ticks := v; m_wakeup_event := None |})|]. etrans; [|apply Hset].
  destruct was; [by apply Hwake|by simplify_eq].
Qed.

Section steps.
Context (rs : RubySystem) (cfg : NetConfig) (ctrl_size data_size : Z) (router_of : Z → Z → res Z).
Context (period_of : consumer_ref → Z) (ruby_is_random ruby_warmup : bool).

(** What writing the consumer and waking the object satisfies, the event does. *)
Lemma fire_rel (R : System → System → Prop) `{!PreOrder R} env rnd rt c s s' :
  (∀ k t t', put_consumer c k t = Ok t' → R t t') →
  (∀ t t', wakeup_of rs cfg ctrl_size data_size router_of period_of ruby_is_random ruby_warmup env rnd rt c t = Ok t' →
     R t t') →
  fire rs cfg ctrl_size data_size router_of period_of ruby_is_random ruby_warmup env rnd rt c s = Ok s' → R s s'.
Proof using Type.
  intros Hputc Hwake. unfold fire. intros (k & _ & ([k' s1] & Hp & Hput%Hputc)%rbind_ok)%rbind_ok. etrans; [|exact Hput].
  pose (Q := fun x y : Consumer * System => R (snd x) (snd y)).
  assert (PreOrder Q) by (split; [intros x; unfold Q; reflexivity|intros x y z; unfold Q; apply transitivity]).
  apply (processCurrentEvent_rel Q _ _ (k, s) (k', s1)) in Hp; [exact Hp|intros ??; unfold Q; reflexivity|].
  intros [k0 s0] [k2 s2] (s3 & H3%Hputc & (s4 & H4%Hwake & (k4 & _ & [= _ <-])%rbind_ok)%rbind_ok)%rbind_ok.
  unfold Q. simpl in *. by etrans.
Qed.

Lemma fire_keeps env rnd rt c s s' :
  fire rs cfg ctrl_size data_size router_of period_of ruby_is_random ruby_warmup env rnd rt c s = Ok s' → flow_keeps s s'.
Proof using Type.
  apply fire_rel; [apply _|intros *; apply put_consumer_keeps|]. intros t t' H. destruct c; simpl in H.
  - by eapply wake_router_keeps.
  - by eapply wake_output_unit_keeps.
  - by eapply wake_ni_keeps.
  - by eapply wake_link_keeps.
Qed.

Lemma sys_step_keeps s s' :
  sys_step rs cfg ctrl_size data_size router_of period_of ruby_is_random ruby_warmup s s' → flow_keeps s s'.
Proof using Type.
  intros [env rnd rt c k t t' _ _ Hf|env t n' _ Hg|t w|env id tick t t' Hs].
  - by eapply fire_keeps.
  - by eapply globalWakeup_keeps.
  - by apply flow_inert.
  - by eapply sys_schedule_keeps.
Qed.

Lemma sys_steps_keep s s' :
  rtc (sys_step rs cfg ctrl_size data_size router_of period_of ruby_is_random ruby_warmup) s s' → flow_keeps s s'.
Proof using Type. induction 1 as [|s1 s2 s3 H1 _ IH]; [done|]. etrans; [by eapply sys_step_keeps|exact IH]. Qed.

End steps.

(** ** Capacity and occupancy *)

(** The size of the receiver's buffer for the channel, as the sender knows it. *)
Definition capacity (v : Z) (e : sender) (s : System) : Z := vat m_max_credit_count (sender_vcs e s) v.
Definition credits_left (v : Z) (e : sender) (s : System) : Z := vat m_credit_count (sender_vcs e s) v.

(** The flits of the channel that the receiver keeps. *)
Definition kept_flits (v : Z) (e : receiver) (s : System) : Z :=
  match e with
  | ToRouter id p => vat (fun r => vat (fun u => vat buffered (virtualChannels u) v) (m_input_unit r) (Z.of_nat p)) (y_routers s) (Z.of_nat id)
  | ToNI id p => vat (fun n => vat (fun i => lsum (on_vc v) (m_stall_queue i)) (inPorts n) (Z.of_nat p)) (y_nis s) (Z.of_nat id)
  end.

Lemma vat_nonneg {A} (g : A → Z) l i : (∀ x, 0 ≤ g x) → 0 ≤ vat g l i.
Proof. intros Hg. unfold vat. destruct (vec_get l i); [apply Hg|lia]. Qed.

Lemma vat_mono {A} (g h : A → Z) l i : (∀ x, g x ≤ h x) → vat g l i ≤ vat h l i.
Proof. intros Hg. unfold vat. destruct (vec_get l i); [apply Hg|lia]. Qed.

Lemma bound_for_nonneg v o f : 0 ≤ bound_for v o f.
Proof. unfold bound_for. pose proof (on_vc_range v f). destruct (m_outport f); [|lia]. zcase; lia. Qed.

Lemma on_link_nonneg v h ls : 0 ≤ on_link v h ls.
Proof. unfold on_link. destruct (ls !! h); [apply vc_count_nonneg|lia]. Qed.

Lemma kept_flits_held v e s : 0 ≤ kept_flits v e s ≤ receiver_held v e s.
Proof.
  destruct e as [id p|id p]; simpl; split.
  - do 3 (apply vat_nonneg; intros). unfold buffered. lia.
  - apply vat_mono. intros r. apply vat_mono. intros u. unfold iu_held. pose proof (vc_count_nonneg v (creditQueue u)). lia.
  - do 2 (apply vat_nonneg; intros). apply lsum_nonneg. intros f. apply on_vc_range.
  - apply vat_mono. intros n. apply vat_mono. intros i. unfold ip_held. pose proof (vc_count_nonneg v (outCreditQueue i)). lia.
Qed.

Lemma vat_nat {A} (g : A → Z) l (i : nat) : vat g l (Z.of_nat i) = match l !! i with Some x => g x | None => 0 end.
Proof.
  unfold vat. destruct (vec_get l (Z.of_nat i)) as [x|] eqn:E.
  - apply vec_get_ok in E as [_ E]. rewrite Nat2Z.id in E. by rewrite E.
  - destruct (l !! i) as [x|] eqn:E'; [|done]. assert (vec_get l (Z.of_nat i) = Ok x); [|congruence].
    apply vec_get_ok. split; [lia|]. by rewrite Nat2Z.id.
Qed.

Lemma credits_left_held v e s : credits_left v e s ≤ sender_held v e s.
Proof.
  unfold credits_left. destruct e as [id p|id]; simpl; rewrite vat_nat.
  - destruct (y_routers s !! id) as [r|]; simpl; [|unfold vat, vec_get; by destruct (0 <=? v); rewrite ?lookup_nil].
    unfold out_held. rewrite vat_nat.
    assert (0 ≤ crossing v (Z.of_nat p) (crossbarSwitch r)) by (do 2 (apply lsum_nonneg; intros); apply bound_for_nonneg).
    destruct (m_output_unit r !! p) as [o|]; [|unfold vat, vec_get; destruct (0 <=? v); rewrite ?lookup_nil; lia].
    unfold ou_held. pose proof (vc_count_nonneg v (outBuffer o)). lia.
  - destruct (y_nis s !! id) as [n|]; [|unfold vat, vec_get; by destruct (0 <=? v); rewrite ?lookup_nil].
    unfold ni_out_held. assert (0 ≤ lsum (fun p => vc_count v (outFlitQueue p)) (outPorts n)); [|lia].
    apply lsum_nonneg. intros p. apply vc_count_nonneg.
Qed.

(** The counters keep their capacity and their range. *)
Lemma counters_steps v e s s' :
  Forall2 ovc_keeps (sender_vcs e s) (sender_vcs e s') → Forall credit_inv (sender_vcs e s) →
  capacity v e s' = capacity v e s ∧ Forall credit_inv (sender_vcs e s').
Proof.
  intros Hk Hall. split.
  - unfold capacity, vat, vec_get. destruct (0 <=? v); [|done].
    by destruct (proj1 (Forall2_lookup _ _ _) Hk (Z.to_nat v)) as [c c' [-> _]|].
  - revert Hall. induction Hk as [|c c' l l' [_ Hc] _ IH]; intros Hall; [done|].
    apply Forall_cons in Hall as [? ?]. constructor; auto.
Qed.

Lemma credits_left_nonneg v e s : Forall credit_inv (sender_vcs e s) → 0 ≤ credits_left v e s.
Proof.
  intros Hall. unfold credits_left, vat. destruct (vec_get _ v) as [c|] eqn:E; [|lia].
  apply vec_get_ok in E as [_ E]. rewrite Forall_lookup in Hall. destruct (Hall _ _ E) as [? _]. lia.
Qed.

(** A hop before the first flit: the sender has all its credits. *)
Record hop_ready (v : Z) (H : Hop) (s : System) : Prop := {
  hr_wired : hop_wired H s;
  hr_tagged : all_tagged s;
  hr_counters : Forall credit_inv (sender_vcs (hop_from H) s);
  hr_full : hop_total v H s = capacity v (hop_from H) s
}.

(** ** Properties *)

(** What holds of a hop in every state that can be reached. *)
Record hop_safe (v cap : Z) (H : Hop) (s : System) : Prop := {
  hs_total : hop_total v H s = cap;
  hs_credits : 0 ≤ credits_left v (hop_from H) s;
  hs_room : kept_flits v (hop_to H) s + on_link v (hop_link H) (y_links s) + credits_left v (hop_from H) s ≤ cap;
  hs_kept : 0 ≤ kept_flits v (hop_to H) s ≤ cap;
  hs_accepts l f l' c :
    y_links s !! hop_credit H = Some l → consumeLink l = Ok (f, l') → m_vc f = v →
    vec_get (sender_vcs (hop_from H) s) v = Ok c → is_ok (ovc_increment_credit c) = true
}.

Lemma hop_ready_safe rs cfg cs ds ro period_of rnd warm s0 s H v :
  hop_ready v H s0 → rtc (sys_step rs cfg cs ds ro period_of rnd warm) s0 s →
  hop_safe v (capacity v (hop_from H) s0) H s.
Proof.
  intros [Hw Ht Hc Hfull] Hsteps. apply sys_steps_keep in Hsteps as [[_ _ Hk] Htot].
  destruct (counters_steps v _ _ _ (Hk (hop_from H)) Hc) as [Hcap Hc'].
  specialize (Htot v H Hw Ht). rewrite Hfull in Htot.
  pose proof (credits_left_nonneg v _ _ Hc'). pose proof (credits_left_held v (hop_from H) s).
  pose proof (kept_flits_held v (hop_to H) s). unfold hop_total in Htot.
  pose proof (on_link_nonneg v (hop_link H) (y_links s)). pose proof (on_link_nonneg v (hop_credit H) (y_links s)).
  split; [unfold hop_total; lia|done|lia|lia|].
  intros l f l' c Hl Hcons Hvc Hget. unfold ovc_increment_credit, assert_. simpl.
  assert (1 ≤ on_link v (hop_credit H) (y_links s)).
  { unfold on_link. rewrite Hl. apply (consumeLink_vc v) in Hcons. unfold on_vc in Hcons. rewrite Hvc, Z.eqb_refl in Hcons.
    pose proof (vc_count_nonneg v (linkBuffer l')). simpl in Hcons. lia. }
  assert (m_credit_count c = credits_left v (hop_from H) s) as -> by (unfold credits_left, vat; by rewrite Hget).
  assert (m_max_credit_count c = capacity v (hop_from H) s0) as ->.
  { rewrite <-Hcap. unfold capacity, vat. by rewrite Hget. }
  rewrite (proj2 (Z.leb_le _ _)); [done|lia].
Qed.
