(* ===== verification/Ledger.v ===== *)
(** * The flits of the whole network

    Every step of a network without bridges accounts for its flits: what is in
    the routers, on the links and in the interfaces changes by the flits that
    interfaces inject and receive, which their statistics count, and by the
    credits that are consumed. From an empty network on, the number of flits of a
    virtual network that are on their way is the number injected less the number
    received. *)

From S2P Require Import Prelude IntMath Clocked Consumer WakeupRing MessageBuffer NetDest Flit RoutingUnit VirtualChannel NetworkLink.
From S2P Require Import InputUnit OutputUnit SwitchAllocator Router RouterFrame Interleave GarnetNetwork Parallel Conservation CreditFlow NetworkInterface NiSteps NiCredit NiLedger NetworkBridge.
From S2P Require Import Fabric FlowControl.

(** ** Weights and statistics *)

Definition sys_count (p : mark → Z) (s : System) : Z :=
  lsum (router_count p) (y_routers s) + links_count p (y_links s) + lsum (ni_count p) (y_nis s).

(** [m_local_flits_injected[v]] and [m_local_flits_received[v]] over all interfaces. *)
Definition ni_injected (v : Z) (n : NetworkInterface) : Z := stat_at (m_local_flits_injected (ni_stats n)) v.
Definition ni_received (v : Z) (n : NetworkInterface) : Z := stat_at (m_local_flits_received (ni_stats n)) v.
Definition flits_injected (v : Z) (s : System) : Z := lsum (ni_injected v) (y_nis s).
Definition flits_received (v : Z) (s : System) : Z := lsum (ni_received v) (y_nis s).

(** ** What a step moves *)

Record sys_moves (s s' : System) (inj recv taken : list flit) : Prop := {
  sm_weight p : (∀ free, p (credit_mark free) = 0) →
    sys_count p s' = sys_count p s + lsum (fcount p) inj - lsum (fcount p) recv - lsum (fcount p) taken;
  sm_injected v : u64 (flits_injected v s') = u64 (flits_injected v s + lsum (on_vnet v) inj);
  sm_received v : u64 (flits_received v s') = u64 (flits_received v s + lsum (on_vnet v) recv);
  sm_inj : Forall (fun f => is_Some (src_delay f) ∧ m_is_free_signal f = None) inj;
  sm_recv : Forall (fun f => is_Some (src_delay f)) recv;
  sm_taken : Forall (fun f => is_Some (m_is_free_signal f)) taken
}.

Definition sys_passes (s s' : System) : Prop := ∃ inj recv taken, sys_moves s s' inj recv taken.

Lemma sys_moves_trans s1 s2 s3 inj recv taken inj' recv' taken' :
  sys_moves s1 s2 inj recv taken → sys_moves s2 s3 inj' recv' taken' →
  sys_moves s1 s3 (inj ++ inj') (recv ++ recv') (taken ++ taken').
Proof.
  intros [W1 I1 R1 A1 B1 C1] [W2 I2 R2 A2 B2 C2]. split; [| | |by apply Forall_app..].
  - intros p Hp. rewrite (W2 p Hp), (W1 p Hp), !lsum_app. lia.
  - intros v. by rewrite I2, lsum_app, (u64_add_l _ _ _ (I1 v)), Z.add_assoc.
  - intros v. by rewrite R2, lsum_app, (u64_add_l _ _ _ (R1 v)), Z.add_assoc.
Qed.

(** The routers and links change by consuming credits; the interfaces do not. *)
Lemma spends_passes s s' :
  spends (fun p => sys_count p s) (fun p => sys_count p s') →
  (∀ v, flits_injected v s' = flits_injected v s) → (∀ v, flits_received v s' = flits_received v s) → sys_passes s s'.
Proof.
  intros (taken & Ht & Hw) Hi Hr. exists [], [], taken.
  split; [|by intros v; rewrite Hi, Z.add_0_r|by intros v; rewrite Hr, Z.add_0_r|constructor|constructor|done].
  intros p Hp. specialize (Hw p Hp). simpl in *. lia.
Qed.

Lemma sys_passes_same s s' :
  (∀ p, sys_count p s' = sys_count p s) → (∀ v, flits_injected v s' = flits_injected v s) →
  (∀ v, flits_received v s' = flits_received v s) → sys_passes s s'.
Proof. intros Hw. apply spends_passes, spends_eq. by intros p _. Qed.

#[export] Instance sys_passes_preorder : PreOrder sys_passes.
Proof.
  split; [intros s; by apply sys_passes_same|].
  intros s1 s2 s3 (i & r & t & H) (i' & r' & t' & H'). do 3 eexists. by eapply sys_moves_trans.
Qed.

Lemma sys_passes_inert s s' :
  y_routers s' = y_routers s → y_nis s' = y_nis s → y_links s' = y_links s → sys_passes s s'.
Proof.
  intros Er En El. apply sys_passes_same; intros; unfold sys_count, flits_injected, flits_received; by rewrite ?Er, ?En, ?El.
Qed.

(** An element of a vector is replaced by one of the same weight. *)
Lemma lsum_upd_same {A} (g : A → Z) (f : A → A) l i l' :
  (∀ x, g (f x) = g x) → vec_upd l i (fun x => Ok (f x)) = Ok l' → lsum g l' = lsum g l.
Proof. intros Hg Hu. destruct (lsum_vec_upd g _ _ _ _ Hu) as (x & y & _ & [= <-] & ->). rewrite Hg. lia. Qed.

Lemma put_consumer_passes c k s s' : put_consumer c k s = Ok s' → sys_passes s s'.
Proof.
  destruct c as [id|id p|id|h]; simpl.
  - intros (rs & Hu & [= <-])%rbind_ok. apply sys_passes_same; [|done..]. intros p. unfold sys_count.
    change (y_routers (with_routers s rs)) with rs. assert (∀ r, router_count p (set_consumer k r) = router_count p r) as E by done.
    by rewrite (lsum_upd_same (router_count p) (set_consumer k) _ _ _ E Hu).
  - intros [= <-]. by apply sys_passes_inert.
  - intros (nis & Hu & [= <-])%rbind_ok. apply sys_passes_same; intros x.
    + unfold sys_count. simpl. by rewrite (lsum_upd_same (ni_count x) (fun n => with_niconsumer n k) _ _ _ (fun _ => eq_refl) Hu).
    + exact (lsum_upd_same (ni_injected x) (fun n => with_niconsumer n k) _ _ _ (fun _ => eq_refl) Hu).
    + exact (lsum_upd_same (ni_received x) (fun n => with_niconsumer n k) _ _ _ (fun _ => eq_refl) Hu).
  - intros [= <-]. by apply sys_passes_inert.
Qed.

Lemma sys_schedule_passes period_of env e s s' : sys_schedule period_of env e s = Ok s' → sys_passes s s'.
Proof.
  destruct e as [c t]. unfold sys_schedule. intros (k & _ & (k' & _ & H)%rbind_ok)%rbind_ok. by eapply put_consumer_passes.
Qed.

Lemma fold_res_passes {A} (f : A → System → res System) l s s' :
  (∀ x t t', f x t = Ok t' → sys_passes t t') → fold_res f l s = Ok s' → sys_passes s s'.
Proof.
  intros Hf H. eapply (fold_res_keeps (sys_passes s)); [|reflexivity|exact H].
  intros x t t' _ Ht Hx. etrans; [exact Ht|by eapply Hf].
Qed.

(** ** Routers and interfaces run *)

Section events.
Context (rs : RubySystem) (cfg : NetConfig) (ctrl_size data_size : Z) (router_of : Z → Z → res Z).
Context (period_of : consumer_ref → Z) (ruby_is_random ruby_warmup : bool).
Context (env : ClockEnv) (rnd : Z → Z → Z) (rt : Z → Z).

Lemma settle_router_passes id r r' ls' s s' :
  vec_get (y_routers s) id = Ok r →
  spends (fun p => router_count p r + links_count p (y_links s)) (fun p => router_count p r' + links_count p ls') →
  settle_router period_of env id r' ls' s = Ok s' → sys_passes s s'.
Proof using Type.
  intros Hr Hsp. unfold settle_router. intros (rs' & Hs & ([ring cs] & _ & [= <-])%rbind_ok)%rbind_ok.
  transitivity (with_links (with_routers s rs') ls'); [|by apply sys_passes_inert].
  apply spends_passes; [|done..]. eapply spends_diff; [|exact Hsp]. intros p _. unfold sys_count.
  change (y_routers (with_links (with_routers s rs') ls')) with rs'.
  change (y_links (with_links (with_routers s rs') ls')) with ls'.
  change (y_nis (with_links (with_routers s rs') ls')) with (y_nis s).
  rewrite (lsum_vec_set (router_count p) _ _ _ _ _ Hr Hs).
  match goal with |- context [router_count p (with_core_of r' ?c)] =>
    change (router_count p (with_core_of r' c)) with (router_count p r') end. lia.
Qed.

Lemma wake_router_passes id s s' : wake_router cfg period_of env rnd id s = Ok s' → sys_passes s s'.
Proof using Type.
  unfold wake_router. intros (r & Hr & ([r' ls'] & Hw%router_wakeup_spends & H)%rbind_ok)%rbind_ok.
  by eapply settle_router_passes.
Qed.

Lemma wake_output_unit_passes id p s s' : wake_output_unit period_of env id p s = Ok s' → sys_passes s s'.
Proof using Type.
  unfold wake_output_unit. intros (r & Hr & ([r' ls'] & Hw%wake_output_spends & H)%rbind_ok)%rbind_ok.
  by eapply settle_router_passes.
Qed.

(** What an interface moves, the system moves. *)
Lemma lsum_u64 {A} (g : A → Z) l i x y l' d :
  vec_get l i = Ok x → vec_set l i y = Ok l' → u64 (g y) = u64 (g x + d) → u64 (lsum g l') = u64 (lsum g l + d).
Proof using Type.
  intros Hx Hs Hd. rewrite (lsum_vec_set g _ _ _ _ _ Hx Hs).
  replace (lsum g l - g x + g y) with (g y + (lsum g l - g x)) by lia. rewrite (u64_add_l _ _ _ Hd). f_equal. lia.
Qed.

Lemma replace_ni_passes s id n n' ls' nis :
  vec_get (y_nis s) id = Ok n → vec_set (y_nis s) id n' = Ok nis → ni_passes n (y_links s) n' ls' →
  sys_passes s (with_links (with_interfaces s nis) ls').
Proof using Type.
  intros Hn Hs (inj & recv & taken & [W I R A B C]). exists inj, recv, taken. split; [| | |done..].
  - intros p Hp. specialize (W p Hp). unfold sys_count.
    change (y_routers (with_links (with_interfaces s nis) ls')) with (y_routers s).
    change (y_links (with_links (with_interfaces s nis) ls')) with ls'.
    change (y_nis (with_links (with_interfaces s nis) ls')) with nis.
    rewrite (lsum_vec_set (ni_count p) _ _ _ _ _ Hn Hs). lia.
  - intros v. exact (lsum_u64 (ni_injected v) _ _ _ _ _ _ Hn Hs (I v)).
  - intros v. exact (lsum_u64 (ni_received v) _ _ _ _ _ _ Hn Hs (R v)).
Qed.

Lemma wake_ni_passes id s s' :
  wake_ni rs cfg ctrl_size data_size router_of period_of ruby_is_random ruby_warmup env rt id s = Ok s' → sys_passes s s'.
Proof using Type.
  unfold wake_ni. intros (n & Hn & ([n' w] & Hw%ni_wakeup_passes & (nis & Hs & H)%rbind_ok)%rbind_ok)%rbind_ok.
  transitivity (with_links (with_interfaces s nis) (w_links w)); [by eapply replace_ni_passes|].
  transitivity (with_world (with_links (with_interfaces s nis) (w_links w)) w); [by apply sys_passes_inert|].
  eapply fold_res_passes; [|exact H]. intros [c t|i t|b t|b] u u' Hx; simpl in Hx.
  - exact (sys_schedule_passes _ _ (c, t) _ _ Hx).
  - injection Hx as <-. by apply sys_passes_inert.
  - by injection Hx as <-.
  - by injection Hx as <-.
Qed.

End events.

(** ** Links *)

(** No bridges, and links read queues of routers and interfaces only. *)
Definition plain (s : System) : Prop :=
  dom (y_bridges s) = ∅ ∧ ∀ h x, srcs_at (y_links s) h ≠ Some (QLink x).

Lemma plain_layout s s' : same_layout s s' → plain s → plain s'.
Proof.
  intros [_ _ _ _ He Hd] [Hb Hl]. split; [by rewrite Hd|]. intros h x. destruct (He h) as [_ E]. rewrite E. apply Hl.
Qed.

(** The weight changes by [d]; the statistics stay. *)
Definition reweighs (s s' : System) (d : (mark → Z) → Z) : Prop :=
  (∀ p, sys_count p s' = sys_count p s + d p) ∧
  (∀ v, flits_injected v s' = flits_injected v s) ∧ ∀ v, flits_received v s' = flits_received v s.

Lemma router_reweighs s id r r' rs' (d : (mark → Z) → Z) :
  vec_get (y_routers s) id = Ok r → vec_set (y_routers s) id r' = Ok rs' →
  (∀ p, router_count p r' = router_count p r + d p) → reweighs s (with_routers s rs') d.
Proof.
  intros Hr Hs Hd. split_and!; [|done..]. intros p. unfold sys_count. change (y_routers (with_routers s rs')) with rs'.
  change (y_links (with_routers s rs')) with (y_links s). change (y_nis (with_routers s rs')) with (y_nis s).
  rewrite (lsum_vec_set (router_count p) _ _ _ _ _ Hr Hs), Hd. lia.
Qed.

Lemma ni_reweighs s id n n' nis (d : (mark → Z) → Z) :
  vec_get (y_nis s) id = Ok n → vec_set (y_nis s) id n' = Ok nis → ni_stats n' = ni_stats n →
  (∀ p, ni_count p n' = ni_count p n + d p) → reweighs s (with_interfaces s nis) d.
Proof.
  intros Hn Hs Hst Hd. split_and!.
  - intros p. unfold sys_count. change (y_routers (with_interfaces s nis)) with (y_routers s).
    change (y_links (with_interfaces s nis)) with (y_links s). simpl.
    rewrite (lsum_vec_set (ni_count p) _ _ _ _ _ Hn Hs), Hd. lia.
  - intros v. unfold flits_injected. simpl. rewrite (lsum_vec_set (ni_injected v) _ _ _ _ _ Hn Hs).
    unfold ni_injected. rewrite Hst. lia.
  - intros v. unfold flits_received. simpl. rewrite (lsum_vec_set (ni_received v) _ _ _ _ _ Hn Hs).
    unfold ni_received. rewrite Hst. lia.
Qed.

Lemma put_queue_reweighs q b b' s s' :
  (∀ x, q ≠ QLink x) → get_queue q s = Ok b → put_queue q b' s = Ok s' → reweighs s s' (fun p => bcount p b' - bcount p b).
Proof.
  intros Hq. destruct q as [id p|id p|id p|id p|h]; simpl; [..|by destruct (Hq h)];
    intros (r & Hr & (o & Ho & [= <-])%rbind_ok)%rbind_ok (rs' & Hu & [= <-])%rbind_ok;
    unfold vec_upd in Hu; rewrite Hr in Hu; cbn [rbind] in Hu; rewrite Ho in Hu; cbn [rbind] in Hu;
    apply rbind_ok in Hu as (r' & (os & Hos & [= <-])%rbind_ok & Hs).
  - eapply router_reweighs; [exact Hr|exact Hs|]. intros w. unfold router_count. simpl.
    rewrite (lsum_vec_set (ou_count w) _ _ _ _ _ Ho Hos). unfold ou_count. simpl. lia.
  - eapply router_reweighs; [exact Hr|exact Hs|]. intros w. unfold router_count. simpl.
    rewrite (lsum_vec_set (iu_count w) _ _ _ _ _ Ho Hos). unfold iu_count. simpl. lia.
  - eapply ni_reweighs; [exact Hr|exact Hs|done|]. intros w. unfold ni_count. simpl.
    rewrite (lsum_vec_set (op_count w) _ _ _ _ _ Ho Hos). unfold op_count. simpl. lia.
  - eapply ni_reweighs; [exact Hr|exact Hs|done|]. intros w. unfold ni_count. simpl.
    rewrite (lsum_vec_set (ip_count w) _ _ _ _ _ Ho Hos). unfold ip_count. simpl. lia.
Qed.

Lemma link_wakeup_count p ck k l q k' l' q' sched :
  link_wakeup ck k l q = Ok (k', l', q', sched) → link_count p l' + bcount p q' = link_count p l + bcount p q.
Proof.
  unfold link_wakeup. intros (_ & _ & (_ & _ & ([[l1 q1] s1] & Hm & (k1 & _ & H)%rbind_ok)%rbind_ok)%rbind_ok)%rbind_ok.
  simplify_eq. destruct (isReady _ q); [|by simplify_eq].
  apply rbind_ok in Hm as ([f q2] & Hg & (_ & _ & (c & _ & (load & _ & Hm)%rbind_ok)%rbind_ok)%rbind_ok). simplify_eq/=.
  unfold link_count. simpl. rewrite bcount_insert. apply (bcount_getTop p) in Hg.
  change (fcount p (set_time _ f)) with (fcount p f). lia.
Qed.

Lemma wake_link_passes period_of env h s s' : plain s → wake_link period_of env h s = Ok s' → sys_passes s s'.
Proof.
  intros [Hb Hsrc]. unfold wake_link. intros (l & Hl%get_link_some & H)%rbind_ok.
  apply rbind_ok in H as (q & Hq & (b & Hget & (k & _ & H)%rbind_ok)%rbind_ok).
  destruct (link_srcQueue l) as [q0|] eqn:Eq; [|done]. injection Hq as ->.
  assert (∀ x, q ≠ QLink x) as Hne by (intros x ->; apply (Hsrc h x); unfold srcs_at; by rewrite Hl).
  assert (y_bridges s !! h = None) as E by (apply not_elem_of_dom; set_solver). rewrite E in H.
  apply rbind_ok in H as ([[[k' l'] b'] sched] & Hw & (s1 & Hs1 & (s2 & Hs2%put_consumer_passes & H)%rbind_ok)%rbind_ok).
  transitivity s1; [|transitivity s2; [done|]; eapply fold_res_passes; [|exact H]; intros; by eapply sys_schedule_passes].
  apply (put_queue_reweighs _ b) in Hs1 as (W & I & R); [|done|by destruct q; try destruct (Hne handle)].
  apply sys_passes_same; [|done..]. intros p. rewrite W. apply (link_wakeup_count p) in Hw. unfold sys_count.
  change (y_links (with_links s (<[h := l']> (y_links s)))) with (<[h := l']> (y_links s)).
  change (y_routers (with_links s (<[h := l']> (y_links s)))) with (y_routers s).
  change (y_nis (with_links s (<[h := l']> (y_links s)))) with (y_nis s).
  rewrite (links_count_insert p _ _ _ _ Hl). lia.
Qed.

(** ** Every step *)

(** The layout is kept, and without bridges flits are accounted for. *)
Definition accounts (s s' : System) : Prop := same_layout s s' ∧ (plain s → sys_passes s s').

#[export] Instance accounts_preorder : PreOrder accounts.
Proof.
  split; [by split|]. intros s1 s2 s3 [L1 P1] [L2 P2]. split; [by etrans|]. intros Hp.
  etrans; [by apply P1|]. apply P2. by eapply plain_layout.
Qed.

Lemma flow_layout s s' : flow_keeps s s' → same_layout s s'.
Proof. by intros [[H _ _] _]. Qed.

Section steps.
Context (rs : RubySystem) (cfg : NetConfig) (ctrl_size data_size : Z) (router_of : Z → Z → res Z).
Context (period_of : consumer_ref → Z) (ruby_is_random ruby_warmup : bool).

Lemma sys_step_accounts s s' :
  sys_step rs cfg ctrl_size data_size router_of period_of ruby_is_random ruby_warmup s s' → accounts s s'.
Proof using Type.
  intros Hstep. split; [by eapply flow_layout, sys_step_keeps|]. intros Hp. revert Hp.
  destruct Hstep as [env rnd rt c k t t' _ _ Hf|env t n' _ Hg|t w|env id tick t t' Hs].
  - apply (fire_rel _ _ _ _ _ _ _ _ accounts) in Hf as [_ Hf]; [done| |].
    + intros k' u u' H. split; [by eapply flow_layout, put_consumer_keeps|]. intros _. by eapply put_consumer_passes.
    + intros u u' H. destruct c; simpl in H; split.
      * by eapply flow_layout, wake_router_keeps.
      * intros _. by eapply wake_router_passes.
      * by eapply flow_layout, wake_output_unit_keeps.
      * intros _. by eapply wake_output_unit_passes.
      * by eapply flow_layout, wake_ni_keeps.
      * intros _. by eapply wake_ni_passes.
      * by eapply flow_layout, wake_link_keeps.
      * intros Hp. by eapply wake_link_passes.
  - intros _. apply globalWakeup_spends in Hg. apply spends_passes; [|done..].
    eapply spends_diff; [|exact Hg]. intros p _. unfold sys_count, network_count, stored_count. simpl.
    change (y_routers (with_net t n')) with (m_routers n'). change (y_links (with_net t n')) with (n_links n').
    unfold y_routers, y_links. lia.
  - intros _. by apply sys_passes_inert.
  - intros _. by eapply sys_schedule_passes.
Qed.

Lemma sys_steps_account s s' :
  rtc (sys_step rs cfg ctrl_size data_size router_of period_of ruby_is_random ruby_warmup) s s' → accounts s s'.
Proof using Type. induction 1 as [|s1 s2 s3 H1 _ IH]; [done|]. etrans; [by eapply sys_step_accounts|exact IH]. Qed.

End steps.

(** ** The balance *)

(** Flits that carry a source delay and a free signal: neither flit nor credit. *)
Definition stray (k : mark) : Z := match k with (_, Some _, Some _) => 1 | _ => 0 end.

Definition of_vnet (v : Z) (k : Z * Z * Z * Z * flit_type * MsgPtr * Z * Z) : bool :=
  let '(_, _, _, vn, _, _, _, _) := k in vn =? v.

(** The data flits of a virtual network that are on their way. *)
Definition in_flight (v : Z) (s : System) : Z := sys_count (data_class (of_vnet v)) s.

Lemma sys_count_nonneg p s : (∀ k, 0 ≤ p k) → 0 ≤ sys_count p s.
Proof.
  intros Hp. assert (∀ l, 0 ≤ lsum (fcount p) l) as Hl by (intros; apply lsum_nonneg; intros; apply Hp).
  assert (∀ A (g : A → flitBuffer) l, 0 ≤ lsum (fun x => bcount p (g x)) l) as Hb
    by (intros; apply lsum_nonneg; intros; apply Hl).
  unfold sys_count. repeat apply Z.add_nonneg_nonneg; apply lsum_nonneg; intros x.
  - unfold router_count. repeat apply Z.add_nonneg_nonneg; [|apply (Hb _ (fun x => x))|apply (Hb _ outBuffer)].
    apply lsum_nonneg. intros u. apply Z.add_nonneg_nonneg; [apply Hb|apply Hl].
  - apply Hl.
  - unfold ni_count. repeat apply Z.add_nonneg_nonneg; [apply (Hb _ (fun x => x))|apply (Hb _ outFlitQueue)|].
    apply lsum_nonneg. intros i. apply Z.add_nonneg_nonneg; apply Hl.
Qed.

Lemma data_on_vnet v f : m_is_free_signal f = None → fcount (data_class (of_vnet v)) f = on_vnet v f.
Proof. intros Hf. unfold fcount, data_class, flit_mark. simpl. rewrite Hf. done. Qed.

Lemma u64_eq x y : u64 x = u64 y ↔ ∃ k, x = y + k * 2 ^ 64.
Proof.
  unfold u64. split.
  - intros H. exists (x / 2 ^ 64 - y / 2 ^ 64).
    pose proof (Z.div_mod x (2 ^ 64) ltac:(lia)). pose proof (Z.div_mod y (2 ^ 64) ltac:(lia)). lia.
  - intros [k ->]. apply Z_mod_plus_full.
Qed.

Lemma passes_balance s s' v :
  sys_passes s s' → sys_count stray s = 0 →
  u64 (flits_injected v s' - flits_received v s' - in_flight v s') =
  u64 (flits_injected v s - flits_received v s - in_flight v s).
Proof.
  intros (inj & recv & taken & [W I R A B C]) H0.
  assert (∀ k, 0 ≤ stray k) as Hpos by (intros [[k [d|]] [b|]]; simpl; lia).
  assert (∀ f, 0 ≤ fcount stray f) as Hfc by (intros; apply Hpos).
  pose proof (W stray) as Hs. rewrite H0 in Hs. specialize (Hs (fun _ => eq_refl)).
  pose proof (sys_count_nonneg stray s' Hpos). pose proof (lsum_nonneg _ recv Hfc). pose proof (lsum_nonneg _ taken Hfc).
  assert (lsum (fcount stray) inj = 0) as Hi.
  { apply lsum_zero. eapply Forall_impl; [exact A|]. intros f [_ Hf]. unfold fcount, flit_mark. rewrite Hf. by destruct (src_delay f). }
  assert (Forall (fun f => fcount (data_class (of_vnet v)) f = on_vnet v f) recv) as Hrecv.
  { pose proof (lsum_zero_each _ recv Hfc ltac:(lia)) as Hz. eapply Forall_impl; [exact (proj2 (Forall_and _ _) (conj Hz B))|].
    intros f [Hf [d Hd]]. apply data_on_vnet. unfold fcount, flit_mark in Hf. rewrite Hd in Hf.
    by destruct (m_is_free_signal f). }
  assert (in_flight v s' = in_flight v s + lsum (on_vnet v) inj - lsum (on_vnet v) recv) as Hfl.
  { unfold in_flight. rewrite W by done. rewrite (taken_data _ taken C), (lsum_forall_ext _ _ _ Hrecv).
    rewrite (lsum_forall_ext (fcount _) (on_vnet v) inj); [lia|]. eapply Forall_impl; [exact A|].
    intros f [_ Hf]. by apply data_on_vnet. }
  destruct (proj1 (u64_eq _ _) (I v)) as [a Ha]. destruct (proj1 (u64_eq _ _) (R v)) as [b Hb].
  apply u64_eq. exists (a - b). rewrite Hfl, Ha, Hb. lia.
Qed.
