(* ===== verification/Topology.v ===== *)
(** * Topology: network/Topology.{hh,cc}

    The graph of the network, its all-pairs shortest paths, and the routing
    table entries derived from them. A node that is not a router is represented
    by two switch numbers: [0..nodes) for its link into the network and
    [nodes..2*nodes) for its link out of it; router [r] is [r + 2*nodes]. *)

From S2P Require Import Prelude IntMath NetDest Flit RoutingUnit.

Definition INFINITE_LATENCY : Z := 10000.

(** ** Links *)

(** The members of [BasicLink] the topology reads; a link is an object. *)
Record BasicLink := {
  bl_handle : Z;
  bl_latency : Z;
  bl_weight : Z;
  bl_vnets : list Z
}.

Record LinkEntry := {
  le_link : BasicLink;
  src_outport_dirn : PortDirection;
  dst_inport_dirn : PortDirection
}.

Abbreviation LinkMap := (gmap (Z * Z) (list LinkEntry)).

(** An external link joins a controller and a router; an internal link goes from
    one router to another. *)
Record ExtLink := { el_link : BasicLink; ext_node : MachineID; int_node : Z }.
Record IntLink := { il_link : BasicLink; src_node : Z; dst_node : Z; il_outport : PortDirection; il_inport : PortDirection }.

Definition topo_addLink (m_nodes m_switches src dest : Z) (e : LinkEntry) (lm : LinkMap) : res LinkMap :=
  let* _ := assert_ "src <= m_number_of_switches+m_nodes+m_nodes" (src <=? m_switches + m_nodes + m_nodes) in
  let* _ := assert_ "dest <= m_number_of_switches+m_nodes+m_nodes" (dest <=? m_switches + m_nodes + m_nodes) in
  Ok (<[(src, dest) := default [] (lm !! (src, dest)) ++ [e]]> lm).

(** The constructor's analysis of the links. *)
Definition new_Topology (rs : RubySystem) (num_routers : Z) (ext_links : list ExtLink) (int_links : list IntLink)
    : res LinkMap :=
  let m_nodes := MachineType_base_number rs (MachineType_NUM rs) in
  let* _ := assert_ "m_nodes > 1" (1 <? m_nodes) in
  let* lm := fold_res (fun l lm =>
    let ext_idx1 := MachineType_base_number rs (mach_type (ext_node l)) + mach_num (ext_node l) in
    let ext_idx2 := ext_idx1 + m_nodes in
    let int_idx := int_node l + 2 * m_nodes in
    let e := {| le_link := el_link l; src_outport_dirn := ""; dst_inport_dirn := "" |} in
    let* lm := topo_addLink m_nodes num_routers ext_idx1 int_idx e lm in
    topo_addLink m_nodes num_routers int_idx ext_idx2 e lm) ext_links ∅ in
  fold_res (fun l lm =>
    topo_addLink m_nodes num_routers (src_node l + 2 * m_nodes) (dst_node l + 2 * m_nodes)
      {| le_link := il_link l; src_outport_dirn := il_outport l; dst_inport_dirn := il_inport l |} lm)
    int_links lm.

(** ** Matrices *)

Abbreviation Matrix := (list (list (list Z))).

Definition mget (m : Matrix) (a b c : Z) : res Z :=
  let* x := vec_get m a in let* y := vec_get x b in vec_get y c.
Definition mset (m : Matrix) (a b c x : Z) : res Matrix :=
  vec_upd m a (fun p => vec_upd p b (fun q => vec_set q c x)).

Definition const_matrix (a b c : nat) (x : Z) : Matrix := replicate a (replicate b (replicate c x)).

(** ** Shortest paths *)

(** The distances, the latencies and the numbers of switches on the way. *)
Record Paths := { p_dist : Matrix; p_lat : Matrix; p_inter : Matrix }.

(** The loop over the intermediate nodes: the minimum so far, the last node
    that improved it, and the counts of switches. *)
Definition relax_k (dist : Matrix) (v i j k : Z) (s : Z * Z * Matrix) : res (Z * Z * Matrix) :=
  let '(previous_minimum, intermediate_switch, inter) := s in
  let* a := mget dist v i k in
  let* b := mget dist v k j in
  let minimum := Z.min previous_minimum (a + b) in
  if negb (previous_minimum =? minimum) then
    let* x := mget inter i k v in
    let* y := mget inter k j v in
    let* inter := mset inter i j v (x + y + 1) in
    Ok (minimum, k, inter)
  else Ok (minimum, intermediate_switch, inter).

(** One pair of nodes. *)
Definition relax_pair (nodes : nat) (v i j : Z) (s : Paths * bool) : res (Paths * bool) :=
  let '(p, change) := s in
  let* d := mget (p_dist p) v i j in
  let* ' (minimum, intermediate_switch, inter) :=
    for_range 0 nodes (relax_k (p_dist p) v i j) (d, -1, p_inter p) in
  if negb (d =? minimum) then
    let* dist := mset (p_dist p) v i j minimum in
    let* _ := assert_ "intermediate_switch >= 0" (0 <=? intermediate_switch) in
    let* row := vec_get (p_lat p) i in
    let* _ := assert_ "intermediate_switch < latencies[i].size()"
      (intermediate_switch <? Z.of_nat (length row)) in
    let* x := mget (p_lat p) i intermediate_switch v in
    let* y := mget (p_lat p) intermediate_switch j v in
    let* lat := mset (p_lat p) i j v (x + y) in
    Ok ({| p_dist := dist; p_lat := lat; p_inter := inter |}, true)
  else Ok ({| p_dist := p_dist p; p_lat := p_lat p; p_inter := inter |}, change).

(** One turn of the [while (change)] loop. *)
Definition relax_round (nodes : nat) (v : Z) (p : Paths) : res (Paths * bool) :=
  for_range 0 nodes (fun i => for_range 0 nodes (fun j => relax_pair nodes v i j)) (p, false).

(** The loop itself. Every turn but the last lowers the sum of the distances. *)
Fixpoint relax_while (fuel : nat) (nodes : nat) (v : Z) (p : Paths) : res (option Paths) :=
  match fuel with
  | O => Ok None
  | S fuel' =>
      let* ' (p, change) := relax_round nodes v p in
      if change : bool then relax_while fuel' nodes v p else Ok (Some p)
  end.

(** [extend_shortest_path]; [None] means the fuel ran out. *)
Definition extend_shortest_path (fuel nodes : nat) (vnets : nat) (p : Paths) : res (option Paths) :=
  for_range 0 vnets (fun v o =>
    match o with Some p => relax_while fuel nodes v p | None => Ok None end) (Some p).

(** ** Routing tables *)

Definition link_is_shortest_path_to_node (weights dist : Matrix) (src next final vnet : Z) : res bool :=
  let* w := mget weights vnet src next in
  let* d := mget dist vnet next final in
  let* t := mget dist vnet src final in
  Ok (w + d =? t).

(** The destinations a link is on a shortest path to. *)
Definition shortest_path_to_node (rs : RubySystem) (weights dist : Matrix) (src next vnet : Z) : res NetDest :=
  let max_machines := MachineType_base_number rs (MachineType_NUM rs) in
  let* result := resize rs in
  let* ' (result, _) :=
    for_range 0 (Z.to_nat (MachineType_NUM rs)) (fun m s =>
      for_range 0 (Z.to_nat (MachineType_base_count rs m)) (fun i '(result, d) =>
        let* on := link_is_shortest_path_to_node weights dist src next (d + max_machines) vnet in
        let* result := (if on : bool then add rs {| mach_type := m; mach_num := i |} result else Ok result) in
        Ok (result, d + 1)) s) (result, 0) in
  Ok result.

(** ** createLinks *)

(** The weights and latencies of one group of links between two switches; two
    links of a group must not carry the same virtual network. *)
Definition set_link_weight (vnets src dst : Z) (link : BasicLink) (vnet : Z)
    (s : Matrix * Matrix * list bool) : res (Matrix * Matrix * list bool) :=
  let '(weights, lat, vnet_done) := s in
  if vnets <=? vnet then Err (EFatal "Not enough virtual networks")
  else
    let* done := vec_get vnet_done vnet in
    if done : bool then Err (EFatal "Two links connecting same src and destination cannot support same vnets")
    else
      let* lat := mset lat src dst vnet (bl_latency link) in
      let* weights := mset weights vnet src dst (bl_weight link) in
      let* vnet_done := vec_set vnet_done vnet true in
      Ok (weights, lat, vnet_done).

Definition fill_group (vnets : Z) (g : (Z * Z) * list LinkEntry) (s : Matrix * Matrix) : res (Matrix * Matrix) :=
  let '((src, dst), entries) := g in
  let* ' (weights, lat, _) := fold_res (fun e s =>
      let link := le_link e in
      let carried := if Nat.eqb (length (bl_vnets link)) 0 then seqZ 0 vnets else bl_vnets link in
      fold_res (set_link_weight vnets src dst link) carried s)
    entries (fst s, snd s, replicate (Z.to_nat vnets) false) in
  Ok (weights, lat).

(** Identity weights. *)
Definition zero_diagonal (vnets num_switches : nat) (weights : Matrix) : res Matrix :=
  for_range 0 num_switches (fun i w => for_range 0 vnets (fun v w => mset w v i i 0) w) weights.

Definition max_switch_id (lm : LinkMap) : Z :=
  foldl (fun m '((s, d), _) => Z.max (Z.max m s) d) 0 (map_to_list lm).

(** What [makeLink] asks the network to build. *)
Inductive link_request :=
  | MakeExtInLink (src dest : Z) (link : BasicLink) (route : list NetDest)
  | MakeExtOutLink (src dest : Z) (link : BasicLink) (route : list NetDest)
  | MakeInternalLink (src dest : Z) (link : BasicLink) (route : list NetDest)
      (src_outport dst_inport : PortDirection).

(** The part of the routing entry that a link carries. *)
Definition link_route (rs : RubySystem) (vnets : nat) (link : BasicLink) (entry : list NetDest)
    : res (list NetDest) :=
  if Nat.eqb (length (bl_vnets link)) 0 then Ok entry
  else
    let* empty := resize rs in
    fold_res (fun vnet route => let* e := vec_get entry vnet in vec_set route vnet e)
      (bl_vnets link) (replicate vnets empty).

(** [Topology::makeLink] *)
Definition makeLink (rs : RubySystem) (vnets : nat) (lm : LinkMap) (src dest : Z) (entry : list NetDest)
    : res (list link_request) :=
  let m_nodes := MachineType_base_number rs (MachineType_NUM rs) in
  let* _ := assert_ "not two end points" ((2 * m_nodes <=? src) || (2 * m_nodes <=? dest)) in
  let* _ := (if (m_nodes <=? src) && (dest <? 2 * m_nodes)
             then assert_ "dest >= m_nodes" (m_nodes <=? dest) else Ok tt) in
  let* _ := (if (m_nodes <=? src) && (2 * m_nodes <=? dest)
             then assert_ "src >= 2 * m_nodes" (2 * m_nodes <=? src) else Ok tt) in
  fold_res (fun e reqs =>
    let* route := link_route rs vnets (le_link e) entry in
    let req :=
      if src <? m_nodes then MakeExtInLink src (dest - 2 * m_nodes) (le_link e) route
      else if dest <? 2 * m_nodes
      then MakeExtOutLink (src - 2 * m_nodes) (dest - m_nodes) (le_link e) route
      else MakeInternalLink (src - 2 * m_nodes) (dest - 2 * m_nodes) (le_link e) route
             (src_outport_dirn e) (dst_inport_dirn e) in
    Ok (reqs ++ [req])) (default [] (lm !! (src, dest))) [].

(** The routing entry of one pair of switches; [None] if no link joins them. *)
Definition routing_map (rs : RubySystem) (vnets : nat) (weights dist : Matrix) (i j : Z)
    : res (option (list NetDest)) :=
  let* empty := resize rs in
  let* ' (routingMap, realLink) :=
    for_range 0 vnets (fun v '(routingMap, realLink) =>
      let* weight := mget weights v i j in
      if (0 <? weight) && negb (weight =? INFINITE_LATENCY) then
        let* e := shortest_path_to_node rs weights dist i j v in
        let* routingMap := vec_set routingMap v e in
        Ok (routingMap, true)
      else Ok (routingMap, realLink)) (replicate vnets empty, false) in
  Ok (if realLink : bool then Some routingMap else None).

(** [Topology::createLinks] *)
Definition createLinks (fuel : nat) (rs : RubySystem) (vnets : nat) (lm : LinkMap)
    : res (option (list link_request)) :=
  let num_switches := Z.to_nat (max_switch_id lm + 1) in
  let* weights := zero_diagonal vnets num_switches
    (const_matrix vnets num_switches num_switches INFINITE_LATENCY) in
  let* ' (weights, lat) := fold_res (fill_group (Z.of_nat vnets)) (map_to_list lm)
    (weights, const_matrix num_switches num_switches vnets (-1)) in
  let* o := extend_shortest_path fuel num_switches vnets
    {| p_dist := weights; p_lat := lat; p_inter := const_matrix num_switches num_switches vnets 0 |} in
  match o with
  | None => Ok None
  | Some p =>
      let* reqs := for_range 0 num_switches (fun i reqs => for_range 0 num_switches (fun j reqs =>
        let* entry := routing_map rs vnets weights (p_dist p) i j in
        match entry with
        | None => Ok reqs
        | Some entry => let* r := makeLink rs vnets lm i j entry in Ok (reqs ++ r)
        end) reqs) [] in
      Ok (Some reqs)
  end.
