(* ===== verification/ShortestPaths.v ===== *)
(** * Correctness of the routing tables built by Topology.cc

    [extend_shortest_path] computes the shortest-path distances of the weighted
    graph and always terminates; the routing entries derived from it always
    lead closer to the destination. *)

From S2P Require Import Prelude IntMath NetDest Flit RoutingUnit Topology.

(** ** Matrices of a given shape *)

Record shaped (m : Matrix) (a b c : nat) : Prop := {
  sh_len : length m = a;
  sh_row : ∀ x p, m !! x = Some p → length p = b;
  sh_cell : ∀ x p y q, m !! x = Some p → p !! y = Some q → length q = c
}.

Lemma shaped_lookup m a b c x y :
  shaped m a b c → 0 ≤ x < Z.of_nat a → 0 ≤ y < Z.of_nat b →
  ∃ p q, vec_get m x = Ok p ∧ vec_get p y = Ok q ∧ length p = b ∧ length q = c.
Proof.
  intros [Hl Hr Hc] Hx Hy. destruct (vec_get_in_range m x) as [p Hp]; [lia|].
  pose proof Hp as [_ Hp']%vec_get_ok. pose proof (Hr _ _ Hp') as Hlp.
  destruct (vec_get_in_range p y) as [q Hq]; [lia|].
  pose proof Hq as [_ Hq']%vec_get_ok. eauto 10.
Qed.

Lemma mget_in m a b c x y z :
  shaped m a b c → 0 ≤ x < Z.of_nat a → 0 ≤ y < Z.of_nat b → 0 ≤ z < Z.of_nat c → ∃ r, mget m x y z = Ok r.
Proof.
  intros Hs Hx Hy Hz. destruct (shaped_lookup m a b c x y Hs Hx Hy) as (p & q & Hp & Hq & _ & Hlq).
  unfold mget. rewrite Hp. cbn [rbind]. rewrite Hq. cbn [rbind]. apply vec_get_in_range. lia.
Qed.

Lemma mset_in m a b c x y z v :
  shaped m a b c → 0 ≤ x < Z.of_nat a → 0 ≤ y < Z.of_nat b → 0 ≤ z < Z.of_nat c →
  ∃ m', mset m x y z v = Ok m' ∧ shaped m' a b c ∧ mget m' x y z = Ok v ∧
    ∀ x' y' z', (x', y', z') ≠ (x, y, z) → mget m' x' y' z' = mget m x' y' z'.
Proof.
  intros Hs Hx Hy Hz. pose proof Hs as [Hl Hr Hc].
  destruct (shaped_lookup m a b c x y Hs Hx Hy) as (p & q & Hp & Hq & Hlp & Hlq).
  unfold mset, vec_upd. rewrite Hp. cbn [rbind]. rewrite Hq. cbn [rbind].
  rewrite (vec_set_in_range q) by lia. cbn [rbind].
  destruct (vec_set p y (<[Z.to_nat z := v]> q)) as [p'|] eqn:Ep; [|by rewrite vec_set_in_range in Ep by lia].
  cbn [rbind]. destruct (vec_set m x p') as [m'|] eqn:Em; [|by rewrite vec_set_in_range in Em by lia].
  exists m'. split; [done|]. pose proof (vec_set_length _ _ _ _ Ep). pose proof (vec_set_length _ _ _ _ Em).
  split_and!.
  - split; [congruence|..].
    + intros x' p'' Hx'. apply vec_set_ok in Em as [_ ->].
      apply list_lookup_insert_Some in Hx' as [(<- & <- & _)|[_ Hx']]; [congruence|by eapply Hr].
    + intros x' p'' y' q'' Hx' Hy'. apply vec_set_ok in Em as [_ ->]. apply vec_set_ok in Ep as [_ ->].
      apply list_lookup_insert_Some in Hx' as [(<- & <- & _)|[_ Hx']]; [|by eapply Hc].
      apply list_lookup_insert_Some in Hy' as [(<- & <- & _)|[_ Hy']]; [by rewrite length_insert|].
      eapply Hc; [|done]. by apply vec_get_ok in Hp as [_ Hp].
  - unfold mget. rewrite (vec_get_set_eq _ _ _ _ Em). cbn [rbind]. rewrite (vec_get_set_eq _ _ _ _ Ep). cbn [rbind].
    apply vec_get_ok. split; [lia|]. apply list_lookup_insert_eq. lia.
  - intros x' y' z' Hne. unfold mget. destruct (decide (x' = x)) as [->|].
    2:{ by rewrite (vec_get_set_ne _ _ _ _ _ Em) by done. }
    rewrite (vec_get_set_eq _ _ _ _ Em), Hp. cbn [rbind]. destruct (decide (y' = y)) as [->|].
    2:{ by rewrite (vec_get_set_ne _ _ _ _ _ Ep) by done. }
    rewrite (vec_get_set_eq _ _ _ _ Ep), Hq. cbn [rbind].
    eapply (vec_get_set_ne q _ z z' v); [by apply vec_set_in_range; lia|congruence].
Qed.

(** ** Walks *)

Section paths.
Context (n : nat) (W : Z → Z → Z).

Abbreviation node i := (0 ≤ i < Z.of_nat n).

(** The weight of the walk from [i] through [l]. *)
Fixpoint walk_weight (i : Z) (l : list Z) : Z :=
  match l with [] => 0 | j :: l' => W i j + walk_weight j l' end.
Fixpoint walk_end (i : Z) (l : list Z) : Z := match l with [] => i | j :: l' => walk_end j l' end.

(** [l] leads from [i] to [j] through nodes. *)
Definition walk (i j : Z) (l : list Z) : Prop := Forall (fun k => node k) l ∧ walk_end i l = j.

Lemma walk_weight_app i l1 l2 : walk_weight i (l1 ++ l2) = walk_weight i l1 + walk_weight (walk_end i l1) l2.
Proof using Type. revert i. induction l1 as [|j l1 IH]; intros i; simpl; [done|]. rewrite IH. lia. Qed.

Lemma walk_end_app i l1 l2 : walk_end i (l1 ++ l2) = walk_end (walk_end i l1) l2.
Proof using Type. revert i. induction l1 as [|j l1 IH]; intros i; simpl; [done|]. apply IH. Qed.

Lemma walk_app i k j l1 l2 : walk i k l1 → walk k j l2 → walk i j (l1 ++ l2).
Proof using Type.
  intros [F1 E1] [F2 E2]. split; [by apply Forall_app|]. by rewrite walk_end_app, E1.
Qed.

(** A graph: no negative weights, no cost to stay. *)
Record graph : Prop := {
  g_nonneg : ∀ i j, node i → node j → 0 ≤ W i j;
  g_self : ∀ i, node i → W i i = 0
}.

(** Distances that never undershoot the weight of some walk. *)
Record dist_ok (D : Z → Z → Z) : Prop := {
  do_le : ∀ i j, node i → node j → D i j ≤ W i j;
  do_nonneg : ∀ i j, node i → node j → 0 ≤ D i j;
  do_walk : ∀ i j, node i → node j → ∃ l, walk i j l ∧ walk_weight i l = D i j
}.

Definition triangle (D : Z → Z → Z) (i j : Z) : Prop := ∀ k, node k → D i j ≤ D i k + D k j.

Lemma graph_dist_ok : graph → dist_ok W.
Proof using Type.
  intros [Hn Hs]. split; [lia|done|]. intros i j Hi Hj. exists [j]. split; [|simpl; lia].
  split; [|done]. apply Forall_cons. split; [done|apply Forall_nil; done].
Qed.

(** Distances that satisfy the triangle inequality are below every walk. *)
Lemma triangle_le_walks D i j l :
  graph → dist_ok D → (∀ i j, node i → node j → triangle D i j) → node i → walk i j l → D i j ≤ walk_weight i l.
Proof using Type.
  intros Hg HD Htri. revert i. induction l as [|k l IH]; intros i Hi [Hf He]; simpl in *.
  - subst j. pose proof (do_le _ HD i i Hi Hi). pose proof (g_self Hg i Hi). lia.
  - apply Forall_cons in Hf as [Hk Hf].
    assert (D k j ≤ walk_weight k l) by (apply IH; [done|by split]).
    pose proof (do_le _ HD i k Hi Hk).
    assert (node j) as Hj.
    { clear -Hf He Hk. revert k Hk He. induction Hf as [|x l Hx _ IHl]; intros k Hk He; simpl in He; [by subst|].
      by eapply (IHl x). }
    pose proof (Htri i j Hi Hj k Hk). lia.
Qed.

End paths.

(** ** Sums of distances *)

Lemma lsum_change {A} (g h : A → Z) l x :
  NoDup l → x ∈ l → (∀ y, y ∈ l → y ≠ x → h y = g y) → lsum h l = lsum g l - g x + h x.
Proof.
  induction l as [|y l IH]; intros Hnd Hx Hne; [by apply elem_of_nil in Hx|].
  apply NoDup_cons in Hnd as [Hy Hnd]. simpl. apply elem_of_cons in Hx as [->|Hx].
  - rewrite (lsum_ext h g l); [lia|]. intros z Hz. apply Hne; [by right|]. by intros ->.
  - rewrite IH by (done || (intros; apply Hne; [by right|done])).
    rewrite (Hne y); [lia|by left|]. by intros ->.
Qed.

Definition dist_sum (n : nat) (D : Z → Z → Z) : Z :=
  lsum (fun i => lsum (D i) (seqZ 0 (Z.of_nat n))) (seqZ 0 (Z.of_nat n)).

Lemma dist_sum_change n D D' i j :
  0 ≤ i < Z.of_nat n → 0 ≤ j < Z.of_nat n → (∀ a b, (a, b) ≠ (i, j) → D' a b = D a b) →
  dist_sum n D' = dist_sum n D - D i j + D' i j.
Proof.
  intros Hi Hj Hsame. unfold dist_sum.
  rewrite (lsum_change (fun i => lsum (D i) (seqZ 0 (Z.of_nat n))) _ _ i).
  - rewrite (lsum_change (D i) (D' i) _ j).
    + lia.
    + apply NoDup_seqZ.
    + apply elem_of_seqZ. lia.
    + intros b _ Hb. apply Hsame. congruence.
  - apply NoDup_seqZ.
  - apply elem_of_seqZ. lia.
  - intros a _ Ha. apply lsum_ext. intros b _. apply Hsame. congruence.
Qed.

Lemma dist_sum_nonneg n D :
  (∀ i j, 0 ≤ i < Z.of_nat n → 0 ≤ j < Z.of_nat n → 0 ≤ D i j) → 0 ≤ dist_sum n D.
Proof.
  intros H. unfold dist_sum.
  assert (∀ (g : Z → Z) l, (∀ x, x ∈ l → 0 ≤ g x) → 0 ≤ lsum g l) as Hpos.
  { intros g l. induction l as [|x l IH]; intros Hg; simpl; [lia|].
    pose proof (Hg x ltac:(by left)). specialize (IH ltac:(intros; apply Hg; by right)). lia. }
  apply Hpos. intros i Hi%elem_of_seqZ. apply Hpos. intros j Hj%elem_of_seqZ. apply H; lia.
Qed.

(** ** Relaxation *)

Definition view (m : Matrix) (v i j : Z) : Z := match mget m v i j with Ok x => x | Err _ => 0 end.

Section relax.
Context (n vnets : nat) (W : Z → Z → Z) (v : Z) (Hv : 0 ≤ v < Z.of_nat vnets).

Abbreviation node i := (0 ≤ i < Z.of_nat n).

Record paths_shaped (p : Paths) : Prop := {
  ps_dist : shaped (p_dist p) vnets n n;
  ps_lat : shaped (p_lat p) n n vnets;
  ps_inter : shaped (p_inter p) n n vnets
}.

Abbreviation D p := (view (p_dist p) v).

Lemma mget_view m u i j : shaped m vnets n n → 0 ≤ u < Z.of_nat vnets → node i → node j → mget m u i j = Ok (view m u i j).
Proof using Type.
  intros Hs Hu Hi Hj. destruct (mget_in m _ _ _ u i j Hs) as [x Hx]; [done..|]. unfold view. by rewrite Hx.
Qed.

Lemma relax_ks_ok dist inter i j :
  shaped dist vnets n n → shaped inter n n vnets → node i → node j →
  ∃ m mid inter', for_range 0 n (relax_k dist v i j) (view dist v i j, -1, inter) = Ok (m, mid, inter') ∧
    shaped inter' n n vnets ∧ m ≤ view dist v i j ∧
    (∀ k, node k → m ≤ view dist v i k + view dist v k j) ∧
    (m = view dist v i j ∨ node mid ∧ m = view dist v i mid + view dist v mid j).
Proof using Hv.
  intros Hd Hi0 Hi Hj.
  destruct (for_range_ok (fun k '(m, mid, inter') => shaped inter' n n vnets ∧ m ≤ view dist v i j ∧
    (∀ k', 0 ≤ k' < k → m ≤ view dist v i k' + view dist v k' j) ∧
    (m = view dist v i j ∨ node mid ∧ m = view dist v i mid + view dist v mid j))
    0 n (relax_k dist v i j) (view dist v i j, -1, inter)) as ([[m mid] inter'] & Hrun & Hs & Hle & Hall & Hmid).
  - split_and!; [done|lia|lia|by left].
  - intros k [[m mid] inter'] Hk (Hs & Hle & Hall & Hmid). unfold relax_k.
    rewrite !mget_view by (done || lia). cbn [rbind].
    destruct (Z.eqb_spec m (Z.min m (view dist v i k + view dist v k j))) as [He|He]; simpl.
    + eexists. split; [done|]. rewrite <-He. split_and!; [done..| |done].
      intros k' Hk'. destruct (decide (k' = k)) as [->|]; [lia|apply Hall; lia].
    + destruct (mget_in inter' _ _ _ i k v Hs) as [x ->]; [lia..|]. cbn [rbind].
      destruct (mget_in inter' _ _ _ k j v Hs) as [y ->]; [lia..|]. cbn [rbind].
      destruct (mset_in inter' _ _ _ i j v (x + y + 1) Hs) as (m2 & -> & Hs2 & _); [lia..|]. cbn [rbind].
      eexists. split; [done|]. split_and!; [done|lia| |right; split; [lia|lia]].
      intros k' Hk'. destruct (decide (k' = k)) as [->|]; [lia|]. specialize (Hall k' ltac:(lia)). lia.
  - exists m, mid, inter'. split_and!; [done|done|done|intros; apply Hall; lia|done].
Qed.

(** One pair: either nothing changes, or its distance drops to that of a walk
    through some node. *)
Lemma relax_pair_ok p ch i j :
  paths_shaped p → node i → node j →
  ∃ p' ch', relax_pair n v i j (p, ch) = Ok (p', ch') ∧ paths_shaped p' ∧
    (∀ u a b, (u, a, b) ≠ (v, i, j) → view (p_dist p') u a b = view (p_dist p) u a b) ∧
    ((ch' = ch ∧ p_dist p' = p_dist p ∧ triangle n (D p) i j) ∨
     (ch' = true ∧ D p' i j < D p i j ∧ ∃ k, node k ∧ D p' i j = D p i k + D p k j)).
Proof using Hv.
  intros [Hd Hl Hi0] Hi Hj. unfold relax_pair. rewrite mget_view by done. cbn [rbind].
  destruct (relax_ks_ok (p_dist p) (p_inter p) i j Hd Hi0 Hi Hj) as (m & mid & inter & -> & Hs & Hle & Htri & Hmid).
  cbn [rbind]. destruct (Z.eqb_spec (D p i j) m) as [He|He]; simpl.
  - eexists _, ch. split; [done|]. split; [by split|]. split; [done|]. left. split_and!; [done|done|].
    intros k Hk. rewrite He. by apply Htri.
  - destruct Hmid as [?|[Hmid Hm]]; [lia|].
    destruct (mset_in (p_dist p) _ _ _ v i j m Hd) as (dist' & -> & Hd' & Hnew & Hold); [done..|]. cbn [rbind].
    unfold assert_. rewrite (proj2 (Z.leb_le 0 mid)) by lia. cbn [rbind].
    destruct (shaped_lookup (p_lat p) _ _ _ i 0 Hl Hi) as (row & _ & Hrow & _ & Hlen & _); [lia|].
    rewrite Hrow. cbn [rbind]. rewrite (proj2 (Z.ltb_lt mid _)) by lia. cbn [rbind].
    destruct (mget_in (p_lat p) _ _ _ i mid v Hl) as [x ->]; [done..|]. cbn [rbind].
    destruct (mget_in (p_lat p) _ _ _ mid j v Hl) as [y ->]; [done..|]. cbn [rbind].
    destruct (mset_in (p_lat p) _ _ _ i j v (x + y) Hl) as (lat' & -> & Hl' & _); [done..|]. cbn [rbind].
    eexists _, true. split; [done|]. split; [by split|]. simpl. split.
    + intros u a b Hne. unfold view. by rewrite Hold.
    + right. unfold view at 1 3. rewrite Hnew. split_and!; [done|lia|]. by exists mid.
Qed.

(** What holds while a round visits the pairs: [done_] are those visited. *)
Record round_inv (p0 : Paths) (done_ : Z → Z → Prop) (s : Paths * bool) : Prop := {
  ri_shape : paths_shaped (fst s);
  ri_dist : dist_ok n W (D (fst s));
  ri_frame : ∀ u a b, u ≠ v → view (p_dist (fst s)) u a b = view (p_dist p0) u a b;
  ri_same : snd s = false → p_dist (fst s) = p_dist p0 ∧ ∀ i j, done_ i j → triangle n (D p0) i j;
  ri_less : snd s = true → dist_sum n (D (fst s)) < dist_sum n (D p0);
  ri_below : ∀ i j, node i → node j → D (fst s) i j ≤ D p0 i j
}.

Lemma relax_pair_round p0 done_ s i j :
  graph n W → round_inv p0 done_ s → node i → node j →
  ∃ s', relax_pair n v i j s = Ok s' ∧ round_inv p0 (fun a b => done_ a b ∨ (a, b) = (i, j)) s'.
Proof using Hv.
  intros Hg [Hsh Hd Hf Hsame Hless Hbel] Hi Hj. destruct s as [p ch]. simpl in *.
  destruct (relax_pair_ok p ch i j Hsh Hi Hj) as (p' & ch' & Hrun & Hsh' & Hold & Hcase).
  exists (p', ch'). split; [done|].
  destruct Hcase as [(-> & Heq & Htri)|(-> & Hlt & k & Hk & Hval)].
  - split; simpl; rewrite ?Heq; try done. intros Hch. destruct (Hsame Hch) as [Hp Hdone]. split; [done|].
    intros a b [Hab|[= -> ->]]; [by apply Hdone|]. by rewrite <-Hp.
  - assert (∀ a b, (a, b) ≠ (i, j) → D p' a b = D p a b) as Hoth by (intros; apply Hold; congruence).
    pose proof (do_nonneg _ _ _ Hd) as Hnn. split; simpl; try done.
    + split.
      * intros a b Ha Hb. destruct (decide ((a, b) = (i, j))) as [[= -> ->]|Hne].
        -- pose proof (do_le _ _ _ Hd i j Hi Hj). lia.
        -- rewrite Hoth by done. by apply (do_le _ _ _ Hd).
      * intros a b Ha Hb. destruct (decide ((a, b) = (i, j))) as [[= -> ->]|Hne].
        -- rewrite Hval. pose proof (Hnn i k Hi Hk). pose proof (Hnn k j Hk Hj). lia.
        -- rewrite Hoth by done. by apply Hnn.
      * intros a b Ha Hb. destruct (decide ((a, b) = (i, j))) as [[= -> ->]|Hne].
        -- destruct (do_walk _ _ _ Hd i k Hi Hk) as (l1 & Hw1 & E1), (do_walk _ _ _ Hd k j Hk Hj) as (l2 & Hw2 & E2).
           exists (l1 ++ l2). split; [by eapply walk_app|]. rewrite walk_weight_app, E1, (proj2 Hw1), E2. lia.
        -- rewrite Hoth by done. by apply (do_walk _ _ _ Hd).
    + intros u a b Hu. rewrite Hold by congruence. by apply Hf.
    + intros _. rewrite (dist_sum_change n (D p) (D p') i j) by done.
      destruct ch; [specialize (Hless eq_refl); lia|]. destruct (Hsame eq_refl) as [Hp _].
      assert (dist_sum n (D p) = dist_sum n (D p0)) by (by rewrite Hp). lia.
    + intros a b Ha Hb. destruct (decide ((a, b) = (i, j))) as [[= -> ->]|Hne].
      * specialize (Hbel i j Hi Hj). lia.
      * rewrite Hoth by done. by apply Hbel.
Qed.

Lemma round_inv_weaken p0 (P Q : Z → Z → Prop) s :
  (∀ a b, Q a b → P a b) → round_inv p0 P s → round_inv p0 Q s.
Proof using Type. intros HQ [? ? ? Hs ? ?]. split; try done. intros Hc. destruct (Hs Hc). split; [done|]. auto. Qed.

(** A whole round. *)
Lemma relax_round_ok p0 :
  graph n W → paths_shaped p0 → dist_ok n W (D p0) →
  ∃ p ch, relax_round n v p0 = Ok (p, ch) ∧ round_inv p0 (fun a b => node a ∧ node b) (p, ch).
Proof using Hv.
  intros Hg Hsh Hd. unfold relax_round.
  assert (round_inv p0 (fun a b => 0 ≤ a < 0 ∧ node b) (p0, false)) as Hinit.
  { split; simpl; try done. intros _. split; [done|]. intros i j ?. lia. }
  destruct (for_range_ok (fun i s => round_inv p0 (fun a b => 0 ≤ a < i ∧ node b) s) 0 n
    (fun i => for_range 0 n (fun j => relax_pair n v i j)) (p0, false)) as ([p ch] & Hrun & Hinv); [done| |by eauto].
  intros i s Hi Hs.
  destruct (for_range_ok (fun j s => round_inv p0 (fun a b => 0 ≤ a < i ∧ node b ∨ a = i ∧ 0 ≤ b < j) s) 0 n
    (fun j => relax_pair n v i j) s) as (s' & Hrun & Hinv).
  - eapply round_inv_weaken; [|exact Hs]. intros a b [?|?]; [done|lia].
  - intros j t Hj Ht. destruct (relax_pair_round p0 _ t i j Hg Ht) as (t' & Ht' & Hinv); [lia|lia|].
    exists t'. split; [done|]. eapply round_inv_weaken; [|exact Hinv]. intros a b [?|[-> ?]]; [by left; left|].
    destruct (decide (b = j)) as [->|]; [by right|left; right; lia].
  - exists s'. split; [done|]. eapply round_inv_weaken; [|exact Hinv]. intros a b [Ha Hb]. simpl.
    destruct (decide (a = i)) as [->|]; [right; lia|left; lia].
Qed.

(** The loop ends, with the shortest distances. *)
Lemma relax_while_ok fuel p0 :
  graph n W → paths_shaped p0 → dist_ok n W (D p0) → dist_sum n (D p0) < Z.of_nat fuel →
  ∃ p, relax_while fuel n v p0 = Ok (Some p) ∧ paths_shaped p ∧ dist_ok n W (D p) ∧
    (∀ i j, node i → node j → triangle n (D p) i j) ∧
    (∀ u a b, u ≠ v → view (p_dist p) u a b = view (p_dist p0) u a b).
Proof using Hv.
  intros Hg. revert p0. induction fuel as [|fuel IH]; intros p0 Hsh Hd Hfuel.
  { pose proof (dist_sum_nonneg n (D p0) (do_nonneg _ _ _ Hd)). lia. }
  cbn [relax_while]. destruct (relax_round_ok p0 Hg Hsh Hd) as (p & ch & -> & [Hsh' Hd' Hf Hsame Hless _]).
  cbn [rbind]. simpl in *. destruct ch.
  - destruct (IH p Hsh' Hd') as (q & Hq & Hshq & Hdq & Htri & Hfq); [specialize (Hless eq_refl); lia|].
    exists q. split_and!; [done..|]. intros u a b Hu. rewrite Hfq by done. by apply Hf.
  - destruct (Hsame eq_refl) as [Heq Htri]. exists p. split_and!; [done|done|done| |done].
    intros i j Hi Hj. rewrite Heq. by apply Htri.
Qed.

End relax.

(** ** The theorems *)

(** The graph of each virtual network. *)
Record topology_ok (n vnets : nat) (weights lat inter : Matrix) : Prop := {
  to_weights : shaped weights vnets n n;
  to_lat : shaped lat n n vnets;
  to_inter : shaped inter n n vnets;
  to_graph : ∀ v, 0 ≤ v < Z.of_nat vnets → graph n (view weights v)
}.

Definition enough_fuel (n vnets fuel : nat) (weights : Matrix) : Prop :=
  ∀ v, 0 ≤ v < Z.of_nat vnets → dist_sum n (view weights v) < Z.of_nat fuel.

(** The distances of [p] are exact. *)
Definition exact_dist (n : nat) (weights dist : Matrix) (v : Z) : Prop :=
  dist_ok n (view weights v) (view dist v) ∧
  ∀ i j, 0 ≤ i < Z.of_nat n → 0 ≤ j < Z.of_nat n → triangle n (view dist v) i j.

Lemma extend_exact n vnets fuel weights lat inter :
  topology_ok n vnets weights lat inter → enough_fuel n vnets fuel weights →
  ∃ p, extend_shortest_path fuel n vnets {| p_dist := weights; p_lat := lat; p_inter := inter |} = Ok (Some p) ∧
    shaped (p_dist p) vnets n n ∧ ∀ v, 0 ≤ v < Z.of_nat vnets → exact_dist n weights (p_dist p) v.
Proof.
  intros [Hw Hl Hi Hg] Hfuel. unfold extend_shortest_path.
  destruct (for_range_ok (fun v o => ∃ p, o = Some p ∧ paths_shaped n vnets p ∧
      (∀ u, 0 ≤ u < v → exact_dist n weights (p_dist p) u) ∧
      (∀ u a b, v ≤ u → view (p_dist p) u a b = view weights u a b)) 0 vnets
    (fun v o => match o with Some p => relax_while fuel n v p | None => Ok None end)
    (Some {| p_dist := weights; p_lat := lat; p_inter := inter |})) as (o & Hrun & p & -> & Hsh & Hex & _).
  - eexists. split; [done|]. split; [by split|]. split; [lia|done].
  - intros v o Hv (p & -> & Hsh & Hex & Hrest).
    assert (∀ a b, view (p_dist p) v a b = view weights v a b) as Hsame by (intros; apply Hrest; lia).
    assert (dist_ok n (view weights v) (view (p_dist p) v)) as Hd.
    { destruct (graph_dist_ok n _ (Hg v ltac:(lia))) as [H1 H2 H3].
      split; intros i j Hi' Hj'; rewrite Hsame; [by apply H1|by apply H2|by apply H3]. }
    destruct (relax_while_ok n vnets (view weights v) v ltac:(lia) fuel p (Hg v ltac:(lia)) Hsh Hd)
      as (q & Hq & Hshq & Hdq & Htri & Hfq).
    { assert (dist_sum n (view (p_dist p) v) = dist_sum n (view weights v)) as ->; [|by apply Hfuel; lia].
      unfold dist_sum. apply lsum_ext. intros a _. apply lsum_ext. intros b _. apply Hsame. }
    exists (Some q). split; [done|]. exists q. split_and!; [done|done| |].
    + intros u Hu. destruct (decide (u = v)) as [->|Hne]; [by split|].
      destruct (Hex u ltac:(lia)) as [[H1 H2 H3] H4]. split.
      * split; intros a b Ha Hb; rewrite Hfq by done; [by apply H1|by apply H2|by apply H3].
      * intros a b Ha Hb k Hk. rewrite !Hfq by done. by apply H4.
    + intros u a b Hu. rewrite Hfq by lia. apply Hrest. lia.
  - exists p. split_and!; [done|apply Hsh|done].
Qed.

(** C12: [extend_shortest_path] terminates and is correct. For every graph with
    non-negative weights, enough turns of its [while (change)] loop (one more
    than the sum of the initial distances always suffices) end the computation
    without tripping an assertion, and the distance it stores for each virtual
    network and each pair of switches is the weight of some walk between them
    and no more than the weight of any. *)
Theorem shortest_paths_correct n vnets fuel weights lat inter :
  topology_ok n vnets weights lat inter → enough_fuel n vnets fuel weights →
  ∃ p, extend_shortest_path fuel n vnets {| p_dist := weights; p_lat := lat; p_inter := inter |} = Ok (Some p) ∧
    ∀ v i j, 0 ≤ v < Z.of_nat vnets → 0 ≤ i < Z.of_nat n → 0 ≤ j < Z.of_nat n →
      ∃ d, mget (p_dist p) v i j = Ok d ∧
        (∃ l, walk n i j l ∧ walk_weight (view weights v) i l = d) ∧
        (∀ l, walk n i j l → d ≤ walk_weight (view weights v) i l).
Proof.
  intros Ht Hf. destruct (extend_exact n vnets fuel weights lat inter Ht Hf) as (p & Hrun & Hsh & Hex).
  exists p. split; [done|]. intros v i j Hv Hi Hj. destruct (Hex v Hv) as [Hd Htri].
  exists (view (p_dist p) v i j). split_and!.
  - by apply (mget_view n vnets).
  - by apply (do_walk _ _ _ Hd).
  - intros l Hl. eapply triangle_le_walks; [by apply Ht|done|done|done|done].
Qed.

(** ** Table routing *)

(** [b] is the next switch of a link at [a] whose routing entry holds [f]: the
    condition under which [createLinks] enters the destination. *)
Definition table_hop (n : nat) (weights dist : Matrix) (v f a b : Z) : Prop :=
  0 ≤ b < Z.of_nat n ∧
  (∃ w, mget weights v a b = Ok w ∧ 0 < w ∧ w ≠ INFINITE_LATENCY) ∧
  link_is_shortest_path_to_node weights dist a b f v = Ok true.

Section hops.
Context (n vnets : nat) (weights dist : Matrix) (v : Z) (Hv : 0 ≤ v < Z.of_nat vnets).
Context (Hsw : shaped weights vnets n n) (Hsd : shaped dist vnets n n).
Context (Hex : exact_dist n weights dist v) (Hg : graph n (view weights v)).
(** Different switches are at a positive weight. *)
Context (Hpos : ∀ a b, 0 ≤ a < Z.of_nat n → 0 ≤ b < Z.of_nat n → a ≠ b → 0 < view weights v a b).

Lemma table_hop_iff f a b :
  0 ≤ a < Z.of_nat n → 0 ≤ f < Z.of_nat n →
  table_hop n weights dist v f a b ↔
  0 ≤ b < Z.of_nat n ∧ 0 < view weights v a b ∧ view weights v a b ≠ INFINITE_LATENCY ∧
  view weights v a b + view dist v b f = view dist v a f.
Proof using Hv Hsw Hsd.
  intros Ha Hf. unfold table_hop, link_is_shortest_path_to_node. split.
  - intros (Hb & (w & Hw & H1 & H2) & H). rewrite !(mget_view n vnets) in H by done. simpl in H.
    rewrite (mget_view n vnets) in Hw by done. injection Hw as <-. injection H as H. apply Z.eqb_eq in H. done.
  - intros (Hb & H1 & H2 & H3). split; [done|]. split.
    + exists (view weights v a b). split; [|done]. by apply (mget_view n vnets).
    + rewrite !(mget_view n vnets) by done. simpl. rewrite H3. by rewrite Z.eqb_refl.
Qed.

(** From a switch that reaches [f], some link leads closer. *)
Lemma table_hop_exists f a :
  0 ≤ a < Z.of_nat n → 0 ≤ f < Z.of_nat n → a ≠ f → view dist v a f < INFINITE_LATENCY →
  ∃ b, table_hop n weights dist v f a b.
Proof.
  intros Ha Hf Hne Hlt. destruct Hex as [Hd Htri].
  destruct (do_walk _ _ _ Hd a f Ha Hf) as (l & [Hl He] & Hw).
  revert Hl He Hw. induction l as [|b l IH]; intros Hl He Hw; simpl in *; [congruence|].
  apply Forall_cons in Hl as [Hb Hl]. destruct (decide (b = a)) as [->|Hba].
  { rewrite (g_self _ _ Hg a Ha) in Hw. apply IH; [done|done|lia]. }
  exists b. apply table_hop_iff; [exact Ha|exact Hf|]. pose proof (Hpos a b Ha Hb ltac:(done)).
  assert (view dist v b f ≤ walk_weight (view weights v) b l) by (eapply triangle_le_walks; [done|done|done|done|by split]).
  pose proof (Htri a f Ha Hf b Hb). pose proof (do_le _ _ _ Hd a b Ha Hb). pose proof (do_nonneg _ _ _ Hd b f Hb Hf).
  split_and!; lia.
Qed.

End hops.

(** C11: Table routing delivers without livelock. On the tables that
    [createLinks] derives from the computed distances, a packet at a switch from
    which its destination can be reached (distance below INFINITE_LATENCY)
    always finds a link whose entry holds the destination, and after any number
    of hops over such links, chosen in any way, it has made no more hops than
    the distance it started at and is either at the destination or can hop
    again. *)
Theorem table_routing_delivers n vnets fuel weights lat inter p v f a k b :
  topology_ok n vnets weights lat inter → enough_fuel n vnets fuel weights →
  extend_shortest_path fuel n vnets {| p_dist := weights; p_lat := lat; p_inter := inter |} = Ok (Some p) →
  0 ≤ v < Z.of_nat vnets → 0 ≤ a < Z.of_nat n → 0 ≤ f < Z.of_nat n →
  (∀ a b, 0 ≤ a < Z.of_nat n → 0 ≤ b < Z.of_nat n → a ≠ b → 0 < view weights v a b) →
  view (p_dist p) v a f < INFINITE_LATENCY →
  nsteps (table_hop n weights (p_dist p) v f) k a b →
  Z.of_nat k + view (p_dist p) v b f ≤ view (p_dist p) v a f ∧
  (b = f ∨ ∃ c, table_hop n weights (p_dist p) v f b c).
Proof.
  intros Ht Hfu Hrun Hv Ha Hf Hpos Hlt Hsteps.
  destruct (extend_exact n vnets fuel weights lat inter Ht Hfu) as (p' & Hrun' & Hsh & Hex).
  rewrite Hrun in Hrun'. injection Hrun' as <-. specialize (Hex v Hv). destruct Ht as [Hsw _ _ Hg].
  specialize (Hg v Hv). induction Hsteps as [a|k a c b Hhop Hsteps IH].
  - split; [lia|]. destruct (decide (a = f)) as [->|]; [by left|]. right.
    by eapply table_hop_exists.
  - apply (table_hop_iff n vnets) in Hhop as (Hc & Hw & _ & Heq); [|done..].
    destruct IH as [Hle Hend]; [done|lia|]. split; [lia|done].
Qed.

(** ** A chain of three switches 0 - 1 - 2 *)

Definition ex_weights : Matrix := [[[0; 1; 10000]; [1; 0; 1]; [10000; 1; 0]]].
Definition ex_lat : Matrix := const_matrix 3 3 1 (-1).
Definition ex_fuel : nat := Z.to_nat 20005.

Lemma const_matrix_shaped a b c x : shaped (const_matrix a b c x) a b c.
Proof.
  unfold const_matrix. split; [by rewrite length_replicate|..].
  - intros i p [-> _]%lookup_replicate. by rewrite length_replicate.
  - intros i p j q [-> _]%lookup_replicate [-> _]%lookup_replicate. by rewrite length_replicate.
Qed.

Lemma ex_node i : 0 ≤ i < Z.of_nat 3 → i = 0 ∨ i = 1 ∨ i = 2.
Proof. lia. Qed.

Lemma ex_topology_ok : topology_ok 3 1 ex_weights ex_lat (const_matrix 3 3 1 0).
Proof.
  split; [|apply const_matrix_shaped..|].
  - split; [done|..].
    + intros [|x] p Hp; by simplify_eq/=.
    + intros [|x] p [|[|[|y]]] q Hp Hq; by simplify_eq/=.
  - intros v Hv. assert (v = 0) as -> by lia. split.
    + intros i j [->|[->| ->]]%ex_node [->|[->| ->]]%ex_node; by vm_compute.
    + intros i [->|[->| ->]]%ex_node; by vm_compute.
Qed.

Lemma ex_enough_fuel : enough_fuel 3 1 ex_fuel ex_weights.
Proof. intros v Hv. assert (v = 0) as -> by lia. unfold ex_fuel. rewrite Z2Nat.id by lia. by vm_compute. Qed.

Lemma shortest_paths_correct_witness :
  ∃ p d, extend_shortest_path ex_fuel 3 1 {| p_dist := ex_weights; p_lat := ex_lat; p_inter := const_matrix 3 3 1 0 |}
         = Ok (Some p) ∧ mget (p_dist p) 0 0 2 = Ok d ∧ d ≤ 2.
Proof.
  destruct (shortest_paths_correct 3 1 ex_fuel ex_weights ex_lat (const_matrix 3 3 1 0) ex_topology_ok ex_enough_fuel)
    as (p & Hrun & Hd).
  destruct (Hd 0 0 2) as (d & Hget & _ & Hmin); [lia..|]. exists p, d. split_and!; [done..|].
  apply (Hmin [1; 2]). split; [|done]. repeat (apply Forall_cons; split; [lia|]). by apply Forall_nil.
Defined.

Definition ex_paths : Paths :=
  match extend_shortest_path ex_fuel 3 1 {| p_dist := ex_weights; p_lat := ex_lat; p_inter := const_matrix 3 3 1 0 |} with
  | Ok (Some p) => p | _ => {| p_dist := []; p_lat := []; p_inter := [] |} end.

Lemma table_routing_delivers_witness :
  nsteps (table_hop 3 ex_weights (p_dist ex_paths) 0 2) 1 0 1 ∧
  1 + view (p_dist ex_paths) 0 1 2 ≤ view (p_dist ex_paths) 0 0 2 ∧
  ∃ c, table_hop 3 ex_weights (p_dist ex_paths) 0 2 1 c.
Proof.
  assert (nsteps (table_hop 3 ex_weights (p_dist ex_paths) 0 2) 1 0 1) as Hs.
  { apply nsteps_once. split; [lia|]. split; [exists 1; by vm_compute|]. vm_compute. reflexivity. }
  split; [done|].
  destruct (table_routing_delivers 3 1 ex_fuel ex_weights ex_lat (const_matrix 3 3 1 0) ex_paths 0 2 0 1 1
    ex_topology_ok ex_enough_fuel) as [Hle [Hend|Hhop]];
    [vm_compute; reflexivity|lia|lia|lia| |vm_compute; reflexivity|exact Hs|lia|by split].
  intros a b [->|[->| ->]]%ex_node [->|[->| ->]]%ex_node; (congruence || by vm_compute).
Defined.

(** ** Routing entries *)

Section entries.
Context (rs : RubySystem) (Hrs : ruby_system_ok rs) (n vnets : nat) (weights dist : Matrix) (src next v : Z).
Context (Hsw : shaped weights vnets n n) (Hsd : shaped dist vnets n n) (Hv : 0 ≤ v < Z.of_nat vnets).
Context (Hsrc : 0 ≤ src < Z.of_nat n) (Hnext : 0 ≤ next < Z.of_nat n).

Abbreviation nodes := (MachineType_base_number rs (MachineType_NUM rs)).
Context (Hn : 2 * nodes ≤ Z.of_nat n).

(** Whether the link is on a shortest path to the output of machine [(a, b)]. *)
Definition on_path (a b : Z) : bool :=
  match link_is_shortest_path_to_node weights dist src next (node_number rs (a, b) + nodes) v with
  | Ok r => r | Err _ => false end.

Lemma on_path_ok a b :
  0 ≤ a < MachineType_NUM rs → 0 ≤ b < MachineType_base_count rs a →
  link_is_shortest_path_to_node weights dist src next (node_number rs (a, b) + nodes) v = Ok (on_path a b).
Proof.
  intros Ha Hb. pose proof (node_number_range rs Hrs a b Ha Hb). unfold on_path.
  destruct (link_is_shortest_path_to_node _ _ _ _ _ _) eqn:E; [done|]. exfalso. revert E.
  unfold link_is_shortest_path_to_node. rewrite !(mget_view n vnets) by (done || lia). done.
Qed.

(** The entry while the machines [done_] have been visited. *)
Definition entry_for (done_ : Z → Z → bool) (e : NetDest) : Prop :=
  netdest_wf rs e ∧
  ∀ a b, 0 ≤ a < MachineType_NUM rs → 0 ≤ b < MachineType_base_count rs a →
    has e a b = done_ a b && on_path a b.

(** One machine. *)
Lemma entry_step m i e (done_ done' : Z → Z → bool) :
  0 ≤ m < MachineType_NUM rs → 0 ≤ i < MachineType_base_count rs m → entry_for done_ e → done_ m i = false →
  (∀ a b, done' a b = done_ a b || ((a =? m) && (b =? i))) →
  ∃ e', (if on_path m i then add rs {| mach_type := m; mach_num := i |} e else Ok e) = Ok e' ∧ entry_for done' e'.
Proof.
  intros Hm Hi [Hwf He] Hnew Hd'. destruct (on_path m i) eqn:Eon.
  - destruct (add_has rs Hrs {| mach_type := m; mach_num := i |} e Hwf) as (e' & -> & Hwf' & Hhas); [done..|].
    exists e'. split; [done|]. split; [done|]. intros a b Ha Hb. simpl in Hhas. rewrite Hhas, He, Hd' by lia.
    destruct (Z.eqb_spec a m) as [->|]; simpl; [|by rewrite !orb_false_r].
    destruct (Z.eqb_spec b i) as [->|]; simpl; [by rewrite Eon, !orb_true_r|by rewrite !orb_false_r].
  - exists e. split; [done|]. split; [done|]. intros a b Ha Hb. rewrite He, Hd' by done.
    destruct (Z.eqb_spec a m) as [->|]; simpl; [|by rewrite !orb_false_r].
    destruct (Z.eqb_spec b i) as [->|]; simpl; [by rewrite Eon, !andb_false_r|by rewrite !orb_false_r].
Qed.

Lemma entry_ext (done_ done' : Z → Z → bool) e :
  entry_for done_ e →
  (∀ a b, 0 ≤ a < MachineType_NUM rs → 0 ≤ b < MachineType_base_count rs a → done' a b = done_ a b) →
  entry_for done' e.
Proof using Type. intros [Hwf He] Hd. split; [done|]. intros a b Ha Hb. rewrite Hd by done. by apply He. Qed.

Lemma routing_entry_total :
  ∃ e, shortest_path_to_node rs weights dist src next v = Ok e ∧ entry_for (fun _ _ => true) e.
Proof.
  unfold shortest_path_to_node. rewrite (resize_empty rs Hrs). cbn [rbind].
  pose proof (rs_num rs Hrs) as Hnum.
  match goal with |- context [for_range 0 ?k ?body ?s] =>
    destruct (for_range_ok (fun m '(e, d) => d = MachineType_base_number rs m ∧
      entry_for (fun a _ => a <? m) e) 0 k body s) as ([e d] & Hrun & _ & He) end.
  - split; [by rewrite (rs_base_0 rs Hrs)|]. split; [by apply no_dest_wf|].
    intros a b Ha Hb. rewrite no_dest_has, (proj2 (Z.ltb_ge a 0)) by lia. done.
  - intros m [e d] Hm [-> He]. pose proof (rs_count rs Hrs m ltac:(lia)) as Hc.
    match goal with |- context [for_range 0 ?k ?body ?s] =>
      destruct (for_range_ok (fun i '(e, d) => d = MachineType_base_number rs m + i ∧
        entry_for (fun a b => (a <? m) || ((a =? m) && (b <? i))) e) 0 k body s)
        as ([e' d'] & Hrun & -> & He') end.
    + split; [by rewrite Z.add_0_r|]. eapply entry_ext; [exact He|]. intros a b Ha Hb. simpl.
      rewrite (proj2 (Z.ltb_ge b 0)) by lia. by rewrite andb_false_r, orb_false_r.
    + intros i [e1 d1] Hi [-> He1]. cbv beta iota.
      change (MachineType_base_number rs m + i) with (node_number rs (m, i)).
      rewrite on_path_ok by lia. cbn [rbind].
      destruct (entry_step m i e1 _ (fun a b => (a <? m) || ((a =? m) && (b <? i + 1))) ltac:(lia) ltac:(lia) He1)
        as (e2 & He2 & Hent).
      * simpl. by rewrite Z.ltb_irrefl, Z.eqb_refl, Z.ltb_irrefl.
      * intros a b. rewrite <-orb_assoc. f_equal. rewrite <-andb_orb_distrib_r. f_equal.
        apply eq_true_iff_eq. rewrite orb_true_iff, !Z.ltb_lt, Z.eqb_eq. lia.
      * cbv beta in He2. rewrite He2. cbn [rbind]. eexists (_, _). split; [done|]. split; [unfold node_number; simpl; lia|done].
    + exists (e', MachineType_base_number rs m + (0 + Z.of_nat (Z.to_nat (MachineType_base_count rs m)))).
      split; [exact Hrun|]. rewrite Z.add_0_l, Z2Nat.id in * by lia.
      split; [by rewrite (rs_base_succ rs Hrs m) by lia|]. eapply entry_ext; [exact He'|].
      intros a b Ha Hb. simpl. apply eq_true_iff_eq. rewrite orb_true_iff, andb_true_iff, !Z.ltb_lt, Z.eqb_eq.
      split; [|lia]. intros ?. destruct (decide (a = m)) as [->|]; [right; lia|left; lia].
  - rewrite Hrun. cbn [rbind]. exists e. split; [done|]. eapply entry_ext; [exact He|].
    intros a b Ha Hb. simpl. symmetry. apply Z.ltb_lt. lia.
Qed.

End entries.

(** C25: The routing entry of a link is exact: [shortest_path_to_node] always
    succeeds, and a machine is an element of the entry it returns if and only if
    the link is on a shortest path to the switch that stands for the machine's
    output. *)
Theorem routing_entry_exact rs n vnets weights dist src next v :
  ruby_system_ok rs → shaped weights vnets n n → shaped dist vnets n n → 0 ≤ v < Z.of_nat vnets →
  0 ≤ src < Z.of_nat n → 0 ≤ next < Z.of_nat n →
  2 * MachineType_base_number rs (MachineType_NUM rs) ≤ Z.of_nat n →
  ∃ e, shortest_path_to_node rs weights dist src next v = Ok e ∧
    ∀ m, 0 ≤ mach_type m < MachineType_NUM rs → 0 ≤ mach_num m < MachineType_base_count rs (mach_type m) →
      ∃ r, isElement rs m e = Ok r ∧
        link_is_shortest_path_to_node weights dist src next
          (node_number rs (mach_type m, mach_num m) + MachineType_base_number rs (MachineType_NUM rs)) v = Ok r.
Proof.
  intros Hrs Hsw Hsd Hv Hsrc Hnext Hn.
  destruct (routing_entry_total rs Hrs n vnets weights dist src next v) as (e & He & Hwf & Hhas); [done..|].
  exists e. split; [done|]. intros m Ht Hm.
  exists (on_path rs weights dist src next v (mach_type m) (mach_num m)). split.
  - rewrite (isElement_has rs Hrs m e Hwf Ht Hm). by rewrite Hhas.
  - by apply (on_path_ok rs Hrs n vnets).
Qed.

(** Two machines, one router (switch 4), and their links. *)
Definition ex_rs2 : RubySystem := {|
  MachineType_NUM := 1; MachineType_base_count m := 2; MachineType_base_number m := 2 * m;
  MachineType_base_level m := m; MachineType_from_base_level m := m; NUMBER_BITS_PER_SET := 64 |}.

Lemma ex_rs2_ok : ruby_system_ok ex_rs2.
Proof. split; simpl; try done; lia. Qed.

Definition ex_star : Matrix :=
  [[[0; 10000; 10000; 10000; 1]; [10000; 0; 10000; 10000; 1]; [10000; 10000; 0; 10000; 10000];
    [10000; 10000; 10000; 0; 10000]; [10000; 10000; 1; 1; 0]]].
Definition ex_star_dist : Matrix :=
  [[[0; 10000; 2; 2; 1]; [10000; 0; 2; 2; 1]; [10000; 10000; 0; 10000; 10000];
    [10000; 10000; 10000; 0; 10000]; [10000; 10000; 1; 1; 0]]].

Lemma ex_star_shaped : shaped ex_star 1 5 5 ∧ shaped ex_star_dist 1 5 5.
Proof.
  split; split; try done; try (intros [|x] p Hp; by simplify_eq/=).
  all: intros [|x] p [|[|[|[|[|y]]]]] q Hp Hq; by simplify_eq/=.
Qed.

(** The link from the router to the output of machine 1 carries machine 1 only. *)
Lemma routing_entry_exact_witness :
  ∃ e, shortest_path_to_node ex_rs2 ex_star ex_star_dist 4 3 0 = Ok e ∧
    isElement ex_rs2 {| mach_type := 0; mach_num := 1 |} e = Ok true ∧
    isElement ex_rs2 {| mach_type := 0; mach_num := 0 |} e = Ok false.
Proof.
  destruct ex_star_shaped as [Hw Hd].
  destruct (routing_entry_exact ex_rs2 5 1 ex_star ex_star_dist 4 3 0 ex_rs2_ok Hw Hd) as (e & He & Hm);
    [lia|lia|lia|simpl; lia|].
  exists e. split; [done|].
  destruct (Hm {| mach_type := 0; mach_num := 1 |}) as (r1 & H1 & E1); [simpl; lia|simpl; lia|].
  destruct (Hm {| mach_type := 0; mach_num := 0 |}) as (r0 & H0 & E0); [simpl; lia|simpl; lia|].
  vm_compute in E1. vm_compute in E0. rewrite H1, H0. by simplify_eq.
Defined.
