(* ===== verification/Construction.v ===== *)
(** * Building the network: GarnetNetwork, GarnetLink and Network construction

    The numbering of the nodes ([Network::Network]), the queues the protocol
    registers, the link objects of garnet/GarnetLink.cc, and the functions
    [makeExtInLink], [makeExtOutLink] and [makeInternalLink] by which
    GarnetNetwork carries out the requests of the topology. *)

From S2P Require Import Prelude IntMath Clocked Consumer WakeupRing NetDest Flit RoutingUnit VirtualChannel NetworkLink InputUnit OutputUnit SwitchAllocator Router RouterFrame Interleave GarnetNetwork Parallel MessageBuffer NetworkInterface NetworkBridge Topology.

(** ** Node numbers: network/Network.cc *)

(** The local numbers of the controllers: [ext_nodes] are the machines of the
    external links in the order of the configuration. [emplace] keeps an entry
    that is already there. *)
Definition number_node (rs : RubySystem) (mach : Z) (ver : Z) (s : gmap Z Z * Z) : gmap Z Z * Z :=
  let '(globalToLocalMap, local_node_id) := s in
  let global_node_id := MachineType_base_number rs mach + ver in
  (match globalToLocalMap !! global_node_id with
   | Some _ => globalToLocalMap
   | None => <[global_node_id := local_node_id]> globalToLocalMap
   end, local_node_id + 1).

Definition versions_of (mach : Z) (ext_nodes : list MachineID) : list Z :=
  map mach_num (filter (fun m => mach_type m = mach) ext_nodes).

Definition number_nodes (rs : RubySystem) (ext_nodes : list MachineID) : gmap Z Z * Z :=
  foldl (fun s mach => foldl (fun s ver => number_node rs mach ver s) s (versions_of mach ext_nodes))
    (∅, 0) (seqZ 0 (MachineType_base_level rs (MachineType_NUM rs))).

Record Network := {
  globalToLocalMap : gmap Z Z;
  m_nodes : Z;
  m_virtual_networks : Z;
  m_toNetQueues : list (list (option Z));
  m_fromNetQueues : list (list (option Z));
  net_ordered : list bool;
  m_vnet_type_names : list string
}.

Definition new_Network (rs : RubySystem) (ext_nodes : list MachineID) (virtual_networks : Z) : res Network :=
  let '(m, nodes) := number_nodes rs ext_nodes in
  let* _ := assert_ "m_nodes != 0" (negb (nodes =? 0)) in
  let* _ := assert_ "m_virtual_networks != 0" (negb (virtual_networks =? 0)) in
  Ok {| globalToLocalMap := m; m_nodes := nodes; m_virtual_networks := virtual_networks;
        m_toNetQueues := replicate (Z.to_nat nodes) []; m_fromNetQueues := replicate (Z.to_nat nodes) [];
        net_ordered := replicate (Z.to_nat virtual_networks) false;
        m_vnet_type_names := replicate (Z.to_nat virtual_networks) "" |}.

(** The message sizes of the constructor: control, and data with its header. *)
Definition message_sizes (control_msg_size data_msg_size block_size : Z) : res (Z * Z) :=
  if block_size <? data_msg_size then Err (EFatal "data message size > cache line size")
  else Ok (control_msg_size, u32 (data_msg_size + control_msg_size)).

Definition getLocalNodeID (n : Network) (global_id : Z) : res Z :=
  match globalToLocalMap n !! global_id with
  | Some l => Ok l
  | None => Err (EAssert "globalToLocalMap.count(global_id)")
  end.

Definition checkNetworkAllocation (local_id : Z) (ordered : bool) (network_num : Z) (vnet_type : string) (n : Network)
    : res Network :=
  if m_nodes n <=? local_id then Err (EFatal "Node ID is out of range")
  else if m_virtual_networks n <=? network_num then Err (EFatal "Network id is out of range")
  else
    let* ord := (if ordered then vec_set (net_ordered n) network_num true else Ok (net_ordered n)) in
    let* names := vec_set (m_vnet_type_names n) network_num vnet_type in
    Ok {| globalToLocalMap := globalToLocalMap n; m_nodes := m_nodes n; m_virtual_networks := m_virtual_networks n;
          m_toNetQueues := m_toNetQueues n; m_fromNetQueues := m_fromNetQueues n;
          net_ordered := ord; m_vnet_type_names := names |}.

(** The queues of one node, padded with null pointers up to the index. *)
Definition set_queue (qs : list (list (option Z))) (local_id network_num b : Z) : res (list (list (option Z))) :=
  vec_upd qs local_id (fun q =>
    vec_set (q ++ replicate (Z.to_nat (network_num + 1) - length q) None) network_num (Some b)).

Definition with_queues (n : Network) (to from : list (list (option Z))) : Network :=
  {| globalToLocalMap := globalToLocalMap n; m_nodes := m_nodes n; m_virtual_networks := m_virtual_networks n;
     m_toNetQueues := to; m_fromNetQueues := from; net_ordered := net_ordered n;
     m_vnet_type_names := m_vnet_type_names n |}.

Definition setToNetQueue (global_id : Z) (ordered : bool) (network_num : Z) (vnet_type : string) (b : Z) (n : Network)
    : res Network :=
  let* local_id := getLocalNodeID n global_id in
  let* n := checkNetworkAllocation local_id ordered network_num vnet_type n in
  let* qs := set_queue (m_toNetQueues n) local_id network_num b in
  Ok (with_queues n qs (m_fromNetQueues n)).

Definition setFromNetQueue (global_id : Z) (ordered : bool) (network_num : Z) (vnet_type : string) (b : Z) (n : Network)
    : res Network :=
  let* local_id := getLocalNodeID n global_id in
  let* n := checkNetworkAllocation local_id ordered network_num vnet_type n in
  let* qs := set_queue (m_fromNetQueues n) local_id network_num b in
  Ok (with_queues n (m_toNetQueues n) qs).

(** ** Link objects: garnet/GarnetLink.cc *)

(** Arrays of two are pairs, indexed by the direction. A bridge member is set
    only if its end of the link has a bridge. *)
Inductive LinkDirection := LinkDirection_In | LinkDirection_Out.

Definition at_dir {A} (d : LinkDirection) (p : A * A) : A :=
  match d with LinkDirection_In => fst p | LinkDirection_Out => snd p end.

Record GarnetExtLink := {
  gx_network_links : Z * Z;
  gx_credit_links : Z * Z;
  extBridgeEn : bool; extCdcEn : bool; extSerdesEn : bool;
  intBridgeEn : bool; intCdcEn : bool; intSerdesEn : bool;
  extNetBridge : option (Z * Z); extCredBridge : option (Z * Z);
  intNetBridge : option (Z * Z); intCredBridge : option (Z * Z)
}.

Definition new_GarnetExtLink (network_links credit_links : Z * Z) (ext_cdc int_cdc ext_serdes int_serdes : bool)
    (ext_net_bridge ext_cred_bridge int_net_bridge int_cred_bridge : option (Z * Z)) : GarnetExtLink :=
  let extEn := ext_cdc || ext_serdes in
  let intEn := int_cdc || int_serdes in
  {| gx_network_links := network_links; gx_credit_links := credit_links;
     extBridgeEn := extEn; extCdcEn := ext_cdc; extSerdesEn := ext_serdes;
     intBridgeEn := intEn; intCdcEn := int_cdc; intSerdesEn := int_serdes;
     extNetBridge := if extEn then ext_net_bridge else None; extCredBridge := if extEn then ext_cred_bridge else None;
     intNetBridge := if intEn then int_net_bridge else None; intCredBridge := if intEn then int_cred_bridge else None |}.

Record GarnetIntLink := {
  gi_network_link : Z;
  gi_credit_link : Z;
  srcBridgeEn : bool; srcCdcEn : bool; srcSerdesEn : bool;
  dstBridgeEn : bool; dstCdcEn : bool; dstSerdesEn : bool;
  srcNetBridge : option Z; srcCredBridge : option Z;
  dstNetBridge : option Z; dstCredBridge : option Z
}.

Definition new_GarnetIntLink (network_link credit_link : Z) (src_cdc dst_cdc src_serdes dst_serdes : bool)
    (src_net_bridge src_cred_bridge dst_net_bridge dst_cred_bridge : option Z) : GarnetIntLink :=
  let srcEn := src_cdc || src_serdes in
  let dstEn := dst_cdc || dst_serdes in
  {| gi_network_link := network_link; gi_credit_link := credit_link;
     srcBridgeEn := srcEn; srcCdcEn := src_cdc; srcSerdesEn := src_serdes;
     dstBridgeEn := dstEn; dstCdcEn := dst_cdc; dstSerdesEn := dst_serdes;
     srcNetBridge := if srcEn then src_net_bridge else None; srcCredBridge := if srcEn then src_cred_bridge else None;
     dstNetBridge := if dstEn then dst_net_bridge else None; dstCredBridge := if dstEn then dst_cred_bridge else None |}.

(** Two bridges become each other's co-bridge. *)
Definition init_pair (net cred : Z) (cdc serdes : bool) (w : BridgeWorld) : res BridgeWorld :=
  let* w := initBridge cred cdc serdes net w in
  initBridge net cdc serdes cred w.

(** [GarnetIntLink::init] *)
Definition int_init (l : GarnetIntLink) (w : BridgeWorld) : res BridgeWorld :=
  let* w :=
    (if srcBridgeEn l then
       match srcNetBridge l, srcCredBridge l with
       | Some net, Some cred => init_pair net cred (srcCdcEn l) (srcSerdesEn l) w
       | _, _ => Err (EAssert "srcNetBridge && srcCredBridge")
       end
     else Ok w) in
  if dstBridgeEn l then
    match dstNetBridge l, dstCredBridge l with
    | Some net, Some cred => init_pair net cred (dstCdcEn l) (dstSerdesEn l) w
    | _, _ => Err (EAssert "dstNetBridge && dstCredBridge")
    end
  else Ok w.

(** [GarnetExtLink::init] *)
Definition ext_init (l : GarnetExtLink) (w : BridgeWorld) : res BridgeWorld :=
  let* w :=
    (if extBridgeEn l then
       match extNetBridge l, extCredBridge l with
       | Some (net0, net1), Some (cred0, cred1) =>
           let* w := init_pair net0 cred0 (extCdcEn l) (extSerdesEn l) w in
           init_pair net1 cred1 (extCdcEn l) (extSerdesEn l) w
       | _, _ => Err (EAssert "extNetBridge && extCredBridge")
       end
     else Ok w) in
  if intBridgeEn l then
    match intNetBridge l, intCredBridge l with
    | Some (net0, net1), Some (cred0, cred1) =>
        let* w := init_pair net0 cred0 (intCdcEn l) (intSerdesEn l) w in
        init_pair net1 cred1 (intCdcEn l) (intSerdesEn l) w
    | _, _ => Err (EAssert "intNetBridge && intCredBridge")
    end
  else Ok w.

(** ** Links between objects: GarnetNetwork.cc *)

Inductive GarnetLink :=
  | ExtLinkObj (l : GarnetExtLink)
  | IntLinkObj (l : GarnetIntLink).

(** The objects under construction. *)
Record Build := {
  bd_routers : list Router;
  bd_nis : list NetworkInterface;
  bd_world : BridgeWorld;
  m_networklinks : list Z;
  m_creditlinks : list Z;
  m_networkbridges : list Z;
  m_max_vcs_per_vnet : Z
}.

Definition with_objects (s : Build) (rs : list Router) (nis : list NetworkInterface) (w : BridgeWorld) : Build :=
  {| bd_routers := rs; bd_nis := nis; bd_world := w; m_networklinks := m_networklinks s;
     m_creditlinks := m_creditlinks s; m_networkbridges := m_networkbridges s;
     m_max_vcs_per_vnet := m_max_vcs_per_vnet s |}.

(** The port functions call [setVcsPerVnet] on the links they get. On a bridge
    that is an override, which does what it does for a link and then resizes the
    bridge's own vectors and passes the call on to its link; doing the first part
    a second time has no effect. *)
Definition virtual_vcs (vcs h : Z) (w : BridgeWorld) : res BridgeWorld :=
  match bw_bridges w !! h with
  | Some _ => bridge_setVcsPerVnet vcs h w
  | None => Ok w
  end.

(** [m_routers[i]->addInPort(...)] *)
Definition add_router_in (i : Z) (dirn : PortDirection) (in_link credit_link : Z) (s : Build) : res Build :=
  let* r := vec_get (bd_routers s) i in
  let vcs := r_vc_per_vnet (core r) in
  let* ' (r, ls) := addInPort dirn in_link credit_link r (bw_links (bd_world s)) in
  let* w := virtual_vcs vcs in_link (with_bw_links (bd_world s) ls) in
  let* w := virtual_vcs vcs credit_link w in
  let* rs := vec_set (bd_routers s) i r in
  Ok (with_objects s rs (bd_nis s) w).

(** [m_routers[i]->addOutPort(...)] *)
Definition add_router_out (cfg : NetConfig) (i : Z) (dirn : PortDirection) (out_link : Z) (route : list NetDest)
    (weight credit_link vcs : Z) (s : Build) : res Build :=
  let* r := vec_get (bd_routers s) i in
  let* ' (r, ls) := addOutPort cfg dirn out_link route weight credit_link vcs r (bw_links (bd_world s)) in
  let* w := virtual_vcs vcs credit_link (with_bw_links (bd_world s) ls) in
  let* w := virtual_vcs vcs out_link w in
  let* rs := vec_set (bd_routers s) i r in
  Ok (with_objects s rs (bd_nis s) w).

(** [m_nis[i]->addInPort(...)]; without VCs the interface makes no such call. *)
Definition add_ni_in (i in_link credit_link : Z) (s : Build) : res Build :=
  let* n := vec_get (bd_nis s) i in
  let* ' (n, ls) := ni_addInPort in_link credit_link n (bw_links (bd_world s)) in
  let w := with_bw_links (bd_world s) ls in
  let* w :=
    (if negb (ni_vc_per_vnet n =? 0) then
       let* w := virtual_vcs (ni_vc_per_vnet n) in_link w in virtual_vcs (ni_vc_per_vnet n) credit_link w
     else Ok w) in
  let* nis := vec_set (bd_nis s) i n in
  Ok (with_objects s (bd_routers s) nis w).

(** [m_nis[i]->addOutPort(...)]; the first port also sets the input ports. *)
Definition add_ni_out (cfg : NetConfig) (i out_link credit_link router_id router vcs : Z) (s : Build) : res Build :=
  let* n0 := vec_get (bd_nis s) i in
  let* ' (n, ls) := ni_addOutPort cfg out_link credit_link router_id router vcs n0 (bw_links (bd_world s)) in
  let first := if Nat.eqb (length (niOutVcs n0)) 0 then map inNetLink (inPorts n0) else [] in
  let* w := fold_res (virtual_vcs (ni_vc_per_vnet n)) (first ++ [out_link; credit_link])
              (with_bw_links (bd_world s) ls) in
  let* nis := vec_set (bd_nis s) i n in
  Ok (with_objects s (bd_routers s) nis w).

(** The links are recorded, typed, and the maximal number of VCs updated. *)
Definition record_link (ty : link_type) (net_link credit_link vcs : Z) (s : Build) : res Build :=
  let* ls := upd_link_at net_link (setType ty) (bw_links (bd_world s)) in
  Ok {| bd_routers := bd_routers s; bd_nis := bd_nis s; bd_world := with_bw_links (bd_world s) ls;
        m_networklinks := m_networklinks s ++ [net_link]; m_creditlinks := m_creditlinks s ++ [credit_link];
        m_networkbridges := m_networkbridges s; m_max_vcs_per_vnet := Z.max (m_max_vcs_per_vnet s) vcs |}.

Definition record_bridge (b : option Z) (s : Build) : Build :=
  match b with
  | Some h => {| bd_routers := bd_routers s; bd_nis := bd_nis s; bd_world := bd_world s;
                 m_networklinks := m_networklinks s; m_creditlinks := m_creditlinks s;
                 m_networkbridges := m_networkbridges s ++ [h]; m_max_vcs_per_vnet := m_max_vcs_per_vnet s |}
  | None => s
  end.

(** The handles an object is connected to: its bridges, if that end of the link
    has any, or the links themselves; and the flit bridge to record. *)
Definition end_of (enabled : bool) (net_bridge cred_bridge : option Z) (net_link credit_link : Z)
    : res (Z * Z * option Z) :=
  if enabled then
    match net_bridge, cred_bridge with
    | Some n, Some c => Ok (n, c, Some n)
    | _, _ => Err EUninit
    end
  else Ok (net_link, credit_link, None).

Definition ext_end (d : LinkDirection) (l : GarnetExtLink) : res (Z * Z * option Z) :=
  end_of (extBridgeEn l) (at_dir d <$> extNetBridge l) (at_dir d <$> extCredBridge l)
    (at_dir d (gx_network_links l)) (at_dir d (gx_credit_links l)).
Definition int_end (d : LinkDirection) (l : GarnetExtLink) : res (Z * Z * option Z) :=
  end_of (intBridgeEn l) (at_dir d <$> intNetBridge l) (at_dir d <$> intCredBridge l)
    (at_dir d (gx_network_links l)) (at_dir d (gx_credit_links l)).
Definition src_end (l : GarnetIntLink) : res (Z * Z * option Z) :=
  end_of (srcBridgeEn l) (srcNetBridge l) (srcCredBridge l) (gi_network_link l) (gi_credit_link l).
Definition dst_end (l : GarnetIntLink) : res (Z * Z * option Z) :=
  end_of (dstBridgeEn l) (dstNetBridge l) (dstCredBridge l) (gi_network_link l) (gi_credit_link l).

Section make.
Context (cfg : NetConfig) (net : Network) (objects : gmap Z GarnetLink).

(** [safe_cast] *)
Definition ext_object (h : Z) : res GarnetExtLink :=
  match objects !! h with Some (ExtLinkObj l) => Ok l | _ => Err (EAssert "safe_cast<GarnetExtLink*>") end.
Definition int_object (h : Z) : res GarnetIntLink :=
  match objects !! h with Some (IntLinkObj l) => Ok l | _ => Err (EAssert "safe_cast<GarnetIntLink*>") end.

Definition makeExtInLink (global_src dest : Z) (link : BasicLink) (route : list NetDest) (s : Build) : res Build :=
  let* local_src := getLocalNodeID net global_src in
  let* _ := assert_ "local_src < m_nodes" (local_src <? m_nodes net) in
  let* l := ext_object (bl_handle link) in
  let* r := vec_get (bd_routers s) dest in
  let vcs := r_vc_per_vnet (core r) in
  let* s := record_link EXT_IN_ (at_dir LinkDirection_In (gx_network_links l))
              (at_dir LinkDirection_In (gx_credit_links l)) vcs s in
  let* ' (nl, cl, br) := ext_end LinkDirection_In l in
  let* s := add_ni_out cfg local_src nl cl dest (r_id (core r)) vcs s in
  let s := record_bridge br s in
  let* ' (nl, cl, br) := int_end LinkDirection_In l in
  let* s := add_router_in dest "Local" nl cl s in
  Ok (record_bridge br s).

Definition makeExtOutLink (src global_dest : Z) (link : BasicLink) (route : list NetDest) (s : Build) : res Build :=
  let* local_dest := getLocalNodeID net global_dest in
  let* _ := assert_ "local_dest < m_nodes" (local_dest <? m_nodes net) in
  let* _ := assert_ "src < m_routers.size()" (src <? Z.of_nat (length (bd_routers s))) in
  let* l := ext_object (bl_handle link) in
  let* r := vec_get (bd_routers s) src in
  let vcs := r_vc_per_vnet (core r) in
  let* s := record_link EXT_OUT_ (at_dir LinkDirection_Out (gx_network_links l))
              (at_dir LinkDirection_Out (gx_credit_links l)) vcs s in
  let* ' (nl, cl, br) := ext_end LinkDirection_Out l in
  let* s := add_ni_in local_dest nl cl s in
  let s := record_bridge br s in
  let* ' (nl, cl, br) := int_end LinkDirection_Out l in
  let* s := add_router_out cfg src "Local" nl route (bl_weight link) cl vcs s in
  Ok (record_bridge br s).

Definition makeInternalLink (src dest : Z) (link : BasicLink) (route : list NetDest)
    (src_outport_dirn dst_inport_dirn : PortDirection) (s : Build) : res Build :=
  let* l := int_object (bl_handle link) in
  let* rd := vec_get (bd_routers s) dest in
  let* rsrc := vec_get (bd_routers s) src in
  let* s := record_link INT_ (gi_network_link l) (gi_credit_link l)
              (Z.max (r_vc_per_vnet (core rd)) (r_vc_per_vnet (core rsrc))) s in
  let* ' (nl, cl, br) := dst_end l in
  let* s := add_router_in dest dst_inport_dirn nl cl s in
  let s := record_bridge br s in
  let* ' (nl, cl, br) := src_end l in
  let* s := add_router_out cfg src src_outport_dirn nl route (bl_weight link) cl (r_vc_per_vnet (core rd)) s in
  Ok (record_bridge br s).

(** The calls [Topology::createLinks] makes. *)
Definition make_link (req : link_request) (s : Build) : res Build :=
  match req with
  | MakeExtInLink src dest link route => makeExtInLink src dest link route s
  | MakeExtOutLink src dest link route => makeExtOutLink src dest link route s
  | MakeInternalLink src dest link route o i => makeInternalLink src dest link route o i s
  end.

Definition make_links (reqs : list link_request) (s : Build) : res Build := fold_res make_link reqs s.

End make.

(** ** The network object *)

(** [GarnetNetwork::GarnetNetwork]: what the wakeups need. *)
Definition new_GarnetNetwork (num_threads hw : Z) (routers : list Router) : res GarnetNetwork :=
  let n := Z.of_nat (length routers) in
  let* _ := check_router_count n in
  let m_num_threads := choose_num_threads num_threads hw n in
  let* masks := thread_masks n m_num_threads in
  Ok {| n_ring := empty_ring; m_routers := routers; n_links := ∅; n_consumers := ∅;
        m_deferred_schedules := replicate (Z.to_nat m_num_threads) []; m_num_threads := m_num_threads;
        m_parallel_threshold := 16; m_thread_router_mask := masks; s_parallel_active := false;
        globalWakeupEvent := None |}.

(** The mesh dimensions set by [init]. *)
Definition mesh_dims (num_rows num_routers : Z) : res (Z * Z) :=
  if 0 <? num_rows then
    let num_cols := num_routers / num_rows in
    let* _ := assert_ "m_num_rows * m_num_cols == m_routers.size()" (num_rows * num_cols =? num_routers) in
    Ok (num_rows, num_cols)
  else Ok (-1, -1).

(** Each interface gets the queues of its node. *)
Definition add_nodes (net : Network) (nis : list NetworkInterface) : res (list NetworkInterface) :=
  fold_res (fun i nis =>
    let* ins := vec_get (m_toNetQueues net) i in
    let* outs := vec_get (m_fromNetQueues net) i in
    vec_upd nis i (fun n => Ok (addNode ins outs n))) (seqZ 0 (m_nodes net)) nis.

(** [GarnetNetwork::init]: the interfaces get their queues, the links are made,
    the mesh dimensions set, the first global wakeup scheduled; the routers' own
    [init] then sizes them. The fault model is off; file FaultModel has the loop
    that declares the routers to it. [cs] holds the Consumer objects of the links, output
    units and interfaces, which have not been scheduled yet. The result has the
    dimensions last. *)
Definition network_init (env : ClockEnv) (cfg : NetConfig) (net : Network) (objects : gmap Z GarnetLink)
    (reqs : list link_request) (nis : list NetworkInterface) (w : BridgeWorld) (cs : gset consumer_ref)
    (n : GarnetNetwork) : res (GarnetNetwork * Build * (Z * Z)) :=
  let* nis := add_nodes net nis in
  let* s := make_links cfg net objects reqs
    {| bd_routers := m_routers n; bd_nis := nis; bd_world := w; m_networklinks := []; m_creditlinks := [];
       m_networkbridges := []; m_max_vcs_per_vnet := 0 |} in
  let* dims := mesh_dims (getNumRows cfg) (Z.of_nat (length (m_routers n))) in
  Ok (with_global_event
        (with_region n (n_ring n) (map router_init (bd_routers s)) (bw_links (bd_world s))
           (gset_to_gmap new_Consumer cs) (m_deferred_schedules n)) (Some (clockEdge env 1)), s, dims).

(** ** Properties *)

(** The links that end at a router: what a request adds, as pairs of the router
    and the handle. *)
Definition claims (objects : gmap Z GarnetLink) (req : link_request) : list (Z * Z) :=
  match req with
  | MakeExtInLink _ dest link _ =>
      match objects !! bl_handle link with
      | Some (ExtLinkObj l) => match int_end LinkDirection_In l with Ok (nl, _, _) => [(dest, nl)] | Err _ => [] end
      | _ => []
      end
  | MakeExtOutLink src _ link _ =>
      match objects !! bl_handle link with
      | Some (ExtLinkObj l) => match int_end LinkDirection_Out l with Ok (_, cl, _) => [(src, cl)] | Err _ => [] end
      | _ => []
      end
  | MakeInternalLink src dest link _ _ _ =>
      match objects !! bl_handle link with
      | Some (IntLinkObj l) =>
          match dst_end l, src_end l with
          | Ok (nl, _, _), Ok (_, cl, _) => [(dest, nl); (src, cl)]
          | _, _ => []
          end
      | _ => []
      end
  end.

(** There are [n] routers, and the links that end at them are among [C]. *)
Definition owned (n : nat) (rs : list Router) (C : list (Z * Z)) : Prop :=
  length rs = n ∧ ∀ i r h, rs !! i = Some r → h ∈ footprint r → (Z.of_nat i, h) ∈ C.

Lemma addInPort_footprint d il cl r ls r' ls' :
  addInPort d il cl r ls = Ok (r', ls') → footprint r' = footprint r ∪ {[il]}.
Proof.
  unfold addInPort. intros (l & _ & H)%rbind_ok. destruct (negb _); [done|]. cbv zeta in H. inv_res.
  unfold footprint, in_links, in_credits. simpl. rewrite map_app, !list_to_set_app_L. simpl. set_solver.
Qed.

Lemma addOutPort_footprint cfg d ol rt wt cl v r ls r' ls' :
  addOutPort cfg d ol rt wt cl v r ls = Ok (r', ls') → footprint r' = footprint r ∪ {[cl]}.
Proof.
  unfold addOutPort. intros (l & _ & H)%rbind_ok. destruct (negb _); [done|]. cbv zeta in H.
  apply rbind_ok in H as (o & Ho & H). unfold new_OutputUnit in Ho. inv_res.
  unfold footprint, in_links, in_credits. simpl. rewrite map_app, !list_to_set_app_L. simpl. set_solver.
Qed.

Lemma owned_set n rs i r r' h C :
  owned n rs C → vec_get rs i = Ok r → footprint r' = footprint r ∪ {[h]} →
  owned n (<[Z.to_nat i := r']> rs) (C ++ [(i, h)]).
Proof.
  intros [Hlen Hown] [Hi Hr]%vec_get_ok Hf. split; [by rewrite length_insert|].
  intros j rj x Hj Hx. apply elem_of_app.
  destruct (decide (j = Z.to_nat i)) as [->|Hne].
  - rewrite list_lookup_insert_eq in Hj by by eapply lookup_lt_Some. simplify_eq. rewrite Hf in Hx.
    apply elem_of_union in Hx as [Hx|Hx%elem_of_singleton].
    + left. by eapply Hown.
    + right. subst x. rewrite Z2Nat.id by done. by apply list_elem_of_singleton.
  - rewrite list_lookup_insert_ne in Hj by done. left. by eapply Hown.
Qed.

Lemma add_router_in_owned n i d il cl s s' C :
  add_router_in i d il cl s = Ok s' → owned n (bd_routers s) C → owned n (bd_routers s') (C ++ [(i, il)]).
Proof.
  unfold add_router_in. intros (r & Hr & ([r' ls] & Hadd & H)%rbind_ok)%rbind_ok Hown.
  apply rbind_ok in H as (w1 & _ & (w2 & _ & (rs & [_ ->]%vec_set_ok & [= <-])%rbind_ok)%rbind_ok). simpl.
  eapply owned_set; [done|done|by eapply addInPort_footprint].
Qed.

Lemma add_router_out_owned n cfg i d ol rt wt cl v s s' C :
  add_router_out cfg i d ol rt wt cl v s = Ok s' → owned n (bd_routers s) C → owned n (bd_routers s') (C ++ [(i, cl)]).
Proof.
  unfold add_router_out. intros (r & Hr & ([r' ls] & Hadd & H)%rbind_ok)%rbind_ok Hown.
  apply rbind_ok in H as (w1 & _ & (w2 & _ & (rs & [_ ->]%vec_set_ok & [= <-])%rbind_ok)%rbind_ok). simpl.
  eapply owned_set; [done|done|by eapply addOutPort_footprint].
Qed.

(** Operations that leave the routers alone. *)
Lemma record_bridge_routers b s : bd_routers (record_bridge b s) = bd_routers s.
Proof. by destruct b. Qed.

Lemma record_link_routers ty nl cl v s s' : record_link ty nl cl v s = Ok s' → bd_routers s' = bd_routers s.
Proof. unfold record_link. by intros (ls & _ & [= <-])%rbind_ok. Qed.

Lemma add_ni_in_routers i il cl s s' : add_ni_in i il cl s = Ok s' → bd_routers s' = bd_routers s.
Proof.
  unfold add_ni_in. intros (n & _ & ([n' ls] & _ & H)%rbind_ok)%rbind_ok.
  by apply rbind_ok in H as (w & _ & (nis & _ & [= <-])%rbind_ok).
Qed.

Lemma add_ni_out_routers cfg i ol cl ri r v s s' :
  add_ni_out cfg i ol cl ri r v s = Ok s' → bd_routers s' = bd_routers s.
Proof.
  unfold add_ni_out. intros (n & _ & ([n' ls] & _ & H)%rbind_ok)%rbind_ok.
  by apply rbind_ok in H as (w & _ & (nis & _ & [= <-])%rbind_ok).
Qed.

Lemma ext_object_ok objects h l : ext_object objects h = Ok l → objects !! h = Some (ExtLinkObj l).
Proof. unfold ext_object. destruct (objects !! h) as [[]|]; naive_solver. Qed.
Lemma int_object_ok objects h l : int_object objects h = Ok l → objects !! h = Some (IntLinkObj l).
Proof. unfold int_object. destruct (objects !! h) as [[]|]; naive_solver. Qed.

Lemma make_link_owned n cfg net objects req s s' C :
  make_link cfg net objects req s = Ok s' → owned n (bd_routers s) C →
  owned n (bd_routers s') (C ++ claims objects req).
Proof.
  intros H Hown. destruct req as [src dest link rt|src dest link rt|src dest link rt o i]; simpl in H |- *.
  - unfold makeExtInLink in H.
    apply rbind_ok in H as (ls & _ & (_ & _ & (l & ->%ext_object_ok & (r & _ & (s1 & Hs1 & H)%rbind_ok)%rbind_ok)%rbind_ok)%rbind_ok).
    apply rbind_ok in H as ([[nl cl] br] & _ & (s2 & Hs2 & H)%rbind_ok). cbv zeta in H.
    apply rbind_ok in H as ([[nl2 cl2] br2] & -> & (s3 & Hs3 & [= <-])%rbind_ok). rewrite record_bridge_routers.
    eapply add_router_in_owned; [done|]. apply record_link_routers in Hs1. apply add_ni_out_routers in Hs2.
    by rewrite record_bridge_routers, Hs2, Hs1.
  - unfold makeExtOutLink in H.
    apply rbind_ok in H as (ld & _ & (_ & _ & (_ & _ & (l & ->%ext_object_ok & (r & _ & (s1 & Hs1 & H)%rbind_ok)%rbind_ok)%rbind_ok)%rbind_ok)%rbind_ok).
    apply rbind_ok in H as ([[nl cl] br] & _ & (s2 & Hs2 & H)%rbind_ok). cbv zeta in H.
    apply rbind_ok in H as ([[nl2 cl2] br2] & -> & (s3 & Hs3 & [= <-])%rbind_ok). rewrite record_bridge_routers.
    eapply add_router_out_owned; [done|]. apply record_link_routers in Hs1. apply add_ni_in_routers in Hs2.
    by rewrite record_bridge_routers, Hs2, Hs1.
  - unfold makeInternalLink in H.
    apply rbind_ok in H as (l & ->%int_object_ok & (rd & _ & (rsr & _ & (s1 & Hs1 & H)%rbind_ok)%rbind_ok)%rbind_ok).
    apply rbind_ok in H as ([[nl cl] br] & -> & (s2 & Hs2 & H)%rbind_ok). cbv zeta in H.
    apply rbind_ok in H as ([[nl2 cl2] br2] & -> & (s3 & Hs3 & [= <-])%rbind_ok). rewrite record_bridge_routers.
    change [(dest, nl); (src, cl2)] with ([(dest, nl)] ++ [(src, cl2)]). rewrite app_assoc.
    eapply add_router_out_owned; [done|]. rewrite record_bridge_routers.
    eapply add_router_in_owned; [done|]. by erewrite record_link_routers.
Qed.

Lemma make_links_owned n cfg net objects reqs s s' C :
  make_links cfg net objects reqs s = Ok s' → owned n (bd_routers s) C →
  owned n (bd_routers s') (C ++ concat (map (claims objects) reqs)).
Proof.
  revert s C. induction reqs as [|req reqs IH]; intros s C; simpl; [intros [= ->]; by rewrite app_nil_r|].
  intros (s1 & Hs1 & H)%rbind_ok Hown. rewrite app_assoc. eapply IH; [exact H|by eapply make_link_owned].
Qed.

(** Routers whose links are claimed at most once do not share links. *)
Lemma owned_disjoint n rs C : owned n rs C → NoDup (map snd C) → routers_disjoint rs.
Proof.
  intros [_ Hown] Hnd i j ri rj Hi Hj Hne x Hx1 Hx2. apply Hne.
  assert (∀ a b, (a, x) ∈ C → (b, x) ∈ C → a = b) as Huniq.
  { intros a b (k1 & Hk1)%list_elem_of_lookup (k2 & Hk2)%list_elem_of_lookup.
    assert (k1 = k2) as ->; [|congruence].
    apply (NoDup_lookup _ _ _ x Hnd); change (map snd C) with (snd <$> C);
      rewrite list_lookup_fmap, ?Hk1, ?Hk2; done. }
  apply Nat2Z.inj, Huniq; eapply Hown; done.
Qed.

(** A router without ports, as its constructor leaves it. *)
Definition unconnected (r : Router) : Prop := m_input_unit r = [] ∧ m_output_unit r = [].

Lemma unconnected_owned rs : Forall unconnected rs → owned (length rs) rs [].
Proof.
  intros Hf. split; [done|]. intros i r h [Hi Ho]%(Forall_lookup_1 _ _ _ _ Hf) Hh.
  unfold footprint, in_links, in_credits in Hh. rewrite Hi, Ho in Hh. set_solver.
Qed.

(** C33: Construction establishes what parallel execution relies on: if no two
    routers are given the same link end, then the network that the constructor
    and [init] build satisfies all the conditions under which a parallel region
    is equivalent to the sequential loop, whatever the topology, the requested
    number of threads and the processors available. *)
Theorem constructed_network_ok env period_of cfg net objects reqs nis w cs num_threads hw routers n0 n s dims :
  Forall unconnected routers → NoDup (map snd (concat (map (claims objects) reqs))) →
  (∀ c, clock_ok (consumer_env env period_of c)) →
  new_GarnetNetwork num_threads hw routers = Ok n0 →
  network_init env cfg net objects reqs nis w cs n0 = Ok (n, s, dims) →
  network_ok env period_of n.
Proof.
  intros Hfresh Hnd Hclk Hnew Hinit. unfold new_GarnetNetwork, check_router_count in Hnew.
  destruct (Z.ltb_spec 64 (Z.of_nat (length routers))); [done|]. cbn [rbind] in Hnew.
  set (nt := choose_num_threads _ _ _) in *. assert (1 ≤ nt) by apply choose_num_threads_pos.
  apply rbind_ok in Hnew as (masks & Hmasks & [= <-]).
  unfold network_init in Hinit. apply rbind_ok in Hinit as (nis' & _ & Hinit).
  apply rbind_ok in Hinit as (s1 & Hmake & Hinit). apply rbind_ok in Hinit as (dims' & _ & [= <- <- _]).
  apply (make_links_owned (length routers) _ _ _ _ _ _ []) in Hmake; [|by apply unconnected_owned].
  destruct Hmake as [Hlen Hown].
  destruct (thread_masks_spec (Z.of_nat (length routers)) nt) as (masks' & Hm' & Hl & _); [lia|done|].
  rewrite Hmasks in Hm'. injection Hm' as <-.
  split; simpl; rewrite ?length_map, ?Hlen; [lia|done|done|by rewrite Hl|done| |].
  - apply (owned_disjoint (length routers) _ (concat (map (claims objects) reqs))); [|done]. split; [by rewrite length_map|].
    intros i r h Hr Hh. change (map router_init (bd_routers s1)) with (router_init <$> bd_routers s1) in Hr.
    rewrite list_lookup_fmap in Hr. destruct (bd_routers s1 !! i) as [r0|] eqn:E; [|done]. simpl in Hr. simplify_eq.
    by eapply Hown.
  - split; [done|]. intros c k Hk. apply lookup_gset_to_gmap_Some in Hk as [_ <-]. constructor.
Qed.

(** ** Example: two routers, one node each, a bridge on one of the two links *)

Definition ex_line_rs : RubySystem :=
  {| MachineType_NUM := 1; MachineType_base_count := fun _ => 2; MachineType_base_number := fun m => 2 * m;
     MachineType_base_level := fun m => m; MachineType_from_base_level := fun m => m; NUMBER_BITS_PER_SET := 64 |}.

Definition ex_basic (h : Z) : BasicLink := {| bl_handle := h; bl_latency := 1; bl_weight := 1; bl_vnets := [] |}.

Definition ex_nodes : list MachineID := [{| mach_type := 0; mach_num := 0 |}; {| mach_type := 0; mach_num := 1 |}].

Definition ex_requests : list link_request :=
  match (let* lm := new_Topology ex_line_rs 2
           (map (fun p => {| el_link := ex_basic (100 + fst p); ext_node := snd p; int_node := fst p |})
              (imap (fun i m => (Z.of_nat i, m)) ex_nodes))
           [{| il_link := ex_basic 102; src_node := 0; dst_node := 1; il_outport := "East"; il_inport := "West" |};
            {| il_link := ex_basic 103; src_node := 1; dst_node := 0; il_outport := "West"; il_inport := "East" |}] in
         createLinks 100 ex_line_rs 1 lm) with
  | Ok (Some reqs) => reqs | _ => [] end.

Definition ex_objects : gmap Z GarnetLink :=
  let ext a := ExtLinkObj (new_GarnetExtLink (a, a + 1) (a + 2, a + 3) false false false false None None None None) in
  <[100 := ext 1]> (<[101 := ext 5]>
  (<[102 := IntLinkObj (new_GarnetIntLink 9 10 false false false false None None None None)]>
  (<[103 := IntLinkObj (new_GarnetIntLink 11 12 true false false false (Some 13) (Some 14) None None)]> ∅))).

Definition ex_link_store : BridgeWorld :=
  let ls := foldr (fun h ls => <[h := new_NetworkLink h 1 1 [] 16]> ls) ∅ (seqZ 1 12) in
  match (let* w := new_NetworkBridge (new_NetworkLink 13 1 1 [] 16) OBJECT_LINK 1 1 11 13
                     {| bw_bridges := ∅; bw_links := ls; bw_scheduled := [] |} in
         let* w := new_NetworkBridge (new_NetworkLink 14 1 1 [] 16) LINK_OBJECT 1 1 12 14 w in
         int_init (new_GarnetIntLink 11 12 true false false false (Some 13) (Some 14) None None) w) with
  | Ok w => w | Err _ => {| bw_bridges := ∅; bw_links := ∅; bw_scheduled := [] |} end.

Definition ex_line_routers : list Router := map (fun i => new_Router i 1 1 2 16) [0; 1].
Definition ex_line_nis : list NetworkInterface := map (fun i => new_NetworkInterface i 1 100) [0; 1].

Definition ex_line_net : Network :=
  match new_Network ex_line_rs ex_nodes 1 with
  | Ok n => n
  | Err _ => {| globalToLocalMap := ∅; m_nodes := 0; m_virtual_networks := 0; m_toNetQueues := []; m_fromNetQueues := [];
                net_ordered := []; m_vnet_type_names := [] |}
  end.

Definition ex_line_new : GarnetNetwork :=
  match new_GarnetNetwork 2 8 ex_line_routers with
  | Ok n => n
  | Err _ => {| n_ring := empty_ring; m_routers := []; n_links := ∅; n_consumers := ∅; m_deferred_schedules := [];
                m_num_threads := 0; m_parallel_threshold := 0; m_thread_router_mask := []; s_parallel_active := false;
                globalWakeupEvent := None |}
  end.

(** The links that end at the two routers: 13 and 14 are bridges. *)
Lemma constructed_network_ok_witness :
  ∃ n s dims, network_init ex_clock ex_cfg ex_line_net ex_objects ex_requests ex_line_nis ex_link_store {[ConsLink 9]}
           ex_line_new = Ok (n, s, dims) ∧
    map in_links (m_routers n) = [[1; 11]; [5; 9]] ∧ map in_credits (m_routers n) = [[4; 10]; [8; 14]] ∧
    network_ok ex_clock (fun _ => 500) n.
Proof.
  destruct (network_init ex_clock ex_cfg ex_line_net ex_objects ex_requests ex_line_nis ex_link_store {[ConsLink 9]}
    ex_line_new) as [[[n s] dims]|e] eqn:E; [|vm_compute in E; discriminate E].
  exists n, s, dims. split; [reflexivity|].
  assert (map in_links (m_routers n) = [[1; 11]; [5; 9]] ∧ map in_credits (m_routers n) = [[4; 10]; [8; 14]]) as [H1 H2].
  { vm_compute in E. injection E as <- <- _. split; vm_compute; reflexivity. }
  split; [exact H1|]. split; [exact H2|].
  apply (constructed_network_ok ex_clock (fun _ => 500) ex_cfg ex_line_net ex_objects ex_requests ex_line_nis
    ex_link_store {[ConsLink 9]} 2 8 ex_line_routers ex_line_new n s dims).
  - repeat constructor.
  - apply (bool_decide_unpack _). vm_compute. exact I.
  - intros c. unfold clock_ok. simpl. lia.
  - vm_compute. reflexivity.
  - exact E.
Defined.
