(* ===== verification/Wiring.v ===== *)
(** * Wiring: every port and its links know each other

    A port of a router or of a network interface records the handles of its
    links; a link records the object it wakes and the queue it reads. This file
    shows that construction keeps the two in agreement. *)

From S2P Require Import Prelude IntMath Clocked Consumer WakeupRing NetDest Flit RoutingUnit VirtualChannel NetworkLink InputUnit OutputUnit SwitchAllocator Router RouterFrame Interleave GarnetNetwork Parallel MessageBuffer NetworkInterface NetworkBridge Topology Construction.

(** ** Setting the ends of links *)

(** [ls'] differs from [ls] in that link [h] wakes [c], or reads [q], or both. *)
Definition consumer_set (ls ls' : Links) (h : Z) (c : consumer_ref) : Prop :=
  ∀ x, cons_at ls' x = (if decide (x = h) then Some c else cons_at ls x) ∧ srcs_at ls' x = srcs_at ls x.
Definition source_set (ls ls' : Links) (h : Z) (q : queue_ref) : Prop :=
  ∀ x, cons_at ls' x = cons_at ls x ∧ srcs_at ls' x = (if decide (x = h) then Some q else srcs_at ls x).
Definition plugged (ls ls' : Links) (hc : Z) (c : consumer_ref) (hq : Z) (q : queue_ref) : Prop :=
  ∀ x, cons_at ls' x = (if decide (x = hc) then Some c else cons_at ls x) ∧
       srcs_at ls' x = (if decide (x = hq) then Some q else srcs_at ls x).

Lemma upd_link_lookup h f ls ls' x :
  upd_link_at h f ls = Ok ls' →
  ls' !! x = if decide (x = h) then f <$> ls !! h else ls !! x.
Proof.
  intros (l & Hl & [= <-])%rbind_ok. unfold get_link in Hl. destruct (ls !! h) as [l0|] eqn:E; [|done]. simplify_eq.
  destruct (decide (x = h)) as [->|]; [by rewrite lookup_insert_eq|by rewrite lookup_insert_ne].
Qed.

Lemma upd_keeps_ends h f ls ls' :
  (∀ l, link_consumer (f l) = link_consumer l ∧ link_srcQueue (f l) = link_srcQueue l) →
  upd_link_at h f ls = Ok ls' → same_ends ls ls'.
Proof.
  intros Hf Hu x. unfold cons_at, srcs_at. rewrite (upd_link_lookup _ _ _ _ x Hu).
  destruct (decide (x = h)) as [->|]; [|done]. destruct (ls !! h) as [l|]; [|done]. by destruct (Hf l).
Qed.

Lemma set_vcs_keeps vcs h ls ls' : upd_link_at h (setVcsPerVnet vcs) ls = Ok ls' → same_ends ls ls'.
Proof. by apply upd_keeps_ends. Qed.

Lemma upd_link_some h f ls ls' : upd_link_at h f ls = Ok ls' → ∃ l, ls !! h = Some l.
Proof. intros (l & Hl & _)%rbind_ok. unfold get_link in Hl. destruct (ls !! h); [eauto|done]. Qed.

Lemma set_consumer_ok h c ls ls' : upd_link_at h (setLinkConsumer c) ls = Ok ls' → consumer_set ls ls' h c.
Proof.
  intros Hu x. destruct (upd_link_some _ _ _ _ Hu) as [l Hl]. unfold cons_at, srcs_at.
  rewrite (upd_link_lookup _ _ _ _ x Hu). destruct (decide (x = h)) as [->|]; [by rewrite Hl|done].
Qed.

Lemma set_source_ok h q ls ls' : upd_link_at h (setSourceQueue q) ls = Ok ls' → source_set ls ls' h q.
Proof.
  intros Hu x. destruct (upd_link_some _ _ _ _ Hu) as [l Hl]. unfold cons_at, srcs_at.
  rewrite (upd_link_lookup _ _ _ _ x Hu). destruct (decide (x = h)) as [->|]; [by rewrite Hl|done].
Qed.

(** Follow a chain of such updates at one link. *)
Ltac chase x :=
  repeat match goal with
  | H : upd_link_at _ (setVcsPerVnet _) _ = Ok _ |- _ => apply set_vcs_keeps in H
  | H : upd_link_at _ (setLinkConsumer _) _ = Ok _ |- _ => apply set_consumer_ok in H
  | H : upd_link_at _ (setSourceQueue _) _ = Ok _ |- _ => apply set_source_ok in H
  end;
  repeat match goal with
  | H : same_ends _ _ |- _ => destruct (H x); clear H
  | H : consumer_set _ _ _ _ |- _ => destruct (H x); clear H
  | H : source_set _ _ _ _ |- _ => destruct (H x); clear H
  | H : plugged _ _ _ _ _ _ |- _ => destruct (H x); clear H
  end;
  repeat case_decide.

(** ** The port functions *)

Lemma addInPort_plugs d il cl r ls r' ls' :
  addInPort d il cl r ls = Ok (r', ls') →
  plugged ls ls' il (ConsRouter (r_id (core r))) cl (QRouterCredit (r_id (core r)) (Z.of_nat (length (m_input_unit r)))).
Proof.
  unfold addInPort. intros (l & _ & H)%rbind_ok x. destruct (negb _); [done|]. cbv zeta in H. inv_res.
  chase x; split; congruence.
Qed.

Lemma addOutPort_plugs cfg d ol rt wt cl v r ls r' ls' :
  addOutPort cfg d ol rt wt cl v r ls = Ok (r', ls') →
  plugged ls ls' cl (ConsRouter (r_id (core r))) ol (QRouterOut (r_id (core r)) (Z.of_nat (length (m_output_unit r)))).
Proof.
  unfold addOutPort. intros (l & _ & H)%rbind_ok x. destruct (negb _); [done|]. cbv zeta in H. inv_res.
  chase x; split; congruence.
Qed.

Lemma ni_addInPort_plugs il cl n ls n' ls' :
  ni_addInPort il cl n ls = Ok (n', ls') →
  plugged ls ls' il (ConsNI (ni_id n)) cl (QNICredit (ni_id n) (Z.of_nat (length (inPorts n)))).
Proof.
  unfold ni_addInPort. intros (l & _ & H)%rbind_ok x. cbv zeta in H. inv_res.
  destruct (negb _); inv_res; chase x; split; congruence.
Qed.

Lemma fold_keeps_ends {A} (f : A → Links → res Links) xs ls ls' :
  (∀ a l l', f a l = Ok l' → same_ends l l') → fold_res f xs ls = Ok ls' → same_ends ls ls'.
Proof.
  intros Hf. revert ls. induction xs as [|a xs IH]; intros ls; simpl; [by intros [= <-]|].
  intros (l1 & H1 & H2)%rbind_ok. etrans; [by eapply Hf|by apply IH].
Qed.

Lemma ni_addOutPort_plugs cfg ol cl ri rt v n ls n' ls' :
  ni_addOutPort cfg ol cl ri rt v n ls = Ok (n', ls') →
  plugged ls ls' cl (ConsNI (ni_id n)) ol (QNIOut (ni_id n) (Z.of_nat (length (outPorts n)))) ∧
  ni_id n' = ni_id n ∧ inPorts n' = inPorts n ∧
  ∃ l, outPorts n' = outPorts n ++ [new_OutputPort ol cl l ri].
Proof.
  unfold ni_addOutPort. set (n1 := match ni_router n with None => _ | Some _ => _ end).
  assert (ni_id n1 = ni_id n ∧ outPorts n1 = outPorts n ∧ inPorts n1 = inPorts n) as (E1 & E2 & E3)
    by (unfold n1; by destruct (ni_router n)).
  intros (l & _ & (_ & _ & ([n2 ls2] & Hvc & H)%rbind_ok)%rbind_ok)%rbind_ok.
  assert (same_ends ls ls2 ∧ ni_id n2 = ni_id n ∧ inPorts n2 = inPorts n ∧
    outPorts n2 = outPorts n ++ [new_OutputPort ol cl l ri]) as (Hse & F1 & F2 & F3).
  { destruct (Nat.eqb _ _).
    - apply rbind_ok in Hvc as (ovs & _ & Hvc). cbv zeta in Hvc. apply rbind_ok in Hvc as (ls3 & Hf & [= <- <-]).
      simpl. rewrite E1, E2, E3. split; [|done].
      eapply (fold_keeps_ends (A := InputPort)); [|exact Hf]. intros p l1 l2 (l3 & Ha & Hb)%rbind_ok.
      etrans; by eapply set_vcs_keeps.
    - destruct (negb _); [done|]. injection Hvc as <- <-. simpl. by rewrite E1, E2, E3. }
  inv_res. split; [|by eauto]. intros x. rewrite E2 in *. chase x; split; congruence.
Qed.

(** ** What the ports record *)

(** The links an object is to be woken by, and the links that are to read its
    queues, port by port. *)
Definition router_cons (r : Router) : list (Z * consumer_ref) :=
  map (fun u => (iu_in_link u, ConsRouter (r_id (core r)))) (m_input_unit r) ++
  map (fun o => (ou_credit_link o, ConsRouter (r_id (core r)))) (m_output_unit r).
Definition router_srcs (r : Router) : list (Z * queue_ref) :=
  imap (fun p u => (iu_credit_link u, QRouterCredit (r_id (core r)) (Z.of_nat p))) (m_input_unit r) ++
  imap (fun p o => (ou_out_link o, QRouterOut (r_id (core r)) (Z.of_nat p))) (m_output_unit r).
Definition ni_cons (n : NetworkInterface) : list (Z * consumer_ref) :=
  map (fun p => (inNetLink p, ConsNI (ni_id n))) (inPorts n) ++
  map (fun p => (inCreditLink p, ConsNI (ni_id n))) (outPorts n).
Definition ni_srcs (n : NetworkInterface) : list (Z * queue_ref) :=
  imap (fun i p => (outCreditLink p, QNICredit (ni_id n) (Z.of_nat i))) (inPorts n) ++
  imap (fun i p => (outNetLink p, QNIOut (ni_id n) (Z.of_nat i))) (outPorts n).

Definition all_cons (s : Build) : list (Z * consumer_ref) :=
  concat (map router_cons (bd_routers s)) ++ concat (map ni_cons (bd_nis s)).
Definition all_srcs (s : Build) : list (Z * queue_ref) :=
  concat (map router_srcs (bd_routers s)) ++ concat (map ni_srcs (bd_nis s)).

(** The links agree with the ports, which use the handles [P], pairs of a handle
    used to wake an object and one used to read a queue; what links read besides
    is what they read in [ls0]. *)
Record wired (ls0 : Links) (P : list (Z * Z)) (s : Build) : Prop := {
  wired_cons h c : (h, c) ∈ all_cons s → cons_at (bw_links (bd_world s)) h = Some c;
  wired_srcs h q : (h, q) ∈ all_srcs s → srcs_at (bw_links (bd_world s)) h = Some q;
  wired_only h q : srcs_at (bw_links (bd_world s)) h = Some q → (h, q) ∈ all_srcs s ∨ srcs_at ls0 h = Some q;
  wired_readers : map fst (all_cons s) ≡ₚ map fst P;
  wired_queues : map fst (all_srcs s) ≡ₚ map snd P
}.

(** A port was added to some object. *)
Record port_added (s s' : Build) (hc : Z) (c : consumer_ref) (hq : Z) (q : queue_ref) : Prop := {
  pa_links : plugged (bw_links (bd_world s)) (bw_links (bd_world s')) hc c hq q;
  pa_cons : all_cons s' ≡ₚ (hc, c) :: all_cons s;
  pa_srcs : all_srcs s' ≡ₚ (hq, q) :: all_srcs s
}.

Lemma port_added_wired ls0 P s s' hc c hq q :
  wired ls0 P s → port_added s s' hc c hq q → hc ∉ map fst P → hq ∉ map snd P → wired ls0 (P ++ [(hc, hq)]) s'.
Proof.
  intros [Hc Hs Ho Hpc Hps] [Hl Ec Es] Hnc Hns. split.
  - intros h k. rewrite Ec, elem_of_cons. destruct (Hl h) as [-> _]. intros [[= -> ->]|Hk]; [by rewrite decide_True|].
    rewrite decide_False; [by apply Hc|]. intros ->. apply Hnc. rewrite <-Hpc. by apply (list_elem_of_fmap_2 fst) in Hk.
  - intros h k. rewrite Es, elem_of_cons. destruct (Hl h) as [_ ->]. intros [[= -> ->]|Hk]; [by rewrite decide_True|].
    rewrite decide_False; [by apply Hs|]. intros ->. apply Hns. rewrite <-Hps. by apply (list_elem_of_fmap_2 fst) in Hk.
  - intros h k. destruct (Hl h) as [_ ->]. rewrite Es, elem_of_cons. case_decide as E.
    + intros [= <-]. subst h. by do 2 left.
    + intros [?|?]%Ho; auto.
  - rewrite Ec, map_app. simpl. rewrite Hpc. apply Permutation_cons_append.
  - rewrite Es, map_app. simpl. rewrite Hps. apply Permutation_cons_append.
Qed.

(** Steps that change neither ports nor the ends of links. *)
Lemma wired_ext ls0 P s s' :
  same_ends (bw_links (bd_world s)) (bw_links (bd_world s')) → all_cons s' = all_cons s → all_srcs s' = all_srcs s →
  wired ls0 P s → wired ls0 P s'.
Proof.
  intros He Ec Es [Hc Hs Ho Hpc Hps]. split; rewrite ?Ec, ?Es; [..|done|done].
  - intros h c Hx%Hc. by destruct (He h) as [-> _].
  - intros h q Hx%Hs. by destruct (He h) as [_ ->].
  - intros h q. destruct (He h) as [_ ->]. apply Ho.
Qed.

Lemma virtual_vcs_keeps vcs h w w' : virtual_vcs vcs h w = Ok w' → same_ends (bw_links w) (bw_links w').
Proof.
  unfold virtual_vcs. destruct (bw_bridges w !! h); [|by intros [= <-]].
  unfold bridge_setVcsPerVnet. intros H. inv_res. etrans; by eapply set_vcs_keeps.
Qed.

(** Replacing one object of a list by one with a port more. *)
Lemma concat_insert {A B} (f : A → list B) xs i x x' y :
  xs !! i = Some x → f x' ≡ₚ y :: f x → concat (map f (<[i := x']> xs)) ≡ₚ y :: concat (map f xs).
Proof.
  intros Hx Hf. revert i Hx. induction xs as [|a xs IH]; intros [|i] Hx; simplify_eq/=.
  - by rewrite Hf.
  - rewrite (IH i Hx). symmetry. apply Permutation_middle.
Qed.

Lemma plugged_ext ls ls1 ls2 hc c hq q : plugged ls ls1 hc c hq q → same_ends ls1 ls2 → plugged ls ls2 hc c hq q.
Proof. intros H1 H2 x. chase x; split; congruence. Qed.

Lemma virtual_vcs_list_keeps vcs hs w w' :
  fold_res (virtual_vcs vcs) hs w = Ok w' → same_ends (bw_links w) (bw_links w').
Proof.
  revert w. induction hs as [|h hs IH]; intros w; simpl; [by intros [= <-]|].
  intros (w1 & H1 & H2)%rbind_ok. etrans; [by eapply virtual_vcs_keeps|by apply IH].
Qed.

(** The new entry is the last of its kind. *)
Lemma imap_snoc {A B} (f : nat → A → B) l x : imap f (l ++ [x]) = imap f l ++ [f (length l) x].
Proof. rewrite imap_app. simpl. by rewrite Nat.add_0_r. Qed.

Ltac new_entry :=
  rewrite ?map_app, ?imap_snoc; simpl;
  first [ rewrite <-app_assoc; simpl; symmetry; apply Permutation_middle
        | rewrite app_assoc; symmetry; apply Permutation_cons_append ].

Lemma addInPort_ports d il cl r ls r' ls' :
  addInPort d il cl r ls = Ok (r', ls') → let id := r_id (core r) in
  router_cons r' ≡ₚ (il, ConsRouter id) :: router_cons r ∧
  router_srcs r' ≡ₚ (cl, QRouterCredit id (Z.of_nat (length (m_input_unit r)))) :: router_srcs r.
Proof.
  unfold addInPort. intros (l & _ & H)%rbind_ok. destruct (negb _); [done|]. cbv zeta in H. inv_res.
  unfold router_cons, router_srcs. simpl. split; new_entry.
Qed.

Lemma addOutPort_ports cfg d ol rt wt cl v r ls r' ls' :
  addOutPort cfg d ol rt wt cl v r ls = Ok (r', ls') → let id := r_id (core r) in
  router_cons r' ≡ₚ (cl, ConsRouter id) :: router_cons r ∧
  router_srcs r' ≡ₚ (ol, QRouterOut id (Z.of_nat (length (m_output_unit r)))) :: router_srcs r.
Proof.
  unfold addOutPort. intros (l & _ & H)%rbind_ok. destruct (negb _); [done|]. cbv zeta in H.
  apply rbind_ok in H as (o & Ho & H). unfold new_OutputUnit in Ho. inv_res.
  unfold router_cons, router_srcs. simpl. split; new_entry.
Qed.

Lemma ni_addInPort_ports il cl n ls n' ls' :
  ni_addInPort il cl n ls = Ok (n', ls') →
  ni_cons n' ≡ₚ (il, ConsNI (ni_id n)) :: ni_cons n ∧
  ni_srcs n' ≡ₚ (cl, QNICredit (ni_id n) (Z.of_nat (length (inPorts n)))) :: ni_srcs n.
Proof.
  unfold ni_addInPort. intros (l & _ & H)%rbind_ok. cbv zeta in H. inv_res.
  destruct (negb _); inv_res; unfold ni_cons, ni_srcs; simpl; split; new_entry.
Qed.

Lemma ni_addOutPort_ports cfg ol cl ri rt v n ls n' ls' :
  ni_addOutPort cfg ol cl ri rt v n ls = Ok (n', ls') →
  ni_cons n' ≡ₚ (cl, ConsNI (ni_id n)) :: ni_cons n ∧
  ni_srcs n' ≡ₚ (ol, QNIOut (ni_id n) (Z.of_nat (length (outPorts n)))) :: ni_srcs n.
Proof.
  intros (_ & E1 & E2 & l & E3)%ni_addOutPort_plugs. unfold ni_cons, ni_srcs. rewrite E1, E2, E3.
  split; new_entry.
Qed.

(** ** Construction steps *)

(** One router, or one interface, is replaced by itself with a port more. *)
Lemma router_port_added s i r r' w hc c hq q :
  bd_routers s !! i = Some r → plugged (bw_links (bd_world s)) (bw_links w) hc c hq q →
  router_cons r' ≡ₚ (hc, c) :: router_cons r → router_srcs r' ≡ₚ (hq, q) :: router_srcs r →
  port_added s (with_objects s (<[i := r']> (bd_routers s)) (bd_nis s) w) hc c hq q.
Proof.
  intros Hr Hpl Hc Hs. split; [done|unfold all_cons|unfold all_srcs]; simpl.
  - by rewrite (concat_insert _ _ _ _ _ _ Hr Hc).
  - by rewrite (concat_insert _ _ _ _ _ _ Hr Hs).
Qed.

Lemma ni_port_added s i n n' w hc c hq q :
  bd_nis s !! i = Some n → plugged (bw_links (bd_world s)) (bw_links w) hc c hq q →
  ni_cons n' ≡ₚ (hc, c) :: ni_cons n → ni_srcs n' ≡ₚ (hq, q) :: ni_srcs n →
  port_added s (with_objects s (bd_routers s) (<[i := n']> (bd_nis s)) w) hc c hq q.
Proof.
  intros Hn Hpl Hc Hs. split; [done|unfold all_cons|unfold all_srcs]; simpl.
  - rewrite (concat_insert _ _ _ _ _ _ Hn Hc). symmetry. apply Permutation_middle.
  - rewrite (concat_insert _ _ _ _ _ _ Hn Hs). symmetry. apply Permutation_middle.
Qed.

Lemma add_router_in_added i d il cl s s' :
  add_router_in i d il cl s = Ok s' → ∃ c q, port_added s s' il c cl q.
Proof.
  unfold add_router_in. intros (r & [_ Hr]%vec_get_ok & ([r' ls] & Hadd & H)%rbind_ok)%rbind_ok.
  apply rbind_ok in H as (w1 & Hw1 & (w2 & Hw2 & (rs & [_ ->]%vec_set_ok & [= <-])%rbind_ok)%rbind_ok).
  destruct (addInPort_ports _ _ _ _ _ _ _ Hadd). apply addInPort_plugs in Hadd.
  apply virtual_vcs_keeps in Hw1, Hw2. eexists _, _. eapply router_port_added; [done| |done|done].
  eapply plugged_ext; [exact Hadd|]. by etrans.
Qed.

Lemma add_router_out_added cfg i d ol rt wt cl v s s' :
  add_router_out cfg i d ol rt wt cl v s = Ok s' → ∃ c q, port_added s s' cl c ol q.
Proof.
  unfold add_router_out. intros (r & [_ Hr]%vec_get_ok & ([r' ls] & Hadd & H)%rbind_ok)%rbind_ok.
  apply rbind_ok in H as (w1 & Hw1 & (w2 & Hw2 & (rs & [_ ->]%vec_set_ok & [= <-])%rbind_ok)%rbind_ok).
  destruct (addOutPort_ports _ _ _ _ _ _ _ _ _ _ _ Hadd). apply addOutPort_plugs in Hadd.
  apply virtual_vcs_keeps in Hw1, Hw2. eexists _, _. eapply router_port_added; [done| |done|done].
  eapply plugged_ext; [exact Hadd|]. by etrans.
Qed.

Lemma add_ni_in_added i il cl s s' : add_ni_in i il cl s = Ok s' → ∃ c q, port_added s s' il c cl q.
Proof.
  unfold add_ni_in. intros (n & [_ Hn]%vec_get_ok & ([n' ls] & Hadd & H)%rbind_ok)%rbind_ok. cbv zeta in H.
  apply rbind_ok in H as (w & Hw & (nis & [_ ->]%vec_set_ok & [= <-])%rbind_ok).
  destruct (ni_addInPort_ports _ _ _ _ _ _ Hadd). apply ni_addInPort_plugs in Hadd.
  eexists _, _. eapply ni_port_added; [done| |done|done]. eapply plugged_ext; [exact Hadd|].
  destruct (negb _); [|by simplify_eq]. apply rbind_ok in Hw as (w1 & H1 & H2).
  apply virtual_vcs_keeps in H1, H2. by etrans.
Qed.

Lemma add_ni_out_added cfg i ol cl ri rt v s s' :
  add_ni_out cfg i ol cl ri rt v s = Ok s' → ∃ c q, port_added s s' cl c ol q.
Proof.
  unfold add_ni_out. intros (n & [_ Hn]%vec_get_ok & ([n' ls] & Hadd & H)%rbind_ok)%rbind_ok. cbv zeta in H.
  apply rbind_ok in H as (w & Hw & (nis & [_ ->]%vec_set_ok & [= <-])%rbind_ok).
  destruct (ni_addOutPort_ports _ _ _ _ _ _ _ _ _ _ Hadd). apply ni_addOutPort_plugs in Hadd as [Hadd _].
  apply virtual_vcs_list_keeps in Hw. eexists _, _. eapply ni_port_added; [done| |done|done].
  by eapply plugged_ext.
Qed.

Lemma record_bridge_wired ls0 P b s : wired ls0 P s → wired ls0 P (record_bridge b s).
Proof. apply wired_ext; destruct b; done. Qed.

Lemma record_link_wired ls0 P ty nl cl v s s' : record_link ty nl cl v s = Ok s' → wired ls0 P s → wired ls0 P s'.
Proof.
  unfold record_link. intros (ls & Hu & [= <-])%rbind_ok. apply wired_ext; [|done|done].
  eapply upd_keeps_ends; [|exact Hu]. done.
Qed.

(** ** The theorem *)

(** The handles a request uses, per port: the one that will wake the object and
    the one that will read its queue. *)
Definition plugs (objects : gmap Z GarnetLink) (req : link_request) : list (Z * Z) :=
  match req with
  | MakeExtInLink _ _ link _ =>
      match objects !! bl_handle link with
      | Some (ExtLinkObj l) =>
          match ext_end LinkDirection_In l, int_end LinkDirection_In l with
          | Ok (nl, cl, _), Ok (nl', cl', _) => [(cl, nl); (nl', cl')]
          | _, _ => []
          end
      | _ => []
      end
  | MakeExtOutLink _ _ link _ =>
      match objects !! bl_handle link with
      | Some (ExtLinkObj l) =>
          match ext_end LinkDirection_Out l, int_end LinkDirection_Out l with
          | Ok (nl, cl, _), Ok (nl', cl', _) => [(nl, cl); (cl', nl')]
          | _, _ => []
          end
      | _ => []
      end
  | MakeInternalLink _ _ link _ _ _ =>
      match objects !! bl_handle link with
      | Some (IntLinkObj l) =>
          match dst_end l, src_end l with
          | Ok (nl, cl, _), Ok (nl', cl', _) => [(nl, cl); (cl', nl')]
          | _, _ => []
          end
      | _ => []
      end
  end.

(** Handles not used before. *)
Definition fresh (P : list (Z * Z)) : Prop := NoDup (map fst P) ∧ NoDup (map snd P).

Lemma fresh_snoc P x Q : fresh ((P ++ [x]) ++ Q) → (fst x ∉ map fst P) ∧ (snd x ∉ map snd P).
Proof.
  intros [H1 H2]. rewrite !map_app in H1, H2. rewrite <-!app_assoc in H1, H2.
  apply NoDup_app in H1 as (_ & H1 & _). apply NoDup_app in H2 as (_ & H2 & _).
  split; intros Hx; [apply (H1 _ Hx)|apply (H2 _ Hx)]; apply elem_of_app; left; by left.
Qed.

Lemma wired_add ls0 P s s' hc hq Q :
  wired ls0 P s → (∃ c q, port_added s s' hc c hq q) → fresh ((P ++ [(hc, hq)]) ++ Q) → wired ls0 (P ++ [(hc, hq)]) s'.
Proof. intros Hw (c & q & Hp) [H1 H2]%fresh_snoc. by eapply port_added_wired. Qed.

Lemma make_link_wired cfg net objects req s s' ls0 P Q :
  make_link cfg net objects req s = Ok s' → wired ls0 P s → fresh ((P ++ plugs objects req) ++ Q) →
  wired ls0 (P ++ plugs objects req) s'.
Proof.
  intros H Hw Hf. destruct req as [src dest link rt|src dest link rt|src dest link rt o i]; simpl in H, Hf |- *.
  - unfold makeExtInLink in H.
    apply rbind_ok in H as (ls & _ & (_ & _ & (l & El%ext_object_ok & (r & _ & (s1 & Hs1 & H)%rbind_ok)%rbind_ok)%rbind_ok)%rbind_ok).
    apply rbind_ok in H as ([[nl cl] br] & E1 & (s2 & Hs2 & H)%rbind_ok). cbv zeta in H.
    apply rbind_ok in H as ([[nl2 cl2] br2] & E2 & (s3 & Hs3 & [= <-])%rbind_ok).
    rewrite El, E1, E2 in Hf |- *. apply record_bridge_wired.
    change [(cl, nl); (nl2, cl2)] with ([(cl, nl)] ++ [(nl2, cl2)]) in *. rewrite app_assoc in Hf |- *.
    eapply wired_add; [|by eapply add_router_in_added|exact Hf]. apply record_bridge_wired.
    rewrite <-app_assoc in Hf.
    eapply wired_add; [|by eapply add_ni_out_added|exact Hf]. by eapply record_link_wired.
  - unfold makeExtOutLink in H.
    apply rbind_ok in H as (ld & _ & (_ & _ & (_ & _ & (l & El%ext_object_ok & (r & _ & (s1 & Hs1 & H)%rbind_ok)%rbind_ok)%rbind_ok)%rbind_ok)%rbind_ok).
    apply rbind_ok in H as ([[nl cl] br] & E1 & (s2 & Hs2 & H)%rbind_ok). cbv zeta in H.
    apply rbind_ok in H as ([[nl2 cl2] br2] & E2 & (s3 & Hs3 & [= <-])%rbind_ok).
    rewrite El, E1, E2 in Hf |- *. apply record_bridge_wired.
    change [(nl, cl); (cl2, nl2)] with ([(nl, cl)] ++ [(cl2, nl2)]) in *. rewrite app_assoc in Hf |- *.
    eapply wired_add; [|by eapply add_router_out_added|exact Hf]. apply record_bridge_wired.
    rewrite <-app_assoc in Hf.
    eapply wired_add; [|by eapply add_ni_in_added|exact Hf]. by eapply record_link_wired.
  - unfold makeInternalLink in H.
    apply rbind_ok in H as (l & El%int_object_ok & (rd & _ & (rsr & _ & (s1 & Hs1 & H)%rbind_ok)%rbind_ok)%rbind_ok).
    apply rbind_ok in H as ([[nl cl] br] & E1 & (s2 & Hs2 & H)%rbind_ok). cbv zeta in H.
    apply rbind_ok in H as ([[nl2 cl2] br2] & E2 & (s3 & Hs3 & [= <-])%rbind_ok).
    rewrite El, E1, E2 in Hf |- *. apply record_bridge_wired.
    change [(nl, cl); (cl2, nl2)] with ([(nl, cl)] ++ [(cl2, nl2)]) in *. rewrite app_assoc in Hf |- *.
    eapply wired_add; [|by eapply add_router_out_added|exact Hf]. apply record_bridge_wired.
    rewrite <-app_assoc in Hf.
    eapply wired_add; [|by eapply add_router_in_added|exact Hf]. by eapply record_link_wired.
Qed.

Lemma make_links_wired cfg net objects reqs s s' ls0 P :
  make_links cfg net objects reqs s = Ok s' → wired ls0 P s → fresh (P ++ concat (map (plugs objects) reqs)) →
  wired ls0 (P ++ concat (map (plugs objects) reqs)) s'.
Proof.
  revert s P. induction reqs as [|req reqs IH]; intros s P; simpl; [intros [= ->]; by rewrite app_nil_r|].
  intros (s1 & Hs1 & H)%rbind_ok Hw Hf. rewrite app_assoc in Hf |- *.
  apply (IH s1); [exact H| |exact Hf]. by eapply make_link_wired.
Qed.

Lemma elem_of_concat_map {A B} (f : A → list B) xs a b : a ∈ xs → b ∈ f a → b ∈ concat (map f xs).
Proof.
  rewrite !list_elem_of_In, in_concat. intros Ha Hb. exists (f a). split; [by apply in_map|done].
Qed.

Lemma elem_of_map_lookup {A B} (f : A → B) xs i a : xs !! i = Some a → f a ∈ map f xs.
Proof. intros Ha. apply list_elem_of_In, in_map, list_elem_of_In. by eapply list_elem_of_lookup_2. Qed.

Lemma elem_of_imap_lookup {A B} (f : nat → A → B) xs i a : xs !! i = Some a → f i a ∈ imap f xs.
Proof. intros Ha. apply (list_elem_of_lookup_2 _ i). by rewrite list_lookup_imap, Ha. Qed.

(** An interface without ports. *)
Definition ni_unconnected (n : NetworkInterface) : Prop := inPorts n = [] ∧ outPorts n = [].

Lemma concat_map_nil {A B} (f : A → list B) xs : Forall (fun a => f a = []) xs → concat (map f xs) = [].
Proof. induction 1 as [|a xs Ha _ IH]; simpl; [done|by rewrite Ha, IH]. Qed.

Lemma unconnected_wired s :
  Forall unconnected (bd_routers s) → Forall ni_unconnected (bd_nis s) → wired (bw_links (bd_world s)) [] s.
Proof.
  intros Hr Hn. assert (all_cons s = [] ∧ all_srcs s = []) as [E1 E2].
  { unfold all_cons, all_srcs. rewrite !concat_map_nil; [done|..];
      (eapply Forall_impl; [exact Hr || exact Hn|]); intros a [Ha1 Ha2];
      unfold router_cons, router_srcs, ni_cons, ni_srcs; by rewrite Ha1, Ha2. }
  split; rewrite ?E1, ?E2; [..|done|done]; [by intros h c ?%elem_of_nil..|by right].
Qed.

(** C34: In the network that [init] builds, ports and links agree: for every
    input port of a router the link it reads from wakes that router and its
    credit link reads that port's credit queue; for every output port the link
    reads that port's buffer and the credit link wakes the router; and likewise
    for the ports of the interfaces. It is enough that no link end is used
    twice. *)
Theorem construction_wires cfg net objects reqs s s' :
  Forall unconnected (bd_routers s) → Forall ni_unconnected (bd_nis s) →
  fresh (concat (map (plugs objects) reqs)) →
  make_links cfg net objects reqs s = Ok s' →
  (∀ r p u, r ∈ bd_routers s' → m_input_unit r !! p = Some u →
     cons_at (bw_links (bd_world s')) (iu_in_link u) = Some (ConsRouter (r_id (core r))) ∧
     srcs_at (bw_links (bd_world s')) (iu_credit_link u) = Some (QRouterCredit (r_id (core r)) (Z.of_nat p))) ∧
  (∀ r p o, r ∈ bd_routers s' → m_output_unit r !! p = Some o →
     srcs_at (bw_links (bd_world s')) (ou_out_link o) = Some (QRouterOut (r_id (core r)) (Z.of_nat p)) ∧
     cons_at (bw_links (bd_world s')) (ou_credit_link o) = Some (ConsRouter (r_id (core r)))) ∧
  (∀ n i p, n ∈ bd_nis s' → inPorts n !! i = Some p →
     cons_at (bw_links (bd_world s')) (inNetLink p) = Some (ConsNI (ni_id n)) ∧
     srcs_at (bw_links (bd_world s')) (outCreditLink p) = Some (QNICredit (ni_id n) (Z.of_nat i))) ∧
  (∀ n i p, n ∈ bd_nis s' → outPorts n !! i = Some p →
     srcs_at (bw_links (bd_world s')) (outNetLink p) = Some (QNIOut (ni_id n) (Z.of_nat i)) ∧
     cons_at (bw_links (bd_world s')) (inCreditLink p) = Some (ConsNI (ni_id n))).
Proof.
  intros Hr Hn Hf Hmake. apply (make_links_wired _ _ _ _ _ _ (bw_links (bd_world s)) []) in Hmake as [Hc Hs _ _ _]; [|by apply unconnected_wired|done].
  assert (∀ r x, r ∈ bd_routers s' → (x ∈ router_cons r → x ∈ all_cons s')) as Hrc
    by (intros r x Hx; unfold all_cons; rewrite elem_of_app; left; by eapply elem_of_concat_map).
  assert (∀ r x, r ∈ bd_routers s' → (x ∈ router_srcs r → x ∈ all_srcs s')) as Hrs
    by (intros r x Hx; unfold all_srcs; rewrite elem_of_app; left; by eapply elem_of_concat_map).
  assert (∀ n x, n ∈ bd_nis s' → (x ∈ ni_cons n → x ∈ all_cons s')) as Hnc
    by (intros r x Hx; unfold all_cons; rewrite elem_of_app; right; by eapply elem_of_concat_map).
  assert (∀ n x, n ∈ bd_nis s' → (x ∈ ni_srcs n → x ∈ all_srcs s')) as Hns
    by (intros r x Hx; unfold all_srcs; rewrite elem_of_app; right; by eapply elem_of_concat_map).
  split_and!; intros r p u Hin Hu; split.
  - eapply Hc, Hrc; [done|]. apply elem_of_app; left.
    exact (elem_of_map_lookup (fun u => (iu_in_link u, ConsRouter (r_id (core r)))) _ _ _ Hu).
  - eapply Hs, Hrs; [done|]. apply elem_of_app; left.
    exact (elem_of_imap_lookup (fun p u => (iu_credit_link u, QRouterCredit (r_id (core r)) (Z.of_nat p))) _ _ _ Hu).
  - eapply Hs, Hrs; [done|]. apply elem_of_app; right.
    exact (elem_of_imap_lookup (fun p o => (ou_out_link o, QRouterOut (r_id (core r)) (Z.of_nat p))) _ _ _ Hu).
  - eapply Hc, Hrc; [done|]. apply elem_of_app; right.
    exact (elem_of_map_lookup (fun o => (ou_credit_link o, ConsRouter (r_id (core r)))) _ _ _ Hu).
  - eapply Hc, Hnc; [done|]. apply elem_of_app; left.
    exact (elem_of_map_lookup (fun p => (inNetLink p, ConsNI (ni_id r))) _ _ _ Hu).
  - eapply Hs, Hns; [done|]. apply elem_of_app; left.
    exact (elem_of_imap_lookup (fun i p => (outCreditLink p, QNICredit (ni_id r) (Z.of_nat i))) _ _ _ Hu).
  - eapply Hs, Hns; [done|]. apply elem_of_app; right.
    exact (elem_of_imap_lookup (fun i p => (outNetLink p, QNIOut (ni_id r) (Z.of_nat i))) _ _ _ Hu).
  - eapply Hc, Hnc; [done|]. apply elem_of_app; right.
    exact (elem_of_map_lookup (fun p => (inCreditLink p, ConsNI (ni_id r))) _ _ _ Hu).
Qed.

(** The links 1 (interface 0 to router 0) and 9 (router 0 to router 1) of the
    example. *)
Definition ex_line_build : Build :=
  {| bd_routers := ex_line_routers; bd_nis := ex_line_nis; bd_world := ex_link_store; m_networklinks := [];
     m_creditlinks := []; m_networkbridges := []; m_max_vcs_per_vnet := 0 |}.

Lemma construction_wires_witness :
  ∃ s r u, make_links ex_cfg ex_line_net ex_objects ex_requests ex_line_build = Ok s ∧
    bd_routers s !! 1%nat = Some r ∧ m_input_unit r !! 1%nat = Some u ∧ iu_in_link u = 9 ∧
    cons_at (bw_links (bd_world s)) 9 = Some (ConsRouter 1).
Proof.
  destruct (make_links ex_cfg ex_line_net ex_objects ex_requests ex_line_build) as [s|e] eqn:E;
    [|vm_compute in E; discriminate E].
  destruct (construction_wires ex_cfg ex_line_net ex_objects ex_requests ex_line_build s) as (Hin & _ & _ & _).
  - repeat constructor.
  - repeat constructor.
  - split; apply (bool_decide_unpack _); vm_compute; exact I.
  - exact E.
  - assert (∃ r u, bd_routers s !! 1%nat = Some r ∧ m_input_unit r !! 1%nat = Some u ∧ iu_in_link u = 9 ∧
      r_id (core r) = 1) as (r & u & Hr & Hu & Hl & Hid).
    { vm_compute in E. injection E as <-. eexists _, _. split; [reflexivity|].
      split; [reflexivity|]. split; reflexivity. }
    exists s, r, u. split; [reflexivity|]. split; [exact Hr|]. split; [exact Hu|]. split; [exact Hl|].
    destruct (Hin r 1%nat u) as [Hc _]; [by eapply list_elem_of_lookup_2|exact Hu|].
    rewrite Hl, Hid in Hc. exact Hc.
Defined.
