(* ===== verification/Provision.v ===== *)
(** * Construction provides the credits

    The network that the constructor and [init] build starts with every buffer
    empty and every sender holding as many credits as its receiver has places,
    and its links connect exactly the ports they were made for. With
    FlowControl.v this gives flow control for constructed networks: whatever
    happens after [init], no input buffer holds more flits than the configuration
    allows. *)

From S2P Require Import Prelude IntMath Clocked Consumer WakeupRing MessageBuffer NetDest Flit RoutingUnit VirtualChannel NetworkLink.
From S2P Require Import InputUnit OutputUnit SwitchAllocator Router RouterFrame Interleave GarnetNetwork Parallel CreditFlow NetworkInterface NiCredit NetworkBridge.
From S2P Require Import Conservation NiLedger Topology Construction Wiring Fabric FlowControl Ledger.

(** ** Invariants of construction *)

(** What the port functions and the bookkeeping keep, construction keeps. *)
Lemma make_links_inv (P : Build → Prop) cfg net objects :
  (∀ i d il cl s s', P s → add_router_in i d il cl s = Ok s' → P s') →
  (∀ i d ol rt wt cl v s s', P s → add_router_out cfg i d ol rt wt cl v s = Ok s' → P s') →
  (∀ i il cl s s', P s → add_ni_in i il cl s = Ok s' → P s') →
  (∀ i ol cl ri r v s s', P s → add_ni_out cfg i ol cl ri r v s = Ok s' → P s') →
  (∀ ty nl cl v s s', P s → record_link ty nl cl v s = Ok s' → P s') →
  (∀ b s, P s → P (record_bridge b s)) →
  ∀ reqs s s', P s → make_links cfg net objects reqs s = Ok s' → P s'.
Proof.
  intros Hri Hro Hni Hno Hrec Hbr reqs s s' Hs H. unfold make_links in H.
  eapply (fold_res_keeps P); [|exact Hs|exact H]. clear s s' Hs H.
  intros [src dest link rt|src dest link rt|src dest link rt o i] s s' _ Hs H; simpl in H.
  - unfold makeExtInLink in H.
    apply rbind_ok in H as (ls & _ & (_ & _ & (l & _ & (r & _ & (s1 & Hs1 & H)%rbind_ok)%rbind_ok)%rbind_ok)%rbind_ok).
    apply rbind_ok in H as ([[nl cl] br] & _ & (s2 & Hs2 & H)%rbind_ok). cbv zeta in H.
    apply rbind_ok in H as ([[nl2 cl2] br2] & _ & (s3 & Hs3 & [= <-])%rbind_ok). eauto 6.
  - unfold makeExtOutLink in H.
    apply rbind_ok in H as (ld & _ & (_ & _ & (_ & _ & (l & _ & (r & _ & (s1 & Hs1 & H)%rbind_ok)%rbind_ok)%rbind_ok)%rbind_ok)%rbind_ok).
    apply rbind_ok in H as ([[nl cl] br] & _ & (s2 & Hs2 & H)%rbind_ok). cbv zeta in H.
    apply rbind_ok in H as ([[nl2 cl2] br2] & _ & (s3 & Hs3 & [= <-])%rbind_ok). eauto 6.
  - unfold makeInternalLink in H.
    apply rbind_ok in H as (l & _ & (rd & _ & (rsr & _ & (s1 & Hs1 & H)%rbind_ok)%rbind_ok)%rbind_ok).
    apply rbind_ok in H as ([[nl cl] br] & _ & (s2 & Hs2 & H)%rbind_ok). cbv zeta in H.
    apply rbind_ok in H as ([[nl2 cl2] br2] & _ & (s3 & Hs3 & [= <-])%rbind_ok). eauto 6.
Qed.

(** ** Nothing sent yet *)

Definition no_flits (b : flitBuffer) : Prop := m_buffer b = [].

(** A counter with all its credits, as many as the configuration says. *)
Definition full_vc (cfg : NetConfig) (c : OutVcState) : Prop :=
  credit_inv c ∧ m_credit_count c = m_max_credit_count c ∧
  m_max_credit_count c ≤ Z.max (getBuffersPerDataVC cfg) (getBuffersPerCtrlVC cfg).

Definition idle_in (u : InputUnit) : Prop :=
  no_flits (creditQueue u) ∧ Forall (fun c => no_flits (inputBuffer c)) (virtualChannels u).
Definition idle_out (cfg : NetConfig) (o : OutputUnit) : Prop :=
  no_flits (outBuffer o) ∧ Forall (full_vc cfg) (outVcState o).
Definition idle_router (cfg : NetConfig) (r : Router) : Prop :=
  Forall idle_in (m_input_unit r) ∧ Forall (idle_out cfg) (m_output_unit r) ∧
  Forall no_flits (switchBuffers (crossbarSwitch r)).

(** Its counters of flits are zero. *)
Definition no_traffic (n : NetworkInterface) : Prop :=
  Forall (.= 0) (m_local_flits_injected (ni_stats n)) ∧ Forall (.= 0) (m_local_flits_received (ni_stats n)).

Definition idle_ni (cfg : NetConfig) (n : NetworkInterface) : Prop :=
  Forall (fun p => m_stall_queue p = [] ∧ no_flits (outCreditQueue p)) (inPorts n) ∧
  Forall (fun p => no_flits (outFlitQueue p)) (outPorts n) ∧
  Forall no_flits (niOutVcs n) ∧ Forall (full_vc cfg) (ni_outVcState n) ∧ no_traffic n.

Definition idle_links (ls : Links) : Prop := ∀ h l, ls !! h = Some l → no_flits (linkBuffer l).

(** All objects idle, and numbered by their positions. *)
Record idle_build (cfg : NetConfig) (s : Build) : Prop := {
  ib_routers i r : bd_routers s !! i = Some r → idle_router cfg r ∧ r_id (core r) = Z.of_nat i;
  ib_nis i n : bd_nis s !! i = Some n → idle_ni cfg n ∧ ni_id n = Z.of_nat i;
  ib_links : idle_links (bw_links (bd_world s))
}.

Lemma idle_upd h f ls ls' :
  (∀ l, linkBuffer (f l) = linkBuffer l) → upd_link_at h f ls = Ok ls' → idle_links ls → idle_links ls'.
Proof.
  intros Hf Hu Hi x l. rewrite (upd_link_lookup _ _ _ _ x Hu). case_decide as E; [|apply Hi].
  subst x. destruct (ls !! h) as [l0|] eqn:El; simpl; [|done]. intros [= <-]. unfold no_flits. rewrite Hf. by apply (Hi h).
Qed.

Ltac idle_chain :=
  repeat match goal with
  | H : upd_link_at _ _ ?l = Ok ?l', Hi : idle_links ?l |- _ =>
      assert (idle_links l') by (eapply idle_upd; [|exact H|exact Hi]; done); clear H
  end.

Lemma idle_virtual_vcs vcs h w w' : virtual_vcs vcs h w = Ok w' → idle_links (bw_links w) → idle_links (bw_links w').
Proof.
  unfold virtual_vcs. destruct (bw_bridges w !! h); [|by intros [= <-]].
  unfold bridge_setVcsPerVnet. intros H Hi. inv_res. idle_chain. done.
Qed.

(** The loop that makes the counters of a port. *)
Lemma new_vcs_full cfg n vpn l0 vcs :
  Forall (full_vc cfg) l0 →
  for_range 0 n (fun i vcs => let* o := new_OutVcState cfg i vpn in Ok (vcs ++ [o])) l0 = Ok vcs → Forall (full_vc cfg) vcs.
Proof.
  intros H0 H. apply (for_range_inv (fun _ => Forall (full_vc cfg))) in H; [done|done|].
  intros i t t' _ Ht (o & Ho & [= <-])%rbind_ok. apply Forall_app. split; [done|]. constructor; [|done].
  pose proof (new_OutVcState_inv _ _ _ _ Ho) as [Hinv Hmax]. split; [done|]. split; [done|].
  unfold new_OutVcState in Ho. apply rbind_ok in Ho as (ty & _ & (_ & _ & [= <-])%rbind_ok). simpl.
  destruct (bool_decide _); lia.
Qed.

Lemma addInPort_idle cfg d il cl r ls r' ls' :
  addInPort d il cl r ls = Ok (r', ls') → idle_router cfg r → idle_links ls →
  idle_router cfg r' ∧ r_id (core r') = r_id (core r) ∧ idle_links ls'.
Proof.
  unfold addInPort. intros (l & _ & H)%rbind_ok (Hi & Ho & Hx) Hl. destruct (negb _); [done|]. cbv zeta in H.
  apply rbind_ok in H as (ls1 & H1 & (ls2 & H2 & (ls3 & H3 & (ls4 & H4 & [= <- <-])%rbind_ok)%rbind_ok)%rbind_ok).
  idle_chain. split_and!; [|done|done]. split_and!; [|done|done]. simpl. apply Forall_app. split; [done|]. constructor; [|done].
  split; [done|]. by apply Forall_replicate.
Qed.

Lemma addOutPort_idle cfg d ol rt wt cl v r ls r' ls' :
  addOutPort cfg d ol rt wt cl v r ls = Ok (r', ls') → idle_router cfg r → idle_links ls →
  idle_router cfg r' ∧ r_id (core r') = r_id (core r) ∧ idle_links ls'.
Proof.
  unfold addOutPort. intros (l & _ & H)%rbind_ok (Hi & Ho & Hx) Hl. destruct (negb _); [done|]. cbv zeta in H.
  apply rbind_ok in H as (o & Hou & (ls1 & H1 & (ls2 & H2 & (ls3 & H3 & (ls4 & H4 & H)%rbind_ok)%rbind_ok)%rbind_ok)%rbind_ok).
  apply rbind_ok in H as (ru & _ & [= <- <-]). idle_chain.
  split_and!; [|done|done]. split_and!; [done| |done]. simpl. apply Forall_app. split; [done|]. constructor; [|done].
  unfold new_OutputUnit in Hou. apply rbind_ok in Hou as (vcs & Hv & [= <-]). split; [done|]. simpl.
  by eapply new_vcs_full.
Qed.

Lemma ni_addInPort_idle cfg il cl n ls n' ls' :
  ni_addInPort il cl n ls = Ok (n', ls') → idle_ni cfg n → idle_links ls →
  idle_ni cfg n' ∧ ni_id n' = ni_id n ∧ idle_links ls'.
Proof.
  unfold ni_addInPort. intros (l & _ & H)%rbind_ok (Hi & Ho & Hv & Hc & Hst) Hl. cbv zeta in H.
  assert (Forall (fun p => m_stall_queue p = [] ∧ no_flits (outCreditQueue p)) (inPorts n ++ [new_InputPort il cl l])) as Hp
    by (apply Forall_app; split; [done|]; by repeat constructor).
  apply rbind_ok in H as (ls1 & H1 & (ls2 & H2 & H)%rbind_ok). idle_chain.
  destruct (negb _); [|by injection H as <- <-].
  apply rbind_ok in H as (ls3 & H3 & (ls4 & H4 & [= <- <-])%rbind_ok). idle_chain. done.
Qed.

Lemma ni_addOutPort_idle cfg ol cl ri rt v n ls n' ls' :
  ni_addOutPort cfg ol cl ri rt v n ls = Ok (n', ls') → idle_ni cfg n → idle_links ls →
  idle_ni cfg n' ∧ ni_id n' = ni_id n ∧ idle_links ls'.
Proof.
  unfold ni_addOutPort. set (n1 := match ni_router n with None => _ | Some _ => _ end). intros H Hn Hl.
  assert (idle_ni cfg n1 ∧ ni_id n1 = ni_id n) as [(Hi & Ho & Hv & Hc & Hst) E1] by (unfold n1; by destruct (ni_router n)).
  clearbody n1. apply rbind_ok in H as (l & _ & H). cbv zeta in H. apply rbind_ok in H as (_ & _ & ([n2 ls2] & Hvc & H)%rbind_ok).
  assert (Forall (fun p => no_flits (outFlitQueue p)) (outPorts n1 ++ [new_OutputPort ol cl l ri])) as Hp
    by (apply Forall_app; split; [done|]; by repeat constructor).
  assert (idle_ni cfg n2 ∧ ni_id n2 = ni_id n ∧ idle_links ls2) as (Hn2 & E2 & Hl2).
  { destruct (Nat.eqb _ _).
    - apply rbind_ok in Hvc as (ovs & Hovs & Hvc). cbv zeta in Hvc. apply rbind_ok in Hvc as (ls3 & Hf & [= <- <-]).
      split_and!; [|done|].
      + split; [done|]. split; [done|]. split; [by apply Forall_replicate|]. split; [by eapply new_vcs_full|done].
      + eapply (fold_res_keeps idle_links); [|exact Hl|exact Hf].
        intros p t t' _ Ht (t1 & H1 & H2)%rbind_ok. idle_chain. done.
    - destruct (negb _); [done|]. by injection Hvc as <- <-. }
  apply rbind_ok in H as (ls3 & H3 & (ls4 & H4 & (ls5 & H5 & (ls6 & H6 & [= <- <-])%rbind_ok)%rbind_ok)%rbind_ok).
  idle_chain. done.
Qed.

Lemma lookup_vec_set {A} (l l' : list A) i x j y :
  vec_set l i x = Ok l' → l' !! j = Some y → (j = Z.to_nat i ∧ 0 ≤ i ∧ y = x) ∨ (j ≠ Z.to_nat i ∧ l !! j = Some y).
Proof.
  intros [Hr ->]%vec_set_ok Hj. destruct (decide (j = Z.to_nat i)) as [->|Hne].
  - rewrite list_lookup_insert_eq in Hj by lia. left. split_and!; [done|lia|congruence].
  - rewrite list_lookup_insert_ne in Hj by done. by right.
Qed.

(** A router, or an interface, is replaced by an idle one with the same number. *)
Lemma idle_set_router cfg s i r r' rs' w :
  idle_build cfg s → vec_get (bd_routers s) i = Ok r → idle_router cfg r' → r_id (core r') = r_id (core r) →
  vec_set (bd_routers s) i r' = Ok rs' → idle_links (bw_links w) → idle_build cfg (with_objects s rs' (bd_nis s) w).
Proof.
  intros [Hr Hn _] [Hi Hri]%vec_get_ok Hid Er Hs Hl. split; [|done|done].
  intros j x Hj. destruct (lookup_vec_set _ _ _ _ _ _ Hs Hj) as [(-> & _ & ->)|[_ Hx]]; [|by apply Hr].
  split; [done|]. rewrite Er. by apply Hr.
Qed.

Lemma idle_set_ni cfg s i n n' nis' w :
  idle_build cfg s → vec_get (bd_nis s) i = Ok n → idle_ni cfg n' → ni_id n' = ni_id n →
  vec_set (bd_nis s) i n' = Ok nis' → idle_links (bw_links w) → idle_build cfg (with_objects s (bd_routers s) nis' w).
Proof.
  intros [Hr Hn _] [Hi Hni]%vec_get_ok Hid Er Hs Hl. split; [done| |done].
  intros j x Hj. destruct (lookup_vec_set _ _ _ _ _ _ Hs Hj) as [(-> & _ & ->)|[_ Hx]]; [|by apply Hn].
  split; [done|]. rewrite Er. by apply Hn.
Qed.

Lemma idle_get_router cfg s i r : idle_build cfg s → vec_get (bd_routers s) i = Ok r → idle_router cfg r.
Proof. intros Hb [_ Hr]%vec_get_ok. by apply (ib_routers _ _ Hb) in Hr as [? _]. Qed.
Lemma idle_get_ni cfg s i n : idle_build cfg s → vec_get (bd_nis s) i = Ok n → idle_ni cfg n.
Proof. intros Hb [_ Hr]%vec_get_ok. by apply (ib_nis _ _ Hb) in Hr as [? _]. Qed.

Lemma make_links_idle cfg net objects reqs s s' :
  idle_build cfg s → make_links cfg net objects reqs s = Ok s' → idle_build cfg s'.
Proof.
  apply (make_links_inv (idle_build cfg)); clear.
  - intros i d il cl s s' Hb. unfold add_router_in. intros (r & Hr & ([r' ls] & Hadd & H)%rbind_ok)%rbind_ok.
    apply rbind_ok in H as (w1 & Hw1 & (w2 & Hw2 & (rs & Hs & [= <-])%rbind_ok)%rbind_ok).
    destruct (addInPort_idle cfg _ _ _ _ _ _ _ Hadd (idle_get_router _ _ _ _ Hb Hr) (ib_links _ _ Hb)) as (Hi & E & Hl).
    eapply idle_set_router; [done|done|done|done|done|]. by eapply idle_virtual_vcs, idle_virtual_vcs.
  - intros i d ol rt wt cl v s s' Hb. unfold add_router_out. intros (r & Hr & ([r' ls] & Hadd & H)%rbind_ok)%rbind_ok.
    apply rbind_ok in H as (w1 & Hw1 & (w2 & Hw2 & (rs & Hs & [= <-])%rbind_ok)%rbind_ok).
    destruct (addOutPort_idle _ _ _ _ _ _ _ _ _ _ _ Hadd (idle_get_router _ _ _ _ Hb Hr) (ib_links _ _ Hb)) as (Hi & E & Hl).
    eapply idle_set_router; [done|done|done|done|done|]. by eapply idle_virtual_vcs, idle_virtual_vcs.
  - intros i il cl s s' Hb. unfold add_ni_in. intros (n & Hn & ([n' ls] & Hadd & H)%rbind_ok)%rbind_ok. cbv zeta in H.
    apply rbind_ok in H as (w & Hw & (nis & Hs & [= <-])%rbind_ok).
    destruct (ni_addInPort_idle cfg _ _ _ _ _ _ Hadd (idle_get_ni _ _ _ _ Hb Hn) (ib_links _ _ Hb)) as (Hi & E & Hl).
    eapply idle_set_ni; [done|done|done|done|done|]. destruct (negb _); [|by injection Hw as <-].
    apply rbind_ok in Hw as (w1 & H1 & H2). by eapply idle_virtual_vcs, idle_virtual_vcs.
  - intros i ol cl ri r v s s' Hb. unfold add_ni_out. intros (n & Hn & ([n' ls] & Hadd & H)%rbind_ok)%rbind_ok. cbv zeta in H.
    apply rbind_ok in H as (w & Hw & (nis & Hs & [= <-])%rbind_ok).
    destruct (ni_addOutPort_idle _ _ _ _ _ _ _ _ _ _ Hadd (idle_get_ni _ _ _ _ Hb Hn) (ib_links _ _ Hb)) as (Hi & E & Hl).
    eapply idle_set_ni; [done|done|done|done|done|].
    refine (fold_res_keeps (fun w => idle_links (bw_links w)) _ _ _ _ _ _ Hw); [|exact Hl].
    intros h t t' _ Ht Hx. by eapply idle_virtual_vcs.
  - intros ty nl cl v s s' [Hr Hn Hl]. unfold record_link. intros (ls & Hu & [= <-])%rbind_ok.
    split; [done|done|]. simpl. eapply idle_upd; [|exact Hu|exact Hl]; done.
  - intros b s [Hr Hn Hl]. by destruct b.
Qed.

(** ** The first state *)

(** The system after [init]; the protocol's side is [w]. *)
Definition initial_system (n : GarnetNetwork) (b : Build) (w : World) : System :=
  {| y_net := n; y_nis := bd_nis b; y_bridges := bw_bridges (bd_world b); y_world := w |}.

Lemma vat_zero {A} (g : A → Z) l i : Forall (fun x => g x = 0) l → vat g l i = 0.
Proof.
  intros Hl. unfold vat. destruct (vec_get l i) as [x|] eqn:E; [|done]. apply vec_get_ok in E as [_ E].
  exact (Forall_lookup_1 _ _ _ _ Hl E).
Qed.

Lemma no_flits_count v b : no_flits b → vc_count v b = 0.
Proof. unfold no_flits, vc_count. by intros ->. Qed.

Lemma idle_in_held cfg v i r : idle_router cfg r → in_held v i r = 0.
Proof.
  intros (Hi & _ & _). apply vat_zero. eapply Forall_impl; [exact Hi|]. intros u [Hc Hv]. unfold iu_held.
  rewrite (no_flits_count _ _ Hc), vat_zero; [done|]. eapply Forall_impl; [exact Hv|]. intros c Hx. unfold buffered.
  by rewrite Hx.
Qed.

Lemma idle_out_held cfg v (o : nat) r :
  idle_router cfg r →
  out_held v (Z.of_nat o) r = match m_output_unit r !! o with Some u => vat m_credit_count (outVcState u) v | None => 0 end.
Proof.
  intros (_ & Ho & Hx). unfold out_held. rewrite vat_nat.
  assert (crossing v (Z.of_nat o) (crossbarSwitch r) = 0) as ->.
  { apply lsum_zero. eapply Forall_impl; [exact Hx|]. intros b Hb. by rewrite Hb. }
  destruct (m_output_unit r !! o) as [u|] eqn:E; [|done]. destruct (Forall_lookup_1 _ _ _ _ Ho E) as [Hb _].
  unfold ou_held. rewrite (no_flits_count _ _ Hb). lia.
Qed.

Lemma full_vcs_vat cfg l v : Forall (full_vc cfg) l → vat m_credit_count l v = vat m_max_credit_count l v.
Proof.
  intros Hl. unfold vat. destruct (vec_get l v) as [c|] eqn:E; [|done]. apply vec_get_ok in E as [_ E].
  by destruct (Forall_lookup_1 _ _ _ _ Hl E) as (_ & ? & _).
Qed.

(** The routers and interfaces of an idle system. *)
Record idle_system (cfg : NetConfig) (s : System) : Prop := {
  is_routers : Forall (idle_router cfg) (y_routers s);
  is_nis : Forall (idle_ni cfg) (y_nis s);
  is_links : idle_links (y_links s)
}.

Lemma idle_vcs cfg s e : idle_system cfg s → Forall (full_vc cfg) (sender_vcs e s).
Proof.
  intros [Hr Hn _]. destruct e as [id p|id]; simpl.
  - destruct (y_routers s !! id) as [r|] eqn:E; simpl; [|done]. destruct (Forall_lookup_1 _ _ _ _ Hr E) as (_ & Ho & _).
    destruct (m_output_unit r !! p) as [o|] eqn:E'; [|done]. by destruct (Forall_lookup_1 _ _ _ _ Ho E') as [_ ?].
  - destruct (y_nis s !! id) as [n|] eqn:E; [|done]. by destruct (Forall_lookup_1 _ _ _ _ Hn E) as (_ & _ & _ & ? & _).
Qed.

Lemma idle_total cfg v H s : idle_system cfg s → hop_total v H s = capacity v (hop_from H) s.
Proof.
  intros Hs. pose proof Hs as [Hr Hn Hl]. unfold hop_total, capacity. rewrite <-(full_vcs_vat cfg) by by apply idle_vcs.
  assert (∀ h, on_link v h (y_links s) = 0) as El.
  { intros h. unfold on_link. destruct (y_links s !! h) as [l|] eqn:E; [|done]. by apply no_flits_count, (Hl h). }
  rewrite !El. assert (receiver_held v (hop_to H) s = 0) as ->.
  { destruct (hop_to H) as [id p|id p]; simpl; apply vat_zero.
    - eapply Forall_impl; [exact Hr|]. intros r Hx. by eapply idle_in_held.
    - eapply Forall_impl; [exact Hn|]. intros n (Hi & _). unfold ni_in_held. apply vat_zero.
      eapply Forall_impl; [exact Hi|]. intros p0 [Hq Hc]. unfold ip_held. by rewrite Hq, (no_flits_count _ _ Hc). }
  assert (sender_held v (hop_from H) s = vat m_credit_count (sender_vcs (hop_from H) s) v) as ->; [|lia].
  assert (vat m_credit_count [] v = 0) as Enil by (unfold vat, vec_get; by destruct (0 <=? v); rewrite ?lookup_nil).
  destruct (hop_from H) as [id p|id]; simpl; rewrite vat_nat.
  - destruct (y_routers s !! id) as [r|] eqn:E; simpl; [|done]. pose proof (Forall_lookup_1 _ _ _ _ Hr E) as Hi.
    rewrite (idle_out_held cfg) by done. by destruct (m_output_unit r !! p).
  - destruct (y_nis s !! id) as [n|] eqn:E; [|done]. destruct (Forall_lookup_1 _ _ _ _ Hn E) as (_ & Ho & _).
    unfold ni_out_held. rewrite lsum_zero; [lia|]. eapply Forall_impl; [exact Ho|]. intros q Hq. by apply no_flits_count.
Qed.

Lemma idle_tagged cfg s : idle_system cfg s → all_tagged s.
Proof.
  intros [_ Hn _]. eapply Forall_impl; [exact Hn|]. intros n (_ & _ & Hv & _) vc b [_ Hb]%vec_get_ok.
  pose proof (Forall_lookup_1 _ _ _ _ Hv Hb) as Hx. unfold no_flits in Hx. by rewrite Hx.
Qed.

(** ** Constructed connections *)

Lemma elem_of_concat_imap {A B} (f : nat → A → list B) l x :
  x ∈ concat (imap f l) ↔ ∃ i a, l !! i = Some a ∧ x ∈ f i a.
Proof.
  revert f. induction l as [|a l IH]; intros f; simpl; [split; [by intros ?%elem_of_nil|by intros (i & b & ? & _)]|].
  rewrite elem_of_app, (IH (f ∘ S)). split.
  - intros [Hx|(i & b & Hb & Hx)]; [by exists 0%nat, a|by exists (S i), b].
  - intros ([|i] & b & Hb & Hx); simplify_eq/=; [by left|right; eauto].
Qed.

Lemma elem_of_imap_pair {A B C} (g : nat → A → B) (k : A → C) l x c :
  (x, c) ∈ imap (fun p a => (g p a, k a)) l ↔ ∃ p a, l !! p = Some a ∧ x = g p a ∧ c = k a.
Proof.
  rewrite list_elem_of_lookup. setoid_rewrite list_lookup_imap. split.
  - intros (p & Hp). destruct (l !! p) as [a|] eqn:E; [|done]. simplify_eq/=. eauto.
  - intros (p & a & Hp & -> & ->). exists p. by rewrite Hp.
Qed.

(** Who reads which link, as a list. *)
Definition router_readers (id : nat) (r : Router) : list (reader * Z) :=
  imap (fun p h => (ReadIn id p, h)) (in_links r) ++ imap (fun p h => (ReadCredit id p, h)) (in_credits r).
Definition ni_readers (id : nat) (n : NetworkInterface) : list (reader * Z) :=
  imap (fun p h => (ReadNIIn id p, h)) (ni_in_links n) ++ imap (fun p h => (ReadNICredit id p, h)) (ni_in_credits n).
Definition all_readers (s : System) : list (reader * Z) :=
  concat (imap router_readers (y_routers s)) ++ concat (imap ni_readers (y_nis s)).

Lemma snd_imap {B} (g : nat → B) (l : list Z) : map snd (imap (fun p h => (g p, h)) l) = l.
Proof. revert g. induction l as [|h l IH]; intros g; simpl; [done|]. f_equal. apply (IH (g ∘ S)). Qed.

Lemma snd_concat_imap {A B} (f : nat → A → list (B * Z)) (g : A → list Z) l :
  (∀ i a, map snd (f i a) = g a) → map snd (concat (imap f l)) = concat (map g l).
Proof.
  intros Hf. revert f Hf. induction l as [|a l IH]; intros f Hf; simpl; [done|].
  rewrite map_app, Hf. f_equal. apply IH. intros i b. apply Hf.
Qed.

Lemma reads_elem s x h : (∀ h', x ≠ ReadLink h') → reads s x h → (x, h) ∈ all_readers s.
Proof.
  intros Hx Hr. unfold all_readers. rewrite elem_of_app, !elem_of_concat_imap.
  destruct x as [id p|id p|id p|id p|h']; simpl in Hr; [..|by destruct (Hx h')];
    unfold port_of in Hr; change (map ?f ?l) with (f <$> l) in Hr; rewrite list_lookup_fmap in Hr;
    [destruct (y_routers s !! id) as [a|] eqn:E|destruct (y_routers s !! id) as [a|] eqn:E
    |destruct (y_nis s !! id) as [a|] eqn:E|destruct (y_nis s !! id) as [a|] eqn:E]; try done; simpl in Hr;
    [left|left|right|right]; exists id, a; (split; [done|]); unfold router_readers, ni_readers; rewrite elem_of_app;
    [left|right|left|right]; apply (elem_of_imap_pair (fun p _ => _ id p) (fun h => h)); eauto.
Qed.

Lemma all_readers_handles s :
  map snd (all_readers s) =
  concat (map (fun r => in_links r ++ in_credits r) (y_routers s)) ++
  concat (map (fun n => ni_in_links n ++ ni_in_credits n) (y_nis s)).
Proof.
  unfold all_readers. rewrite map_app. f_equal; apply snd_concat_imap; intros i a;
    unfold router_readers, ni_readers; by rewrite map_app, !snd_imap.
Qed.

Lemma reads_unique s x y h :
  NoDup (map snd (all_readers s)) → (x, h) ∈ all_readers s → (y, h) ∈ all_readers s → x = y.
Proof.
  intros Hnd [i Hi]%list_elem_of_lookup [j Hj]%list_elem_of_lookup.
  assert (i = j) as ->; [|congruence]. change (map snd ?l) with (snd <$> l) in Hnd.
  apply (NoDup_lookup _ i j h Hnd); rewrite list_lookup_fmap; [by rewrite Hi|by rewrite Hj].
Qed.

Lemma cons_handles b :
  map fst (all_cons b) =
  concat (map (fun r => in_links r ++ in_credits r) (bd_routers b)) ++
  concat (map (fun n => ni_in_links n ++ ni_in_credits n) (bd_nis b)).
Proof.
  unfold all_cons. rewrite map_app, !concat_map, !map_map. f_equal; f_equal; apply map_ext; intros a;
    unfold router_cons, ni_cons; by rewrite map_app, !map_map.
Qed.

(** The two ports of a hop use its two links. *)
Definition sends_on (e : sender) (h c : Z) (b : Build) : Prop :=
  match e with
  | FromRouter id p => ∃ r o, bd_routers b !! id = Some r ∧ m_output_unit r !! p = Some o ∧
                         ou_out_link o = h ∧ ou_credit_link o = c
  | FromNI id => ∃ n o, bd_nis b !! id = Some n ∧ outPorts n = [o] ∧ outNetLink o = h ∧ inCreditLink o = c
  end.
Definition receives_on (e : receiver) (h c : Z) (b : Build) : Prop :=
  match e with
  | ToRouter id p => ∃ r u, bd_routers b !! id = Some r ∧ m_input_unit r !! p = Some u ∧
                       iu_in_link u = h ∧ iu_credit_link u = c
  | ToNI id p => ∃ n i, bd_nis b !! id = Some n ∧ inPorts n !! p = Some i ∧ inNetLink i = h ∧ outCreditLink i = c
  end.

(** No bridge at the link: it is none, and no link reads its buffer. *)
Definition unbridged (h : Z) (b : Build) : Prop :=
  (h ∉ dom (bw_bridges (bd_world b))) ∧ ∀ h', srcs_at (bw_links (bd_world b)) h' ≠ Some (QLink h).

Record hop_made (H : Hop) (b : Build) : Prop := {
  hm_sends : sends_on (hop_from H) (hop_link H) (hop_credit H) b;
  hm_receives : receives_on (hop_to H) (hop_link H) (hop_credit H) b;
  hm_link : unbridged (hop_link H) b;
  hm_credit : unbridged (hop_credit H) b
}.

Lemma elem_of_concat_map_iff {A B} (f : A → list B) l x : x ∈ concat (map f l) ↔ ∃ i a, l !! i = Some a ∧ x ∈ f a.
Proof.
  split.
  - rewrite list_elem_of_In, in_concat. intros (m & (a & <- & Ha%list_elem_of_In%list_elem_of_lookup)%in_map_iff & Hx%list_elem_of_In).
    destruct Ha as [i Hi]. eauto.
  - intros (i & a & Hi & Hx). eapply elem_of_concat_map; [by eapply list_elem_of_lookup_2|done].
Qed.

(** The queues that ports offer, and the links meant to read them. *)
Lemma all_srcs_elem b h q :
  (h, q) ∈ all_srcs b ↔
  match q with
  | QRouterCredit id p' => ∃ i r p u, bd_routers b !! i = Some r ∧ m_input_unit r !! p = Some u ∧
      r_id (core r) = id ∧ p' = Z.of_nat p ∧ iu_credit_link u = h
  | QRouterOut id p' => ∃ i r p o, bd_routers b !! i = Some r ∧ m_output_unit r !! p = Some o ∧
      r_id (core r) = id ∧ p' = Z.of_nat p ∧ ou_out_link o = h
  | QNICredit id p' => ∃ i n p u, bd_nis b !! i = Some n ∧ inPorts n !! p = Some u ∧
      ni_id n = id ∧ p' = Z.of_nat p ∧ outCreditLink u = h
  | QNIOut id p' => ∃ i n p o, bd_nis b !! i = Some n ∧ outPorts n !! p = Some o ∧
      ni_id n = id ∧ p' = Z.of_nat p ∧ outNetLink o = h
  | QLink _ => False
  end.
Proof.
  unfold all_srcs. rewrite elem_of_app, !elem_of_concat_map_iff.
  assert (∀ A (k : A → Z) (g : nat → queue_ref) l, (h, q) ∈ imap (fun p u => (k u, g p)) l ↔
            ∃ p u, l !! p = Some u ∧ h = k u ∧ q = g p) as Hi.
  { intros A k g l. rewrite list_elem_of_lookup. setoid_rewrite list_lookup_imap. split.
    - intros (p & Hp). destruct (l !! p) as [a|] eqn:E; [|done]. simplify_eq/=. eauto.
    - intros (p & a & Hp & -> & ->). exists p. by rewrite Hp. }
  unfold router_srcs, ni_srcs. setoid_rewrite elem_of_app. setoid_rewrite Hi. clear Hi. split.
  - intros [(i & r & Hr & [(p & u & Hp & -> & ->)|(p & u & Hp & -> & ->)])|(i & r & Hr & [(p & u & Hp & -> & ->)|(p & u & Hp & -> & ->)])];
      eauto 12.
  - destruct q as [id p'|id p'|id p'|id p'|h']; [..|done]; intros (i & r & p & u & Hr & Hp & <- & -> & <-);
      [left|left|right|right]; exists i, r; (split; [done|]); [right|left|right|left]; eauto.
Qed.

Section made.
Context (cfg : NetConfig) (b : Build) (ls0 : Links) (P : list (Z * Z)) (s : System) (H : Hop).
Hypothesis Hwired : wired ls0 P b.
Hypothesis Hfresh : fresh P.
Hypothesis Hbase : ∀ h q, srcs_at ls0 h = Some q → ∃ x, q = QLink x.
Hypothesis Hnumber : idle_build cfg b.
Hypothesis Hmade : hop_made H b.
Hypothesis Hin : map in_links (y_routers s) = map in_links (bd_routers b).
Hypothesis Hcr : map in_credits (y_routers s) = map in_credits (bd_routers b).
Hypothesis Hnis : y_nis s = bd_nis b.
Hypothesis Hlinks : y_links s = bw_links (bd_world b).
Hypothesis Hbridges : y_bridges s = bw_bridges (bd_world b).

Lemma readers_distinct : NoDup (map snd (all_readers s)).
Proof using Hwired Hfresh Hin Hcr Hnis.
  rewrite all_readers_handles, Hnis.
  assert (map (fun r => in_links r ++ in_credits r) (y_routers s) = map (fun r => in_links r ++ in_credits r) (bd_routers b)) as ->.
  { apply list_eq. intros i. change (map ?f ?l) with (f <$> l) in *. rewrite !list_lookup_fmap.
    pose proof (f_equal (.!! i) Hin) as E1. pose proof (f_equal (.!! i) Hcr) as E2.
    rewrite !list_lookup_fmap in E1, E2. destruct (y_routers s !! i), (bd_routers b !! i); simplify_eq/=; congruence. }
  rewrite <-cons_handles. destruct Hwired as [_ _ _ Hp _]. rewrite Hp. apply Hfresh.
Qed.

(** The link of a queue is the one of the port. *)
Lemma router_at id r r' i : bd_routers b !! id = Some r → bd_routers b !! i = Some r' → r_id (core r') = Z.of_nat id → r' = r.
Proof using Hnumber.
  intros Hr Hr' E. pose proof (ib_routers _ _ Hnumber _ _ Hr') as [_ E']. assert (i = id) as -> by lia. congruence.
Qed.
Lemma ni_at id n n' i : bd_nis b !! id = Some n → bd_nis b !! i = Some n' → ni_id n' = Z.of_nat id → n' = n.
Proof using Hnumber.
  intros Hr Hr' E. pose proof (ib_nis _ _ Hnumber _ _ Hr') as [_ E']. assert (i = id) as -> by lia. congruence.
Qed.

Lemma source_unique h q :
  srcs_at (bw_links (bd_world b)) h = Some q → flits_of (hop_from H) q = true ↔ h = hop_link H.
Proof using Hwired Hbase Hnumber Hmade.
  intros Hat. destruct Hmade as [Hs _ _ _]. split.
  - intros Hf. assert ((h, q) ∈ all_srcs b) as Hq.
    { destruct (wired_only _ _ _ Hwired h q Hat) as [?|Hx]; [done|]. apply Hbase in Hx as [x ->]. by destruct (hop_from H). }
    apply all_srcs_elem in Hq. destruct (hop_from H) as [id p|id]; destruct q; try done; simpl in Hf.
    + apply andb_true_iff in Hf as [Ei%Z.eqb_eq Ep%Z.eqb_eq]. destruct Hs as (r0 & o0 & Hr0 & Ho0 & <- & _).
      destruct Hq as (i & r & p' & o & Hr & Ho & E1 & E2 & <-).
      assert (r = r0) as -> by (eapply router_at; [exact Hr0|exact Hr|lia]). assert (p' = p) as -> by lia. congruence.
    + apply Z.eqb_eq in Hf. destruct Hs as (n0 & o0 & Hn0 & Ho0 & <- & _).
      destruct Hq as (i & n & p' & o & Hn & Ho & E1 & E2 & <-).
      assert (n = n0) as -> by (eapply ni_at; [exact Hn0|exact Hn|lia]). rewrite Ho0 in Ho.
      by apply list_lookup_singleton_Some in Ho as [_ ->].
  - intros ->. destruct (hop_from H) as [id p|id]; simpl in Hs.
    + destruct Hs as (r & o & Hr & Ho & E & _). pose proof (ib_routers _ _ Hnumber _ _ Hr) as [_ Eid].
      assert ((hop_link H, QRouterOut (Z.of_nat id) (Z.of_nat p)) ∈ all_srcs b) as Hq
        by (apply all_srcs_elem; exists id, r, p, o; auto).
      apply (wired_srcs _ _ _ Hwired) in Hq. rewrite Hat in Hq. injection Hq as ->. simpl. by rewrite !Z.eqb_refl.
    + destruct Hs as (n & o & Hn & Ho & E & _). pose proof (ib_nis _ _ Hnumber _ _ Hn) as [_ Eid].
      assert ((hop_link H, QNIOut (Z.of_nat id) (Z.of_nat 0)) ∈ all_srcs b) as Hq
        by (apply all_srcs_elem; exists id, n, 0%nat, o; rewrite Ho; auto).
      apply (wired_srcs _ _ _ Hwired) in Hq. rewrite Hat in Hq. injection Hq as ->. simpl. by rewrite Z.eqb_refl.
Qed.

Lemma back_unique h q :
  srcs_at (bw_links (bd_world b)) h = Some q → credits_of (hop_to H) q = true ↔ h = hop_credit H.
Proof using Hwired Hbase Hnumber Hmade.
  intros Hat. destruct Hmade as [_ Hs _ _]. split.
  - intros Hf. assert ((h, q) ∈ all_srcs b) as Hq.
    { destruct (wired_only _ _ _ Hwired h q Hat) as [?|Hx]; [done|]. apply Hbase in Hx as [x ->]. by destruct (hop_to H). }
    apply all_srcs_elem in Hq. destruct (hop_to H) as [id p|id p]; destruct q; try done; simpl in Hf;
      apply andb_true_iff in Hf as [Ei%Z.eqb_eq Ep%Z.eqb_eq]; destruct Hs as (r0 & o0 & Hr0 & Ho0 & _ & <-);
      destruct Hq as (i & r & p' & o & Hr & Ho & E1 & E2 & <-); assert (p' = p) as -> by lia.
    + assert (r = r0) as -> by (eapply router_at; [exact Hr0|exact Hr|lia]). congruence.
    + assert (r = r0) as -> by (eapply ni_at; [exact Hr0|exact Hr|lia]). congruence.
  - intros ->. destruct (hop_to H) as [id p|id p]; simpl in Hs; destruct Hs as (r & o & Hr & Ho & _ & E).
    + pose proof (ib_routers _ _ Hnumber _ _ Hr) as [_ Eid].
      assert ((hop_credit H, QRouterCredit (Z.of_nat id) (Z.of_nat p)) ∈ all_srcs b) as Hq
        by (apply all_srcs_elem; exists id, r, p, o; auto).
      apply (wired_srcs _ _ _ Hwired) in Hq. rewrite Hat in Hq. injection Hq as ->. simpl. by rewrite !Z.eqb_refl.
    + pose proof (ib_nis _ _ Hnumber _ _ Hr) as [_ Eid].
      assert ((hop_credit H, QNICredit (Z.of_nat id) (Z.of_nat p)) ∈ all_srcs b) as Hq
        by (apply all_srcs_elem; exists id, r, p, o; auto).
      apply (wired_srcs _ _ _ Hwired) in Hq. rewrite Hat in Hq. injection Hq as ->. simpl. by rewrite !Z.eqb_refl.
Qed.

Lemma hop_made_wired : hop_wired H s.
Proof using Hwired Hfresh Hbase Hnumber Hmade Hin Hcr Hnis Hlinks Hbridges.
  pose proof readers_distinct as Hnd. destruct Hmade as [Hse Hre [Hd1 Hl1] [Hd2 Hl2]].
  assert (∀ x y h, (∀ h', x ≠ ReadLink h') → (∀ h', srcs_at (bw_links (bd_world b)) h' ≠ Some (QLink h)) →
            reads s x h → reads s y h ↔ y = x) as Hiff.
  { intros x y h Hx Hno Hr. split; [|by intros ->]. intros Hy.
    assert (∀ h', y ≠ ReadLink h') as Hny by (intros h' ->; simpl in Hy; rewrite Hlinks in Hy; by eapply Hno).
    eapply reads_unique; [exact Hnd|by apply reads_elem|by apply reads_elem]. }
  split.
  - intros x. apply Hiff; [by destruct (hop_to H)|done|]. destruct (hop_to H) as [id p|id p]; simpl in *.
    + destruct Hre as (r & u & Hr & Hu & <- & _). rewrite Hin, (port_of_map in_links _ _ _ _ Hr).
      unfold in_links. change (map ?f ?l) with (f <$> l). by rewrite list_lookup_fmap, Hu.
    + destruct Hre as (n & u & Hr & Hu & <- & _). rewrite Hnis, (port_of_map ni_in_links _ _ _ _ Hr).
      unfold ni_in_links. change (map ?f ?l) with (f <$> l). by rewrite list_lookup_fmap, Hu.
  - intros x. apply Hiff; [by destruct (hop_from H)|done|]. destruct (hop_from H) as [id p|id]; simpl in *.
    + destruct Hse as (r & u & Hr & Hu & _ & <-). rewrite Hcr, (port_of_map in_credits _ _ _ _ Hr).
      unfold in_credits. change (map ?f ?l) with (f <$> l). by rewrite list_lookup_fmap, Hu.
    + destruct Hse as (n & u & Hr & Hu & _ & <-). rewrite Hnis, (port_of_map ni_in_credits _ _ _ _ Hr).
      unfold ni_in_credits. by rewrite Hu.
  - intros h q. rewrite Hlinks. apply source_unique.
  - intros h q. rewrite Hlinks. apply back_unique.
  - destruct (hop_from H) as [id p|id]; [done|]. simpl in Hse. destruct Hse as (n & u & Hr & Hu & _ & <-).
    rewrite Hnis. change (map ?f ?l) with (f <$> l). rewrite list_lookup_fmap, Hr. simpl. unfold ni_in_credits. by rewrite Hu.
  - by rewrite Hbridges.
Qed.

End made.

(** ** Properties *)

(** The objects before [init]: routers and interfaces fresh from their
    constructors and numbered in order, links without flits whose sources, if
    set, are bridges or links. *)
Definition new_routers (rs : list Router) : Prop :=
  ∀ i r, rs !! i = Some r → ∃ latency vnets vcs width, r = new_Router (Z.of_nat i) latency vnets vcs width.
Definition new_interfaces (nis : list NetworkInterface) : Prop :=
  ∀ i n, nis !! i = Some n → ∃ vnets threshold, n = new_NetworkInterface (Z.of_nat i) vnets threshold.
Definition new_links (ls : Links) : Prop :=
  idle_links ls ∧ ∀ h q, srcs_at ls h = Some q → ∃ x, q = QLink x.

Lemma add_nodes_fresh net nis nis' (P : nat → NetworkInterface → Prop) :
  (∀ i n ins outs, P i n → P i (addNode ins outs n)) → (∀ i n, nis !! i = Some n → P i n) →
  add_nodes net nis = Ok nis' → ∀ i n, nis' !! i = Some n → P i n.
Proof.
  intros Hadd H0 H. unfold add_nodes in H.
  refine (fold_res_keeps (fun l => ∀ i n, l !! i = Some n → P i n) _ _ _ _ _ H0 H).
  intros k t t' _ Ht (ins & _ & (outs & _ & Hu)%rbind_ok)%rbind_ok i n Hn.
  unfold vec_upd in Hu. apply rbind_ok in Hu as (n0 & [_ Hn0]%vec_get_ok & Hu). cbn [rbind] in Hu.
  destruct (lookup_vec_set _ _ _ _ _ _ Hu Hn) as [(-> & _ & ->)|[_ Hx]]; [by apply Hadd, Ht|by apply Ht].
Qed.

Lemma new_router_idle cfg r i latency vnets vcs width : r = new_Router i latency vnets vcs width → idle_router cfg r.
Proof. intros ->. by repeat constructor. Qed.

Lemma router_init_idle cfg r : idle_router cfg r → idle_router cfg (router_init r).
Proof.
  intros (Hi & Ho & Hx). split_and!; [done|done|]. simpl. unfold resize_vec. apply Forall_app.
  split; [by apply Forall_take|]. by apply Forall_replicate.
Qed.

Lemma new_ni_idle cfg i vnets threshold : idle_ni cfg (new_NetworkInterface i vnets threshold).
Proof. repeat split; simpl; try constructor; by apply Forall_replicate. Qed.

(** The network that [init] builds: wired, idle, and with its routers initialised. *)
Record built (cfg : NetConfig) (ls0 : Links) (plug : list (Z * Z)) (n : GarnetNetwork) (b : Build) : Prop := {
  bt_wired : wired ls0 plug b;
  bt_idle : idle_build cfg b;
  bt_routers : m_routers n = map router_init (bd_routers b);
  bt_links : n_links n = bw_links (bd_world b)
}.

Lemma init_built env cfg net objects reqs nis bw cs num_threads hw routers n0 n b dims :
  new_routers routers → new_interfaces nis → idle_links (bw_links bw) →
  fresh (concat (map (plugs objects) reqs)) →
  new_GarnetNetwork num_threads hw routers = Ok n0 →
  network_init env cfg net objects reqs nis bw cs n0 = Ok (n, b, dims) →
  built cfg (bw_links bw) (concat (map (plugs objects) reqs)) n b.
Proof.
  intros Hr Hn Hl Hf Hnew Hinit. unfold network_init in Hinit.
  apply rbind_ok in Hinit as (nis' & Hnodes & (b1 & Hmake & (dims' & _ & [= <- <- _])%rbind_ok)%rbind_ok).
  assert (m_routers n0 = routers) as E0.
  { unfold new_GarnetNetwork in Hnew. apply rbind_ok in Hnew as (_ & _ & (masks & _ & [= <-])%rbind_ok). done. }
  rewrite E0 in Hmake. clear Hnew.
  set (b0 := {| bd_routers := routers; bd_nis := nis'; bd_world := bw |}) in Hmake.
  split; [| |done|done].
  - apply (make_links_wired _ _ _ _ _ _ (bw_links bw) []) in Hmake; [done| |done]. apply (unconnected_wired b0).
    + apply Forall_lookup. intros i r Hi. apply Hr in Hi as (la & vn & vc & wd & ->). done.
    + apply Forall_lookup.
      refine (add_nodes_fresh net nis nis' (fun _ n => ni_unconnected n) _ _ Hnodes); [done|].
      intros i m Hi. apply Hn in Hi as (vn & th & ->). done.
  - eapply make_links_idle; [|exact Hmake]. split; [| |done].
    + intros i r Hi. apply Hr in Hi as (la & vn & vc & wd & ->). split; [by eapply new_router_idle|done].
    + refine (add_nodes_fresh net nis nis' (fun i n => idle_ni cfg n ∧ ni_id n = Z.of_nat i) _ _ Hnodes); [done|].
      intros i m Hi. apply Hn in Hi as (vn & th & ->). split; [by apply new_ni_idle|done].
Qed.

(** The network after [init] is idle, and its hops are wired. *)
Lemma built_idle cfg ls0 plug n b w : built cfg ls0 plug n b → idle_system cfg (initial_system n b w).
Proof.
  intros [_ Hidle Er El]. split; simpl.
  - change (y_routers (initial_system n b w)) with (m_routers n). rewrite Er. apply Forall_lookup. intros i r Hi.
    change (map ?f ?l) with (f <$> l) in Hi. apply list_lookup_fmap_Some in Hi as (r0 & -> & Hi).
    apply router_init_idle. by apply (ib_routers _ _ Hidle) in Hi as [? _].
  - apply Forall_lookup. intros i m Hi. by apply (ib_nis _ _ Hidle) in Hi as [? _].
  - change (y_links (initial_system n b w)) with (n_links n). rewrite El. apply (ib_links _ _ Hidle).
Qed.

Lemma built_ready cfg ls0 plug n b w H v :
  built cfg ls0 plug n b → fresh plug → (∀ h q, srcs_at ls0 h = Some q → ∃ x, q = QLink x) → hop_made H b →
  hop_ready v H (initial_system n b w).
Proof.
  intros Hb Hf Hbase Hm. pose proof (built_idle _ _ _ _ _ w Hb) as Hs. destruct Hb as [Hw Hidle Er El].
  split; [|by eapply idle_tagged| |by eapply idle_total].
  - apply (hop_made_wired cfg b ls0 plug); try done;
      change (y_routers (initial_system n b w)) with (m_routers n); rewrite Er; by rewrite map_map.
  - eapply Forall_impl; [by eapply idle_vcs|]. by intros c [? _].
Qed.

Lemma idle_capacity cfg v e s :
  idle_system cfg s → capacity v e s ≤ Z.max 0 (Z.max (getBuffersPerDataVC cfg) (getBuffersPerCtrlVC cfg)).
Proof.
  intros Hs. pose proof (idle_vcs cfg s e Hs) as Hall. unfold capacity, vat.
  destruct (vec_get (sender_vcs e s) v) as [c|] eqn:E; [|lia]. apply vec_get_ok in E as [_ E].
  destruct (Forall_lookup_1 _ _ _ _ Hall E) as (_ & _ & ?). lia.
Qed.

(** Nothing is on its way in an idle system, and nothing has been counted. *)
Lemma no_flits_weight p b : no_flits b → bcount p b = 0.
Proof. unfold no_flits, bcount. by intros ->. Qed.

Lemma idle_weight cfg p s : idle_system cfg s → sys_count p s = 0.
Proof.
  intros [Hr Hn Hl]. unfold sys_count.
  rewrite (lsum_zero (router_count p)), (lsum_zero (ni_count p)); [| |].
  - unfold links_count. rewrite lsum_zero; [done|]. apply Forall_forall. intros [h l] Hin%elem_of_map_to_list.
    by apply no_flits_weight, (Hl h).
  - eapply Forall_impl; [exact Hn|]. intros n (Hi & Ho & Hv & _). unfold ni_count. rewrite !lsum_zero; [done| | |].
    + eapply Forall_impl; [exact Hi|]. intros i [Hq Hc]. unfold ip_count. by rewrite Hq, (no_flits_weight p _ Hc).
    + eapply Forall_impl; [exact Ho|]. intros o. apply no_flits_weight.
    + eapply Forall_impl; [exact Hv|]. intros b. apply no_flits_weight.
  - eapply Forall_impl; [exact Hr|]. intros r (Hi & Ho & Hx). unfold router_count. rewrite !lsum_zero; [done| | |].
    + eapply Forall_impl; [exact Ho|]. intros o [Hb _]. by apply no_flits_weight.
    + eapply Forall_impl; [exact Hx|]. intros b. apply no_flits_weight.
    + eapply Forall_impl; [exact Hi|]. intros u [Hc Hv]. unfold iu_count. rewrite (no_flits_weight p _ Hc), lsum_zero; [done|].
      eapply Forall_impl; [exact Hv|]. intros c. apply no_flits_weight.
Qed.

Lemma idle_statistics cfg v s : idle_system cfg s → flits_injected v s = 0 ∧ flits_received v s = 0.
Proof.
  intros [_ Hn _]. split; apply lsum_zero; (eapply Forall_impl; [exact Hn|]); intros n (_ & _ & _ & _ & Hi & Hr);
    by apply vat_zero.
Qed.

(** Without bridges, links read from ports only. *)
Lemma built_plain cfg ls0 plug n b w :
  built cfg ls0 plug n b → (∀ h, srcs_at ls0 h = None) → dom (bw_bridges (bd_world b)) = ∅ → plain (initial_system n b w).
Proof.
  intros [Hw _ _ El] Hbase Hb. split; [done|]. intros h x.
  change (y_links (initial_system n b w)) with (n_links n). rewrite El. intros Hat.
  destruct (wired_only _ _ _ Hw h (QLink x) Hat) as [Hq|Hq]; [by apply all_srcs_elem in Hq|]. by rewrite Hbase in Hq.
Qed.
