(* ===== verification/Simulation.v ===== *)
(** * Running the network

    [sys_step] leaves open which event is served next and how a parallel region
    interleaves. Here is one execution of it that evaluates: the earliest event
    first, on one thread. It is used to run a small network from its construction
    to the delivery of a message, and the theorems on flow control are applied to
    that run. *)

From S2P Require Import Prelude IntMath Clocked Consumer WakeupRing MessageBuffer NetDest Flit RoutingUnit VirtualChannel NetworkLink.
From S2P Require Import InputUnit OutputUnit SwitchAllocator Router RouterFrame Interleave GarnetNetwork Parallel CreditFlow NetworkInterface NiCredit NetworkBridge.
From S2P Require Import NiLedger Topology Construction Wiring Fabric FlowControl Ledger Provision.

(** ** An executable schedule *)

Section simulation.
Context (rs : RubySystem) (cfg : NetConfig) (ctrl_size data_size : Z) (router_of : Z → Z → res Z).
Context (period_of : consumer_ref → Z) (network_period : Z) (ruby_is_random ruby_warmup : bool).
Context (rnd : Z → Z → Z) (rt : Z → Z).

Abbreviation step := (sys_step rs cfg ctrl_size data_size router_of period_of ruby_is_random ruby_warmup).

Definition at_tick (tick : Z) : ClockEnv := {| curTick := tick; clockPeriod := network_period |}.

(** [globalWakeup] when no parallel region is opened. *)
Definition global_sequential (env : ClockEnv) (n : GarnetNetwork) : res GarnetNetwork :=
  let slot := slot_index (clockPeriod env) (curTick env) in
  let '(mask, ring) := take_slot slot (n_ring n) in
  let n0 := with_region n ring (m_routers n) (n_links n) (n_consumers n) (m_deferred_schedules n) in
  let* n' := if mask =? 0 then Ok n0
             else if (m_num_threads n <=? 1) || (popcountll mask <? m_parallel_threshold n)
             then runRoutersFromMask cfg env period_of rnd mask (curTick env) n0
             else Err (EPanic "parallel region") in
  Ok (with_global_event n' (Some (computeNextWakeupTick slot (curTick env) (clockPeriod env) (n_ring n')))).

Lemma global_sequential_runs env n n' :
  global_sequential env n = Ok n' → globalWakeup cfg env period_of n n'.
Proof.
  unfold global_sequential. destruct (take_slot _ (n_ring n)) as [mask ring] eqn:E.
  intros (n1 & Hrun & [= <-])%rbind_ok. destruct (mask =? 0) eqn:Em.
  - injection Hrun as <-. apply Z.eqb_eq in Em as ->. by apply gw_idle.
  - apply Z.eqb_neq in Em. destruct (_ || _) eqn:Ep; [|done]. by eapply gw_sequential.
Qed.

(** The consumers of a system, and the pending event that comes first. *)
Definition all_consumers (s : System) : list consumer_ref :=
  imap (fun i _ => ConsRouter (Z.of_nat i)) (y_routers s) ++ imap (fun i _ => ConsNI (Z.of_nat i)) (y_nis s) ++
  map fst (map_to_list (n_consumers (y_net s))).

Definition event_tick (s : System) (e : option consumer_ref) : option Z :=
  match e with
  | None => globalWakeupEvent (y_net s)
  | Some c => match get_consumer c s with Ok k => m_wakeup_event k | Err _ => None end
  end.

Definition earlier (s : System) (e : option consumer_ref) (best : option (Z * option consumer_ref))
    : option (Z * option consumer_ref) :=
  match event_tick s e, best with
  | Some t, Some (t', _) => if t <=? t' then Some (t, e) else best
  | Some t, None => Some (t, e)
  | None, _ => best
  end.

Definition next_event (s : System) : option (Z * option consumer_ref) :=
  foldr (earlier s) None (None :: map Some (all_consumers s)).

Definition serve (e : Z * option consumer_ref) (s : System) : res System :=
  let '(tick, c) := e in
  match c with
  | None => let* n := global_sequential (at_tick tick) (y_net s) in Ok (with_net s n)
  | Some c => fire rs cfg ctrl_size data_size router_of period_of ruby_is_random ruby_warmup (at_tick tick) rnd rt c s
  end.

(** Serve up to [fuel] events, none of them after [until]. *)
Fixpoint run_events (fuel : nat) (until : Z) (s : System) : res System :=
  match fuel, next_event s with
  | S fuel, Some e => if fst e <=? until then let* s := serve e s in run_events fuel until s else Ok s
  | _, _ => Ok s
  end.

Lemma next_event_pending s t e : next_event s = Some (t, e) → event_tick s e = Some t.
Proof.
  unfold next_event. generalize (None :: map Some (all_consumers s)). intros l.
  induction l as [|x l IH] in t, e |- *; [done|]. simpl. unfold earlier at 1.
  destruct (event_tick s x) as [tx|] eqn:Ex; [|by apply IH].
  destruct (foldr (earlier s) None l) as [[t' e']|]; [|by intros [= <- <-]].
  destruct (tx <=? t'); [by intros [= <- <-]|by apply IH].
Qed.

Lemma serve_step s t e s' : event_tick s e = Some t → serve (t, e) s = Ok s' → step s s'.
Proof.
  intros Ht H. destruct e as [c|]; simpl in H.
  - unfold event_tick in Ht. destruct (get_consumer c s) as [k|] eqn:E; [|done].
    by eapply (step_event _ _ _ _ _ _ _ _ (at_tick t)).
  - apply rbind_ok in H as (n & Hn & [= <-]). eapply (step_global _ _ _ _ _ _ _ _ (at_tick t)); [done|].
    by apply global_sequential_runs.
Qed.

Lemma run_events_steps fuel until : ∀ s s', run_events fuel until s = Ok s' → rtc step s s'.
Proof.
  induction fuel as [|fuel IH]; intros s s' H; simpl in H; [injection H as <-; apply rtc_refl|].
  destruct (next_event s) as [[t e]|] eqn:E; [|injection H as <-; apply rtc_refl].
  destruct (fst (t, e) <=? until); [|injection H as <-; apply rtc_refl].
  apply rbind_ok in H as (s1 & Hs1 & H). eapply rtc_l; [|by apply IH].
  eapply serve_step; [by apply next_event_pending|done].
Qed.

End simulation.

(** ** Example: two nodes, two routers, two messages from node 0 to node 1 *)

Definition ex_queued_net : Network :=
  match (let* n := setToNetQueue 0 true 0 "data" 20 ex_line_net in
         let* n := setFromNetQueue 0 true 0 "data" 30 n in
         let* n := setToNetQueue 1 true 0 "data" 21 n in
         setFromNetQueue 1 true 0 "data" 31 n) with
  | Ok n => n | Err _ => ex_line_net end.

Definition ex_line_consumers : gset consumer_ref :=
  list_to_set (map ConsLink (seqZ 1 14) ++
    [ConsOutputUnit 0 0; ConsOutputUnit 0 1; ConsOutputUnit 1 0; ConsOutputUnit 1 1]).

Definition ex_period : consumer_ref → Z := fun _ => 500.
Definition ex_boot : ClockEnv := {| curTick := 0; clockPeriod := 500 |}.

Definition ex_one_thread : GarnetNetwork :=
  match new_GarnetNetwork 1 8 ex_line_routers with Ok n => n | Err _ => ex_line_new end.

Definition ex_init : res (GarnetNetwork * Build * (Z * Z)) :=
  network_init ex_boot ex_cfg ex_queued_net ex_objects ex_requests ex_line_nis ex_link_store ex_line_consumers
    ex_one_thread.

Definition ex_mail (h : Z) : Message :=
  {| msg_handle := h; msg_time := 0; m_LastEnqueueTime := 0; m_DelayedTicks := 0; msg_counter := 0;
     msg_destination := [{| NodeSet.m_nSize := 2; NodeSet.bits := 2 |}]; msg_size_type := Data |}.

(** The protocol's buffers, two messages in the one that node 0 sends from. *)
Definition ex_protocol : World :=
  let empty := new_MessageBuffer 0 0 true disabled false in
  let full := match (let* ' (b, _) := MessageBuffer.enqueue 0 (ex_mail 1) 0 500 false false false empty in
                     MessageBuffer.enqueue 0 (ex_mail 2) 0 1000 false false false b) with
              | Ok (b, _) => b | Err _ => empty end in
  {| w_links := ∅; w_buffers := <[20 := full]> (<[21 := empty]> (<[30 := empty]> {[31 := empty]})); w_messages := ∅;
     w_next_message := 70; m_next_packet_id := 5; m_data_traffic := ∅; m_ctrl_traffic := ∅; w_effects := [] |}.

Abbreviation ex_step := (sys_step ex_line_rs ex_cfg 8 72 (fun d _ => Ok d) ex_period false false).

(** Node 0 is notified of its messages; then up to [fuel] events are served. *)
Definition ex_run (fuel : nat) (until : Z) (s : System) : res System :=
  let* s := sys_schedule ex_period ex_boot (ConsNI 0, 500) s in
  run_events ex_line_rs ex_cfg 8 72 (fun d _ => Ok d) ex_period 500 false false (fun _ _ => 0) (fun _ => 0) fuel until s.

Lemma ex_run_steps fuel until s s' : ex_run fuel until s = Ok s' → rtc ex_step s s'.
Proof.
  intros (s1 & Hs1 & H)%rbind_ok. apply run_events_steps in H. eapply rtc_l; [|exact H].
  by eapply (step_notify _ _ _ _ _ _ _ _ ex_boot).
Qed.

(** The number of messages in a buffer of the protocol. *)
Definition waiting (h : Z) (s : System) : option nat := (fun b => length (m_prio_heap b)) <$> w_buffers (y_world s) !! h.

(** By tick 20000 both messages have crossed the network. *)
Example ex_run_delivers :
  match ex_init with
  | Ok (n, b, _) => match ex_run 200 20000 (initial_system n b ex_protocol) with
                    | Ok s => (waiting 20 s, waiting 31 s)
                    | Err _ => (None, None) end
  | Err _ => (None, None) end = (Some 0%nat, Some 2%nat).
Proof. vm_compute. reflexivity. Qed.

(** The link from router 0 to router 1, with its credit link. *)
Definition ex_hop : Hop :=
  {| hop_from := FromRouter 0 1; hop_to := ToRouter 1 1; hop_link := 9; hop_credit := 10 |}.

Lemma ex_line_fresh : fresh (concat (map (plugs ex_objects) ex_requests)).
Proof. apply (bool_decide_unpack _). vm_compute. exact I. Qed.

(** A link store is checked link by link. *)
Definition new_link_b (l : NetworkLink) : bool :=
  bool_decide (m_buffer (linkBuffer l) = []) &&
  match link_srcQueue l with None | Some (QLink _) => true | _ => false end.

Lemma new_links_check ls : map_Forall (fun _ l => new_link_b l = true) ls → new_links ls.
Proof.
  intros H. split.
  - intros h l Hl. specialize (H h l Hl). simpl in H. apply andb_true_iff in H as [H _]. by apply bool_decide_eq_true in H.
  - intros h q Hq. unfold srcs_at in Hq. destruct (ls !! h) as [l|] eqn:E; [|done]. simpl in Hq.
    specialize (H h l E). simpl in H. apply andb_true_iff in H as [_ H]. rewrite Hq in H. destruct q; try done. eauto.
Qed.

Lemma unbridged_check h b :
  (h ∉ dom (bw_bridges (bd_world b))) →
  map_Forall (fun _ l => link_srcQueue l ≠ Some (QLink h)) (bw_links (bd_world b)) → unbridged h b.
Proof.
  intros Hb Hl. split; [done|]. intros h' Hq. unfold srcs_at in Hq.
  destruct (bw_links (bd_world b) !! h') as [l|] eqn:E; [|done]. by apply (Hl h' l E).
Qed.

Definition unbridged_b (h : Z) (b : Build) : bool :=
  bool_decide (h ∉ dom (bw_bridges (bd_world b))) &&
  bool_decide (map_Forall (fun _ l => link_srcQueue l ≠ Some (QLink h)) (bw_links (bd_world b))).

Definition sends_on_b (e : sender) (h c : Z) (b : Build) : bool :=
  match e with
  | FromRouter id p =>
      match bd_routers b !! id ≫= (fun r => m_output_unit r !! p) with
      | Some o => (ou_out_link o =? h) && (ou_credit_link o =? c) | None => false end
  | FromNI id =>
      match outPorts <$> bd_nis b !! id with
      | Some [o] => (outNetLink o =? h) && (inCreditLink o =? c) | _ => false end
  end.

Definition receives_on_b (e : receiver) (h c : Z) (b : Build) : bool :=
  match e with
  | ToRouter id p =>
      match bd_routers b !! id ≫= (fun r => m_input_unit r !! p) with
      | Some u => (iu_in_link u =? h) && (iu_credit_link u =? c) | None => false end
  | ToNI id p =>
      match bd_nis b !! id ≫= (fun n => inPorts n !! p) with
      | Some i => (inNetLink i =? h) && (outCreditLink i =? c) | None => false end
  end.

(** [hop_made], decided on a network that was built. *)
Definition hop_made_b (H : Hop) (b : Build) : bool :=
  sends_on_b (hop_from H) (hop_link H) (hop_credit H) b && receives_on_b (hop_to H) (hop_link H) (hop_credit H) b &&
  unbridged_b (hop_link H) b && unbridged_b (hop_credit H) b.

Lemma hop_made_check H b : hop_made_b H b = true → hop_made H b.
Proof.
  unfold hop_made_b, unbridged_b. rewrite !andb_true_iff, !bool_decide_eq_true.
  intros (((Hs & Hr) & Hb1 & Hl1) & Hb2 & Hl2).
  split; [| |by apply unbridged_check|by apply unbridged_check].
  - destruct (hop_from H) as [id p|id]; simpl in *.
    + destruct (bd_routers b !! id) as [r|]; [|done]. simpl in Hs. destruct (m_output_unit r !! p) as [o|] eqn:Ho; [|done].
      apply andb_true_iff in Hs as [?%Z.eqb_eq ?%Z.eqb_eq]. eauto 8.
    + destruct (bd_nis b !! id) as [n|]; [|done]. simpl in Hs. destruct (outPorts n) as [|o [|]] eqn:Ho; try done.
      apply andb_true_iff in Hs as [?%Z.eqb_eq ?%Z.eqb_eq]. eauto 8.
  - destruct (hop_to H) as [id p|id p]; simpl in *.
    + destruct (bd_routers b !! id) as [r|]; [|done]. simpl in Hr. destruct (m_input_unit r !! p) as [o|] eqn:Ho; [|done].
      apply andb_true_iff in Hr as [?%Z.eqb_eq ?%Z.eqb_eq]. eauto 8.
    + destruct (bd_nis b !! id) as [n|]; [|done]. simpl in Hr. destruct (inPorts n !! p) as [o|] eqn:Ho; [|done].
      apply andb_true_iff in Hr as [?%Z.eqb_eq ?%Z.eqb_eq]. eauto 8.
Qed.

Lemma ex_hop_made_b : match ex_init with Ok (_, b, _) => hop_made_b ex_hop b | Err _ => false end = true.
Proof. vm_compute. reflexivity. Qed.

Lemma ex_hop_made n b dims : ex_init = Ok (n, b, dims) → hop_made ex_hop b.
Proof. intros E. pose proof ex_hop_made_b as H. rewrite E in H. by apply hop_made_check. Qed.

Lemma ex_routers_new : new_routers ex_line_routers.
Proof. intros i r Hr. destruct i as [|[|i]]; simpl in Hr; simplify_eq; eauto. Qed.
Lemma ex_interfaces_new : new_interfaces ex_line_nis.
Proof. intros i r Hr. destruct i as [|[|i]]; simpl in Hr; simplify_eq; eauto. Qed.
Lemma ex_store_new : new_links (bw_links ex_link_store).
Proof. apply new_links_check, (bool_decide_unpack _). vm_compute. exact I. Qed.

Lemma ex_built n b dims :
  ex_init = Ok (n, b, dims) → built ex_cfg (bw_links ex_link_store) (concat (map (plugs ex_objects) ex_requests)) n b.
Proof.
  intros E. refine (init_built _ _ _ _ _ _ _ _ 1 8 ex_line_routers _ _ _ _
    ex_routers_new ex_interfaces_new (proj1 ex_store_new) ex_line_fresh _ E). vm_compute. reflexivity.
Qed.

Lemma ex_hop_ready n b dims : ex_init = Ok (n, b, dims) → hop_ready 0 ex_hop (initial_system n b ex_protocol).
Proof.
  intros E. exact (built_ready _ _ _ _ _ _ _ _ (ex_built n b dims E) ex_line_fresh (proj2 ex_store_new) (ex_hop_made n b dims E)).
Qed.

(** Thirty events in, and one event later: a global wakeup in which the sender
    takes a credit. *)
Definition ex_thirty : res (GarnetNetwork * Build * (Z * Z) * System * System) :=
  let* ' (n, b, dims) := ex_init in
  let* s := ex_run 30 20000 (initial_system n b ex_protocol) in
  let* s' := serve ex_line_rs ex_cfg 8 72 (fun d _ => Ok d) ex_period 500 false false (fun _ _ => 0) (fun _ => 0)
               (3500, None) s in
  Ok (n, b, dims, s, s').

Lemma ex_thirty_facts :
  match ex_thirty with
  | Ok (n, b, _, s, s') => (capacity 0 (hop_from ex_hop) (initial_system n b ex_protocol) =? 4) &&
      bool_decide (event_tick s None = Some 3500) &&
      (credits_left 0 (hop_from ex_hop) s =? 0) && (credits_left 0 (hop_from ex_hop) s' =? 1) &&
      (on_link 0 9 (y_links s) =? 1)
  | Err _ => false end = true.
Proof. vm_compute. reflexivity. Qed.

Lemma ex_thirty_spec :
  ∃ n b dims s s', ex_init = Ok (n, b, dims) ∧ ex_run 30 20000 (initial_system n b ex_protocol) = Ok s ∧ ex_step s s' ∧
    capacity 0 (hop_from ex_hop) (initial_system n b ex_protocol) = 4 ∧
    credits_left 0 (hop_from ex_hop) s = 0 ∧ credits_left 0 (hop_from ex_hop) s' = 1 ∧ on_link 0 9 (y_links s) = 1.
Proof.
  pose proof ex_thirty_facts as F. destruct ex_thirty as [[[[[n b] dims] s] s']|e] eqn:T; [|discriminate F].
  apply rbind_ok in T as ([[n1 b1] d1] & E & T). apply rbind_ok in T as (s1 & Es & T).
  apply rbind_ok in T as (s2 & Es' & T). injection T as -> -> -> -> ->.
  rewrite !andb_true_iff, bool_decide_eq_true, !Z.eqb_eq in F. destruct F as ((((F1 & F2) & F3) & F4) & F5).
  exists n, b, dims, s, s'. split; [exact E|]. split; [exact Es|].
  split; [exact (serve_step _ _ _ _ _ _ _ _ _ _ _ _ _ _ _ F2 Es')|auto].
Qed.

(** ** Properties *)



(** C5: Every step of the network keeps the credit balance of every plain hop: a
    hop from a router's output port, or from an interface with a single output port,
    to a router or an interface, over a flit link and a credit link without a bridge
    on either, each read and fed by the ends of the hop only ([hop_wired]). As long
    as the flits that wait in the VCs of the interfaces carry the number of their VC
    ([all_tagged]), which holds of every new network and is kept too, the hop's
    wiring is kept, and for each VC the sum of the sender's credits, the flits and
    the credits on the way and the flits in the receiver's buffer is the same after
    the step as before, whichever component the step wakes. Hops with bridges and
    interfaces with several output ports are not covered. *)
Theorem credits_conserved rsys cfg ctrl_size data_size router_of period_of is_random warmup H s s' :
  sys_step rsys cfg ctrl_size data_size router_of period_of is_random warmup s s' →
  hop_wired H s → all_tagged s →
  hop_wired H s' ∧ all_tagged s' ∧ ∀ v, hop_total v H s' = hop_total v H s.
Proof.
  intros Hstep Hw Ht. apply sys_step_keeps in Hstep as [[Hlay Htag _] Htot].
  split; [by eapply hop_wired_layout|]. split; [by apply Htag|]. intros v. by apply Htot.
Qed.

(** The global wakeup in which the sender takes a credit. *)
Lemma credits_conserved_witness :
  ∃ s s', ex_step s s' ∧ credits_left 0 (hop_from ex_hop) s = 0 ∧ credits_left 0 (hop_from ex_hop) s' = 1 ∧
    hop_total 0 ex_hop s' = hop_total 0 ex_hop s.
Proof.
  destruct ex_thirty_spec as (n & b & dims & s & s' & E & Es & Hstep & _ & Fc & Fc' & _).
  destruct (sys_steps_keep _ _ _ _ _ _ _ _ _ _ (ex_run_steps 30 20000 _ s Es)) as [[Hlay Htag _] _].
  destruct (ex_hop_ready n b dims E) as [Hw Ht _ _].
  exists s, s'. split; [exact Hstep|]. split; [exact Fc|]. split; [exact Fc'|].
  destruct (credits_conserved ex_line_rs ex_cfg 8 72 (fun d _ => Ok d) ex_period false false ex_hop s s' Hstep)
    as (_ & _ & Htot); [exact (hop_wired_layout _ _ _ Hlay Hw)|exact (Htag Ht)|]. exact (Htot 0).
Defined.

(** C4: The statistics of the interfaces tell exactly how many flits are in the
    network. In a network without bridges, after any sequence of steps from its
    construction on and for every virtual network, the flits counted as injected
    by all interfaces are those counted as received together with those that are
    on their way: in the output VCs and queues of interfaces, on links, in the
    input buffers, switch buffers and output queues of routers, or in stall
    queues. The counters wrap at 64 bits, and the equation holds modulo 2^64. In
    particular no flit is lost or duplicated on the way from one interface to
    another. *)
Theorem flit_statistics_exact rsys cfg ctrl_size data_size router_of period_of is_random warmup
    env net objects reqs nis bw cs num_threads hw routers n0 n b dims w v s :
  new_routers routers → new_interfaces nis → idle_links (bw_links bw) → (∀ h, srcs_at (bw_links bw) h = None) →
  fresh (concat (map (plugs objects) reqs)) →
  new_GarnetNetwork num_threads hw routers = Ok n0 →
  network_init env cfg net objects reqs nis bw cs n0 = Ok (n, b, dims) →
  dom (bw_bridges (bd_world b)) = ∅ →
  rtc (sys_step rsys cfg ctrl_size data_size router_of period_of is_random warmup) (initial_system n b w) s →
  u64 (flits_injected v s) = u64 (flits_received v s + in_flight v s).
Proof.
  intros Hr Hn Hl Hsrc Hf Hnew Hinit Hbr Hsteps.
  pose proof (init_built _ _ _ _ _ _ _ _ _ _ _ _ _ _ _ Hr Hn Hl Hf Hnew Hinit) as Hbuilt.
  pose proof (built_idle _ _ _ _ _ w Hbuilt) as Hidle.
  apply sys_steps_account in Hsteps as [_ Hp]. specialize (Hp (built_plain _ _ _ _ _ w Hbuilt Hsrc Hbr)).
  pose proof (passes_balance _ _ v Hp (idle_weight _ _ _ Hidle)) as Hbal.
  destruct (idle_statistics _ v _ Hidle) as [Ei Er]. unfold in_flight in Hbal at 2.
  rewrite Ei, Er, (idle_weight _ _ _ Hidle) in Hbal. apply u64_eq in Hbal as [k Hk]. apply u64_eq. exists k. lia.
Qed.

(** The example network without its bridge. *)
Definition ex_plain_objects : gmap Z GarnetLink :=
  <[103 := IntLinkObj (new_GarnetIntLink 11 12 false false false false None None None None)]> ex_objects.
Definition ex_plain_store : BridgeWorld :=
  {| bw_bridges := ∅; bw_links := foldr (fun h ls => <[h := new_NetworkLink h 1 1 [] 16]> ls) ∅ (seqZ 1 12);
     bw_scheduled := [] |}.
Definition ex_plain_init : res (GarnetNetwork * Build * (Z * Z)) :=
  network_init ex_boot ex_cfg ex_queued_net ex_plain_objects ex_requests ex_line_nis ex_plain_store ex_line_consumers
    ex_one_thread.

Definition ex_plain_run : res (GarnetNetwork * Build * (Z * Z) * System) :=
  let* ' (n, b, dims) := ex_plain_init in
  let* s := ex_run 50 20000 (initial_system n b ex_protocol) in
  Ok (n, b, dims, s).

Lemma ex_plain_facts :
  match ex_plain_run with
  | Ok (_, b, _, s) => bool_decide (dom (bw_bridges (bd_world b)) = ∅) &&
      (flits_injected 0 s =? 10) && (flits_received 0 s =? 2) && (in_flight 0 s =? 8)
  | Err _ => false end = true.
Proof. vm_compute. reflexivity. Qed.

(** After fifty events two of the ten flits have arrived. *)
Lemma flit_statistics_exact_witness :
  ∃ n b dims s, ex_plain_init = Ok (n, b, dims) ∧ ex_run 50 20000 (initial_system n b ex_protocol) = Ok s ∧
    flits_injected 0 s = 10 ∧ flits_received 0 s = 2 ∧ in_flight 0 s = 8 ∧
    u64 (flits_injected 0 s) = u64 (flits_received 0 s + in_flight 0 s).
Proof.
  pose proof ex_plain_facts as F. destruct ex_plain_run as [[[[n b] dims] s]|e] eqn:T; [|discriminate F].
  apply rbind_ok in T as ([[n1 b1] d1] & E & T). apply rbind_ok in T as (s1 & Es & T). injection T as -> -> -> ->.
  rewrite !andb_true_iff, bool_decide_eq_true, !Z.eqb_eq in F. destruct F as (((F1 & F2) & F3) & F4).
  exists n, b, dims, s. split; [exact E|]. split; [exact Es|]. split; [exact F2|]. split; [exact F3|]. split; [exact F4|].
  apply (flit_statistics_exact ex_line_rs ex_cfg 8 72 (fun d _ => Ok d) ex_period false false
    ex_boot ex_queued_net ex_plain_objects ex_requests ex_line_nis ex_plain_store ex_line_consumers 1 8 ex_line_routers
    ex_one_thread n b dims ex_protocol 0 s).
  - exact ex_routers_new.
  - exact ex_interfaces_new.
  - apply new_links_check, (bool_decide_unpack _). vm_compute. exact I.
  - intros h. unfold srcs_at. destruct (bw_links ex_plain_store !! h) as [l|] eqn:El; [|reflexivity]. simpl.
    assert (map_Forall (fun _ l => link_srcQueue l = None) (bw_links ex_plain_store)) as Hall
      by (apply (bool_decide_unpack _); vm_compute; exact I).
    exact (Hall h l El).
  - apply (bool_decide_unpack _). vm_compute. exact I.
  - vm_compute. reflexivity.
  - exact E.
  - exact F1.
  - exact (ex_run_steps 50 20000 _ s Es).
Defined.
