(* ===== verification/NetworkLevel.v ===== *)
(** * The network as a whole: functional accesses and statistics

    The operations of GarnetNetwork.cc that visit every part of the network:
    functional reads and writes, the collation of the statistics before a dump,
    and their reset. The parts are those recorded during construction ([Build]:
    routers, interfaces, flit links, credit links and flit bridges). *)

From Stdlib Require Import QArith.
From S2P Require Import Prelude IntMath Clocked Consumer WakeupRing NetDest Flit RoutingUnit VirtualChannel NetworkLink InputUnit OutputUnit SwitchAllocator Router MessageBuffer NetworkInterface NetworkBridge Construction.

Local Open Scope Z_scope.

(** ** Functional accesses *)

Section functional.
Context {M : Type} (access : MsgPtr → M → bool * M).

(** [NetworkLink::functionalRead] and [functionalWrite], which bridges inherit. *)
Definition link_functionalRead (l : NetworkLink) (m : M) : bool * M := buffer_functionalRead access (linkBuffer l) m.
Definition link_functionalWrite (l : NetworkLink) (m : M) : Z * M := buffer_functionalWrite access (linkBuffer l) m.

(** The loops of the two functions over parts of one kind. *)
Definition read_all {P} (rd : P → M → bool * M) (ps : list P) (s : bool * M) : bool * M :=
  foldl (fun '(read, m) p => let '(r, m) := rd p m in (if r then true else read, m)) s ps.
Definition write_all {P} (wr : P → M → Z * M) (ps : list P) (s : Z * M) : Z * M :=
  foldl (fun '(num, m) p => let '(k, m) := wr p m in (u32 (num + k), m)) s ps.

(** The same over links, given by their handles. *)
Definition read_links (ls : Links) (hs : list Z) (s : bool * M) : res (bool * M) :=
  fold_res (fun h '(read, m) =>
    let* l := get_link h ls in
    let '(r, m) := link_functionalRead l m in Ok (if r then true else read, m)) hs s.
Definition write_links (ls : Links) (hs : list Z) (s : Z * M) : res (Z * M) :=
  fold_res (fun h '(num, m) =>
    let* l := get_link h ls in
    let '(k, m) := link_functionalWrite l m in Ok (u32 (num + k), m)) hs s.

(** [GarnetNetwork::functionalRead] *)
Definition network_functionalRead (s : Build) (m : M) : res (bool * M) :=
  let ls := bw_links (bd_world s) in
  let x := read_all (router_functionalRead access) (bd_routers s) (false, m) in
  let x := read_all (ni_functionalRead access) (bd_nis s) x in
  let* x := read_links ls (m_networklinks s) x in
  read_links ls (m_networkbridges s) x.

(** [GarnetNetwork::functionalWrite] *)
Definition network_functionalWrite (s : Build) (m : M) : res (Z * M) :=
  let ls := bw_links (bd_world s) in
  let x := write_all (router_functionalWrite access) (bd_routers s) (0, m) in
  let x := write_all (ni_functionalWrite access) (bd_nis s) x in
  write_links ls (m_networklinks s) x.

(** ** A single pass

    The reference: the messages of a list of flits are visited one after the
    other, and those that take part are counted. *)

Definition visit_one (s : Z * M) (f : flit) : Z * M :=
  let '(k, m) := s in let '(r, m) := flit_access access f m in (if r then k + 1 else k, m).
Definition visit (fs : list flit) (s : Z * M) : Z * M := foldl visit_one s fs.

Definition as_write (s : Z * M) : Z * M := (u32 (fst s), snd s).
Definition as_read (s : Z * M) : bool * M := (0 <? fst s, snd s).

(** A function that visits the flits [fl p]. *)
Definition writes_flits {P} (fl : P → list flit) (wr : P → M → Z * M) : Prop :=
  ∀ p m, wr p m = as_write (visit (fl p) (0, m)).
Definition reads_flits {P} (fl : P → list flit) (rd : P → M → bool * M) : Prop :=
  ∀ p m, rd p m = as_read (visit (fl p) (0, m)).

Lemma visit_app l1 l2 s : visit (l1 ++ l2) s = visit l2 (visit l1 s).
Proof. apply foldl_app. Qed.

Lemma visit_from fs : ∀ k m, visit fs (k, m) = (k + fst (visit fs (0, m)), snd (visit fs (0, m))).
Proof.
  induction fs as [|f fs IH]; intros k m; simpl; [by rewrite Z.add_0_r|].
  destruct (flit_access access f m) as [r m1]. destruct r; [|by rewrite IH].
  rewrite IH, (IH (0 + 1)). simpl. f_equal. lia.
Qed.

Lemma visit_nonneg fs m : 0 ≤ fst (visit fs (0, m)).
Proof.
  revert m. induction fs as [|f fs IH]; intros m; simpl; [done|].
  destruct (flit_access access f m) as [r m1]. destruct r; [|apply IH].
  rewrite visit_from. simpl. specialize (IH m1). lia.
Qed.

Lemma u32_add a b : u32 (u32 a + u32 b) = u32 (a + b).
Proof. unfold u32. by rewrite <-Z.add_mod. Qed.

Lemma buffer_writes_flits : writes_flits m_buffer (buffer_functionalWrite access).
Proof.
  intros b m. unfold buffer_functionalWrite. change (0, m) with (as_write (0, m)) at 1.
  generalize (0, m) as s. generalize (m_buffer b) as fs.
  induction fs as [|f fs IH]; intros [k m']; simpl; [done|]. rewrite <-IH. f_equal. simpl.
  destruct (flit_access access f m') as [[] m1]; unfold as_write; simpl; [|done].
  f_equal. unfold u32. by rewrite Z.add_mod_idemp_l.
Qed.

Lemma buffer_reads_flits : reads_flits m_buffer (buffer_functionalRead access).
Proof.
  intros b m. unfold buffer_functionalRead. change (false, m) with (as_read (0, m)).
  assert (0 ≤ fst (0, m)) as H by done. revert H. generalize (0, m) as s. generalize (m_buffer b) as fs.
  induction fs as [|f fs IH]; intros [k m'] Hk; simpl in *; [done|].
  destruct (flit_access access f m') as [[] m1].
  - rewrite <-IH by (simpl; lia). f_equal. unfold as_read. simpl. f_equal. symmetry. apply Z.ltb_lt. lia.
  - by rewrite <-IH.
Qed.

Lemma write_all_flits {P} (fl : P → list flit) wr ps : ∀ s,
  writes_flits fl wr → write_all wr ps (as_write s) = as_write (visit (concat (map fl ps)) s).
Proof.
  intros s Hw. revert s. induction ps as [|p ps IH]; intros [k m]; [done|]. simpl. rewrite visit_app, <-IH.
  unfold write_all. f_equal. rewrite Hw. unfold as_write. simpl. rewrite u32_add. by rewrite (visit_from _ k m).
Qed.

Lemma read_all_flits {P} (fl : P → list flit) rd ps : ∀ s,
  reads_flits fl rd → 0 ≤ fst s → read_all rd ps (as_read s) = as_read (visit (concat (map fl ps)) s).
Proof.
  intros s Hr. revert s. induction ps as [|p ps IH]; intros [k m] Hk; [done|]. simpl in *.
  pose proof (visit_nonneg (fl p) m). rewrite visit_app, (visit_from _ k m), <-IH by (simpl; lia).
  unfold read_all. f_equal. rewrite Hr. unfold as_read. simpl. f_equal.
  destruct (Z.ltb_spec 0 (fst (visit (fl p) (0, m)))); [symmetry; apply Z.ltb_lt; lia|].
  f_equal. lia.
Qed.

(** *** The flits of the parts *)

Definition vc_flits (v : VirtualChannel) : list flit := m_buffer (inputBuffer v).
Definition iu_flits (u : InputUnit) : list flit := concat (map vc_flits (virtualChannels u)).
Definition ou_flits (o : OutputUnit) : list flit := m_buffer (outBuffer o).
Definition xbar_flits (x : CrossbarSwitch) : list flit := concat (map m_buffer (switchBuffers x)).
Definition router_flits (r : Router) : list flit :=
  xbar_flits (crossbarSwitch r) ++ concat (map iu_flits (m_input_unit r)) ++ concat (map ou_flits (m_output_unit r)).
Definition ni_flits (n : NetworkInterface) : list flit :=
  concat (map m_buffer (niOutVcs n)) ++ concat (map (fun p => m_buffer (outFlitQueue p)) (outPorts n)).
Definition flits_at (ls : Links) (h : Z) : list flit :=
  match ls !! h with Some l => m_buffer (linkBuffer l) | None => [] end.

Lemma flits_at_some ls h l : ls !! h = Some l → flits_at ls h = m_buffer (linkBuffer l).
Proof. intros H. unfold flits_at. by rewrite H. Qed.

Lemma vc_writes_flits : writes_flits vc_flits (fun v => buffer_functionalWrite access (inputBuffer v)).
Proof. intros v. apply buffer_writes_flits. Qed.
Lemma vc_reads_flits : reads_flits vc_flits (fun v => buffer_functionalRead access (inputBuffer v)).
Proof. intros v. apply buffer_reads_flits. Qed.

Lemma iu_writes_flits : writes_flits iu_flits (iu_functionalWrite access).
Proof. intros u m. exact (write_all_flits _ _ (virtualChannels u) (0, m) vc_writes_flits). Qed.
Lemma iu_reads_flits : reads_flits iu_flits (iu_functionalRead access).
Proof. intros u m. by apply (read_all_flits _ _ (virtualChannels u) (0, m) vc_reads_flits). Qed.

Lemma ou_writes_flits : writes_flits ou_flits (ou_functionalWrite access).
Proof. intros o. apply buffer_writes_flits. Qed.
Lemma ou_reads_flits : reads_flits ou_flits (ou_functionalRead access).
Proof. intros o. apply buffer_reads_flits. Qed.

Lemma xbar_writes_flits : writes_flits xbar_flits (xbar_functionalWrite access).
Proof. intros x m. exact (write_all_flits _ _ (switchBuffers x) (0, m) buffer_writes_flits). Qed.
Lemma xbar_reads_flits : reads_flits xbar_flits (xbar_functionalRead access).
Proof. intros x m. by apply (read_all_flits _ _ (switchBuffers x) (0, m) buffer_reads_flits). Qed.

Lemma router_writes_flits : writes_flits router_flits (router_functionalWrite access).
Proof.
  intros r m. unfold router_functionalWrite, router_flits. rewrite xbar_writes_flits, !visit_app. unfold as_write at 1.
  replace (u32 (0 + u32 _), _) with (as_write (visit (xbar_flits (crossbarSwitch r)) (0, m))).
  - rewrite <-(write_all_flits _ _ _ _ ou_writes_flits), <-(write_all_flits _ _ _ _ iu_writes_flits). done.
  - unfold as_write. f_equal. unfold u32. by rewrite Z.add_0_l, Zmod_mod.
Qed.

Lemma router_reads_flits : reads_flits router_flits (router_functionalRead access).
Proof.
  intros r m. unfold router_functionalRead, router_flits. rewrite xbar_reads_flits, !visit_app.
  pose proof (visit_nonneg (xbar_flits (crossbarSwitch r)) m) as Hx.
  destruct (visit (xbar_flits (crossbarSwitch r)) (0, m)) as [k m1]. simpl in Hx.
  pose proof (visit_nonneg (concat (map iu_flits (m_input_unit r))) m1).
  rewrite <-(read_all_flits _ _ _ _ ou_reads_flits), <-(read_all_flits _ _ _ _ iu_reads_flits); [done|done|].
  rewrite visit_from. simpl. lia.
Qed.

Lemma port_writes_flits : writes_flits (fun p => m_buffer (outFlitQueue p)) (fun p => buffer_functionalWrite access (outFlitQueue p)).
Proof. intros p. apply buffer_writes_flits. Qed.
Lemma port_reads_flits : reads_flits (fun p => m_buffer (outFlitQueue p)) (fun p => buffer_functionalRead access (outFlitQueue p)).
Proof. intros p. apply buffer_reads_flits. Qed.

Lemma ni_writes_flits : writes_flits ni_flits (ni_functionalWrite access).
Proof.
  intros n m. unfold ni_functionalWrite, ni_flits. rewrite visit_app, <-(write_all_flits _ _ _ _ port_writes_flits).
  rewrite <-(write_all_flits _ _ _ _ buffer_writes_flits). done.
Qed.
Lemma ni_reads_flits : reads_flits ni_flits (ni_functionalRead access).
Proof.
  intros n m. unfold ni_functionalRead, ni_flits. rewrite visit_app.
  rewrite <-(read_all_flits _ _ _ _ port_reads_flits) by apply visit_nonneg.
  rewrite <-(read_all_flits _ _ _ _ buffer_reads_flits) by done. done.
Qed.

Lemma write_links_flits ls hs : ∀ s,
  (∀ h, h ∈ hs → is_Some (ls !! h)) →
  write_links ls hs (as_write s) = Ok (as_write (visit (concat (map (flits_at ls) hs)) s)).
Proof.
  induction hs as [|h hs IH]; intros [k m] Hin; [done|]. cbn [map concat]. rewrite visit_app.
  destruct (Hin h) as [l Hl]; [by left|]. rewrite (flits_at_some _ _ _ Hl). unfold write_links. simpl.
  unfold get_link at 1. rewrite Hl. simpl.
  rewrite (buffer_writes_flits (linkBuffer l) m : link_functionalWrite l m = _). unfold as_write at 1. simpl. rewrite u32_add.
  rewrite (visit_from _ k m). rewrite <-IH by (intros x Hx; apply Hin; by right). done.
Qed.

Lemma read_links_flits ls hs : ∀ s,
  (∀ h, h ∈ hs → is_Some (ls !! h)) → 0 ≤ fst s →
  read_links ls hs (as_read s) = Ok (as_read (visit (concat (map (flits_at ls) hs)) s)).
Proof.
  induction hs as [|h hs IH]; intros [k m] Hin Hk; [done|]. cbn [map concat fst] in *. rewrite visit_app.
  destruct (Hin h) as [l Hl]; [by left|]. rewrite (flits_at_some _ _ _ Hl). unfold read_links. simpl.
  unfold get_link at 1. rewrite Hl. simpl.
  rewrite (buffer_reads_flits (linkBuffer l) m : link_functionalRead l m = _). unfold as_read at 1. simpl.
  pose proof (visit_nonneg (m_buffer (linkBuffer l)) m).
  rewrite (visit_from _ k m). rewrite <-IH by (try (intros x Hx; apply Hin; by right); simpl; lia).
  unfold read_links. f_equal. unfold as_read. simpl. f_equal.
  destruct (Z.ltb_spec 0 (fst (visit (m_buffer (linkBuffer l)) (0, m)))); [symmetry; apply Z.ltb_lt; lia|f_equal; lia].
Qed.

End functional.

(** ** Main theorem *)

(** *** The places of the network that hold flits *)

(** A place, by the positions of the objects in the vectors that own them. *)
Inductive place :=
  | InputVC (router inport vc : nat)     (* a VC of an input unit *)
  | SwitchBuffer (router inport : nat)   (* the crossbar's buffer of an input *)
  | OutBuffer (router outport : nat)     (* the buffer of an output unit *)
  | NiOutVc (ni vc : nat)                (* a VC of an interface *)
  | NiOutQueue (ni port : nat)           (* the queue of an interface's output port *)
  | NiStallQueue (ni port : nat)         (* the tails that wait for the protocol *)
  | OnLink (link : nat)                  (* a flit link *)
  | InBridge (bridge : nat).             (* a flit bridge *)

(** The flits at a place. *)
Definition place_flits (s : Build) (p : place) : list flit :=
  let ls := bw_links (bd_world s) in
  default []
    match p with
    | InputVC i j k => r ← bd_routers s !! i; u ← m_input_unit r !! j; v ← virtualChannels u !! k; Some (m_buffer (inputBuffer v))
    | SwitchBuffer i j => r ← bd_routers s !! i; b ← switchBuffers (crossbarSwitch r) !! j; Some (m_buffer b)
    | OutBuffer i j => r ← bd_routers s !! i; o ← m_output_unit r !! j; Some (m_buffer (outBuffer o))
    | NiOutVc i j => n ← bd_nis s !! i; b ← niOutVcs n !! j; Some (m_buffer b)
    | NiOutQueue i j => n ← bd_nis s !! i; q ← outPorts n !! j; Some (m_buffer (outFlitQueue q))
    | NiStallQueue i j => n ← bd_nis s !! i; q ← inPorts n !! j; Some (m_stall_queue q)
    | OnLink i => h ← m_networklinks s !! i; l ← ls !! h; Some (m_buffer (linkBuffer l))
    | InBridge i => h ← m_networkbridges s !! i; l ← ls !! h; Some (m_buffer (linkBuffer l))
    end.

(** The places that a functional read and a functional write reach. *)
Definition read_reaches (p : place) : bool := match p with NiStallQueue _ _ => false | _ => true end.
Definition write_reaches (p : place) : bool := match p with NiStallQueue _ _ | InBridge _ => false | _ => true end.

(** [ps] lists, each once, all places with flits among those that [reaches] admits,
    and no other place. *)
Record covers (s : Build) (reaches : place → bool) (ps : list place) : Prop := {
  cov_once : NoDup ps;
  cov_all p : place_flits s p ≠ [] → reaches p = true → p ∈ ps;
  cov_only p : p ∈ ps → reaches p = true
}.

(** *** Positions *)

(** A loop over a vector, as a loop over its positions. *)
Lemma concat_positions {A B} (g : A → list B) (h : nat → list B) l :
  (∀ i x, l !! i = Some x → h i = g x) → concat (map g l) = concat (map h (seq 0 (length l))).
Proof.
  revert h. induction l as [|x l IH]; intros h Hh; [done|]. cbn [map concat length seq].
  rewrite (Hh 0%nat x) by done. f_equal. rewrite <-fmap_S_seq, (map_map S h). apply IH. intros i y Hy. by apply (Hh (S i)).
Qed.

(** Nested loops. *)
Lemma concat_nested {A B C} (g : nat → A → list B) (h : B → list C) (k : A → list C) l :
  (∀ i x, l !! i = Some x → concat (map h (g i x)) = k x) → concat (map h (concat (imap g l))) = concat (map k l).
Proof.
  revert g. induction l as [|x l IH]; intros g Hg; [done|]. rewrite imap_cons. cbn [map concat].
  rewrite map_app, concat_app, (Hg 0%nat x) by done. f_equal. apply IH. intros i y Hy. by apply (Hg (S i)).
Qed.

Lemma elem_of_nested {A B} (g : nat → A → list B) l b :
  b ∈ concat (imap g l) ↔ ∃ i x, l !! i = Some x ∧ b ∈ g i x.
Proof.
  revert g. induction l as [|x l IH]; intros g.
  - simpl. rewrite elem_of_nil. naive_solver.
  - rewrite imap_cons. cbn [concat]. rewrite elem_of_app, IH. split.
    + intros [Hb|(i & y & Hi & Hb)]; [by exists 0%nat, x|by exists (S i), y].
    + intros ([|i] & y & Hi & Hb); [simplify_eq/=; by left|right; by exists i, y].
Qed.

Lemma NoDup_nested {A B} (g : nat → A → list B) l :
  (∀ i x, l !! i = Some x → NoDup (g i x)) → (∀ i j x y b, b ∈ g i x → b ∈ g j y → i = j) → NoDup (concat (imap g l)).
Proof.
  revert g. induction l as [|x l IH]; intros g Hg Hk; [constructor|]. rewrite imap_cons. cbn [concat].
  apply NoDup_app. split_and!; [by apply (Hg 0%nat)| |].
  - intros b Hb (i & y & _ & Hin)%elem_of_nested. by apply (Hk 0%nat (S i) x y b) in Hb.
  - apply IH; [intros i y Hy; by apply (Hg (S i))|]. intros i j y z b Hi Hj. by apply (Hk (S i) (S j) y z b Hi) in Hj as [= ->].
Qed.

Lemma NoDup_positions {B} (c : nat → B) n : (∀ i j, c i = c j → i = j) → NoDup (map c (seq 0 n)).
Proof. intros Hc. apply (NoDup_fmap_2_strong c); [intros i j _ _; apply Hc|apply NoDup_seq]. Qed.

Lemma elem_of_positions {B} (c : nat → B) n b : b ∈ map c (seq 0 n) ↔ ∃ i, (i < n)%nat ∧ b = c i.
Proof.
  rewrite (list_elem_of_fmap c). split; [intros (i & -> & Hi%elem_of_seq); exists i; split; [lia|done]|].
  intros (i & Hi & ->). exists i. split; [done|]. apply elem_of_seq. lia.
Qed.

(** The places of a router and of an interface. *)
Definition router_places (i : nat) (r : Router) : list place :=
  map (SwitchBuffer i) (seq 0 (length (switchBuffers (crossbarSwitch r)))) ++
  concat (imap (fun j u => map (InputVC i j) (seq 0 (length (virtualChannels u)))) (m_input_unit r)) ++
  map (OutBuffer i) (seq 0 (length (m_output_unit r))).
Definition ni_places (i : nat) (n : NetworkInterface) : list place :=
  map (NiOutVc i) (seq 0 (length (niOutVcs n))) ++ map (NiOutQueue i) (seq 0 (length (outPorts n))).
Definition write_places (s : Build) : list place :=
  concat (imap router_places (bd_routers s)) ++ concat (imap ni_places (bd_nis s)) ++
  map OnLink (seq 0 (length (m_networklinks s))).
Definition read_places (s : Build) : list place :=
  write_places s ++ map InBridge (seq 0 (length (m_networkbridges s))).

Section places.
Context (s : Build).

Lemma router_places_flits i r : bd_routers s !! i = Some r → concat (map (place_flits s) (router_places i r)) = router_flits r.
Proof.
  intros Hr. unfold router_places, router_flits, xbar_flits. rewrite !map_app, !concat_app, !map_map. f_equal; [|f_equal].
  - symmetry. apply concat_positions. intros j b Hb. unfold place_flits. simpl. by rewrite Hr; simpl; rewrite Hb.
  - apply concat_nested. intros j u Hu. rewrite map_map. symmetry. apply concat_positions.
    intros k v Hv. unfold place_flits. simpl. by rewrite Hr; simpl; rewrite Hu; simpl; rewrite Hv.
  - symmetry. apply concat_positions. intros j o Ho. unfold place_flits. simpl. by rewrite Hr; simpl; rewrite Ho.
Qed.

Lemma ni_places_flits i n : bd_nis s !! i = Some n → concat (map (place_flits s) (ni_places i n)) = ni_flits n.
Proof.
  intros Hn. unfold ni_places, ni_flits. rewrite !map_app, !concat_app, !map_map. f_equal.
  - symmetry. apply concat_positions. intros j b Hb. unfold place_flits. simpl. by rewrite Hn; simpl; rewrite Hb.
  - symmetry. apply concat_positions. intros j q Hq. unfold place_flits. simpl. by rewrite Hn; simpl; rewrite Hq.
Qed.

Lemma link_places_flits c hs :
  (∀ i h, hs !! i = Some h → place_flits s (c i) = flits_at (bw_links (bd_world s)) h) →
  concat (map (place_flits s) (map c (seq 0 (length hs)))) = concat (map (flits_at (bw_links (bd_world s))) hs).
Proof. intros Hc. rewrite map_map. symmetry. by apply concat_positions. Qed.

Lemma write_places_flits :
  concat (map (place_flits s) (write_places s)) =
  concat (map router_flits (bd_routers s)) ++ concat (map ni_flits (bd_nis s)) ++
  concat (map (flits_at (bw_links (bd_world s))) (m_networklinks s)).
Proof.
  unfold write_places. rewrite !map_app, !concat_app. f_equal; [|f_equal].
  - apply concat_nested. apply router_places_flits.
  - apply concat_nested. apply ni_places_flits.
  - apply link_places_flits. intros i h Hh. unfold place_flits, flits_at. simpl. rewrite Hh. simpl.
    by destruct (bw_links (bd_world s) !! h).
Qed.

Lemma read_places_flits :
  concat (map (place_flits s) (read_places s)) =
  concat (map (place_flits s) (write_places s)) ++ concat (map (flits_at (bw_links (bd_world s))) (m_networkbridges s)).
Proof.
  unfold read_places. rewrite map_app, concat_app. f_equal. apply link_places_flits.
  intros i h Hh. unfold place_flits, flits_at. simpl. rewrite Hh. simpl. by destruct (bw_links (bd_world s) !! h).
Qed.

Lemma elem_of_router_places i r p :
  p ∈ router_places i r ↔
  (∃ j, (j < length (switchBuffers (crossbarSwitch r)))%nat ∧ p = SwitchBuffer i j) ∨
  (∃ j u k, m_input_unit r !! j = Some u ∧ (k < length (virtualChannels u))%nat ∧ p = InputVC i j k) ∨
  (∃ j, (j < length (m_output_unit r))%nat ∧ p = OutBuffer i j).
Proof.
  unfold router_places. rewrite !elem_of_app, !elem_of_positions, elem_of_nested.
  setoid_rewrite elem_of_positions. naive_solver.
Qed.

Lemma elem_of_ni_places i n p :
  p ∈ ni_places i n ↔
  (∃ j, (j < length (niOutVcs n))%nat ∧ p = NiOutVc i j) ∨ (∃ j, (j < length (outPorts n))%nat ∧ p = NiOutQueue i j).
Proof. unfold ni_places. by rewrite elem_of_app, !elem_of_positions. Qed.

Lemma elem_of_write_places p :
  p ∈ write_places s ↔
  (∃ i r, bd_routers s !! i = Some r ∧ p ∈ router_places i r) ∨ (∃ i n, bd_nis s !! i = Some n ∧ p ∈ ni_places i n) ∨
  (∃ i, (i < length (m_networklinks s))%nat ∧ p = OnLink i).
Proof. unfold write_places. by rewrite !elem_of_app, !elem_of_nested, elem_of_positions. Qed.

Lemma router_places_NoDup i r : NoDup (router_places i r).
Proof.
  unfold router_places. apply NoDup_app. split_and!; [apply NoDup_positions; naive_solver| |apply NoDup_app; split_and!].
  - intros p (j & _ & ->)%elem_of_positions. rewrite elem_of_app, elem_of_nested, elem_of_positions.
    setoid_rewrite elem_of_positions. naive_solver.
  - apply NoDup_nested; [intros; apply NoDup_positions; naive_solver|].
    intros j j' u u' p (k & _ & ->)%elem_of_positions (k' & _ & E)%elem_of_positions. by injection E.
  - intros p (j & u & _ & (k & _ & ->)%elem_of_positions)%elem_of_nested. rewrite elem_of_positions. naive_solver.
  - apply NoDup_positions. naive_solver.
Qed.

Lemma ni_places_NoDup i n : NoDup (ni_places i n).
Proof.
  unfold ni_places. apply NoDup_app. split_and!; [apply NoDup_positions; naive_solver| |apply NoDup_positions; naive_solver].
  intros p (j & _ & ->)%elem_of_positions. rewrite elem_of_positions. naive_solver.
Qed.

Lemma write_places_NoDup : NoDup (write_places s).
Proof.
  unfold write_places. apply NoDup_app. split_and!; [| |apply NoDup_app; split_and!].
  - apply NoDup_nested; [intros; apply router_places_NoDup|].
    intros i j r r' p Hp Hp'. apply elem_of_router_places in Hp, Hp'. naive_solver.
  - intros p (i & r & _ & Hp)%elem_of_nested. rewrite elem_of_app, elem_of_nested, elem_of_positions.
    setoid_rewrite elem_of_ni_places. apply elem_of_router_places in Hp. naive_solver.
  - apply NoDup_nested; [intros; apply ni_places_NoDup|].
    intros i j n n' p Hp Hp'. apply elem_of_ni_places in Hp, Hp'. naive_solver.
  - intros p (i & n & _ & Hp)%elem_of_nested. rewrite elem_of_positions. apply elem_of_ni_places in Hp. naive_solver.
  - apply NoDup_positions. naive_solver.
Qed.

(** A place with flits belongs to an object of the network. *)
Lemma place_exists p :
  place_flits s p ≠ [] →
  match p with
  | InputVC _ _ _ | SwitchBuffer _ _ | OutBuffer _ _ => ∃ i r, bd_routers s !! i = Some r ∧ p ∈ router_places i r
  | NiOutVc _ _ | NiOutQueue _ _ => ∃ i n, bd_nis s !! i = Some n ∧ p ∈ ni_places i n
  | NiStallQueue _ _ => True
  | OnLink i => (i < length (m_networklinks s))%nat
  | InBridge i => (i < length (m_networkbridges s))%nat
  end.
Proof.
  destruct p as [i j k|i j|i j|i j|i j|i j|i|i]; unfold place_flits; simpl; intros Hp; try done.
  - destruct (bd_routers s !! i) as [r|] eqn:Er; [|done]. simpl in Hp. destruct (m_input_unit r !! j) as [u|] eqn:Eu; [|done].
    simpl in Hp. destruct (virtualChannels u !! k) as [v|] eqn:Ev; [|done]. exists i, r. split; [done|].
    apply elem_of_router_places. right. left. exists j, u, k. split_and!; [done|by eapply lookup_lt_Some|done].
  - destruct (bd_routers s !! i) as [r|] eqn:Er; [|done]. simpl in Hp. destruct (switchBuffers (crossbarSwitch r) !! j) eqn:Eb; [|done].
    exists i, r. split; [done|]. apply elem_of_router_places. left. exists j. split; [by eapply lookup_lt_Some|done].
  - destruct (bd_routers s !! i) as [r|] eqn:Er; [|done]. simpl in Hp. destruct (m_output_unit r !! j) eqn:Eo; [|done].
    exists i, r. split; [done|]. apply elem_of_router_places. right. right. exists j. split; [by eapply lookup_lt_Some|done].
  - destruct (bd_nis s !! i) as [n|] eqn:En; [|done]. simpl in Hp. destruct (niOutVcs n !! j) eqn:Eb; [|done].
    exists i, n. split; [done|]. apply elem_of_ni_places. left. exists j. split; [by eapply lookup_lt_Some|done].
  - destruct (bd_nis s !! i) as [n|] eqn:En; [|done]. simpl in Hp. destruct (outPorts n !! j) eqn:Eb; [|done].
    exists i, n. split; [done|]. apply elem_of_ni_places. right. exists j. split; [by eapply lookup_lt_Some|done].
  - destruct (m_networklinks s !! i) eqn:E; [by eapply lookup_lt_Some|done].
  - destruct (m_networkbridges s !! i) eqn:E; [by eapply lookup_lt_Some|done].
Qed.

Lemma write_places_only p : p ∈ write_places s → write_reaches p = true.
Proof.
  rewrite elem_of_write_places. setoid_rewrite elem_of_router_places. setoid_rewrite elem_of_ni_places. naive_solver.
Qed.

Lemma write_covers : covers s write_reaches (write_places s).
Proof.
  split; [apply write_places_NoDup| |apply write_places_only].
  intros p Hp Hr. apply place_exists in Hp. apply elem_of_write_places. destruct p; naive_solver.
Qed.

Lemma read_covers : covers s read_reaches (read_places s).
Proof.
  unfold read_places. split.
  - apply NoDup_app. split_and!; [apply write_places_NoDup| |apply NoDup_positions; naive_solver].
    intros p Hp%write_places_only (i & _ & ->)%elem_of_positions. done.
  - intros p Hp Hr. apply place_exists in Hp. rewrite elem_of_app, elem_of_positions, elem_of_write_places. destruct p; naive_solver.
  - intros p [Hp%write_places_only|(i & _ & ->)%elem_of_positions]%elem_of_app; [by destruct p|done].
Qed.

End places.

(** C38: The functional accesses reach every flit of the network but those in two
    kinds of places. A functional write is one pass over the flits of the input VCs,
    switch buffers and output buffers of the routers, of the VCs and output queues of
    the interfaces, and of the flit links, each place visited exactly once, and
    returns the number of messages that took part, modulo 2^32; it misses the
    flits in bridges and those in the stall queues of the interfaces. A functional
    read is one pass over the same places and the bridges, and returns whether any
    message took part; it misses the stall queues. The places are found by their
    positions in the network, not by the loops of the code. *)
Theorem functional_accesses_exact {M} (access : MsgPtr → M → bool * M) (s : Build) (m : M) :
  (∀ h, h ∈ m_networklinks s ++ m_networkbridges s → is_Some (bw_links (bd_world s) !! h)) →
  (∃ ps, covers s write_reaches ps ∧
     network_functionalWrite access s m = Ok (as_write (visit access (concat (map (place_flits s) ps)) (0, m)))) ∧
  (∃ ps, covers s read_reaches ps ∧
     network_functionalRead access s m = Ok (as_read (visit access (concat (map (place_flits s) ps)) (0, m)))).
Proof.
  intros Hs. unfold network_functionalWrite, network_functionalRead. split.
  - exists (write_places s). split; [apply write_covers|]. rewrite write_places_flits.
    rewrite !visit_app. change (0, m) with (as_write (0, m)) at 1.
    rewrite (write_all_flits access _ _ _ _ (router_writes_flits access)), (write_all_flits access _ _ _ _ (ni_writes_flits access)).
    apply write_links_flits. intros h Hh. apply Hs, elem_of_app. by left.
  - exists (read_places s). split; [apply read_covers|]. rewrite read_places_flits, write_places_flits.
    change (false, m) with (as_read (0, m)).
    rewrite (read_all_flits access _ _ _ _ (router_reads_flits access)) by done.
    rewrite (read_all_flits access _ _ _ _ (ni_reads_flits access)) by apply visit_nonneg.
    rewrite <-visit_app.
    rewrite read_links_flits; [|intros h Hh; apply Hs, elem_of_app; by left|apply visit_nonneg]. cbn [rbind].
    rewrite <-visit_app, <-!app_assoc.
    rewrite read_links_flits; [|intros h Hh; apply Hs, elem_of_app; by right|apply visit_nonneg].
    by rewrite <-visit_app, <-!app_assoc.
Qed.

(** ** Statistics *)

(** [GarnetNetwork::get_router_id] *)
Definition network_get_router_id (net : Network) (s : Build) (global_ni vnet : Z) : res Z :=
  let* local_ni := getLocalNodeID net global_ni in
  let* n := vec_get (bd_nis s) local_ni in
  ni_get_router_id vnet n.

(** The reported statistics, one entry per virtual network in the lists; the
    averages are exact rationals here and doubles in the source. *)
Record GarnetStats := {
  m_flits_injected : list Z;
  m_flits_received : list Z;
  m_flit_network_latency : list Z;
  m_flit_queueing_latency : list Z;
  m_packets_injected : list Z;
  m_packets_received : list Z;
  m_packet_network_latency : list Z;
  m_packet_queueing_latency : list Z;
  m_total_hops : Z;
  m_total_ext_in_link_utilization : Z;
  m_total_ext_out_link_utilization : Z;
  m_total_int_link_utilization : Z;
  m_average_link_utilization : Q;
  m_average_vc_load : list Q
}.

(** The value of an unsigned int as an int. *)
Definition to_int (x : Z) : Z := if x <? 2 ^ 31 then x else x - 2 ^ 32.

Definition collate_link (time_delta : Z) (l : NetworkLink) (st : GarnetStats) : res GarnetStats :=
  let activity := to_int (m_link_utilized l) in
  let add ty x := if bool_decide (nl_type l = ty) then x + activity else x in
  let* load := for_range 0 (length (m_vc_load l)) (fun j load =>
    let* n := vec_get (m_vc_load l) j in
    vec_upd load j (fun x => Ok (x + inject_Z n / inject_Z time_delta)%Q)) (m_average_vc_load st) in
  Ok {| m_flits_injected := m_flits_injected st; m_flits_received := m_flits_received st;
        m_flit_network_latency := m_flit_network_latency st; m_flit_queueing_latency := m_flit_queueing_latency st;
        m_packets_injected := m_packets_injected st; m_packets_received := m_packets_received st;
        m_packet_network_latency := m_packet_network_latency st;
        m_packet_queueing_latency := m_packet_queueing_latency st; m_total_hops := m_total_hops st;
        m_total_ext_in_link_utilization := add EXT_IN_ (m_total_ext_in_link_utilization st);
        m_total_ext_out_link_utilization := add EXT_OUT_ (m_total_ext_out_link_utilization st);
        m_total_int_link_utilization := add INT_ (m_total_int_link_utilization st);
        m_average_link_utilization := (m_average_link_utilization st + inject_Z activity / inject_Z time_delta)%Q;
        m_average_vc_load := load |}.

(** [x[v] += y[v]] *)
Definition add_at (v : Z) (x y : list Z) : res (list Z) :=
  let* d := vec_get y v in vec_upd x v (fun n => Ok (n + d)).

Definition collate_vnet (ni : NiStats) (v : Z) (st : GarnetStats) : res GarnetStats :=
  let* inj := add_at v (m_flits_injected st) (m_local_flits_injected ni) in
  let* rec := add_at v (m_flits_received st) (m_local_flits_received ni) in
  let* lat := add_at v (m_flit_network_latency st) (m_local_flit_network_latency ni) in
  let* qlat := add_at v (m_flit_queueing_latency st) (m_local_flit_queueing_latency ni) in
  let* pkts_inj := add_at v (m_packets_injected st) (m_local_packets_injected ni) in
  let* pkts_recv := add_at v (m_packets_received st) (m_local_packets_received ni) in
  let* pkt_lat := add_at v (m_packet_network_latency st) (m_local_packet_network_latency ni) in
  let* pkt_qlat := add_at v (m_packet_queueing_latency st) (m_local_packet_queueing_latency ni) in
  Ok {| m_flits_injected := inj; m_flits_received := rec; m_flit_network_latency := lat;
        m_flit_queueing_latency := qlat; m_packets_injected := pkts_inj; m_packets_received := pkts_recv;
        m_packet_network_latency := pkt_lat; m_packet_queueing_latency := pkt_qlat; m_total_hops := m_total_hops st;
        m_total_ext_in_link_utilization := m_total_ext_in_link_utilization st;
        m_total_ext_out_link_utilization := m_total_ext_out_link_utilization st;
        m_total_int_link_utilization := m_total_int_link_utilization st;
        m_average_link_utilization := m_average_link_utilization st; m_average_vc_load := m_average_vc_load st |}.

Definition add_hops (h : Z) (st : GarnetStats) : GarnetStats :=
  {| m_flits_injected := m_flits_injected st; m_flits_received := m_flits_received st;
     m_flit_network_latency := m_flit_network_latency st; m_flit_queueing_latency := m_flit_queueing_latency st;
     m_packets_injected := m_packets_injected st; m_packets_received := m_packets_received st;
     m_packet_network_latency := m_packet_network_latency st;
     m_packet_queueing_latency := m_packet_queueing_latency st; m_total_hops := m_total_hops st + h;
     m_total_ext_in_link_utilization := m_total_ext_in_link_utilization st;
     m_total_ext_out_link_utilization := m_total_ext_out_link_utilization st;
     m_total_int_link_utilization := m_total_int_link_utilization st;
     m_average_link_utilization := m_average_link_utilization st; m_average_vc_load := m_average_vc_load st |}.

Definition collate_ni (n : NetworkInterface) (st : GarnetStats) : res GarnetStats :=
  let ni := ni_stats n in
  let* st := for_range 0 (length (m_local_flits_injected ni)) (collate_vnet ni) st in
  Ok (add_hops (m_local_total_hops ni) st).

Definition with_routers (s : Build) (rs : list Router) : Build := with_objects s rs (bd_nis s) (bd_world s).

(** [GarnetNetwork::collateStats]; [rst] are the statistics of the routers. *)
Definition network_collateStats (time_delta nodes : Z) (s : Build) (rst : list RouterStats) (st : GarnetStats)
    : res (Build * list RouterStats * GarnetStats) :=
  let* st := fold_res (fun h st =>
    let* l := get_link h (bw_links (bd_world s)) in collate_link time_delta l st) (m_networklinks s) st in
  let rs := zip_with router_collateStats (bd_routers s) rst in
  let* st := for_range 0 (Z.to_nat nodes) (fun i st => let* n := vec_get (bd_nis s) i in collate_ni n st) st in
  Ok (with_routers s (map fst rs), map snd rs, st).

(** [GarnetNetwork::resetStats] *)
Definition network_resetStats (s : Build) : res Build :=
  let s := with_routers s (map router_resetStats (bd_routers s)) in
  let reset hs ls := fold_res (fun h ls => upd_link_at h link_resetStats ls) hs ls in
  let* ls := reset (m_networklinks s) (bw_links (bd_world s)) in
  let* ls := reset (m_creditlinks s) ls in
  Ok (with_objects s (bd_routers s) (bd_nis s) (with_bw_links (bd_world s) ls)).

(** ** Examples *)

(** The two-router network with a flit of message 7 on link 9, a flit of message
    8 in the bridge 13, and one injected flit at interface 0. *)
Definition ex_level : Build :=
  match network_init ex_clock ex_cfg ex_line_net ex_objects ex_requests ex_line_nis ex_link_store {[ConsLink 9]} ex_line_new with
  | Ok (_, s, _) =>
      let put h p ls := match ls !! h with
        | Some l => <[h := with_linkBuffer l (insert (new_flit 1 0 0 0 new_RouteInfo 1 p 128 128 500) (linkBuffer l))]> ls
        | None => ls end in
      let nis := match bd_nis s with
        | n :: l => with_nistats n {| m_local_flits_injected := [1]; m_local_flits_received := [0];
              m_local_flit_network_latency := [0]; m_local_flit_queueing_latency := [0]; m_local_total_hops := 0;
              m_local_packets_injected := [1]; m_local_packets_received := [0]; m_local_packet_network_latency := [0];
              m_local_packet_queueing_latency := [0] |} :: l
        | [] => [] end in
      with_objects s (bd_routers s) nis
        (with_bw_links (bd_world s) (put 9 (Some 7) (put 13 (Some 8) (bw_links (bd_world s)))))
  | Err _ => {| bd_routers := []; bd_nis := []; bd_world := ex_link_store; m_networklinks := []; m_creditlinks := [];
                m_networkbridges := []; m_max_vcs_per_vnet := 0 |}
  end.

(** A message store: the numbers of the messages, which the accesses collect. *)
Definition ex_access (p : MsgPtr) (m : list MsgPtr) : bool * list MsgPtr := (bool_decide (is_Some p), m ++ [p]).

Lemma stored_links (ls : Links) (hs : list Z) :
  forallb (fun h => bool_decide (is_Some (ls !! h))) hs = true → ∀ h, h ∈ hs → is_Some (ls !! h).
Proof.
  rewrite forallb_forall. intros H h Hh. specialize (H h). rewrite bool_decide_eq_true in H.
  apply H. by apply list_elem_of_In.
Qed.

Lemma functional_accesses_exact_witness :
  (∃ ps, covers ex_level write_reaches ps ∧
     Ok (1, [Some 7]) = Ok (as_write (visit ex_access (concat (map (place_flits ex_level) ps)) (0, [])))) ∧
  (∃ ps, covers ex_level read_reaches ps ∧
     Ok (true, [Some 7; Some 8]) = Ok (as_read (visit ex_access (concat (map (place_flits ex_level) ps)) (0, [])))).
Proof.
  assert (network_functionalWrite ex_access ex_level [] = Ok (1, [Some 7])) as <- by (vm_compute; reflexivity).
  assert (network_functionalRead ex_access ex_level [] = Ok (true, [Some 7; Some 8])) as <- by (vm_compute; reflexivity).
  apply (functional_accesses_exact ex_access ex_level []). apply stored_links. vm_compute; reflexivity.
Defined.

(** A functional write does not reach the flit in the bridge, which a functional
    read sees. *)
Example write_misses_bridges :
  network_functionalRead ex_access ex_level [] = Ok (true, [Some 7; Some 8]) ∧
  network_functionalWrite ex_access ex_level [] = Ok (1, [Some 7]).
Proof. split; vm_compute; reflexivity. Qed.

(** The same network with the tail of message 9 in the stall queue of an interface:
    neither access sees it. *)
Definition ex_stalled : Build :=
  with_objects ex_level (bd_routers ex_level)
    (map (fun n => with_inPorts n
       (map (fun p => upd_inport p (outCreditQueue p) [new_flit 2 0 0 0 new_RouteInfo 1 (Some 9) 128 128 500] (messageEnqueuedThisCycle p))
          (inPorts n)) (ni_stall_count n)) (bd_nis ex_level)) (bd_world ex_level).

Example accesses_miss_stalled_flits :
  place_flits ex_stalled (NiStallQueue 0 0) = [new_flit 2 0 0 0 new_RouteInfo 1 (Some 9) 128 128 500] ∧
  network_functionalRead ex_access ex_stalled [] = Ok (true, [Some 7; Some 8]) ∧
  network_functionalWrite ex_access ex_stalled [] = Ok (1, [Some 7]).
Proof. split_and!; vm_compute; reflexivity. Qed.

Definition zero_stats : GarnetStats :=
  {| m_flits_injected := [0]; m_flits_received := [0]; m_flit_network_latency := [0]; m_flit_queueing_latency := [0];
     m_packets_injected := [0]; m_packets_received := [0]; m_packet_network_latency := [0];
     m_packet_queueing_latency := [0]; m_total_hops := 0; m_total_ext_in_link_utilization := 0;
     m_total_ext_out_link_utilization := 0; m_total_int_link_utilization := 0; m_average_link_utilization := 0;
     m_average_vc_load := [0%Q; 0%Q; 0%Q; 0%Q] |}.

(** Two dumps with a reset of the objects and of the reported statistics in
    between, and no traffic: the second dump reports the flit again. *)
Example reset_keeps_interface_counters :
  (let* ' (s, rst, st) := network_collateStats 100 2 ex_level [] zero_stats in
   let* s := network_resetStats s in
   let* ' (s, rst, st) := network_collateStats 100 2 s rst zero_stats in
   Ok (m_flits_injected st)) = Ok [1].
Proof. vm_compute; reflexivity. Qed.
