(* ===== verification/FaultModel.v ===== *)
(** * The fault model (mem/ruby/network/fault_model/FaultModel)

    The fault model reads two databases, one of fault probabilities by router
    configuration and one of weights by temperature. The network declares its
    routers to it in [GarnetNetwork::init], and a router can then be asked for the
    probability of each fault type, or of any fault, at a temperature.

    [float] and [double] are the executable IEEE 754 formats of the Standard
    Library ([SpecFloat]) with 24 and 53 bits of precision, so every rounding of
    the source is in the model. The databases of doubles and integers are the
    parameters of the constructor. The two function-local statics of the source,
    which all FaultModel objects share, are the record [FmStatics]. *)

From Stdlib Require Import SpecFloat.
From S2P Require Import Prelude IntMath Clocked Consumer WakeupRing NetDest Flit RoutingUnit VirtualChannel NetworkLink InputUnit OutputUnit SwitchAllocator Router RouterFrame Interleave GarnetNetwork Parallel MessageBuffer NetworkInterface NetworkBridge Topology Construction.

(** ** Floating point *)

Abbreviation float := spec_float.
Abbreviation double := spec_float.

Definition d_mul : double → double → double := SFmul 53 1024.
Definition d_sub : double → double → double := SFsub 53 1024.
Definition d_div : double → double → double := SFdiv 53 1024.
Definition f_mul : float → float → float := SFmul 24 128.

(** [(float)x] of a double and the promotion of a float to double *)
Definition round_to (prec emax : Z) (x : spec_float) : spec_float :=
  match x with S754_finite s m e => binary_round prec emax s m e | _ => x end.
Definition d_to_f (x : double) : float := round_to 24 128 x.
Definition f_to_d (x : float) : double := round_to 53 1024 x.

(** [(float)n] and [(double)n] of an int *)
Definition f_of_int (n : Z) : float := binary_normalize 24 128 n 0 false.
Definition d_of_int (n : Z) : double := binary_normalize 53 1024 n 0 false.

(** [(int)x] of a double: truncation, undefined if the result is not an int *)
Definition d_to_int (x : double) : res Z :=
  match x with
  | S754_zero _ => Ok 0
  | S754_finite s m e =>
      let a := Z.shiftl (Zpos m) e in
      let n := if s then - a else a in
      if (- 2 ^ 31 <=? n) && (n <? 2 ^ 31) then Ok n else Err EUninit
  | _ => Err EUninit
  end.

(** [x < 0] *)
Definition d_negative (x : double) : bool := SFltb x (S754_zero false).

(** ** Data *)

Definition MAX_VCs : Z := 40.
Definition MAX_BUFFERS_per_VC : Z := 5.
Definition BASELINE_TEMPERATURE_CELCIUS : Z := 71.

Inductive fault_type :=
  | data_corruption__few_bits
  | data_corruption__all_bits
  | flit_conservation__flit_duplication
  | flit_conservation__flit_loss_or_split
  | misrouting
  | credit_conservation__credit_generation
  | credit_conservation__credit_loss
  | erroneous_allocation__VC
  | erroneous_allocation__switch
  | unfair_arbitration.

(** The values of the enumeration, in the order of the source. *)
Definition fault_types : list fault_type :=
  [data_corruption__few_bits; data_corruption__all_bits; flit_conservation__flit_duplication;
   flit_conservation__flit_loss_or_split; misrouting; credit_conservation__credit_generation;
   credit_conservation__credit_loss; erroneous_allocation__VC; erroneous_allocation__switch;
   unfair_arbitration].

Definition number_of_fault_types : Z := 10.

(** The formats of the records in the databases. *)
Definition conf_record_buff_per_vc : Z := 0.
Definition conf_record_vcs : Z := 1.
Definition conf_record_first_fault_type : Z := 2.
Definition fields_per_conf_record : Z := conf_record_first_fault_type + number_of_fault_types.
Definition temperature_record_temp : Z := 0.
Definition temperature_record_weight : Z := 1.
Definition fields_per_temperature_record : Z := 2.

Record system_conf := {
  vcs : Z;
  buff_per_vc : Z;
  conf_fault_type : list float
}.

Record FaultModel := {
  configurations : list system_conf;
  fm_routers : list system_conf;
  temperature_weights : list Z
}.

(** [static int first_record] of the constructor and [static int router_index] of
    [declare_router]. *)
Record FmStatics := {
  first_record : bool;
  router_index : Z
}.

Definition initial_statics : FmStatics := {| first_record := true; router_index := 0 |}.

(** ** The constructor *)

(** The record of the database at index [i]. *)
Definition read_conf (db : list double) (i : Z) : res system_conf :=
  let* b := vec_get db (i + conf_record_buff_per_vc) in
  let* b := d_to_int b in
  let* v := vec_get db (i + conf_record_vcs) in
  let* v := d_to_int v in
  let* faults := for_range 0 (Z.to_nat number_of_fault_types) (fun fault_index l =>
    let* x := vec_get db (i + conf_record_first_fault_type + fault_index) in
    Ok (l ++ [d_to_f (d_div x (d_of_int 100))])) [] in
  Ok {| vcs := v; buff_per_vc := b; conf_fault_type := faults |}.

(** The loop over the records; each turn reads the field behind its record. *)
Fixpoint read_confs (fuel : nat) (db : list double) (i : Z) (confs : list system_conf) : res (list system_conf) :=
  match fuel with
  | O => Err EOutOfRange
  | S fuel =>
      let* c := read_conf db i in
      let confs := confs ++ [c] in
      let* next := vec_get db (i + fields_per_conf_record) in
      if d_negative next then Ok confs else read_confs fuel db (i + fields_per_conf_record) confs
  end.

(** A turn of the loop over the temperature records: the padding of the first
    record, the assertion, the weight. *)
Definition read_weight (db : list Z) (i : Z) (first : bool) (weights : list Z) : res (list Z) :=
  let* record_temperature := vec_get db (i + temperature_record_temp) in
  let* record_weight := vec_get db (i + temperature_record_weight) in
  let weights := if first then weights ++ replicate (Z.to_nat record_temperature) 0 else weights in
  let* _ := assert_ "record_temperature == temperature_weights.size()"
              (u64 record_temperature =? Z.of_nat (length weights)) in
  Ok (weights ++ [record_weight]).

Fixpoint read_weights (fuel : nat) (db : list Z) (i : Z) (first : bool) (weights : list Z) : res (list Z) :=
  match fuel with
  | O => Err EOutOfRange
  | S fuel =>
      let* weights := read_weight db i first weights in
      let* next := vec_get db (i + fields_per_temperature_record) in
      if next <? 0 then Ok weights else read_weights fuel db (i + fields_per_temperature_record) false weights
  end.

(** [FaultModel::FaultModel] *)
Definition new_FaultModel (baseline_fault_vector_database : list double)
    (temperature_weights_database : list Z) (st : FmStatics) : res (FaultModel * FmStatics) :=
  let* confs := read_confs (length baseline_fault_vector_database) baseline_fault_vector_database 0 [] in
  let* weights := read_weights (length temperature_weights_database) temperature_weights_database 0
                    (first_record st) [] in
  Ok ({| configurations := confs; fm_routers := []; temperature_weights := weights |},
      {| first_record := false; router_index := router_index st |}).

(** [FaultModel::fault_type_to_string] *)
Definition fault_name (t : fault_type) : string :=
  match t with
  | data_corruption__few_bits => "data_corruption__few_bits"
  | data_corruption__all_bits => "data_corruption__all_bits"
  | flit_conservation__flit_duplication => "flit_conservation__flit_duplication"
  | flit_conservation__flit_loss_or_split => "flit_conservation__flit_loss_or_split"
  | misrouting => "misrouting"
  | credit_conservation__credit_generation => "credit_conservation__credit_generation"
  | credit_conservation__credit_loss => "credit_conservation__credit_loss"
  | erroneous_allocation__VC => "erroneous_allocation__VC"
  | erroneous_allocation__switch => "erroneous_allocation__switch"
  | unfair_arbitration => "unfair_arbitration"
  end.

Definition fault_type_to_string (ft : Z) : string :=
  match vec_get fault_types ft with Ok t => fault_name t | Err _ => "none" end.

(** ** Routers *)

(** The loop that links a router to a record of the database. *)
Definition find_record (confs : list system_conf) (buffers total : Z) : res Z :=
  for_range 0 (length confs) (fun record record_hit =>
    let* c := vec_get confs record in
    Ok (if (buff_per_vc c =? buffers) && (vcs c =? total) then record else record_hit)) (-1).

(** [FaultModel::declare_router] *)
Definition declare_router (number_of_inputs number_of_outputs number_of_vcs_per_input number_of_buff_per_data_vc
    number_of_buff_per_ctrl_vc : Z) (fm : FaultModel) (st : FmStatics) : res (Z * FaultModel * FmStatics) :=
  if (number_of_inputs <=? 0) || (number_of_outputs <=? 0) || (number_of_vcs_per_input <=? 0) ||
     (number_of_buff_per_data_vc <=? 0) || (number_of_buff_per_ctrl_vc <=? 0)
  then Err (EFatal "ERROR in argument of FaultModel_declare_router!")
  else
    let number_of_buffers_per_vc := Z.max number_of_buff_per_data_vc number_of_buff_per_ctrl_vc in
    let total_vcs := number_of_inputs * number_of_vcs_per_input in
    if MAX_VCs <? total_vcs then Err (EFatal "Number inputs*VCs (MAX_VCs) unsupported")
    else if MAX_BUFFERS_per_VC <? number_of_buffers_per_vc
    then Err (EFatal "buffers/VC (MAX_BUFFERS_per_VC) too high")
    else
      let* record_hit := find_record (configurations fm) number_of_buffers_per_vc total_vcs in
      if record_hit =? -1 then Err (EPanic "configuration not found in DB. BUG?")
      else
        let* c := vec_get (configurations fm) record_hit in
        Ok (router_index st,
            {| configurations := configurations fm; fm_routers := fm_routers fm ++ [c];
               temperature_weights := temperature_weights fm |},
            {| first_record := first_record st; router_index := router_index st + 1 |}).

(** ** Queries *)

(** The temperature used for a query, and the success flag. *)
Definition bound_temperature (fm : FaultModel) (temperature_input : Z) : Z * bool :=
  let size := Z.of_nat (length (temperature_weights fm)) in
  if size <=? temperature_input then (size - 1, false)
  else if temperature_input <? 0 then (0, false)
  else (temperature_input, true).

Definition check_router (fm : FaultModel) (routerID : Z) : res unit :=
  if (routerID <? 0) || (Z.of_nat (length (fm_routers fm)) <=? routerID)
  then Err (EFatal "Did you enable the fault model flag)?") else Ok tt.

(** [routers[routerID].fault_type[i] * ((float)temperature_weights[temperature])] *)
Definition weighted_fault (fm : FaultModel) (routerID temperature i : Z) : res float :=
  let* c := vec_get (fm_routers fm) routerID in
  let* x := vec_get (conf_fault_type c) i in
  let* w := vec_get (temperature_weights fm) temperature in
  Ok (f_mul x (f_of_int w)).

(** [FaultModel::fault_vector] with the vector written and the flag returned *)
Definition fault_vector (fm : FaultModel) (routerID temperature_input : Z) : res (list float * bool) :=
  let* _ := check_router fm routerID in
  let ' (temperature, ok) := bound_temperature fm temperature_input in
  let* v := for_range 0 (Z.to_nat number_of_fault_types) (fun i v =>
    let* x := weighted_fault fm routerID temperature i in Ok (v ++ [x])) [] in
  Ok (v, ok).

(** A turn of the product in [fault_prob]; the source computes in doubles and
    rounds the product to a float. *)
Definition aggregate_step (aggregate x : float) : float :=
  d_to_f (d_mul (f_to_d aggregate) (d_sub (d_of_int 1) (f_to_d x))).

Definition complement (aggregate : float) : float := d_to_f (d_sub (d_of_int 1) (f_to_d aggregate)).

(** [FaultModel::fault_prob] *)
Definition fault_prob (fm : FaultModel) (routerID temperature_input : Z) : res (float * bool) :=
  let* _ := check_router fm routerID in
  let ' (temperature, ok) := bound_temperature fm temperature_input in
  let* a := for_range 0 (Z.to_nat number_of_fault_types) (fun i a =>
    let* x := weighted_fault fm routerID temperature i in Ok (aggregate_step a x)) (f_of_int 1) in
  Ok (complement a, ok).

(** ** The network and its routers *)

(** [Router::get_fault_vector], [Router::get_aggregate_fault_probability] *)
Definition get_fault_vector (fm : FaultModel) (r : Router) (temperature : Z) : res (list float * bool) :=
  fault_vector fm (r_id (core r)) temperature.

Definition get_aggregate_fault_probability (fm : FaultModel) (r : Router) (temperature : Z) : res (float * bool) :=
  fault_prob fm (r_id (core r)) temperature.

(** What the two print functions write, as data. *)
Inductive fault_report :=
  | FaultProbability (router : Z) (p : float)
  | FaultVector (router : Z) (lines : list (string * float)).

Definition printAggregateFaultProbability (fm : FaultModel) (r : Router) : res fault_report :=
  let* ' (p, _) := get_aggregate_fault_probability fm r BASELINE_TEMPERATURE_CELCIUS in
  Ok (FaultProbability (r_id (core r)) p).

Definition printFaultVector (fm : FaultModel) (r : Router) : res fault_report :=
  let* ' (v, _) := get_fault_vector fm r BASELINE_TEMPERATURE_CELCIUS in
  let* lines := for_range 0 (Z.to_nat number_of_fault_types) (fun i l =>
    let* x := vec_get v i in Ok (l ++ [(fault_type_to_string i, x)])) [] in
  Ok (FaultVector (r_id (core r)) lines).

(** The loop of [GarnetNetwork::init] that declares the routers, with what it
    prints. *)
Definition declare_one (cfg : NetConfig) (r : Router) (s : FaultModel * FmStatics * list fault_report) :
    res (FaultModel * FmStatics * list fault_report) :=
  let ' (fm, st, out) := s in
  let* ' (router_id, fm, st) := declare_router (Z.of_nat (length (m_input_unit r))) (Z.of_nat (length (m_output_unit r)))
    (r_vc_per_vnet (core r)) (getBuffersPerDataVC cfg) (getBuffersPerCtrlVC cfg) fm st in
  let* _ := assert_ "router_id == router->get_id()" (router_id =? r_id (core r)) in
  let* o1 := printAggregateFaultProbability fm r in
  let* o2 := printFaultVector fm r in
  Ok (fm, st, out ++ [o1; o2]).

Definition declare_routers (cfg : NetConfig) (rs : list Router) (fm : FaultModel) (st : FmStatics) :
    res (FaultModel * FmStatics * list fault_report) :=
  fold_res (declare_one cfg) rs (fm, st, []).

(** [GarnetNetwork::init] of a network with its fault model enabled: the routers
    are declared once the links have been made. *)
Definition network_init_faults (env : ClockEnv) (cfg : NetConfig) (net : Network) (objects : gmap Z GarnetLink)
    (reqs : list link_request) (nis : list NetworkInterface) (w : BridgeWorld) (cs : gset consumer_ref)
    (n : GarnetNetwork) (fm : FaultModel) (st : FmStatics) :
    res (GarnetNetwork * Build * (Z * Z) * (FaultModel * FmStatics * list fault_report)) :=
  let* ' (n, s, dims) := network_init env cfg net objects reqs nis w cs n in
  let* f := declare_routers cfg (bd_routers s) fm st in
  Ok (n, s, dims, f).

(** ** Reading the databases *)

Lemma vec_get_end {A} (l : list A) i : Z.of_nat (length l) ≤ i → vec_get l i = Err EOutOfRange.
Proof. intros Hi. unfold vec_get. destruct (0 <=? i); [|done]. by rewrite lookup_ge_None_2 by lia. Qed.

Lemma vec_get_app_mid {A} (pre l post : list A) (k : Z) x :
  vec_get l k = Ok x → vec_get (pre ++ l ++ post) (Z.of_nat (length pre) + k) = Ok x.
Proof.
  intros [Hk Hx]%vec_get_ok. apply vec_get_ok. split; [lia|].
  rewrite lookup_app_r by lia. replace (_ - _)%nat with (Z.to_nat k) by lia.
  by apply lookup_app_l_Some.
Qed.

Lemma vec_get_app_head {A} (pre : list A) x post : vec_get (pre ++ x :: post) (Z.of_nat (length pre)) = Ok x.
Proof. rewrite <- (Z.add_0_r (Z.of_nat _)). by apply (vec_get_app_mid pre [x] post 0). Qed.

(** A loop that folds over the elements of a list, and one that collects them. *)
Lemma for_range_fold {A S} (f : S → A → S) (xs : list A) body lo s :
  (∀ i x s, xs !! i = Some x → body (lo + Z.of_nat i) s = Ok (f s x)) →
  for_range lo (length xs) body s = Ok (foldl f s xs).
Proof.
  revert lo s. induction xs as [|x xs IH]; intros lo s Hbody; simpl; [done|].
  specialize (Hbody 0%nat) as H0. rewrite Z.add_0_r in H0. rewrite (H0 x s eq_refl). simpl. apply IH.
  intros i y s' Hy. specialize (Hbody (Datatypes.S i) y s' Hy).
  by replace (lo + 1 + Z.of_nat i) with (lo + Z.of_nat (Datatypes.S i)) by lia.
Qed.

Lemma for_range_collect {A} (xs : list A) body lo l :
  (∀ i x l, xs !! i = Some x → body (lo + Z.of_nat i) l = Ok (l ++ [x])) →
  for_range lo (length xs) body l = Ok (l ++ xs).
Proof.
  intros Hbody. rewrite (for_range_fold (fun l x => l ++ [x]) xs) by done. f_equal. clear Hbody.
  revert l. induction xs as [|x xs IH]; intros l; simpl; [by rewrite app_nil_r|]. by rewrite IH, <- app_assoc.
Qed.

(** The loops read the first field of a record in every turn, so as many turns as
    the database has fields are enough: more of them make no difference. *)
Lemma read_confs_fuel f1 f2 db i confs :
  0 ≤ i → Z.of_nat (length db) ≤ i + Z.of_nat f1 → Z.of_nat (length db) ≤ i + Z.of_nat f2 →
  read_confs f1 db i confs = read_confs f2 db i confs.
Proof.
  revert f2 i confs. induction f1 as [|f1 IH]; intros [|f2] i confs Hi H1 H2; simpl; [done|..].
  - unfold read_conf, conf_record_buff_per_vc. by rewrite vec_get_end by lia.
  - unfold read_conf, conf_record_buff_per_vc. by rewrite vec_get_end by lia.
  - destruct (read_conf db i); [|done]. simpl. destruct (vec_get db _); [|done]. simpl.
    destruct (d_negative _); [done|]. unfold fields_per_conf_record, conf_record_first_fault_type, number_of_fault_types.
    apply IH; lia.
Qed.

Lemma read_weights_fuel f1 f2 db i first ws :
  0 ≤ i → Z.of_nat (length db) ≤ i + Z.of_nat f1 → Z.of_nat (length db) ≤ i + Z.of_nat f2 →
  read_weights f1 db i first ws = read_weights f2 db i first ws.
Proof.
  revert f2 i first ws. induction f1 as [|f1 IH]; intros [|f2] i first ws Hi H1 H2; simpl; [done|..].
  - unfold read_weight, temperature_record_temp. by rewrite vec_get_end by lia.
  - unfold read_weight, temperature_record_temp. by rewrite vec_get_end by lia.
  - destruct (read_weight db i first ws); [|done]. simpl. destruct (vec_get db _); [|done]. simpl.
    destruct (_ <? 0); [done|]. unfold fields_per_temperature_record. apply IH; lia.
Qed.

(** What a record of twelve fields means. *)
Definition conf_of (fields : list double) (c : system_conf) : Prop :=
  ∃ b v faults, fields = b :: v :: faults ∧ d_to_int b = Ok (buff_per_vc c) ∧ d_to_int v = Ok (vcs c) ∧
    length faults = 10%nat ∧ conf_fault_type c = map (fun x => d_to_f (d_div x (d_of_int 100))) faults.

Lemma conf_of_length fields c : conf_of fields c → length fields = 12%nat.
Proof. intros (b & v & faults & -> & _ & _ & Hl & _). simpl. lia. Qed.

Lemma read_conf_at pre fields post c :
  conf_of fields c → read_conf (pre ++ fields ++ post) (Z.of_nat (length pre)) = Ok c.
Proof.
  intros (b & v & faults & -> & Hb & Hv & Hl & Hf). unfold read_conf.
  rewrite (vec_get_app_mid pre (b :: v :: faults) post conf_record_buff_per_vc b eq_refl). cbn [rbind]. rewrite Hb. cbn [rbind].
  rewrite (vec_get_app_mid pre (b :: v :: faults) post conf_record_vcs v eq_refl). cbn [rbind]. rewrite Hv. cbn [rbind].
  set (xs := map (fun x => d_to_f (d_div x (d_of_int 100))) faults).
  assert (length xs = 10%nat) as Hx by (unfold xs; by rewrite length_map).
  change (Z.to_nat number_of_fault_types) with 10%nat. rewrite <- Hx. rewrite (for_range_collect xs).
  - simpl. destruct c as [cv cb cf]. simpl in *. by rewrite Hf.
  - intros i y l (x & -> & Hy)%list_lookup_fmap_Some.
    unfold conf_record_first_fault_type. rewrite <- Z.add_assoc.
    rewrite (vec_get_app_mid pre (b :: v :: faults) post _ x); [done|].
    apply vec_get_ok. split; [lia|]. by replace (Z.to_nat (2 + (0 + Z.of_nat i))) with (S (S i)) by lia.
Qed.

(** The first field of a record does not end the database. *)
Definition continues (fields : list double) : Prop := ∃ b l, fields = b :: l ∧ d_negative b = false.

(** The database with the records [recs]. *)
Definition conf_database (recs : list (list double)) (last : double) (rest : list double) : list double :=
  concat recs ++ last :: rest.

Lemma read_confs_exact recs cs pre acc last rest fuel :
  Forall2 conf_of recs cs → recs ≠ [] → Forall continues (tail recs) → d_negative last = true →
  (length recs ≤ fuel)%nat →
  read_confs fuel (pre ++ conf_database recs last rest) (Z.of_nat (length pre)) acc = Ok (acc ++ cs).
Proof.
  intros Hr. revert pre acc fuel. induction Hr as [|fields c recs cs Hc Hr IH]; intros pre acc fuel Hne Hcont Hlast Hfuel; [done|].
  destruct fuel as [|fuel]; simpl in *; [lia|]. unfold conf_database. simpl. rewrite <- app_assoc.
  rewrite (read_conf_at _ _ _ c) by done. simpl.
  replace (Z.of_nat (length pre) + fields_per_conf_record) with (Z.of_nat (length (pre ++ fields)))
    by (rewrite length_app, (conf_of_length _ _ Hc); unfold fields_per_conf_record, conf_record_first_fault_type,
        number_of_fault_types; lia).
  rewrite app_assoc. specialize (IH (pre ++ fields) (acc ++ [c]) fuel).
  destruct Hr as [|fields' c' recs cs Hc' Hr].
  - simpl. rewrite vec_get_app_head. simpl. by rewrite Hlast.
  - apply Forall_cons in Hcont as [(b & l & -> & Hb) Hcont].
    change (c :: c' :: cs) with ([c] ++ c' :: cs). rewrite (app_assoc acc), <- IH; [|done..|simpl in *; lia].
    unfold conf_database. simpl. rewrite vec_get_app_head. simpl. by rewrite Hb.
Qed.

(** The records of the weights [ws] of the temperatures from [t] on. *)
Fixpoint weight_records (t : Z) (ws : list Z) : list Z :=
  match ws with [] => [] | w :: ws => t :: w :: weight_records (t + 1) ws end.

Definition weight_database (t : Z) (ws : list Z) (last : Z) (rest : list Z) : list Z :=
  weight_records t ws ++ last :: rest.

Lemma read_weight_at pre t w post (first : bool) (acc : list Z) :
  0 ≤ t < 2 ^ 64 → Z.of_nat (length (if first then acc ++ replicate (Z.to_nat t) 0 else acc)) = t →
  read_weight (pre ++ [t; w] ++ post) (Z.of_nat (length pre)) first acc =
  Ok ((if first then acc ++ replicate (Z.to_nat t) 0 else acc) ++ [w]).
Proof.
  intros Ht Hlen. unfold read_weight.
  rewrite (vec_get_app_mid pre [t; w] post temperature_record_temp t eq_refl). cbn [rbind].
  rewrite (vec_get_app_mid pre [t; w] post temperature_record_weight w eq_refl). cbn [rbind].
  rewrite Hlen. unfold u64. rewrite Z.mod_small by lia. by rewrite Z.eqb_refl.
Qed.

Lemma read_weights_exact ws t pre (first : bool) (acc : list Z) last rest fuel :
  0 ≤ t → t + Z.of_nat (length ws) ≤ 2 ^ 64 → ws ≠ [] → last < 0 → (length ws ≤ fuel)%nat →
  Z.of_nat (length (if first then acc ++ replicate (Z.to_nat t) 0 else acc)) = t →
  read_weights fuel (pre ++ weight_database t ws last rest) (Z.of_nat (length pre)) first acc =
  Ok ((if first then acc ++ replicate (Z.to_nat t) 0 else acc) ++ ws).
Proof.
  revert t pre first acc fuel. induction ws as [|w ws IH]; intros t pre first acc fuel Ht Hmax Hne Hlast Hfuel Hlen; [done|].
  destruct fuel as [|fuel]; simpl in Hfuel, Hmax; [lia|].
  unfold weight_database. change (weight_records t (w :: ws)) with ([t; w] ++ weight_records (t + 1) ws).
  rewrite <- app_assoc. cbn [read_weights]. rewrite read_weight_at by (done || lia). cbn [rbind].
  replace (Z.of_nat (length pre) + fields_per_temperature_record) with (Z.of_nat (length (pre ++ [t; w])))
    by (rewrite length_app; unfold fields_per_temperature_record; simpl; lia).
  set (acc' := _ ++ [w]). specialize (IH (t + 1) (pre ++ [t; w]) false acc' fuel).
  rewrite (app_assoc pre [t; w]). destruct ws as [|w' ws].
  - change (weight_records (t + 1) [] ++ last :: rest) with (last :: rest). rewrite vec_get_app_head. simpl.
    by rewrite (proj2 (Z.ltb_lt last 0) Hlast).
  - unfold weight_database in IH.
    change (weight_records (t + 1) (w' :: ws) ++ last :: rest)
      with (t + 1 :: w' :: weight_records (t + 1 + 1) ws ++ last :: rest) in *.
    rewrite vec_get_app_head. cbn [rbind]. rewrite (proj2 (Z.ltb_ge (t + 1) 0)) by lia.
    rewrite IH by (try done; try lia; unfold acc'; rewrite length_app; simpl in *; lia).
    unfold acc'. by rewrite <- app_assoc.
Qed.

Lemma conf_database_length recs cs last rest :
  Forall2 conf_of recs cs → (length recs ≤ length (conf_database recs last rest))%nat.
Proof.
  unfold conf_database. induction 1 as [|fields c recs cs Hc Hr IH]; simpl; [lia|].
  rewrite <- app_assoc, length_app, (conf_of_length _ _ Hc). lia.
Qed.

Lemma weight_database_length t ws last rest : (length ws ≤ length (weight_database t ws last rest))%nat.
Proof.
  unfold weight_database. revert t. induction ws as [|w ws IH]; intros t; simpl; [lia|]. specialize (IH (t + 1)). lia.
Qed.

(** The first fault model of a simulation gets exactly the records before the
    first negative field, and weight 0 below the first temperature. *)
Lemma new_FaultModel_reads recs cs last rest t ws tlast trest st :
  Forall2 conf_of recs cs → recs ≠ [] → Forall continues (tail recs) → d_negative last = true →
  0 ≤ t → t + Z.of_nat (length ws) ≤ 2 ^ 64 → ws ≠ [] → tlast < 0 → first_record st = true →
  new_FaultModel (conf_database recs last rest) (weight_database t ws tlast trest) st =
  Ok ({| configurations := cs; fm_routers := []; temperature_weights := replicate (Z.to_nat t) 0 ++ ws |},
      {| first_record := false; router_index := router_index st |}).
Proof.
  intros Hr Hne Hc Hl Ht Hmax Hws Htl Hfirst. unfold new_FaultModel.
  rewrite (read_confs_exact recs cs [] [] last rest) by eauto using conf_database_length. simpl. rewrite Hfirst.
  rewrite (read_weights_exact ws t [] true [] tlast trest); try done.
  - apply weight_database_length.
  - simpl. rewrite length_replicate. lia.
Qed.

(** A second fault model of the same simulation finds [first_record] cleared,
    pads nothing, and fails its assertion unless its database starts at 0. *)
Lemma second_fault_model_fails recs cs last rest t ws tlast trest st :
  Forall2 conf_of recs cs → recs ≠ [] → Forall continues (tail recs) → d_negative last = true →
  0 < t < 2 ^ 64 → ws ≠ [] → first_record st = false →
  new_FaultModel (conf_database recs last rest) (weight_database t ws tlast trest) st =
  Err (EAssert "record_temperature == temperature_weights.size()").
Proof.
  intros Hr Hne Hc Hl Ht Hws Hfirst. unfold new_FaultModel.
  rewrite (read_confs_exact recs cs [] [] last rest) by eauto using conf_database_length. simpl. rewrite Hfirst.
  assert ((u64 t =? 0) = false) as Ht0 by (unfold u64; rewrite Z.mod_small by lia; lia).
  assert (∀ w l, read_weight (t :: w :: l) 0 false [] = Err (EAssert "record_temperature == temperature_weights.size()")) as Hw.
  { intros w l. unfold read_weight. change (vec_get (t :: w :: l) (0 + temperature_record_temp)) with (Ok t).
    change (vec_get (t :: w :: l) (0 + temperature_record_weight)) with (Ok w). cbn [rbind length]. change (Z.of_nat 0) with 0. by rewrite Ht0. }
  destruct ws as [|w ws]; [done|]. cbn -[read_weight]. by rewrite Hw.
Qed.

(** ** Declaring routers *)

Definition conf_matches (buffers total : Z) (c : system_conf) : bool :=
  (buff_per_vc c =? buffers) && (vcs c =? total).

(** [c] is the last record for a configuration. *)
Definition last_record (confs : list system_conf) (buffers total : Z) (c : system_conf) : Prop :=
  ∃ pre post, confs = pre ++ c :: post ∧ conf_matches buffers total c = true ∧
    Forall (fun c' => conf_matches buffers total c' = false) post.

Lemma last_record_unique confs b v c1 c2 : last_record confs b v c1 → last_record confs b v c2 → c1 = c2.
Proof.
  intros (p1 & q1 & -> & H1 & F1) (p2 & q2 & Heq & H2 & F2).
  revert p2 Heq. induction p1 as [|x p1 IH]; intros [|y p2] Heq; simplify_eq/=; [done|..|by eapply IH].
  - apply Forall_app in F1 as [_ [? _]%Forall_cons]. congruence.
  - apply Forall_app in F2 as [_ [? _]%Forall_cons]. congruence.
Qed.

(** The loop over the records: the index of the last record for the
    configuration, or -1. *)
Lemma find_record_spec confs b v :
  (find_record confs b v = Ok (-1) ∧ Forall (fun c => conf_matches b v c = false) confs) ∨
  (∃ k c, find_record confs b v = Ok k ∧ 0 ≤ k ∧ vec_get confs k = Ok c ∧ last_record confs b v c).
Proof.
  unfold find_record.
  destruct (for_range_ok (fun i k => let l := take (Z.to_nat i) confs in
      (k = -1 ∧ Forall (fun c => conf_matches b v c = false) l) ∨
      (∃ c, 0 ≤ k ∧ vec_get confs k = Ok c ∧ last_record l b v c))
    0 (length confs) (fun record record_hit =>
      let* c := vec_get confs record in
      Ok (if (buff_per_vc c =? b) && (vcs c =? v) then record else record_hit)) (-1)) as (k & -> & Hk).
  - left. split; [done|]. constructor.
  - intros i k Hi HP. destruct (vec_get_in_range confs i) as [c Hc]; [lia|]. rewrite Hc. simpl.
    eexists. split; [reflexivity|]. apply vec_get_ok in Hc as [_ Hc].
    replace (Z.to_nat (i + 1)) with (S (Z.to_nat i)) by lia. rewrite (take_S_r _ _ c) by done.
    change ((buff_per_vc c =? b) && (vcs c =? v)) with (conf_matches b v c).
    destruct (conf_matches b v c) eqn:Hm.
    + right. exists c. split_and!; [lia|apply vec_get_ok; split; [lia|done]|]. exists (take (Z.to_nat i) confs), []. done.
    + destruct HP as [[-> HF]|(d & ? & ? & pre & post & -> & ? & ?)].
      * left. split; [done|]. apply Forall_app. by repeat constructor.
      * right. exists d. split_and!; [done..|]. exists pre, (post ++ [c]). split_and!; [by rewrite <- app_assoc|done|].
        apply Forall_app. by repeat constructor.
  - rewrite Z.add_0_l, Nat2Z.id, firstn_all in Hk. destruct Hk as [[-> ?]|(c & ? & ? & ?)]; [by left|].
    right. by exists k, c.
Qed.

(** What [declare_router] accepts. *)
Definition legal_router (ins outs vcs_in data ctrl : Z) : Prop :=
  0 < ins ∧ 0 < outs ∧ 0 < vcs_in ∧ 0 < data ∧ 0 < ctrl ∧ ins * vcs_in ≤ MAX_VCs ∧ Z.max data ctrl ≤ MAX_BUFFERS_per_VC.

Definition add_router (c : system_conf) (fm : FaultModel) : FaultModel :=
  {| configurations := configurations fm; fm_routers := fm_routers fm ++ [c]; temperature_weights := temperature_weights fm |}.

Definition next_router (st : FmStatics) : FmStatics :=
  {| first_record := first_record st; router_index := router_index st + 1 |}.

(** [declare_router] succeeds exactly on legal arguments whose configuration is
    in the database; it then links the router to the last such record. *)
Lemma declare_router_exact ins outs vcs_in data ctrl fm st id fm' st' :
  declare_router ins outs vcs_in data ctrl fm st = Ok (id, fm', st') ↔
  legal_router ins outs vcs_in data ctrl ∧
  ∃ c, last_record (configurations fm) (Z.max data ctrl) (ins * vcs_in) c ∧
    id = router_index st ∧ fm' = add_router c fm ∧ st' = next_router st.
Proof.
  unfold declare_router, legal_router.
  destruct (Z.leb_spec ins 0), (Z.leb_spec outs 0), (Z.leb_spec vcs_in 0), (Z.leb_spec data 0), (Z.leb_spec ctrl 0);
    simpl; try (split; [done|intros [? _]; lia]).
  destruct (Z.ltb_spec MAX_VCs (ins * vcs_in)); [split; [done|intros [? _]; lia]|].
  destruct (Z.ltb_spec MAX_BUFFERS_per_VC (Z.max data ctrl)); [split; [done|intros [? _]; lia]|].
  destruct (find_record_spec (configurations fm) (Z.max data ctrl) (ins * vcs_in)) as [[-> HF]|(k & c & -> & Hk & Hc & Hl)]; simpl.
  - split; [done|]. intros (_ & c & (pre & post & Heq & Hm & _) & _). rewrite Heq in HF.
    apply Forall_app in HF as [_ [? _]%Forall_cons]. congruence.
  - rewrite (proj2 (Z.eqb_neq k (-1))) by lia. rewrite Hc. simpl. split.
    + intros [= <- <- <-]. split; [lia|]. by exists c.
    + intros (_ & d & Hd & -> & -> & ->). by rewrite (last_record_unique _ _ _ _ _ Hd Hl).
Qed.

(** ** Queries *)

(** The weight that counts at a temperature: that of the nearest temperature of
    the table. *)
Definition weight_at (fm : FaultModel) (T : Z) : Z :=
  default 0 (temperature_weights fm !! Z.to_nat (Z.min T (Z.of_nat (length (temperature_weights fm)) - 1))).

Definition known_temperature (fm : FaultModel) (T : Z) : bool :=
  (0 <=? T) && (T <? Z.of_nat (length (temperature_weights fm))).

(** The probabilities of the fault types of a configuration under a weight, and of
    at least one of them. *)
Definition weighted (w : Z) (c : system_conf) : list float := map (fun x => f_mul x (f_of_int w)) (conf_fault_type c).
Definition any_fault (ps : list float) : float := complement (foldl aggregate_step (f_of_int 1) ps).

Lemma bound_temperature_spec fm T :
  temperature_weights fm ≠ [] →
  ∃ t, bound_temperature fm T = (t, known_temperature fm T) ∧ vec_get (temperature_weights fm) t = Ok (weight_at fm T).
Proof.
  intros Hne. unfold bound_temperature, known_temperature, weight_at. set (n := Z.of_nat _).
  assert (0 < n) by (unfold n; destruct (temperature_weights fm); simpl; [done|lia]).
  assert (Hget : ∀ t, 0 ≤ t < n → vec_get (temperature_weights fm) t = Ok (default 0 (temperature_weights fm !! Z.to_nat t))).
  { intros t Ht. destruct (vec_get_in_range (temperature_weights fm) t) as [x Hx]; [done|].
    rewrite Hx. by apply vec_get_ok in Hx as [_ ->]. }
  destruct (Z.leb_spec n T).
  - exists (n - 1). rewrite (proj2 (Z.ltb_ge T n)), andb_false_r by lia. split; [done|]. rewrite Hget by lia.
    by rewrite Z.min_r by lia.
  - destruct (Z.ltb_spec T 0).
    + exists 0. rewrite (proj2 (Z.leb_gt 0 T)) by lia. split; [done|]. rewrite Hget by lia.
      by replace (Z.to_nat (Z.min T (n - 1))) with (Z.to_nat 0) by lia.
    + exists T. rewrite (proj2 (Z.leb_le 0 T)), (proj2 (Z.ltb_lt T n)) by lia. split; [done|]. rewrite Hget by lia.
      by rewrite Z.min_l by lia.
Qed.

Section query.
Context (fm : FaultModel) (i : nat) (c : system_conf).
Hypothesis Hi : fm_routers fm !! i = Some c.
Hypothesis Hten : length (conf_fault_type c) = 10%nat.
Hypothesis Hne : temperature_weights fm ≠ [].

Lemma check_router_ok : check_router fm (Z.of_nat i) = Ok tt.
Proof using Hi.
  clear Hten. unfold check_router. apply lookup_lt_Some in Hi.
  rewrite (proj2 (Z.ltb_ge (Z.of_nat i) 0)), (proj2 (Z.leb_gt (Z.of_nat (length (fm_routers fm))) (Z.of_nat i))) by lia. done.
Qed.

Lemma weighted_fault_ok t w k x :
  vec_get (temperature_weights fm) t = Ok w → weighted w c !! k = Some x →
  weighted_fault fm (Z.of_nat i) t (Z.of_nat k) = Ok x.
Proof using Hi.
  intros Hw (y & -> & Hy)%list_lookup_fmap_Some. unfold weighted_fault.
  rewrite (proj2 (vec_get_ok _ (Z.of_nat i) c)) by (rewrite Nat2Z.id; auto using Nat2Z.is_nonneg). simpl.
  rewrite (proj2 (vec_get_ok _ (Z.of_nat k) y)) by (rewrite Nat2Z.id; auto using Nat2Z.is_nonneg). simpl. by rewrite Hw.
Qed.

Lemma fault_vector_exact T :
  fault_vector fm (Z.of_nat i) T = Ok (weighted (weight_at fm T) c, known_temperature fm T).
Proof using Hi Hten Hne.
  unfold fault_vector. rewrite check_router_ok. cbn [rbind].
  destruct (bound_temperature_spec fm T Hne) as (t & -> & Ht).
  assert (length (weighted (weight_at fm T) c) = Z.to_nat number_of_fault_types) as <-
    by (unfold weighted; by rewrite length_map, Hten).
  rewrite (for_range_collect (weighted (weight_at fm T) c)); [done|].
  intros k x l Hx. rewrite Z.add_0_l. by rewrite (weighted_fault_ok _ _ _ _ Ht Hx).
Qed.

Lemma fault_prob_exact T :
  fault_prob fm (Z.of_nat i) T = Ok (any_fault (weighted (weight_at fm T) c), known_temperature fm T).
Proof using Hi Hten Hne.
  unfold fault_prob. rewrite check_router_ok. cbn [rbind].
  destruct (bound_temperature_spec fm T Hne) as (t & -> & Ht).
  assert (length (weighted (weight_at fm T) c) = Z.to_nat number_of_fault_types) as <-
    by (unfold weighted; by rewrite length_map, Hten).
  rewrite (for_range_fold aggregate_step (weighted (weight_at fm T) c)); [done|].
  intros k x l Hx. rewrite Z.add_0_l. by rewrite (weighted_fault_ok _ _ _ _ Ht Hx).
Qed.

End query.

(** Under weight 0, which the temperatures below the table have, no fault happens:
    all probabilities are zeros and their union is exactly 0, whatever the finite
    probabilities of the configuration. *)
Definition finite_float (x : float) : Prop := match x with S754_infinity _ | S754_nan => False | _ => True end.

Lemma zero_weight_no_faults c :
  Forall finite_float (conf_fault_type c) →
  Forall (fun p => SFeqb p (S754_zero false) = true) (weighted 0 c) ∧ any_fault (weighted 0 c) = S754_zero false.
Proof.
  intros Hf.
  assert (Forall (fun p => ∃ b, p = S754_zero b) (weighted 0 c)) as Hz.
  { unfold weighted. apply Forall_fmap. eapply Forall_impl; [exact Hf|]. intros x Hx. simpl.
    destruct x; simpl in *; [eauto|done|done|eauto]. }
  split; [eapply Forall_impl; [exact Hz|]; by intros p [b ->]|].
  assert (foldl aggregate_step (f_of_int 1) (weighted 0 c) = f_of_int 1) as Hone.
  { induction Hz as [|p ps [b ->] _ IH]; [done|]. rewrite <- IH at 2. cbn [foldl].
    replace (aggregate_step (f_of_int 1) (S754_zero b)) with (f_of_int 1); [done|]. by destruct b. }
  unfold any_fault. by rewrite Hone.
Qed.

(** ** The network with its fault model *)

(** A constructed fault model. *)
Record fm_fresh (fm : FaultModel) : Prop := {
  fresh_routers : fm_routers fm = [];
  fresh_weights : temperature_weights fm ≠ [];
  fresh_confs : Forall (fun c => length (conf_fault_type c) = 10%nat) (configurations fm)
}.

Lemma read_conf_ten db i c : read_conf db i = Ok c → length (conf_fault_type c) = 10%nat.
Proof.
  unfold read_conf. intros (b & _ & (b' & _ & (v & _ & (v' & _ & (l & Hl & [= <-])%rbind_ok)%rbind_ok)%rbind_ok)%rbind_ok)%rbind_ok.
  simpl. apply Nat2Z.inj. change (Z.of_nat 10) with (0 + Z.of_nat (Z.to_nat number_of_fault_types)).
  eapply (for_range_inv (fun i l => Z.of_nat (length l) = i)); [exact Hl|done|].
  intros j l1 l2 _ Hj (x & _ & [= <-])%rbind_ok. rewrite length_app. simpl. lia.
Qed.

Lemma read_confs_ten fuel db i confs confs' :
  read_confs fuel db i confs = Ok confs' → Forall (fun c => length (conf_fault_type c) = 10%nat) confs →
  Forall (fun c => length (conf_fault_type c) = 10%nat) confs'.
Proof.
  revert i confs. induction fuel as [|fuel IH]; intros i confs; [done|]. simpl.
  intros (c & Hc%read_conf_ten & (x & _ & H)%rbind_ok)%rbind_ok HF.
  assert (Forall (fun c => length (conf_fault_type c) = 10%nat) (confs ++ [c])) by (apply Forall_app; by repeat constructor).
  destruct (d_negative x); [by injection H as <-|by eapply IH].
Qed.

Lemma read_weights_ne fuel db i first ws ws' : read_weights fuel db i first ws = Ok ws' → ws' ≠ [].
Proof.
  revert i first ws. induction fuel as [|fuel IH]; intros i first ws; [done|]. simpl.
  intros (ws1 & H1 & (x & _ & H)%rbind_ok)%rbind_ok.
  destruct (x <? 0); [|by eapply IH]. injection H as <-.
  unfold read_weight in H1. apply rbind_ok in H1 as (t & _ & (v & _ & (u & _ & [= <-])%rbind_ok)%rbind_ok).
  by destruct (if first then _ else _).
Qed.

Lemma new_FaultModel_fresh db tdb st fm st' :
  new_FaultModel db tdb st = Ok (fm, st') → fm_fresh fm ∧ router_index st' = router_index st.
Proof.
  unfold new_FaultModel. intros (confs & Hc & (ws & Hw & [= <- <-])%rbind_ok)%rbind_ok. split; [|done].
  split; simpl; [done|by eapply read_weights_ne|]. by eapply read_confs_ten; [exact Hc|constructor].
Qed.

(** The record of the database for a router of the network. *)
Definition router_conf (cfg : NetConfig) (confs : list system_conf) (r : Router) : system_conf → Prop :=
  last_record confs (Z.max (getBuffersPerDataVC cfg) (getBuffersPerCtrlVC cfg))
    (Z.of_nat (length (m_input_unit r)) * r_vc_per_vnet (core r)).

Definition declarable (cfg : NetConfig) (confs : list system_conf) (r : Router) : Prop :=
  legal_router (Z.of_nat (length (m_input_unit r))) (Z.of_nat (length (m_output_unit r))) (r_vc_per_vnet (core r))
    (getBuffersPerDataVC cfg) (getBuffersPerCtrlVC cfg) ∧ ∃ c, router_conf cfg confs r c.

Lemma last_record_elem confs b v c : last_record confs b v c → c ∈ confs.
Proof. intros (pre & post & -> & _). set_solver. Qed.

(** The state of the fault model after the first [rs] routers. *)
Record declared (cfg : NetConfig) (fm : FaultModel) (rs : list Router) (fm' : FaultModel) (st' : FmStatics) : Prop := {
  decl_confs : configurations fm' = configurations fm;
  decl_weights : temperature_weights fm' = temperature_weights fm;
  decl_index : router_index st' = Z.of_nat (length rs);
  decl_routers : Forall2 (router_conf cfg (configurations fm)) rs (fm_routers fm')
}.

Lemma printers_ok fm r (i : nat) c :
  r_id (core r) = Z.of_nat i → fm_routers fm !! i = Some c → length (conf_fault_type c) = 10%nat →
  temperature_weights fm ≠ [] →
  (∃ o, printAggregateFaultProbability fm r = Ok o) ∧ ∃ o, printFaultVector fm r = Ok o.
Proof.
  intros Hid Hc Hten Hne. unfold printAggregateFaultProbability, printFaultVector,
    get_aggregate_fault_probability, get_fault_vector. rewrite Hid.
  rewrite (fault_prob_exact _ _ _ Hc Hten Hne), (fault_vector_exact _ _ _ Hc Hten Hne). cbn [rbind]. split; [eauto|].
  set (ws := weighted _ _). assert (length ws = 10%nat) as Hws by (unfold ws, weighted; by rewrite length_map).
  destruct (for_range_ok (fun _ _ => True) 0 (Z.to_nat number_of_fault_types)
    (fun i l => let* x := vec_get ws i in Ok (l ++ [(fault_type_to_string i, x)])) []) as (l & -> & _); [done| |by eauto].
  intros j l Hj _. change (Z.of_nat (Z.to_nat number_of_fault_types)) with 10 in Hj.
  destruct (vec_get_in_range ws j) as [x ->]; [lia|]. simpl. eauto.
Qed.

Lemma declare_one_ok cfg fm rs r fm1 st1 out :
  fm_fresh fm → declared cfg fm rs fm1 st1 → r_id (core r) = Z.of_nat (length rs) →
  declarable cfg (configurations fm) r →
  ∃ fm2 st2 out2, declare_one cfg r (fm1, st1, out) = Ok (fm2, st2, out2) ∧ declared cfg fm (rs ++ [r]) fm2 st2.
Proof.
  intros Hfresh [Hcf Hw Hix Hrs] Hid [Hlegal [c Hc]]. unfold declare_one.
  rewrite (proj2 (declare_router_exact _ _ _ _ _ fm1 st1 (router_index st1) (add_router c fm1) (next_router st1)))
    by (rewrite Hcf; eauto 10).
  cbn [rbind]. rewrite Hix, Hid, Z.eqb_refl. cbn [assert_ rbind].
  assert (fm_routers (add_router c fm1) !! length rs = Some c).
  { simpl. rewrite (Forall2_length _ _ _ Hrs). by apply list_lookup_middle. }
  destruct (printers_ok (add_router c fm1) r (length rs) c) as [[o1 ->] [o2 ->]]; [done|done|..].
  - apply (proj1 (Forall_forall _ _) (fresh_confs _ Hfresh)). by eapply last_record_elem.
  - simpl. rewrite Hw. apply fresh_weights, Hfresh.
  - cbn [rbind]. eexists _, _, _. split; [reflexivity|]. split; simpl; [done|done|rewrite Hix, length_app; simpl; lia|].
    apply Forall2_app; [done|]. by repeat constructor.
Qed.

Lemma declare_routers_ok cfg fm st rs :
  fm_fresh fm → router_index st = 0 →
  (∀ i r, rs !! i = Some r → r_id (core r) = Z.of_nat i ∧ declarable cfg (configurations fm) r) →
  ∃ fm' st' out, declare_routers cfg rs fm st = Ok (fm', st', out) ∧ declared cfg fm rs fm' st'.
Proof.
  intros Hfresh Hst Hrs. unfold declare_routers.
  destruct (fold_res_ok (fun i s => declared cfg fm (take i rs) s.1.1 s.1.2) (declare_one cfg) rs (fm, st, []))
    as ([[fm' st'] out] & Hrun & Hd).
  - simpl. split; [done|done|done|]. rewrite (fresh_routers _ Hfresh). constructor.
  - intros i r [[fm1 st1] out] Hr Hd. destruct (Hrs i r Hr) as [Hid Hdecl]. simpl in Hd.
    apply lookup_lt_Some in Hr as Hlt.
    destruct (declare_one_ok cfg fm (take i rs) r fm1 st1 out) as (fm2 & st2 & out2 & Hone & Hd2); [done..| |done|].
    { rewrite length_take. by rewrite Nat.min_l by lia. }
    exists (fm2, st2, out2). split; [done|]. simpl. by rewrite (take_S_r _ _ r).
  - rewrite firstn_all in Hd. exists fm', st', out. done.
Qed.

Lemma declare_one_only cfg r fm st out fm1 st1 out1 :
  declare_one cfg r (fm, st, out) = Ok (fm1, st1, out1) →
  r_id (core r) = router_index st ∧ declarable cfg (configurations fm) r ∧
  configurations fm1 = configurations fm ∧ router_index st1 = router_index st + 1.
Proof.
  unfold declare_one. intros ([[id fm2] st2] & (Hlegal & c & Hc & -> & -> & ->)%declare_router_exact & H)%rbind_ok.
  apply rbind_ok in H as (u & Hassert & H). unfold assert_ in Hassert.
  destruct (Z.eqb_spec (router_index st) (r_id (core r))) as [Hid|]; [|done].
  apply rbind_ok in H as (o1 & _ & H). apply rbind_ok in H as (o2 & _ & [= <- <- _]).
  split_and!; [done|split; [done|by exists c]|done|done].
Qed.

(** Nothing else is accepted. *)
Lemma declare_routers_only cfg rs fm st out res :
  fold_res (declare_one cfg) rs (fm, st, out) = Ok res →
  ∀ i r, rs !! i = Some r → r_id (core r) = router_index st + Z.of_nat i ∧ declarable cfg (configurations fm) r.
Proof.
  revert fm st out. induction rs as [|r0 rs IH]; intros fm st out; simpl; [done|].
  intros ([[fm1 st1] out1] & (Hid & Hd & Hcf & Hix)%declare_one_only & Hrun)%rbind_ok [|i] r Hr.
  - simplify_eq/=. split; [lia|done].
  - apply (IH _ _ _ Hrun) in Hr as [Hr Hdr]. rewrite Hcf in Hdr. split; [lia|done].
Qed.

(** The identifiers come from a counter that all fault models share, but are used
    as indices into the routers of one: the first router of a second model gets an
    identifier that this model does not know. *)
Lemma second_model_unknown_router ins outs vcs_in data ctrl fm st id fm' st' T :
  declare_router ins outs vcs_in data ctrl fm st = Ok (id, fm', st') → fm_routers fm = [] → 0 < router_index st →
  fault_vector fm' id T = Err (EFatal "Did you enable the fault model flag)?") ∧
  fault_prob fm' id T = Err (EFatal "Did you enable the fault model flag)?").
Proof.
  intros (_ & c & _ & -> & -> & _)%declare_router_exact Hr Hix.
  assert (check_router (add_router c fm) (router_index st) = Err (EFatal "Did you enable the fault model flag)?")) as Hchk.
  { unfold check_router. cbn [add_router fm_routers]. rewrite Hr. change (Z.of_nat (length ([] ++ [c]))) with 1. rewrite (proj2 (Z.leb_le 1 (router_index st))) by lia.
    by rewrite orb_true_r. }
  unfold fault_vector, fault_prob. by rewrite Hchk.
Qed.

(** C39: Take a network that can be built without its fault model, and the first
    fault model made. With the fault model enabled, [init] succeeds exactly when the
    identifier of every router is its position and its configuration is supported:
    positive numbers of ports, VCs and buffers within the limits of the model, and a
    record of the database with the router's buffers per VC and with as many VCs as
    it has inputs times VCs per virtual network, which is what [init] passes. After
    a successful [init] every router can be asked for its faults at every
    temperature: the answer is computed from the last such record and the weight of
    the nearest temperature of the table, and flagged as accurate exactly within the
    table. *)
Theorem fault_model_answers env cfg net objects reqs nis w cs n0 n s dims db tdb st0 fm st :
  network_init env cfg net objects reqs nis w cs n0 = Ok (n, s, dims) →
  new_FaultModel db tdb st0 = Ok (fm, st) → router_index st0 = 0 →
  (is_ok (network_init_faults env cfg net objects reqs nis w cs n0 fm st) = true ↔
     ∀ i r, bd_routers s !! i = Some r → r_id (core r) = Z.of_nat i ∧ declarable cfg (configurations fm) r) ∧
  ∀ n' s' dims' fm' st' out,
    network_init_faults env cfg net objects reqs nis w cs n0 fm st = Ok (n', s', dims', (fm', st', out)) →
    n' = n ∧ s' = s ∧ dims' = dims ∧
    ∀ i r T, bd_routers s !! i = Some r →
      ∃ c, router_conf cfg (configurations fm) r c ∧
        get_fault_vector fm' r T = Ok (weighted (weight_at fm T) c, known_temperature fm T) ∧
        get_aggregate_fault_probability fm' r T = Ok (any_fault (weighted (weight_at fm T) c), known_temperature fm T).
Proof.
  intros Hinit [Hfresh Hix]%new_FaultModel_fresh Hst. rewrite Hst in Hix.
  assert (∀ z, declare_routers cfg (bd_routers s) fm st = Ok z →
    ∀ i r, bd_routers s !! i = Some r → r_id (core r) = Z.of_nat i ∧ declarable cfg (configurations fm) r) as Honly.
  { intros z Hz i r Hr. apply (declare_routers_only _ _ _ _ _ _ Hz) in Hr as [Hr ?]. by rewrite Hix in Hr. }
  unfold network_init_faults. rewrite Hinit. cbn [rbind]. split; [split|].
  - destruct (declare_routers cfg (bd_routers s) fm st) as [z|]; [|done]. intros _. by apply (Honly z).
  - intros Hrs. by destruct (declare_routers_ok cfg fm st (bd_routers s) Hfresh Hix Hrs) as (fm' & st' & out & -> & _).
  - intros n' s' dims' fm' st' out (z & Hz & [= <- <- <- ->])%rbind_ok. split_and!; [done..|].
    destruct (declare_routers_ok cfg fm st (bd_routers s) Hfresh Hix (Honly _ Hz)) as (fm2 & st2 & out2 & Hrun & Hd).
    rewrite Hz in Hrun. injection Hrun as <- <- <-. intros i r T Hr.
    destruct (Forall2_lookup_l _ _ _ _ _ (decl_routers _ _ _ _ _ Hd) Hr) as (c & Hc & Hconf).
    exists c. split; [done|]. unfold get_fault_vector, get_aggregate_fault_probability.
    rewrite (proj1 (Honly _ Hz i r Hr)).
    assert (length (conf_fault_type c) = 10%nat)
      by (apply (proj1 (Forall_forall _ _) (fresh_confs _ Hfresh)); by eapply last_record_elem).
    assert (temperature_weights fm' ≠ []) by (rewrite (decl_weights _ _ _ _ _ Hd); apply fresh_weights, Hfresh).
    rewrite (fault_vector_exact _ _ _ Hc), (fault_prob_exact _ _ _ Hc) by done.
    unfold weight_at, known_temperature. by rewrite (decl_weights _ _ _ _ _ Hd).
Qed.

(** Two records of the database in FaultModel.py, in millionths of a percent, and
    its table of weights from 71 to 125 degrees. *)
Definition ex_record (buffers total : Z) (faults : list Z) : list double :=
  d_of_int buffers :: d_of_int total :: map (fun x => d_div (d_of_int x) (d_of_int 1000000)) faults.

Definition ex_recs : list (list double) :=
  [ex_record 4 8 [6257; 2290; 0; 2565; 1107; 0; 0; 675; 419; 1971]; ex_record 4 4 [3105; 0; 0; 0; 0; 0; 0; 0; 0; 540]].

Definition ex_weights : list Z :=
  [1; 2; 3; 4; 5; 5; 6; 7; 8; 10; 11; 12; 12; 13; 14; 16; 17; 18; 19; 20; 22; 24; 26; 27; 29; 30; 32; 35; 37; 39; 42; 45;
   47; 50; 53; 56; 61; 65; 70; 74; 78; 82; 89; 95; 100; 106; 115; 122; 130; 139; 147; 156; 169; 178; 190].

Definition ex_db : list double := conf_database ex_recs (d_of_int (-1)) [].
Definition ex_tdb : list Z := weight_database 71 ex_weights (-1) [].

Definition ex_fault_model : FaultModel :=
  match new_FaultModel ex_db ex_tdb initial_statics with
  | Ok (fm, _) => fm
  | Err _ => {| configurations := []; fm_routers := []; temperature_weights := [] |}
  end.

Definition ex_statics : FmStatics := {| first_record := false; router_index := 0 |}.

(** The table covers 0 to 125 degrees, and has weight 0 below 71. *)
Example ex_temperatures :
  map (known_temperature ex_fault_model) [-1; 0; 70; 71; 125; 126] = [false; true; true; true; true; false] ∧
  map (weight_at ex_fault_model) [-1; 70; 71; 125; 200] = [0; 0; 1; 190; 190].
Proof. split; vm_compute; reflexivity. Qed.

(** The two routers of the line have two ports with two VCs of four buffers. *)
Lemma fault_model_answers_witness :
  ∃ n s dims fm' st' out,
    network_init_faults ex_clock ex_cfg ex_line_net ex_objects ex_requests ex_line_nis ex_link_store {[ConsLink 9]}
      ex_line_new ex_fault_model ex_statics = Ok (n, s, dims, (fm', st', out)) ∧
    ∀ i r T, bd_routers s !! i = Some r →
      ∃ c, router_conf ex_cfg (configurations ex_fault_model) r c ∧
        get_fault_vector fm' r T = Ok (weighted (weight_at ex_fault_model T) c, known_temperature ex_fault_model T) ∧
        get_aggregate_fault_probability fm' r T =
          Ok (any_fault (weighted (weight_at ex_fault_model T) c), known_temperature ex_fault_model T).
Proof.
  destruct (network_init ex_clock ex_cfg ex_line_net ex_objects ex_requests ex_line_nis ex_link_store {[ConsLink 9]}
    ex_line_new) as [[[n s] dims]|e] eqn:E; [|vm_compute in E; discriminate E].
  destruct (fault_model_answers ex_clock ex_cfg ex_line_net ex_objects ex_requests ex_line_nis ex_link_store {[ConsLink 9]}
    ex_line_new n s dims ex_db ex_tdb initial_statics ex_fault_model ex_statics) as [Hok Hans];
    [exact E|vm_compute; reflexivity|reflexivity|].
  destruct (network_init_faults ex_clock ex_cfg ex_line_net ex_objects ex_requests ex_line_nis ex_link_store {[ConsLink 9]}
    ex_line_new ex_fault_model ex_statics) as [[[[n' s'] dims'] [[fm' st'] out]]|e] eqn:Ef.
  - destruct (Hans n' s' dims' fm' st' out eq_refl) as (-> & -> & -> & Hall). exists n, s, dims, fm', st', out. split; [reflexivity|exact Hall].
  - exfalso. assert (is_ok (A := GarnetNetwork * Build * (Z * Z) * (FaultModel * FmStatics * list fault_report)) (Err e) = true) as H;
      [|discriminate H].
    apply Hok. vm_compute in E. injection E as _ <- _. intros i r Hr.
    destruct i as [|[|i]]; [| |discriminate Hr]; injection Hr as <-; (split; [reflexivity|]); (split;
      [repeat split; vm_compute; (reflexivity || discriminate)|]).
    all: eexists; exists [default (Build_system_conf 0 0 []) (head (configurations ex_fault_model))], [].
    all: split; [vm_compute; reflexivity|]; split; [vm_compute; reflexivity|constructor].
Defined.
