(* ===== verification/SimpleNetwork.v ===== *)
(** * The simple network: mem/ruby/network/simple

    The network that carries whole messages. A switch has one PerfectSwitch,
    which moves messages from its input buffers to intermediate buffers, and one
    Throttle per output port, which moves them on to the buffers of the link at
    the link's bandwidth. WeightBased is its routing unit. Message buffers are
    reached through handles into a store; the calls buffers make on their
    consumers are collected in order. *)

From stdpp Require Import sorting.
From S2P Require Import Prelude IntMath Clocked Consumer NetDest MessageBuffer Topology Construction.

(** ** The store of buffers *)

(** Consumers of message buffers: the two parts of a switch, or a controller. *)
Inductive sw_consumer :=
  | SwPerfect (switch : Z)
  | SwThrottle (switch port : Z)
  | SwController (id : Z).
#[export] Instance sw_consumer_eq_dec : EqDecision sw_consumer.
Proof. solve_decision. Defined.

(** A buffer's calls on its consumer: [enqueue] schedules it and stores the vnet;
    [isReady] may schedule it for the next cycle; [dequeue] may run a callback. *)
Inductive sw_call :=
  | SwArrival (buffer tick : Z)
  | SwRetry (buffer : Z)
  | SwCallback (buffer : Z).

Record Buffers := {
  bf_store : gmap Z MessageBuffer;
  bf_calls : list sw_call;
  bf_next_message : Z                            (* the next message object *)
}.

Definition bf_get (h : Z) (w : Buffers) : res MessageBuffer :=
  match bf_store w !! h with Some b => Ok b | None => Err EOutOfRange end.
Definition bf_set (h : Z) (b : MessageBuffer) (w : Buffers) : Buffers :=
  {| bf_store := <[h := b]> (bf_store w); bf_calls := bf_calls w; bf_next_message := bf_next_message w |}.
Definition bf_call (c : sw_call) (w : Buffers) : Buffers :=
  {| bf_store := bf_store w; bf_calls := bf_calls w ++ [c]; bf_next_message := bf_next_message w |}.

Definition bf_isReady (now h : Z) (w : Buffers) : res (bool * Buffers) :=
  let* b := bf_get h w in
  let* ' (ready, resched) := MessageBuffer.isReady now b in
  Ok (ready, if resched : bool then bf_call (SwRetry h) w else w).

Definition bf_slots (now h : Z) (w : Buffers) : res (bool * Buffers) :=
  let* b := bf_get h w in
  let '(ok, b) := MessageBuffer.areNSlotsAvailable 1 now b in
  Ok (ok, bf_set h b w).

Definition bf_dequeue (cur now h : Z) (w : Buffers) : res (Message * Buffers) :=
  let* b := bf_get h w in
  let* ' (m, _, cb, b) := MessageBuffer.dequeue cur now true b in
  let w := bf_set h b w in
  Ok (m, if cb : bool then bf_call (SwCallback h) w else w).

Section world.
(** The machine types; [getRandomization], [getWarmupEnabled], what [random_time] returns for a
    message in a buffer that randomises. *)
Context (rs : RubySystem) (ruby_is_random ruby_warmup : bool) (rt : Z → Z).

Definition bf_enqueue (now delta h : Z) (m : Message) (w : Buffers) : res Buffers :=
  let* b := bf_get h w in
  let* ' (b, arrival) := MessageBuffer.enqueue (rt (msg_handle m)) m now delta ruby_is_random ruby_warmup false b in
  Ok (bf_call (SwArrival h arrival) (bf_set h b w)).

(** ** Routing: simple/routing/WeightBased *)

Record LinkInfo := {
  li_link_id : Z;
  li_routing_entry : NetDest;
  li_out_buffers : list Z;
  li_order : Z;
  li_weight : Z
}.

Definition with_order (o : Z) (l : LinkInfo) : LinkInfo :=
  {| li_link_id := li_link_id l; li_routing_entry := li_routing_entry l; li_out_buffers := li_out_buffers l;
     li_order := o; li_weight := li_weight l |}.

Record WeightBased := { adaptive_routing : bool; m_links : list LinkInfo }.

(** The order of the tuples (order, weight, link id). *)
Definition link_leb (a b : LinkInfo) : bool :=
  (li_order a <? li_order b) ||
  ((li_order a =? li_order b) &&
   ((li_weight a <? li_weight b) || ((li_weight a =? li_weight b) && (li_link_id a <=? li_link_id b)))).
Definition link_le (a b : LinkInfo) : Prop := link_leb a b = true.
#[global] Instance link_le_dec a b : Decision (link_le a b) := decide (link_leb a b = true).

Definition sortLinks (wb : WeightBased) : WeightBased :=
  {| adaptive_routing := adaptive_routing wb; m_links := merge_sort link_le (m_links wb) |}.

Definition wb_addOutPort (link_id : Z) (out : list Z) (entry : NetDest) (weight : Z) (wb : WeightBased) : res WeightBased :=
  let* _ := assert_ "link_id == m_links.size()" (link_id =? Z.of_nat (length (m_links wb))) in
  Ok (sortLinks {| adaptive_routing := adaptive_routing wb;
                   m_links := m_links wb ++ [{| li_link_id := link_id; li_routing_entry := entry; li_out_buffers := out;
                                                li_order := 0; li_weight := weight |}] |}).

(** The destinations each link is responsible for. *)
Record SwRoute := { rt_destinations : NetDest; rt_link_id : Z }.

Definition find_step (link : LinkInfo) (s : NetDest * list SwRoute) : res (NetDest * list SwRoute) :=
  let '(msg_dsts, out_links) := s in
  let dst := li_routing_entry link in
  let* hit := intersectionIsNotEmpty dst msg_dsts in
  if hit : bool then
    let* d := NetDest.AND rs dst msg_dsts in
    let* rest := removeNetDest dst msg_dsts in
    Ok (rest, out_links ++ [{| rt_destinations := d; rt_link_id := li_link_id link |}])
  else Ok (msg_dsts, out_links).

Definition findRoute (dests : NetDest) (wb : WeightBased) : res (list SwRoute) :=
  let* ' (rest, out_links) := fold_res find_step (m_links wb) (dests, []) in
  let* c := NetDest.count rest in
  let* _ := assert_ "msg_dsts.count() == 0" (c =? 0) in
  Ok out_links.

(** How many messages wait for a link. *)
Definition queue_length (now : Z) (hs : list Z) (w : Buffers) : res (Z * Buffers) :=
  fold_res (fun h '(n, w) =>
    let* b := bf_get h w in
    let '(k, b) := MessageBuffer.getSize now b in
    Ok (n + k, bf_set h b w)) hs (0, w).

Definition reorder (now : Z) (rng : Z → Z) (links : list LinkInfo) (w : Buffers) : res (list LinkInfo * Buffers) :=
  fold_res (fun link '(ls, w) =>
    let* ' (n, w) := queue_length now (li_out_buffers link) w in
    Ok (ls ++ [with_order (Z.lor (Z.shiftl n 8) (rng (li_link_id link))) link], w)) links ([], w).

(** [WeightBased::route]; [rng] is what [random(0, 0xff)] returns for a link. *)
Definition route (now : Z) (rng : Z → Z) (dests : NetDest) (deterministic : bool) (wb : WeightBased) (w : Buffers)
    : res (list SwRoute * WeightBased * Buffers) :=
  let* ' (wb, w) :=
    (if adaptive_routing wb then
       let* ' (links, w) := (if deterministic then Ok (map (with_order 0) (m_links wb), w)
                             else reorder now rng (m_links wb) w) in
       Ok (sortLinks {| adaptive_routing := true; m_links := links |}, w)
     else Ok (wb, w)) in
  let* out_links := findRoute dests wb in
  Ok (out_links, wb, w).

(** ** Bandwidth: simple/Throttle *)

Definition MESSAGE_SIZE_MULTIPLIER : Z := 1000.
Definition PRIORITY_SWITCH_LIMIT : Z := 128.

(** The counters; [acc_link_utilization] is a sum of quotients and left out. *)
Record ThrottleStats := {
  msg_counts : list (MessageSizeType * Z);      (* the messages counted, with their vnet *)
  total_msg_count : Z;
  total_msg_bytes : Z;
  total_data_msg_bytes : Z;
  total_msg_wait_time : Z;
  total_stall_cy : Z;
  total_bw_sat_cy : Z
}.
Definition new_ThrottleStats : ThrottleStats :=
  {| msg_counts := []; total_msg_count := 0; total_msg_bytes := 0; total_data_msg_bytes := 0; total_msg_wait_time := 0;
     total_stall_cy := 0; total_bw_sat_cy := 0 |}.

Record Throttle := {
  th_in : list Z;
  th_out : list (option Z);                      (* null for vnets the receiver does not use *)
  th_vnets : Z;
  m_units_remaining : list (list Z);             (* per vnet and channel *)
  m_physical_vnets : bool;
  m_link_bandwidth_multiplier : list Z;
  m_vnet_channels : list Z;
  m_link_latency : Z;
  th_wakeups_wo_switch : Z;
  m_endpoint_bandwidth : Z;
  throttleStats : ThrottleStats;
  th_consumer : Consumer
}.

Definition new_Throttle (link_latency endpoint_bandwidth : Z) : Throttle :=
  {| th_in := []; th_out := []; th_vnets := 0; m_units_remaining := []; m_physical_vnets := false;
     m_link_bandwidth_multiplier := []; m_vnet_channels := []; m_link_latency := link_latency;
     th_wakeups_wo_switch := 0; m_endpoint_bandwidth := endpoint_bandwidth; throttleStats := new_ThrottleStats;
     th_consumer := new_Consumer |}.

Definition with_bandwidth (t : Throttle) (physical : bool) (bandwidth channels : list Z) : Throttle :=
  {| th_in := th_in t; th_out := th_out t; th_vnets := th_vnets t; m_units_remaining := m_units_remaining t;
     m_physical_vnets := physical; m_link_bandwidth_multiplier := bandwidth; m_vnet_channels := channels;
     m_link_latency := m_link_latency t; th_wakeups_wo_switch := th_wakeups_wo_switch t;
     m_endpoint_bandwidth := m_endpoint_bandwidth t; throttleStats := throttleStats t; th_consumer := th_consumer t |}.

(** The two public constructors. *)
Definition throttle_shared (link_latency bw_multiplier endpoint_bandwidth : Z) : res Throttle :=
  let* _ := assert_ "link_bandwidth_multiplier > 0" (0 <? bw_multiplier) in
  Ok (with_bandwidth (new_Throttle link_latency endpoint_bandwidth) false [bw_multiplier] []).
Definition throttle_physical (link_latency : Z) (channels bandwidth : list Z) (endpoint_bandwidth : Z) : res Throttle :=
  let* _ := assert_ "link_bandwidth_multiplier > 0" (forallb (Z.ltb 0) bandwidth) in
  let* _ := assert_ "channels > 0" (forallb (Z.ltb 0) channels) in
  let* _ := assert_ "as many multipliers as channels" (Nat.eqb (length bandwidth) (length channels)) in
  Ok (with_bandwidth (new_Throttle link_latency endpoint_bandwidth) true bandwidth channels).

Definition getChannelCnt (vnet : Z) (t : Throttle) : res Z :=
  if m_physical_vnets t then vec_get (m_vnet_channels t) vnet else Ok 1.

Definition getLinkBandwidth (vnet : Z) (t : Throttle) : res Z :=
  let* bw := vec_get (m_link_bandwidth_multiplier t) (if m_physical_vnets t then vnet else 0) in
  let* _ := assert_ "bw > 0" (0 <? bw) in
  Ok (s32 (m_endpoint_bandwidth t * bw)).

Definition getTotalLinkBandwidth (t : Throttle) : res Z :=
  let vnet_bandwidth i := let* bw := getLinkBandwidth i t in let* c := getChannelCnt i t in Ok (s32 (bw * c)) in
  let* sum := vnet_bandwidth 0 in
  if m_physical_vnets t
  then for_range 1 (Z.to_nat (th_vnets t) - 1) (fun i sum => let* x := vnet_bandwidth i in Ok (s32 (sum + x))) sum
  else Ok sum.

(** [Throttle::addLinks]; the caller makes the throttle the consumer of [ins]. *)
Definition addLinks (ins : list Z) (outs : list (option Z)) (t : Throttle) : res Throttle :=
  let* _ := assert_ "in_vec.size() == out_vec.size()" (Nat.eqb (length ins) (length outs)) in
  let* units := for_range 0 (length ins)
    (fun vnet us => let* c := getChannelCnt vnet t in Ok (us ++ [replicate (Z.to_nat c) 0])) (m_units_remaining t) in
  let vnets := Z.of_nat (length ins) in
  let* _ := assert_ "m_link_bandwidth_multiplier.size()"
    (Z.of_nat (length (m_link_bandwidth_multiplier t)) =? (if m_physical_vnets t then vnets else 1)) in
  Ok {| th_in := th_in t ++ ins; th_out := th_out t ++ outs; th_vnets := vnets; m_units_remaining := units;
        m_physical_vnets := m_physical_vnets t; m_link_bandwidth_multiplier := m_link_bandwidth_multiplier t;
        m_vnet_channels := m_vnet_channels t; m_link_latency := m_link_latency t;
        th_wakeups_wo_switch := th_wakeups_wo_switch t; m_endpoint_bandwidth := m_endpoint_bandwidth t;
        throttleStats := throttleStats t; th_consumer := th_consumer t |}.

Section sizes.
Context (ctrl_size data_size : Z).

(** An [int] throughout. *)
Definition network_message_to_size (m : Message) : Z :=
  let size := s32 (MessageSizeType_to_int ctrl_size data_size (msg_size_type m)) in
  s32 (size * MESSAGE_SIZE_MULTIPLIER).

Definition count_message (now vnet enqueue_time : Z) (m : Message) (st : ThrottleStats) : ThrottleStats :=
  let total_size := MessageSizeType_to_int ctrl_size data_size (msg_size_type m) in
  {| msg_counts := msg_counts st ++ [(msg_size_type m, vnet)]; total_msg_count := total_msg_count st + 1;
     total_msg_bytes := total_msg_bytes st + u32 total_size;
     total_data_msg_bytes := total_data_msg_bytes st + u32 (u32 total_size - MessageSizeType_to_int ctrl_size data_size Control);
     total_msg_wait_time := total_msg_wait_time st + u64 (now - enqueue_time);
     total_stall_cy := total_stall_cy st; total_bw_sat_cy := total_bw_sat_cy st |}.

(** The variables of the loop in [operateVnet]. *)
Record Flow := { fl_units : Z; fl_bw : Z; fl_total : Z; fl_stats : ThrottleStats; fl_world : Buffers }.
Definition fl_with (f : Flow) (w : Buffers) : Flow :=
  {| fl_units := fl_units f; fl_bw := fl_bw f; fl_total := fl_total f; fl_stats := fl_stats f; fl_world := w |}.

(** The lambda [hasPendingWork]. *)
Definition hasPendingWork (now h : Z) (f : Flow) : res (bool * Flow) :=
  let* ' (ready, w) := bf_isReady now h (fl_world f) in
  Ok (ready || (0 <? fl_units f), fl_with f w).

Section throttle.
Context (env : ClockEnv) (latency : Z).
Abbreviation now := (clockEdge env 0).

(** A message is moved from [h] to [o]. *)
Definition move_message (vnet h o : Z) (f : Flow) : res Flow :=
  let* b := bf_get h (fl_world f) in
  let* m := MessageBuffer.peek b in
  let* ' (m', w) := bf_dequeue (curTick env) now h (fl_world f) in
  let* w := bf_enqueue now (cyclesToTicks env latency) o m' w in
  Ok {| fl_units := network_message_to_size m; fl_bw := fl_bw f; fl_total := fl_total f;
        fl_stats := count_message now vnet (m_LastEnqueueTime m) m (fl_stats f); fl_world := w |}.

(** The body of the loop. *)
Definition flow_turn (vnet h o : Z) (f : Flow) : res Flow :=
  let* ' (ready, f) :=
    (if fl_units f =? 0 then let* ' (r, w) := bf_isReady now h (fl_world f) in Ok (r, fl_with f w) else Ok (false, f)) in
  let* f := (if ready : bool then move_message vnet h o f else Ok f) in
  let spent := Z.min (fl_units f) (fl_bw f) in
  Ok {| fl_units := fl_units f - spent; fl_bw := fl_bw f - spent; fl_total := fl_total f - spent; fl_stats := fl_stats f;
        fl_world := fl_world f |}.

Fixpoint flow_loop (fuel : nat) (vnet h o : Z) (f : Flow) : res Flow :=
  match fuel with
  | O => Ok f
  | S fuel' =>
      if 0 <? fl_bw f then
        let* ' (pending, f) := hasPendingWork now h f in
        if pending : bool then
          let* ' (room, w) := bf_slots now o (fl_world f) in
          let f := fl_with f w in
          if room : bool then let* f := flow_turn vnet h o f in flow_loop fuel' vnet h o f else Ok f
        else Ok f
      else Ok f
  end.

(** Enough turns: each one moves a message or spends bandwidth. *)
Definition flow_fuel (h bw : Z) (w : Buffers) : res nat :=
  let* b := bf_get h w in Ok (length (m_prio_heap b) + Z.to_nat bw + 1)%nat.

(** The flags [bw_saturated] and [output_blocked] and the bandwidth left, shared
    by the calls of [operateVnet]. *)
Record Cycle := { cy_total : Z; cy_saturated : bool; cy_blocked : bool }.

Definition set_units (t : Throttle) (vnet channel units : Z) (st : ThrottleStats) : res Throttle :=
  let* us := vec_upd (m_units_remaining t) vnet (fun u => vec_set u channel units) in
  Ok {| th_in := th_in t; th_out := th_out t; th_vnets := th_vnets t; m_units_remaining := us;
        m_physical_vnets := m_physical_vnets t; m_link_bandwidth_multiplier := m_link_bandwidth_multiplier t;
        m_vnet_channels := m_vnet_channels t; m_link_latency := m_link_latency t;
        th_wakeups_wo_switch := th_wakeups_wo_switch t; m_endpoint_bandwidth := m_endpoint_bandwidth t;
        throttleStats := st; th_consumer := th_consumer t |}.

(** The flags after the loop. *)
Definition flow_flags (h o : Z) (f : Flow) (c : Cycle) : res (Cycle * Buffers) :=
  let* ' (pending, f) := hasPendingWork now h f in
  if pending : bool then
    let* ' (room, w) := (if fl_bw f =? 0 then Ok (false, fl_world f) else bf_slots now o (fl_world f)) in
    let* _ := assert_ "bw_remaining == 0 or no slot" ((fl_bw f =? 0) || negb room) in
    let* ' (blocked, w) := (if cy_blocked c then Ok (true, w) else let* ' (r, w) := bf_slots now o w in Ok (negb r, w)) in
    Ok ({| cy_total := fl_total f; cy_saturated := cy_saturated c || (fl_bw f =? 0); cy_blocked := blocked |}, w)
  else Ok ({| cy_total := fl_total f; cy_saturated := cy_saturated c; cy_blocked := cy_blocked c |}, fl_world f).

(** [Throttle::operateVnet] *)
Definition th_operateVnet (vnet channel : Z) (s : Throttle * Cycle * Buffers) : res (Throttle * Cycle * Buffers) :=
  let '(t, c, w) := s in
  let* h := vec_get (th_in t) vnet in
  let* out := vec_get (th_out t) vnet in
  match out with
  | None => Ok s
  | Some o =>
      let* units := (let* us := vec_get (m_units_remaining t) vnet in vec_get us channel) in
      let* _ := assert_ "units_remaining >= 0" (0 <=? units) in
      let* bw := (if m_physical_vnets t then getLinkBandwidth vnet t else Ok (cy_total c)) in
      let* fuel := flow_fuel h bw w in
      let* f := flow_loop fuel vnet h o
        {| fl_units := units; fl_bw := bw; fl_total := cy_total c; fl_stats := throttleStats t; fl_world := w |} in
      let* _ := assert_ "units_remaining >= 0" (0 <=? fl_units f) in
      let* _ := assert_ "bw_remaining >= 0" (0 <=? fl_bw f) in
      let* _ := assert_ "total_bw_remaining >= 0" (0 <=? fl_total f) in
      let* ' (c, w) := flow_flags h o f c in
      let* t := set_units t vnet channel (fl_units f) (fl_stats f) in
      Ok (t, c, w)
  end.

Definition th_channels (vnet : Z) (s : Throttle * Cycle * Buffers) : res (Throttle * Cycle * Buffers) :=
  let* n := getChannelCnt vnet (fst (fst s)) in
  for_range 0 (Z.to_nat n) (th_operateVnet vnet) s.

Definition count_cycle (c : Cycle) (st : ThrottleStats) : ThrottleStats :=
  {| msg_counts := msg_counts st; total_msg_count := total_msg_count st; total_msg_bytes := total_msg_bytes st;
     total_data_msg_bytes := total_data_msg_bytes st; total_msg_wait_time := total_msg_wait_time st;
     total_stall_cy := total_stall_cy st + (if cy_blocked c then 1 else 0);
     total_bw_sat_cy := total_bw_sat_cy st + (if cy_saturated c then 1 else 0) |}.

Definition th_state (t : Throttle) (wakeups : Z) (st : ThrottleStats) (k : Consumer) : Throttle :=
  {| th_in := th_in t; th_out := th_out t; th_vnets := th_vnets t; m_units_remaining := m_units_remaining t;
     m_physical_vnets := m_physical_vnets t; m_link_bandwidth_multiplier := m_link_bandwidth_multiplier t;
     m_vnet_channels := m_vnet_channels t; m_link_latency := m_link_latency t;
     th_wakeups_wo_switch := wakeups; m_endpoint_bandwidth := m_endpoint_bandwidth t;
     throttleStats := st; th_consumer := k |}.

(** The order in which the vnets are served: descending, and ascending after
    [PRIORITY_SWITCH_LIMIT] wakeups. *)
Definition vnet_order (invert : bool) (vnets : Z) : list Z :=
  if invert then seqZ 0 vnets else reverse (seqZ 0 vnets).

(** [Throttle::wakeup] *)
Definition th_wakeup (t : Throttle) (w : Buffers) : res (Throttle * Buffers) :=
  let* bw := getTotalLinkBandwidth t in
  let* _ := assert_ "getTotalLinkBandwidth() > 0" (0 <? bw) in
  let n := th_wakeups_wo_switch t + 1 in
  let invert := PRIORITY_SWITCH_LIMIT <? n in
  let t := th_state t (if invert then 0 else n) (throttleStats t) (th_consumer t) in
  let* ' (t, c, w) := fold_res th_channels (vnet_order invert (th_vnets t))
    (t, {| cy_total := bw; cy_saturated := false; cy_blocked := false |}, w) in
  let* k := (if cy_saturated c || cy_blocked c then scheduleEvent env 1 (th_consumer t) else Ok (th_consumer t)) in
  Ok (th_state t (th_wakeups_wo_switch t) (count_cycle c (throttleStats t)) k, w).

End throttle.
End sizes.

(** ** Switching: simple/PerfectSwitch *)

Record SwOutputPort := { so_latency : Z; so_buffers : list Z }.

Record PerfectSwitch := {
  ps_in : list (list (option Z));
  ps_out : list SwOutputPort;
  m_in_prio : list (list Z);                     (* per vnet, by ascending priority *)
  m_in_prio_groups : list (list (list Z));
  ps_virtual_networks : Z;
  ps_wakeups_wo_switch : Z;
  m_pending_message_count : list Z;
  ps_consumer : Consumer
}.

Definition new_PerfectSwitch (virt_nets : Z) : PerfectSwitch :=
  {| ps_in := []; ps_out := []; m_in_prio := []; m_in_prio_groups := []; ps_virtual_networks := virt_nets;
     ps_wakeups_wo_switch := 0; m_pending_message_count := []; ps_consumer := new_Consumer |}.

Definition ps_ports (s : PerfectSwitch) (ins : list (list (option Z))) (outs : list SwOutputPort)
    (prio : list (list Z)) (groups : list (list (list Z))) : PerfectSwitch :=
  {| ps_in := ins; ps_out := outs; m_in_prio := prio; m_in_prio_groups := groups;
     ps_virtual_networks := ps_virtual_networks s; ps_wakeups_wo_switch := ps_wakeups_wo_switch s;
     m_pending_message_count := m_pending_message_count s; ps_consumer := ps_consumer s |}.
Definition ps_run (s : PerfectSwitch) (wakeups : Z) (pending : list Z) (k : Consumer) : PerfectSwitch :=
  {| ps_in := ps_in s; ps_out := ps_out s; m_in_prio := m_in_prio s; m_in_prio_groups := m_in_prio_groups s;
     ps_virtual_networks := ps_virtual_networks s; ps_wakeups_wo_switch := wakeups;
     m_pending_message_count := pending; ps_consumer := k |}.

(** [PerfectSwitch::init] *)
Definition ps_init (s : PerfectSwitch) : PerfectSwitch :=
  ps_run s (ps_wakeups_wo_switch s)
    (m_pending_message_count s ++ replicate (Z.to_nat (ps_virtual_networks s)) 0) (ps_consumer s).

(** [PerfectSwitch::storeEventInfo] *)
Definition storeEventInfo (info : Z) (s : PerfectSwitch) : res PerfectSwitch :=
  let* p := vec_upd (m_pending_message_count s) info (fun n => Ok (n + 1)) in
  Ok (ps_run s (ps_wakeups_wo_switch s) p (ps_consumer s)).

Section priorities.
(** [routingPriority] of a buffer. *)
Context (routingPriority : Z → Z).

Definition prio_le (i j : Z) : Prop := routingPriority i ≤ routingPriority j.
#[global] Instance prio_le_dec i j : Decision (prio_le i j) := decide (routingPriority i ≤ routingPriority j).

(** The buffers by priority, cut into groups. [std::sort] leaves the order of
    buffers of the same priority open; here they keep their order. *)
Definition group_step (cur_prio : Z) (groups : list (list Z)) (buf : Z) : list (list Z) :=
  let groups := if negb (routingPriority buf =? cur_prio) then groups ++ [[]] else groups in
  match reverse groups with [] => [[buf]] | g :: gs => reverse gs ++ [g ++ [buf]] end.

Definition prio_groups (bufs : list Z) : list (list Z) :=
  match bufs with [] => [] | b :: _ => foldl (group_step (routingPriority b)) [[]] bufs end.

Definition resize_to {A} (x : A) (n : nat) (l : list A) : list A := l ++ replicate (n - length l) x.

(** [PerfectSwitch::updatePriorityGroups] *)
Definition updatePriorityGroups (vnet : nat) (buf : Z) (s : PerfectSwitch) : PerfectSwitch :=
  let prio := resize_to [] (S vnet) (m_in_prio s) in
  let groups := resize_to [] (S vnet) (m_in_prio_groups s) in
  let sorted := merge_sort prio_le (default [] (prio !! vnet) ++ [buf]) in
  ps_ports s (ps_in s) (ps_out s) (<[vnet := sorted]> prio) (<[vnet := prio_groups sorted]> groups).

(** [PerfectSwitch::addInPort]; the caller makes the switch the consumer of the
    buffers and sets their vnets. *)
Definition ps_addInPort (ins : list (option Z)) (s : PerfectSwitch) : PerfectSwitch :=
  let s := ps_ports s (ps_in s ++ [ins]) (ps_out s) (m_in_prio s) (m_in_prio_groups s) in
  foldl (fun s p => match snd p with Some h => updatePriorityGroups (fst p) h s | None => s end) s
    (imap (fun i h => (i, h)) ins).

End priorities.

(** [PerfectSwitch::addOutPort] *)
Definition ps_addOutPort (out : list Z) (entry : NetDest) (latency weight : Z) (s : PerfectSwitch) (wb : WeightBased)
    : res (PerfectSwitch * WeightBased) :=
  let* wb := wb_addOutPort (Z.of_nat (length (ps_out s))) out entry weight wb in
  Ok (ps_ports s (ps_in s) (ps_out s ++ [{| so_latency := latency; so_buffers := out |}]) (m_in_prio s)
        (m_in_prio_groups s), wb).

(** [msg_ptr->clone()] *)
Definition clone_message (m : Message) (w : Buffers) : Message * Buffers :=
  ({| msg_handle := bf_next_message w; msg_time := msg_time m; m_LastEnqueueTime := m_LastEnqueueTime m;
      m_DelayedTicks := m_DelayedTicks m; msg_counter := msg_counter m; msg_destination := msg_destination m;
      msg_size_type := msg_size_type m |},
   {| bf_store := bf_store w; bf_calls := bf_calls w; bf_next_message := bf_next_message w + 1 |}).

Definition set_destination (d : NetDest) (m : Message) : Message :=
  {| msg_handle := msg_handle m; msg_time := msg_time m; m_LastEnqueueTime := m_LastEnqueueTime m;
     m_DelayedTicks := m_DelayedTicks m; msg_counter := msg_counter m; msg_destination := d;
     msg_size_type := msg_size_type m |}.

Section switching.
(** The clock; the vnets that are ordered; what [random] returns for a message
    and a link. *)
Context (env : ClockEnv) (ordered : list bool) (rng : Z → Z → Z).
Abbreviation now := (clockEdge env 0).

Definition out_buffer (s : PerfectSwitch) (vnet : Z) (r : SwRoute) : res (Z * Z) :=
  let* p := vec_get (ps_out s) (rt_link_id r) in
  let* h := vec_get (so_buffers p) vnet in
  Ok (h, so_latency p).

(** Is there room for the message on all its links? *)
Definition enough_room (s : PerfectSwitch) (vnet : Z) (routes : list SwRoute) (w : Buffers) : res (bool * Buffers) :=
  fold_res (fun r '(enough, w) =>
    let* ' (h, _) := out_buffer s vnet r in
    let* ' (ok, w) := bf_slots now h w in
    Ok (if ok : bool then enough else false, w)) routes (true, w).

(** The message goes out on one link: the message itself on the first, a copy of
    [unmodified] on the others. *)
Definition send_route (s : PerfectSwitch) (vnet : Z) (m unmodified : Message) (i : nat) (r : SwRoute) (w : Buffers)
    : res Buffers :=
  let* ' (h, latency) := out_buffer s vnet r in
  let '(m, w) := match i with O => (m, w) | S _ => clone_message unmodified w end in
  bf_enqueue now latency h (set_destination (rt_destinations r) m) w.

Definition send_routes (s : PerfectSwitch) (vnet : Z) (m unmodified : Message) (routes : list SwRoute) (w : Buffers)
    : res Buffers :=
  fold_res (fun p w => send_route s vnet m unmodified (fst p) (snd p) w) (imap (fun i r => (i, r)) routes) w.

(** The loop of [PerfectSwitch::operateMessageBuffer]. *)
Fixpoint operate_loop (fuel : nat) (h vnet : Z) (st : PerfectSwitch * WeightBased * Buffers)
    : res (PerfectSwitch * WeightBased * Buffers) :=
  match fuel with
  | O => Ok st
  | S fuel' =>
      let '(s, wb, w) := st in
      let* ' (ready, w) := bf_isReady now h w in
      if ready : bool then
        let* b := bf_get h w in
        let* msg := MessageBuffer.peek b in
        let* det := vec_get ordered vnet in
        let* ' (routes, wb, w) := route now (rng (msg_handle msg)) (msg_destination msg) det wb w in
        let* ' (enough, w) := enough_room s vnet routes w in
        if enough : bool then
          let '(unmodified, w) := if (1 <? length routes)%nat then clone_message msg w else (msg, w) in
          let* ' (msg, w) := bf_dequeue (curTick env) now h w in
          let* p := vec_upd (m_pending_message_count s) vnet (fun n => Ok (n - 1)) in
          let s := ps_run s (ps_wakeups_wo_switch s) p (ps_consumer s) in
          let* w := send_routes s vnet msg unmodified routes w in
          operate_loop fuel' h vnet (s, wb, w)
        else
          let* k := scheduleEvent env 1 (ps_consumer s) in
          Ok (ps_run s (ps_wakeups_wo_switch s) (m_pending_message_count s) k, wb, w)
      else Ok (s, wb, w)
  end.

Definition operateMessageBuffer (vnet h : Z) (st : PerfectSwitch * WeightBased * Buffers)
    : res (PerfectSwitch * WeightBased * Buffers) :=
  let* b := bf_get h (snd st) in
  operate_loop (length (m_prio_heap b) + 1) h vnet st.

(** The index of the buffer with the oldest message. *)
Definition oldest_step (best : nat * Z) (i : nat) (ready_time : Z) : nat * Z :=
  if ready_time <? snd best then (i, ready_time) else best.
Definition start_in_port (bufs : list Z) (w : Buffers) : res nat :=
  let* ' (best, _) := fold_res (fun p best =>
    let* b := bf_get (snd p) w in Ok (oldest_step best (fst p) (readyTime b))) (imap (fun i h => (i, h)) bufs) (0%nat, MaxTick) in
  Ok best.

Definition operate_group (vnet : Z) (bufs : list Z) (st : PerfectSwitch * WeightBased * Buffers)
    : res (PerfectSwitch * WeightBased * Buffers) :=
  let* start := start_in_port bufs (snd st) in
  fold_res (operateMessageBuffer vnet) (drop start bufs ++ take start bufs) st.

(** [PerfectSwitch::operateVnet] *)
Definition ps_operateVnet (vnet : Z) (st : PerfectSwitch * WeightBased * Buffers)
    : res (PerfectSwitch * WeightBased * Buffers) :=
  let* n := vec_get (m_pending_message_count (fst (fst st))) vnet in
  if n =? 0 then Ok st
  else
    let* groups := vec_get (m_in_prio_groups (fst (fst st))) vnet in
    fold_res (operate_group vnet) groups st.

(** [PerfectSwitch::wakeup] *)
Definition ps_wakeup (st : PerfectSwitch * WeightBased * Buffers) : res (PerfectSwitch * WeightBased * Buffers) :=
  let '(s, wb, w) := st in
  let n := ps_wakeups_wo_switch s + 1 in
  let invert := PRIORITY_SWITCH_LIMIT <? n in
  let s := ps_run s (if invert then 0 else n) (m_pending_message_count s) (ps_consumer s) in
  fold_res ps_operateVnet (vnet_order invert (ps_virtual_networks s)) (s, wb, w).

End switching.

(** ** simple/Switch *)

Record Switch := {
  perfectSwitch : PerfectSwitch;
  m_routing_unit : WeightBased;
  throttles : list Throttle;
  m_int_routing_latency : Z;
  m_ext_routing_latency : Z;
  m_num_connected_buffers : Z;
  m_port_buffers : list Z
}.

Definition new_Switch (virt_nets int_latency ext_latency : Z) (adaptive : bool) (port_buffers : list Z) : Switch :=
  {| perfectSwitch := new_PerfectSwitch virt_nets; m_routing_unit := {| adaptive_routing := adaptive; m_links := [] |};
     throttles := []; m_int_routing_latency := int_latency; m_ext_routing_latency := ext_latency;
     m_num_connected_buffers := 0; m_port_buffers := port_buffers |}.

Definition sw_parts (s : Switch) (ps : PerfectSwitch) (wb : WeightBased) (ts : list Throttle) (connected : Z) : Switch :=
  {| perfectSwitch := ps; m_routing_unit := wb; throttles := ts; m_int_routing_latency := m_int_routing_latency s;
     m_ext_routing_latency := m_ext_routing_latency s; m_num_connected_buffers := connected;
     m_port_buffers := m_port_buffers s |}.

Definition sw_init (s : Switch) : Switch :=
  sw_parts s (ps_init (perfectSwitch s)) (m_routing_unit s) (throttles s) (m_num_connected_buffers s).

(** The parameters of the network that switches read. *)
Record SimpleParams := {
  physical_vnets_channels : list Z;
  physical_vnets_bandwidth : list Z;
  endpoint_bandwidth : Z
}.

Definition resize_vec_to (x : Z) (n : nat) (l : list Z) : list Z := take n l ++ replicate (n - length l) x.

Definition make_throttle (ps : SimpleParams) (outs link_latency bw_multiplier : Z) : res Throttle :=
  if (0 <? Z.of_nat (length (physical_vnets_channels ps))) && (0 <? outs)
  then throttle_physical link_latency (physical_vnets_channels ps)
         (resize_vec_to bw_multiplier (Z.to_nat outs) (physical_vnets_bandwidth ps)) (endpoint_bandwidth ps)
  else throttle_shared link_latency bw_multiplier (endpoint_bandwidth ps).

(** [Switch::addOutPort]; returns the intermediate buffers, whose consumer is the
    new throttle. *)
Definition sw_addOutPort (ps : SimpleParams) (env : ClockEnv) (outs : list (option Z)) (entry : NetDest)
    (link_latency link_weight bw_multiplier : Z) (is_external : bool) (s : Switch) : res (Switch * list Z) :=
  let* t := make_throttle ps (Z.of_nat (length outs)) link_latency bw_multiplier in
  let* ' (intermediate, connected) := fold_res (fun _ '(hs, n) =>
    let* _ := assert_ "m_num_connected_buffers < m_port_buffers.size()" (n <? Z.of_nat (length (m_port_buffers s))) in
    let* h := vec_get (m_port_buffers s) n in Ok (hs ++ [h], n + 1)) outs ([], m_num_connected_buffers s) in
  let latency := cyclesToTicks env (if is_external then m_ext_routing_latency s else m_int_routing_latency s) in
  let* ' (sw, wb) := ps_addOutPort intermediate entry latency link_weight (perfectSwitch s) (m_routing_unit s) in
  let* t := addLinks intermediate outs t in
  Ok (sw_parts s sw wb (throttles s ++ [t]) connected, intermediate).

(** ** simple/SimpleNetwork *)

Record SimpleLink := { sl_bw_multiplier : Z; sl_buffers : list Z }.

Record SimpleNet := {
  sn_base : Network;
  m_switches : gmap Z Switch;
  sn_world : Buffers;
  sn_consumers : gmap Z sw_consumer;             (* [m_consumer] of the buffers *)
  m_int_link_buffers : list Z
}.

Definition sn_parts (n : SimpleNet) (base : Network) (sws : gmap Z Switch) (w : Buffers) (cs : gmap Z sw_consumer)
    (ints : list Z) : SimpleNet :=
  {| sn_base := base; m_switches := sws; sn_world := w; sn_consumers := cs; m_int_link_buffers := ints |}.
Definition sn_set_switch (n : SimpleNet) (id : Z) (s : Switch) : SimpleNet :=
  sn_parts n (sn_base n) (<[id := s]> (m_switches n)) (sn_world n) (sn_consumers n) (m_int_link_buffers n).
Definition sn_set_world (n : SimpleNet) (w : Buffers) : SimpleNet :=
  sn_parts n (sn_base n) (m_switches n) w (sn_consumers n) (m_int_link_buffers n).

Definition get_switch (id : Z) (n : SimpleNet) : res Switch :=
  match m_switches n !! id with Some s => Ok s | None => Err EOutOfRange end.

(** The checks of the constructor. *)
Definition check_params (ps : SimpleParams) (vnets : Z) : res unit :=
  let channels := Z.of_nat (length (physical_vnets_channels ps)) in
  let bandwidth := Z.of_nat (length (physical_vnets_bandwidth ps)) in
  if (0 <? channels) && negb (channels =? vnets) then Err (EFatal "physical_vnets_channels must provide channel count for all vnets")
  else if negb (0 <? channels) && negb (bandwidth =? 0) then Err (EFatal "physical_vnets_bandwidth also requires physical_vnets_channels")
  else if negb (bandwidth =? vnets) && negb (bandwidth =? 0) then Err (EFatal "physical_vnets_bandwidth must provide BW for all vnets")
  else Ok tt.

(** [MessageBuffer::setConsumer] *)
Definition setConsumer (c : sw_consumer) (h : Z) (n : SimpleNet) : res SimpleNet :=
  match sn_consumers n !! h with
  | Some _ => Err (EFatal "MessageBuffer already connected")
  | None => Ok (sn_parts n (sn_base n) (m_switches n) (sn_world n) (<[h := c]> (sn_consumers n)) (m_int_link_buffers n))
  end.

(** [MessageBuffer::setVnet] *)
Definition with_vnet (vnet : Z) (b : MessageBuffer) : MessageBuffer :=
  {| m_prio_heap := m_prio_heap b; m_dequeue_callback := m_dequeue_callback b; m_stall_msg_map := m_stall_msg_map b;
     m_deferred_msg_map := m_deferred_msg_map b; m_stall_map_size := m_stall_map_size b; m_max_size := m_max_size b;
     m_max_dequeue_rate := m_max_dequeue_rate b; m_dequeues_this_cy := m_dequeues_this_cy b;
     m_time_last_time_size_checked := m_time_last_time_size_checked b;
     m_size_last_time_size_checked := m_size_last_time_size_checked b;
     m_time_last_time_enqueue := m_time_last_time_enqueue b; m_time_last_time_pop := m_time_last_time_pop b;
     m_last_arrival_time := m_last_arrival_time b; m_size_at_cycle_start := m_size_at_cycle_start b;
     m_stalled_at_cycle_start := m_stalled_at_cycle_start b; m_msgs_this_cycle := m_msgs_this_cycle b;
     m_msg_counter := m_msg_counter b; m_last_message_strict_fifo_bypassed := m_last_message_strict_fifo_bypassed b;
     m_strict_fifo := m_strict_fifo b; m_randomization := m_randomization b;
     m_allow_zero_latency := m_allow_zero_latency b; m_vnet_id := vnet; m_not_avail_count := m_not_avail_count b;
     m_msg_count := m_msg_count b; m_buf_msgs := m_buf_msgs b; m_stall_time := m_stall_time b;
     m_stall_count := m_stall_count b |}.

(** [Switch::addInPort]: the switch becomes the consumer of the buffers. *)
Definition sn_addInPort (prio : Z → Z) (id : Z) (ins : list (option Z)) (n : SimpleNet) : res SimpleNet :=
  let* s := get_switch id n in
  let n := sn_set_switch n id (sw_parts s (ps_addInPort prio ins (perfectSwitch s)) (m_routing_unit s) (throttles s)
                                 (m_num_connected_buffers s)) in
  fold_res (fun p n =>
    match snd p with
    | None => Ok n
    | Some h =>
        let* n := setConsumer (SwPerfect id) h n in
        let* b := bf_get h (sn_world n) in
        Ok (sn_set_world n (bf_set h (with_vnet (Z.of_nat (fst p)) b) (sn_world n)))
    end) (imap (fun i h => (i, h)) ins) n.

(** [Switch::addOutPort] with the consumers it sets. *)
Definition sn_addOutPort (ps : SimpleParams) (env : ClockEnv) (id : Z) (outs : list (option Z)) (entry : NetDest)
    (latency weight bw_multiplier : Z) (external : bool) (n : SimpleNet) : res SimpleNet :=
  let* s := get_switch id n in
  let port := Z.of_nat (length (throttles s)) in
  let* ' (s, intermediate) := sw_addOutPort ps env outs entry latency weight bw_multiplier external s in
  fold_res (setConsumer (SwThrottle id port)) intermediate (sn_set_switch n id s).

Section links.
Context (ps : SimpleParams) (env : ClockEnv) (prio : Z → Z) (objects : gmap Z SimpleLink).

Definition link_object (link : BasicLink) : res SimpleLink :=
  match objects !! bl_handle link with Some l => Ok l | None => Err EOutOfRange end.

(** [SimpleNetwork::makeExtOutLink] *)
Definition sn_makeExtOutLink (src global_dest : Z) (link : BasicLink) (entry : list NetDest) (n : SimpleNet) : res SimpleNet :=
  let* local_dest := getLocalNodeID (sn_base n) global_dest in
  let* _ := assert_ "local_dest < m_nodes" (local_dest <? m_nodes (sn_base n)) in
  let* _ := get_switch src n in
  let* l := link_object link in
  let vnets := Z.to_nat (m_virtual_networks (sn_base n)) in
  let* q := vec_get (m_fromNetQueues (sn_base n)) local_dest in
  let* _ := assert_ "num_vnets >= queues" (length q <=? vnets)%nat in
  let q := q ++ replicate (vnets - length q) None in
  let* qs := vec_set (m_fromNetQueues (sn_base n)) local_dest q in
  let n := sn_parts n (with_queues (sn_base n) (m_toNetQueues (sn_base n)) qs) (m_switches n) (sn_world n) (sn_consumers n)
             (m_int_link_buffers n) in
  let* rte := vec_get entry 0 in
  sn_addOutPort ps env src q rte (bl_latency link) 0 (sl_bw_multiplier l) true n.

(** [SimpleNetwork::makeExtInLink] *)
Definition sn_makeExtInLink (global_src dest : Z) (n : SimpleNet) : res SimpleNet :=
  let* local_src := getLocalNodeID (sn_base n) global_src in
  let* _ := assert_ "local_src < m_nodes" (local_src <? m_nodes (sn_base n)) in
  let* q := vec_get (m_toNetQueues (sn_base n)) local_src in
  sn_addInPort prio dest q n.

(** [SimpleNetwork::makeInternalLink] *)
Definition sn_makeInternalLink (src dest : Z) (link : BasicLink) (entry : list NetDest) (n : SimpleNet) : res SimpleNet :=
  let* l := link_object link in
  let* n := sn_addInPort prio dest (map Some (sl_buffers l)) n in
  let* rte := vec_get entry 0 in
  let* n := sn_addOutPort ps env src (map Some (sl_buffers l)) rte (bl_latency link) (bl_weight link) (sl_bw_multiplier l) false n in
  Ok (sn_parts n (sn_base n) (m_switches n) (sn_world n) (sn_consumers n) (m_int_link_buffers n ++ sl_buffers l)).

Definition sn_make_link (req : link_request) (n : SimpleNet) : res SimpleNet :=
  match req with
  | MakeExtInLink src dest link _ => sn_makeExtInLink src dest n
  | MakeExtOutLink src dest link entry => sn_makeExtOutLink src dest link entry n
  | MakeInternalLink src dest link entry _ _ => sn_makeInternalLink src dest link entry n
  end.

(** [SimpleNetwork::init]: the switches are initialised on their own. *)
Definition sn_init (reqs : list link_request) (n : SimpleNet) : res SimpleNet := fold_res sn_make_link reqs n.

End links.

(** ** Running *)

Section run.
Context (env : ClockEnv) (ctrl_size data_size : Z) (rng : Z → Z → Z).

(** A buffer calls its consumer. *)
Definition sn_call (c : sw_call) (n : SimpleNet) : res SimpleNet :=
  let h := match c with SwArrival h _ | SwRetry h | SwCallback h => h end in
  let schedule k := match c with
                    | SwArrival _ tick => scheduleEventAbsolute env tick k
                    | SwRetry _ => scheduleEvent env 1 k
                    | SwCallback _ => Ok k
                    end in
  match sn_consumers n !! h with
  | None => match c with SwArrival _ _ | SwRetry _ => Err (EAssert "m_consumer != NULL") | SwCallback _ => Ok n end
  | Some (SwController _) => Ok n
  | Some (SwThrottle id port) =>
      let* s := get_switch id n in
      let* ts := vec_upd (throttles s) port (fun t =>
        let* k := schedule (th_consumer t) in Ok (th_state t (th_wakeups_wo_switch t) (throttleStats t) k)) in
      Ok (sn_set_switch n id (sw_parts s (perfectSwitch s) (m_routing_unit s) ts (m_num_connected_buffers s)))
  | Some (SwPerfect id) =>
      let* s := get_switch id n in
      let p := perfectSwitch s in
      let* k := schedule (ps_consumer p) in
      let p := ps_run p (ps_wakeups_wo_switch p) (m_pending_message_count p) k in
      let* p := match c with
                | SwArrival _ _ => let* b := bf_get h (sn_world n) in storeEventInfo (m_vnet_id b) p
                | _ => Ok p
                end in
      Ok (sn_set_switch n id (sw_parts s p (m_routing_unit s) (throttles s) (m_num_connected_buffers s)))
  end.

Definition no_calls (w : Buffers) : Buffers :=
  {| bf_store := bf_store w; bf_calls := []; bf_next_message := bf_next_message w |}.

(** The calls that were collected take effect. *)
Definition sn_settle (n : SimpleNet) : res SimpleNet :=
  fold_res sn_call (bf_calls (sn_world n)) (sn_set_world n (no_calls (sn_world n))).

(** The wakeup of a perfect switch, and of a throttle. *)
Definition sn_wake_perfect (id : Z) (n : SimpleNet) : res SimpleNet :=
  let* s := get_switch id n in
  let* ' (p, wb, w) := ps_wakeup env (net_ordered (sn_base n)) rng (perfectSwitch s, m_routing_unit s, sn_world n) in
  sn_settle (sn_set_world (sn_set_switch n id (sw_parts s p wb (throttles s) (m_num_connected_buffers s))) w).

Definition sn_wake_throttle (id port : Z) (n : SimpleNet) : res SimpleNet :=
  let* s := get_switch id n in
  let* t := vec_get (throttles s) port in
  let* ' (t, w) := th_wakeup ctrl_size data_size env (m_link_latency t) t (sn_world n) in
  let* ts := vec_set (throttles s) port t in
  sn_settle (sn_set_world (sn_set_switch n id (sw_parts s (perfectSwitch s) (m_routing_unit s) ts (m_num_connected_buffers s))) w).

(** A controller sends a message through a buffer, or takes one from a buffer it
    consumes. *)
Definition sn_send (delta h : Z) (m : Message) (n : SimpleNet) : res SimpleNet :=
  let* w := bf_enqueue (clockEdge env 0) delta h m (sn_world n) in sn_settle (sn_set_world n w).

Definition sn_receive (id h : Z) (n : SimpleNet) : res (Message * SimpleNet) :=
  let* _ := assert_ "the consumer of the buffer" (bool_decide (sn_consumers n !! h = Some (SwController id))) in
  let* ' (m, w) := bf_dequeue (curTick env) (clockEdge env 0) h (sn_world n) in
  let* n := sn_settle (sn_set_world n w) in Ok (m, n).

End run.
End world.

(** ** Functional accesses *)

Section functional.
(** A buffer's own accesses (MessageBuffer.v), on the handle of the buffer; the
    order in which the hash map [m_switches] is iterated. *)
Context {M : Type} (read_buffer mask_buffer : Z → M → bool * M) (write_buffer : Z → M → Z * M)
  (iteration : gmap Z Switch → list Switch).

(** The first buffer that has the data ends a plain read. *)
Fixpoint read_first (hs : list Z) (m : M) : bool * M :=
  match hs with
  | [] => (false, m)
  | h :: hs' => let '(r, m) := read_buffer h m in if r then (true, m) else read_first hs' m
  end.

(** With a mask all buffers are read. *)
Definition mask_buffers (hs : list Z) (s : bool * M) : bool * M :=
  foldl (fun '(read, m) h => let '(r, m) := mask_buffer h m in (if r then true else read, m)) s hs.
Definition write_buffers (hs : list Z) (s : Z * M) : Z * M :=
  foldl (fun '(num, m) h => let '(k, m) := write_buffer h m in (u32 (num + k), m)) s hs.

Definition sw_functionalRead (sw : Switch) (m : M) : bool * M := read_first (m_port_buffers sw) m.
Definition sw_functionalRead_mask (sw : Switch) (m : M) : bool * M := mask_buffers (m_port_buffers sw) (false, m).
Definition sw_functionalWrite (sw : Switch) (m : M) : Z * M := write_buffers (m_port_buffers sw) (0, m).

Fixpoint read_switches (sws : list Switch) (m : M) : bool * M :=
  match sws with
  | [] => (false, m)
  | sw :: sws' => let '(r, m) := sw_functionalRead sw m in if r then (true, m) else read_switches sws' m
  end.

Definition sn_functionalRead (n : SimpleNet) (m : M) : bool * M :=
  let '(r, m) := read_switches (iteration (m_switches n)) m in
  if r then (true, m) else read_first (m_int_link_buffers n) m.

Definition sn_functionalRead_mask (n : SimpleNet) (m : M) : bool * M :=
  mask_buffers (m_int_link_buffers n)
    (foldl (fun '(read, m) sw => let '(r, m) := sw_functionalRead_mask sw m in (if r then true else read, m)) (false, m)
       (iteration (m_switches n))).

Definition sn_functionalWrite (n : SimpleNet) (m : M) : Z * M :=
  write_buffers (m_int_link_buffers n)
    (foldl (fun '(num, m) sw => let '(k, m) := sw_functionalWrite sw m in (u32 (num + k), m)) (0, m)
       (iteration (m_switches n))).

End functional.
