(* ===== verification/SimpleRouting.v ===== *)
(** * Routing in the simple network

    WeightBased splits the destinations of a message among the output links:
    the first link, in the order of the links, that leads to a destination is
    responsible for it. *)

From stdpp Require Import sorting.
From S2P Require Import Prelude IntMath NetDest MessageBuffer SimpleNetwork.

(** Machine [snd x] of type [fst x] is reached through the link, or gets the copy
    of the message that a route makes. *)
Definition serves (x : Z * Z) (l : LinkInfo) : bool := has (li_routing_entry l) (fst x) (snd x).
Definition carries (x : Z * Z) (r : SwRoute) : bool := has (rt_destinations r) (fst x) (snd x).

(** The links on which copies for a machine leave. *)
Definition copies (x : Z * Z) (routes : list SwRoute) : list Z := map rt_link_id (List.filter (carries x) routes).

(** The link responsible for a machine. *)
Definition responsible (x : Z * Z) (links : list LinkInfo) : option Z := li_link_id <$> List.find (serves x) links.

(** A route lies on one of the links, which leads to all its destinations, and
    it has destinations. *)
Definition sound_route (rs : RubySystem) (links : list LinkInfo) (r : SwRoute) : Prop :=
  netdest_wf rs (rt_destinations r) ∧ (∃ x, 0 ≤ snd x ∧ carries x r = true) ∧
  ∃ l, l ∈ links ∧ rt_link_id r = li_link_id l ∧ ∀ x, 0 ≤ snd x → carries x r = true → serves x l = true.

Definition links_wf (rs : RubySystem) (links : list LinkInfo) : Prop :=
  Forall (fun l => netdest_wf rs (li_routing_entry l)) links.

(** ** An empty set of destinations *)

Lemma pos_popcount_pos p : 0 < pos_popcount p.
Proof. induction p; simpl; lia. Qed.

Lemma popcountll_spec m : 0 ≤ popcountll m ∧ (0 ≤ m → popcountll m = 0 → m = 0).
Proof. destruct m as [|p|p]; simpl; [lia| |lia]. pose proof (pos_popcount_pos p). lia. Qed.

Lemma foldl_lsum {A} (g : A → Z) l c : foldl (fun c s => c + g s) c l = c + lsum g l.
Proof. revert c. induction l as [|x l IH]; intros c; simpl; [lia|]. rewrite IH. lia. Qed.

Section routing.
Context (rs : RubySystem) (Hrs : ruby_system_ok rs).

Lemma count_zero d :
  netdest_wf rs d →
  ∃ c, NetDest.count d = Ok c ∧ (c = 0 ↔ ∀ i j, 0 ≤ j → has d i j = false).
Proof using Hrs.
  intros Hd. unfold NetDest.count. rewrite (wf_not_empty rs Hrs) by done. simpl. rewrite foldl_lsum, Z.add_0_l.
  eexists. split; [done|]. assert (∀ s, 0 ≤ NodeSet.count s) as Hp by (intros; apply popcountll_spec). split.
  - intros Hz i j Hj. unfold has. destruct (d !! Z.to_nat i) as [s|] eqn:Hs; [|done].
    pose proof (lsum_zero_each _ d Hp ltac:(lia)) as Hall. pose proof (Forall_lookup_1 _ _ _ _ Hall Hs) as Hc.
    destruct Hd as [_ Hd], (Hd _ _ Hs) as (_ & _ & Hb).
    rewrite (proj2 (popcountll_spec (NodeSet.bits s))) by (done || lia). apply Z.testbit_0_l.
  - intros Hz. apply lsum_zero, Forall_lookup. intros i s Hs. destruct Hd as [_ Hd], (Hd i s Hs) as (_ & Hn & Hb).
    unfold NodeSet.count. destruct (decide (NodeSet.bits s = 0)) as [->|Hne]; [done|].
    apply (nonzero_testbit _ (MachineType_base_count rs (Z.of_nat i))) in Hne as (j & Hj & Ht); [|lia..].
    specialize (Hz (Z.of_nat i) j (proj1 Hj)). unfold has in Hz. rewrite Nat2Z.id, Hs in Hz. congruence.
Qed.

(** ** One link, then all of them *)

Lemma find_step_spec link d acc :
  netdest_wf rs d → netdest_wf rs (li_routing_entry link) →
  ∃ rest new, find_step rs link (d, acc) = Ok (rest, acc ++ new) ∧ netdest_wf rs rest ∧
  (∀ x, 0 ≤ snd x →
     has rest (fst x) (snd x) = has d (fst x) (snd x) && negb (serves x link) ∧
     copies x new = if has d (fst x) (snd x) && serves x link then [li_link_id link] else []) ∧
  Forall (sound_route rs [link]) new.
Proof using Hrs.
  intros Hd Hl. unfold find_step.
  destruct (intersection_spec rs Hrs _ _ Hd Hl) as (hit & -> & Hhit). simpl. destruct hit.
  - destruct (AND_combines rs Hrs _ _ Hd Hl) as (c & -> & Hc & Hcc).
    destruct (removeNetDest_combines rs Hrs _ _ Hd Hl) as (r & -> & Hr & Hrc). simpl.
    eexists r, [_]. split_and!; [done|done| |].
    + intros x Hx. split; [by apply Hrc|]. unfold copies, carries, serves. simpl. rewrite Hcc by done. by destruct (_ && _).
    + constructor; [|constructor]. split; [done|]. split.
      * destruct (proj1 Hhit eq_refl) as (i & j & Hj & H1 & H2). exists (i, j). split; [done|].
        unfold carries. simpl. rewrite Hcc by done. by rewrite H1, H2.
      * exists link. split_and!; [by left|done|]. intros x Hx. unfold carries, serves. simpl. rewrite Hcc by done.
        by intros [_ ?]%andb_true_iff.
  - exists d, []. rewrite app_nil_r. split_and!; [done|done| |constructor].
    intros x Hx. assert (has d (fst x) (snd x) && serves x link = false) as E.
    { apply not_true_is_false. intros [H1 H2]%andb_true_iff. apply diff_false_true, Hhit. by exists (fst x), (snd x). }
    rewrite E. split; [|done]. unfold serves in *. by destruct (has d _ _), (has (li_routing_entry link) _ _).
Qed.

Lemma copies_app x r1 r2 : copies x (r1 ++ r2) = copies x r1 ++ copies x r2.
Proof. unfold copies. by rewrite List.filter_app, map_app. Qed.

Lemma find_links_spec links d acc :
  netdest_wf rs d → links_wf rs links →
  ∃ rest new, fold_res (find_step rs) links (d, acc) = Ok (rest, acc ++ new) ∧ netdest_wf rs rest ∧
  (∀ x, 0 ≤ snd x →
     has rest (fst x) (snd x) = has d (fst x) (snd x) && negb (existsb (serves x) links) ∧
     copies x new = if has d (fst x) (snd x) then option_list (responsible x links) else []) ∧
  Forall (sound_route rs links) new.
Proof using Hrs.
  intros Hd Hls. revert d acc Hd. induction Hls as [|l links Hl Hls IH]; intros d acc Hd.
  { exists d, []. rewrite app_nil_r. split_and!; [done|done| |constructor]. intros x _. simpl.
    rewrite andb_true_r. by destruct (has d _ _). }
  destruct (find_step_spec l d acc Hd Hl) as (r1 & n1 & H1 & Hr1 & Hx1 & Hn1).
  destruct (IH r1 (acc ++ n1) Hr1) as (rest & n2 & H2 & Hr2 & Hx2 & Hn2).
  exists rest, (n1 ++ n2). cbn [fold_res]. rewrite H1. simpl. rewrite H2, app_assoc. split_and!; [done|done| |].
  2:{ apply Forall_app. split; (eapply Forall_impl; [eassumption|]); intros r (Hr & Hne & l' & Hl' & Hrest);
        (split_and!; [done..|]); exists l'; (split; [|done]); [apply list_elem_of_singleton in Hl' as ->; by left|by right]. }
  intros x Hx. destruct (Hx1 x Hx) as [A1 B1], (Hx2 x Hx) as [A2 B2]. rewrite A2, A1, copies_app, B1, B2, A1.
  unfold responsible. simpl. by destruct (has d _ _), (serves x l).
Qed.

Lemma findRoute_spec wb d :
  netdest_wf rs d → links_wf rs (m_links wb) →
  (is_ok (findRoute rs d wb) = true ↔
     ∀ x, 0 ≤ snd x → has d (fst x) (snd x) = true → existsb (serves x) (m_links wb) = true) ∧
  ∀ routes, findRoute rs d wb = Ok routes →
    (∀ x, 0 ≤ snd x → copies x routes = if has d (fst x) (snd x) then option_list (responsible x (m_links wb)) else []) ∧
    (∀ x, 0 ≤ snd x → has d (fst x) (snd x) = true → is_Some (responsible x (m_links wb))) ∧
    Forall (sound_route rs (m_links wb)) routes.
Proof using Hrs.
  intros Hd Hl. unfold findRoute. destruct (find_links_spec _ d [] Hd Hl) as (rest & new & -> & Hr & Hx & Hn). simpl.
  destruct (count_zero rest Hr) as (c & -> & Hc). simpl.
  assert (c = 0 ↔ ∀ x, 0 ≤ snd x → has d (fst x) (snd x) = true → existsb (serves x) (m_links wb) = true) as Hiff.
  { rewrite Hc. split.
    - intros Hz x Hx0 Hdx. specialize (Hz (fst x) (snd x) Hx0). destruct (Hx x Hx0) as [E _]. rewrite E, Hdx in Hz.
      by destruct (existsb _ _).
    - intros Hz i j Hj. destruct (Hx (i, j) Hj) as [E _]. simpl in E. rewrite E. specialize (Hz (i, j) Hj). simpl in Hz.
      destruct (has d i j); [by rewrite Hz|done]. }
  rewrite <- Hiff. unfold assert_. destruct (Z.eqb_spec c 0) as [Hc0|Hc0]; simpl; [|by split; [split|]].
  split; [done|]. intros routes [= <-]. split_and!; [by apply Hx| |done].
  intros x Hx0 Hdx. pose proof (proj1 Hiff Hc0 x Hx0 Hdx) as He. unfold responsible.
  destruct (List.find (serves x) (m_links wb)) eqn:Hf; [by eexists|].
  apply existsb_exists in He as (l & Hin & Hs). pose proof (find_none _ _ Hf l Hin). congruence.
Qed.

(** ** The order of the links *)

#[local] Instance link_le_total : Total link_le.
Proof using. intros a b. unfold link_le, link_leb. repeat zcase; simpl; auto; lia. Qed.

(** The links stay the same but for their order. *)
Definition same_links (wb wb' : WeightBased) : Prop :=
  map (with_order 0) (m_links wb') ≡ₚ map (with_order 0) (m_links wb).

Lemma sortLinks_spec wb : Sorted link_le (m_links (sortLinks wb)) ∧ m_links (sortLinks wb) ≡ₚ m_links wb.
Proof using. split; [apply (Sorted_merge_sort link_le)|apply merge_sort_Permutation]. Qed.

Lemma same_links_elem wb wb' l' :
  same_links wb wb' → l' ∈ m_links wb' → ∃ l, l ∈ m_links wb ∧ with_order 0 l = with_order 0 l'.
Proof using.
  intros Hs Hl. assert (with_order 0 l' ∈ map (with_order 0) (m_links wb)) as H.
  { unfold same_links in Hs. rewrite <- Hs. by apply list_elem_of_fmap_2. }
  apply list_elem_of_fmap in H as (l & E & Hl'). by exists l.
Qed.

Lemma same_links_wf wb wb' : same_links wb wb' → links_wf rs (m_links wb) → links_wf rs (m_links wb').
Proof using.
  unfold links_wf. intros Hs H. apply Forall_forall. intros l' Hl'. destruct (same_links_elem wb wb' l' Hs Hl') as (l & Hl & E).
  assert (li_routing_entry l' = li_routing_entry l) as -> by by injection E.
  rewrite Forall_forall in H. by apply H.
Qed.

Lemma sound_route_same wb wb' r : same_links wb wb' → sound_route rs (m_links wb') r → sound_route rs (m_links wb) r.
Proof using.
  intros Hs (Hr & Hne & l' & Hl' & Hid & Hx). destruct (same_links_elem wb wb' l' Hs Hl') as (l & Hl & E).
  split_and!; [done..|]. exists l. injection E as E1 E2 E3 E4. split_and!; [done|congruence|].
  intros x Hx0 Hc. unfold serves. rewrite E2. by apply Hx.
Qed.

End routing.

(** C26: A message is split exactly. [findRoute] fails if and only if some
    destination is in no routing entry; otherwise every destination is in exactly
    one of the copies, on the first link in the order of the links whose entry
    contains it, machines that are not destinations are in none, and every copy is
    for someone. *)
Theorem findRoute_splits rs wb d :
  ruby_system_ok rs → netdest_wf rs d → links_wf rs (m_links wb) →
  (is_ok (findRoute rs d wb) = true ↔
     ∀ x, 0 ≤ snd x → has d (fst x) (snd x) = true → existsb (serves x) (m_links wb) = true) ∧
  ∀ routes, findRoute rs d wb = Ok routes →
    (∀ x, 0 ≤ snd x →
       if has d (fst x) (snd x) then ∃ link, responsible x (m_links wb) = Some link ∧ copies x routes = [link]
       else copies x routes = []) ∧
    Forall (fun r => ∃ x, 0 ≤ snd x ∧ has d (fst x) (snd x) = true ∧ carries x r = true) routes.
Proof.
  intros Hrs Hd Hl. destruct (findRoute_spec rs Hrs wb d Hd Hl) as [Hok Hspec]. split; [done|]. intros routes Hr.
  destruct (Hspec routes Hr) as (Hc & Hs & Hf). split.
  - intros x Hx. specialize (Hc x Hx). specialize (Hs x Hx). destruct (has d (fst x) (snd x)); [|done].
    destruct (Hs eq_refl) as [l Hl']. exists l. by rewrite Hc, Hl'.
  - apply Forall_forall. intros r Hin. rewrite Forall_forall in Hf. destruct (Hf r Hin) as (_ & (x & Hx & Hcar) & _).
    exists x. split_and!; [done| |done]. specialize (Hc x Hx). destruct (has d (fst x) (snd x)); [done|].
    assert (rt_link_id r ∈ copies x routes) as Hel.
    { apply list_elem_of_fmap. exists r. split; [done|]. apply list_elem_of_In, filter_In. split; [by apply list_elem_of_In|done]. }
    rewrite Hc in Hel. by apply elem_of_nil in Hel.
Qed.

(** Two links that both lead to machine 1 of type 0: the first takes it. *)
Definition ex_wb : WeightBased :=
  {| adaptive_routing := false;
     m_links := [{| li_link_id := 0; li_routing_entry := ex_dest 2 0; li_out_buffers := []; li_order := 0; li_weight := 1 |};
                 {| li_link_id := 1; li_routing_entry := ex_dest 3 1; li_out_buffers := []; li_order := 0; li_weight := 1 |}] |}.

Lemma findRoute_splits_witness :
  ∃ routes, findRoute ex_rs (ex_dest 3 1) ex_wb = Ok routes ∧ map rt_destinations routes = [ex_dest 2 0; ex_dest 1 1] ∧
            ∃ link, responsible (0, 1) (m_links ex_wb) = Some link ∧ copies (0, 1) routes = [link].
Proof.
  destruct (findRoute_splits ex_rs ex_wb (ex_dest 3 1) ex_rs_ok) as [_ H].
  - apply ex_dest_wf; lia.
  - apply Forall_cons_2; [|apply Forall_cons_2; [|apply Forall_nil_2]]; apply ex_dest_wf; lia.
  - destruct (findRoute ex_rs (ex_dest 3 1) ex_wb) as [routes|] eqn:E; [|by vm_compute in E].
    exists routes. split; [done|]. split; [vm_compute in E; by injection E as <-|].
    destruct (H routes eq_refl) as [Hx _]. exact (Hx (0, 1) ltac:(done)).
Defined.
