(* ===== verification/SimpleFlow.v ===== *)
(** * What the parts of the simple network do to the messages in the buffers

    The effect of an operation is the messages it takes out of buffers and those
    it puts into buffers. Effects compose; the wakeup of a throttle or of a
    perfect switch has one, in which every destination of a message that was
    taken gets exactly one of the messages that were put. *)

From stdpp Require Import sorting.
From S2P Require Import Prelude IntMath Clocked Consumer NetDest MessageBuffer SimpleNetwork SimpleRouting.

(** ** Messages in buffers *)

Definition vnet_at (w : Buffers) (h : Z) : Z := default 0 (m_vnet_id <$> bf_store w !! h).

(** The sum of a weight, which may depend on the buffer, its vnet and the
    destinations, over the messages of a buffer and of all buffers. *)
Definition buffer_held (F : Z → Z → NetDest → Z) (p : Z * MessageBuffer) : Z :=
  lsum (fun m => F (fst p) (m_vnet_id (snd p)) (msg_destination m)) (m_prio_heap (snd p)).
Definition held (F : Z → Z → NetDest → Z) (w : Buffers) : Z := lsum (buffer_held F) (map_to_list (bf_store w)).

(** A message with these destinations is in the buffer. *)
Definition present (w : Buffers) (h : Z) (d : NetDest) : Prop :=
  ∃ b m, bf_store w !! h = Some b ∧ m ∈ m_prio_heap b ∧ msg_destination m = d.

(** The buffers that called their consumer because of a message. *)
Definition arrivals (cs : list sw_call) : list Z :=
  omap (fun c => match c with SwArrival h _ => Some h | _ => None end) cs.

Definition weigh (F : Z → Z → NetDest → Z) (w : Buffers) (p : Z * NetDest) : Z := F (fst p) (vnet_at w (fst p)) (snd p).

Record effect (w w' : Buffers) (out inn : list (Z * NetDest)) : Prop := {
  ef_vnets h : vnet_at w' h = vnet_at w h;
  ef_held F : held F w' = held F w - lsum (weigh F w) out + lsum (weigh F w) inn;
  ef_calls : ∃ cs, bf_calls w' = bf_calls w ++ cs ∧ arrivals cs = map fst inn;
  ef_present h d : present w' h d → present w h d ∨ (h, d) ∈ inn;
  ef_taken h d : (h, d) ∈ out → present w h d ∨ (h, d) ∈ inn;
  ef_idle h : out = [] → inn = [] → m_prio_heap <$> bf_store w' !! h = m_prio_heap <$> bf_store w !! h;
  ef_dom h : bf_store w' !! h = None ↔ bf_store w !! h = None
}.

Lemma effect_refl w : effect w w [] [].
Proof.
  split; [done|simpl; lia| |by left|by intros ?? ?%elem_of_nil|done|done]. exists []. by rewrite app_nil_r.
Qed.

Lemma weigh_same F w w' l : (∀ h, vnet_at w' h = vnet_at w h) → lsum (weigh F w') l = lsum (weigh F w) l.
Proof. intros Hv. apply lsum_ext. intros x _. unfold weigh. by rewrite Hv. Qed.

Lemma effect_trans w1 w2 w3 o1 i1 o2 i2 :
  effect w1 w2 o1 i1 → effect w2 w3 o2 i2 → effect w1 w3 (o1 ++ o2) (i1 ++ i2).
Proof.
  intros [V1 H1 (c1 & C1 & A1) P1 T1 I1 D1] [V2 H2 (c2 & C2 & A2) P2 T2 I2 D2]. split.
  - intros h. by rewrite V2.
  - intros F. rewrite H2, H1, !lsum_app, !(weigh_same F w1 w2) by done. lia.
  - exists (c1 ++ c2). rewrite C2, C1, <- app_assoc. split; [done|]. unfold arrivals in *.
    by rewrite omap_app, A1, A2, map_app.
  - intros h d [[?|?]%P1|?]%P2; [by left|right; apply elem_of_app; by left|right; apply elem_of_app; by right].
  - intros h d [?|?]%elem_of_app.
    + destruct (T1 h d) as [?|?]; [done|by left|right; apply elem_of_app; by left].
    + destruct (T2 h d) as [Hp|?]; [done| |right; apply elem_of_app; by right].
      destruct (P1 h d Hp) as [?|?]; [by left|right; apply elem_of_app; by left].
  - intros h [-> ->]%app_nil [-> ->]%app_nil. by rewrite I2, I1.
  - intros h. by rewrite D2.
Qed.

Lemma effect_quiet w1 w2 w3 o i : effect w1 w2 [] [] → effect w2 w3 o i → effect w1 w3 o i.
Proof. apply effect_trans. Qed.

Lemma effect_then_quiet w1 w2 w3 o i : effect w1 w2 o i → effect w2 w3 [] [] → effect w1 w3 o i.
Proof. intros H1 H2. pose proof (effect_trans _ _ _ _ _ _ _ H1 H2) as H. by rewrite !app_nil_r in H. Qed.

Lemma lsum_insert_map {A} (g : Z * A → Z) (m : gmap Z A) k a b :
  m !! k = Some a → lsum g (map_to_list (<[k := b]> m)) = lsum g (map_to_list m) - g (k, a) + g (k, b).
Proof.
  intros Ha. rewrite <- (insert_delete_eq m k b), map_to_list_insert by apply lookup_delete_eq.
  rewrite <- (insert_id m k a) at 2 by done. rewrite <- (insert_delete_eq m k a), map_to_list_insert by apply lookup_delete_eq.
  simpl. lia.
Qed.

(** A buffer is replaced. *)
Lemma effect_set w h b b' o i :
  bf_store w !! h = Some b → m_vnet_id b' = m_vnet_id b →
  (∀ F, buffer_held F (h, b') = buffer_held F (h, b) - lsum (weigh F w) o + lsum (weigh F w) i) →
  (∀ m, m ∈ m_prio_heap b' → present w h (msg_destination m) ∨ (h, msg_destination m) ∈ i) →
  (∀ k d, (k, d) ∈ o → present w k d) →
  (o = [] → i = [] → m_prio_heap b' = m_prio_heap b) →
  ∀ cs, arrivals cs = map fst i →
  effect w {| bf_store := <[h := b']> (bf_store w); bf_calls := bf_calls w ++ cs; bf_next_message := bf_next_message w |} o i.
Proof.
  intros Hb Hv Hh Hp Ht Hi cs Hcs. split; simpl.
  - intros k. unfold vnet_at. simpl. destruct (decide (k = h)) as [->|Hne].
    + by rewrite lookup_insert_eq, Hb; simpl.
    + by rewrite lookup_insert_ne by done.
  - intros F. unfold held. simpl. rewrite (lsum_insert_map _ _ _ _ _ Hb), Hh. lia.
  - by exists cs.
  - intros k d (b0 & m & Hk & Hm & <-). destruct (decide (k = h)) as [->|Hne].
    + simpl in Hk. rewrite lookup_insert_eq in Hk. simplify_eq. by apply Hp.
    + left. exists b0, m. simpl in Hk. by rewrite lookup_insert_ne in Hk by done.
  - intros k d Hk. left. by apply Ht.
  - intros k Ho Hin. destruct (decide (k = h)) as [->|Hne]; [|by rewrite lookup_insert_ne by done].
    rewrite lookup_insert_eq, Hb. simpl. f_equal. by apply Hi.
  - intros k. destruct (decide (k = h)) as [->|Hne]; [by rewrite lookup_insert_eq, Hb|by rewrite lookup_insert_ne by done].
Qed.

Lemma bf_get_ok h w b : bf_get h w = Ok b → bf_store w !! h = Some b.
Proof. unfold bf_get. destruct (bf_store w !! h); by intros [= ->]. Qed.

Lemma bf_set_calls h b w : bf_set h b w = {| bf_store := <[h := b]> (bf_store w); bf_calls := bf_calls w ++ []; bf_next_message := bf_next_message w |}.
Proof. unfold bf_set. by rewrite app_nil_r. Qed.

(** ** The operations on buffers *)

(** A buffer whose messages and vnet stay. *)
Lemma set_same_effect w h b b' :
  bf_store w !! h = Some b → m_vnet_id b' = m_vnet_id b → m_prio_heap b' = m_prio_heap b → effect w (bf_set h b' w) [] [].
Proof.
  intros Hb Hv Hh. rewrite bf_set_calls. apply (effect_set w h b b'); [done|done| | |by intros ?? ?%elem_of_nil|done|done].
  - intros F. unfold buffer_held. simpl. rewrite Hv, Hh. lia.
  - intros m Hm. left. exists b, m. by rewrite Hh in Hm.
Qed.

Lemma call_effect w c : arrivals [c] = [] → effect w (bf_call c w) [] [].
Proof.
  intros Hc. split; [done|simpl; unfold held; simpl; lia| |by left|by intros ?? ?%elem_of_nil|done|done]. by exists [c].
Qed.

Lemma isReady_effect now h w r w' : bf_isReady now h w = Ok (r, w') → effect w w' [] [].
Proof.
  unfold bf_isReady. intros (b & Hb & H)%rbind_ok. apply rbind_ok in H as ([r' c] & _ & H). simplify_eq.
  destruct c; [by apply call_effect|apply effect_refl].
Qed.

Lemma slots_effect now h w r w' : bf_slots now h w = Ok (r, w') → effect w w' [] [].
Proof.
  unfold bf_slots. intros (b & Hb%bf_get_ok & H)%rbind_ok.
  destruct (areNSlotsAvailable 1 now b) as [ok b'] eqn:E. simplify_eq. apply (set_same_effect w h b b' Hb).
  all: unfold areNSlotsAvailable in E; repeat case_match; by simplify_eq.
Qed.

Lemma dequeue_vnet cur t dec b m d cb b' : dequeue cur t dec b = Ok (m, d, cb, b') → m_vnet_id b' = m_vnet_id b.
Proof.
  unfold dequeue. intros ([r c] & _ & H)%rbind_ok. apply rbind_ok in H as (? & _ & H).
  destruct (m_prio_heap b); [done|]. apply rbind_ok in H as (? & _ & H). by destruct dec; simplify_eq.
Qed.

Lemma dequeue_effect cur now h w m w' :
  bf_dequeue cur now h w = Ok (m, w') → effect w w' [(h, msg_destination m)] [].
Proof.
  unfold bf_dequeue. intros (b & Hb%bf_get_ok & H)%rbind_ok.
  apply rbind_ok in H as ([[[m' d] cb] b'] & Hd & H). injection H as <- <-.
  pose proof (dequeue_vnet _ _ _ _ _ _ _ _ Hd) as Hv.
  apply dequeue_ok in Hd as (_ & m0 & heap & Hh & Hh' & _ & Hm & _).
  assert (msg_destination m' = msg_destination m0) as -> by by rewrite Hm.
  assert (effect w (bf_set h b' w) [(h, msg_destination m0)] []) as He.
  { rewrite bf_set_calls. apply (effect_set w h b b'); [done|done| | | |done|done].
    - intros F. unfold buffer_held, weigh, vnet_at. simpl. rewrite Hv, Hh, Hh', Hb. simpl. lia.
    - intros x Hx. left. exists b, x. split; [done|]. rewrite Hh. rewrite Hh' in Hx. split; [by right|done].
    - intros k d' [= -> ->]%list_elem_of_singleton. exists b, m0. rewrite Hh. split_and!; [done|by left|done]. }
  destruct cb; [|done]. eapply effect_then_quiet; [done|]. by apply call_effect.
Qed.

Lemma heap_push_elem m h : heap_push m h ≡ₚ m :: h.
Proof.
  induction h as [|x h IH]; simpl; [done|]. destruct (msg_greater x m); [done|]. rewrite IH. constructor.
Qed.

Lemma enqueue_effect rnd warm rt now delta h m w w' :
  bf_enqueue rnd warm rt now delta h m w = Ok w' → effect w w' [] [(h, msg_destination m)].
Proof.
  unfold bf_enqueue. intros (b & Hb%bf_get_ok & H)%rbind_ok. apply rbind_ok in H as ([b' a] & He & H). simplify_eq.
  apply enqueue_ok in He as (Hh & _ & _ & Hb' & _).
  unfold bf_call, bf_set. simpl. assert (m_vnet_id b' = m_vnet_id b) as Hv by by rewrite Hb'.
  apply (effect_set w h b b'); [done|done| | |by intros ?? ?%elem_of_nil|done|done].
  - intros F. unfold buffer_held, weigh, vnet_at. simpl. rewrite Hv, Hh, heap_push_elem, Hb. simpl. lia.
  - intros x Hx. rewrite Hh, heap_push_elem in Hx. apply elem_of_cons in Hx as [->|Hx].
    + right. by apply list_elem_of_singleton.
    + left. by exists b, x.
Qed.

Lemma clone_effect m w m' w' : clone_message m w = (m', w') → effect w w' [] [] ∧ msg_destination m' = msg_destination m.
Proof.
  intros [= <- <-]. split; [|done]. split; [done|simpl; unfold held; simpl; lia| |by left|by intros ?? ?%elem_of_nil|done|done].
  exists []. by rewrite app_nil_r.
Qed.

(** Loops whose turns are quiet. *)
Lemma fold_quiet {A S} (wd : S → Buffers) (f : A → S → res S) l s s' :
  (∀ x t t', f x t = Ok t' → effect (wd t) (wd t') [] []) → fold_res f l s = Ok s' → effect (wd s) (wd s') [] [].
Proof.
  intros Hf. revert s. induction l as [|x l IH]; intros s H; simpl in H; [simplify_eq; apply effect_refl|].
  apply rbind_ok in H as (t & Ht & H). eapply effect_quiet; [by eapply Hf|by apply IH].
Qed.

Lemma queue_length_effect now hs w n w' : queue_length now hs w = Ok (n, w') → effect w w' [] [].
Proof.
  apply (fold_quiet snd). intros h [k u] [k' u'] H. apply rbind_ok in H as (b & Hb%bf_get_ok & H).
  destruct (getSize now b) as [x b'] eqn:E. simplify_eq. apply (set_same_effect u h b b' Hb).
  all: unfold getSize in E; repeat case_match; by simplify_eq.
Qed.

Lemma reorder_effect now rng links w ls w' :
  reorder now rng links w = Ok (ls, w') → effect w w' [] [] ∧ map (with_order 0) ls = map (with_order 0) links.
Proof.
  intros H. split.
  - revert H. apply (fold_quiet snd). intros l [k u] [k' u'] H. apply rbind_ok in H as ([n u1] & Hq & H). simplify_eq.
    by eapply queue_length_effect.
  - unfold reorder in H. assert (∀ acc w, fold_res (fun link '(ls, w) =>
      let* ' (n, w) := queue_length now (li_out_buffers link) w in
      Ok (ls ++ [with_order (Z.lor (Z.shiftl n 8) (rng (li_link_id link))) link], w)) links (acc, w) = Ok (ls, w') →
      map (with_order 0) ls = map (with_order 0) acc ++ map (with_order 0) links) as Hgen; [|by apply Hgen in H].
    clear. induction links as [|l links IH]; intros acc w H; cbn [fold_res] in H.
    { simplify_eq. simpl. by rewrite app_nil_r. }
    apply rbind_ok in H as ([acc1 w1] & Hl & H). apply rbind_ok in Hl as ([n w2] & _ & Hl). simplify_eq.
    apply IH in H. rewrite H, map_app, <- app_assoc. by destruct l.
Qed.

Lemma route_effect rs now rng d det wb w routes wb' w' :
  route rs now rng d det wb w = Ok (routes, wb', w') →
  effect w w' [] [] ∧ same_links wb wb' ∧ adaptive_routing wb' = adaptive_routing wb ∧
  (adaptive_routing wb = true → Sorted link_le (m_links wb')) ∧ findRoute rs d wb' = Ok routes.
Proof.
  unfold route. intros ([wb1 w1] & H1 & H)%rbind_ok. apply rbind_ok in H as (rs' & Hf & H). simplify_eq.
  destruct (adaptive_routing wb) eqn:Ea; [|by simplify_eq; split_and!; [apply effect_refl|unfold same_links|..]].
  apply rbind_ok in H1 as ([links w2] & Hl & H1). simplify_eq.
  assert (effect w w' [] [] ∧ map (with_order 0) links = map (with_order 0) (m_links wb)) as [He Hm].
  { destruct det; [|by eapply reorder_effect]. simplify_eq. split; [apply effect_refl|]. rewrite map_map. by apply map_ext. }
  set (wb1 := {| adaptive_routing := true; m_links := links |}) in *. destruct (sortLinks_spec wb1) as [Hs Hp].
  split_and!; [done| |done|done|done]. unfold same_links. by rewrite Hp, <- Hm.
Qed.
