(* ===== verification/Switching.v ===== *)
(** * The wakeup of a perfect switch and of a throttle

    A perfect switch gives every destination of a message it takes exactly one
    copy, on a link that leads there, and keeps count of the messages it took;
    a throttle moves messages unchanged. *)

From stdpp Require Import sorting.
From S2P Require Import Prelude IntMath Clocked Consumer NetDest MessageBuffer SimpleNetwork SimpleRouting SimpleFlow.

(** ** Perfect switches *)

(** The input buffers of a vnet. *)
Definition in_group (s : PerfectSwitch) (v h : Z) : Prop :=
  ∃ gs g, vec_get (m_in_prio_groups s) v = Ok gs ∧ g ∈ gs ∧ h ∈ g.

(** The part of a switch that never changes after construction. *)
Definition ps_shape (s : PerfectSwitch) := (ps_in s, ps_out s, m_in_prio s, m_in_prio_groups s, ps_virtual_networks s).

(** The copies for a machine, in a list of messages. *)
Definition bound_for (x : Z * Z) (p : Z * NetDest) : Z := if has (snd p) (fst x) (snd x) then 1 else 0.
Definition from_vnet (w : Buffers) (v : Z) (p : Z * NetDest) : Z := if vnet_at w (fst p) =? v then 1 else 0.

(** The message was put into a buffer of a port whose link leads to all its
    destinations. *)
Definition routed (rs : RubySystem) (s : PerfectSwitch) (wb : WeightBased) (p : Z * NetDest) : Prop :=
  netdest_wf rs (snd p) ∧
  ∃ l port, l ∈ m_links wb ∧ vec_get (ps_out s) (li_link_id l) = Ok port ∧ fst p ∈ so_buffers port ∧
            ∀ x, 0 ≤ snd x → has (snd p) (fst x) (snd x) = true → serves x l = true.

Lemma imap_snd {A} (f : nat → nat) (l : list A) : map snd (imap (fun i x => (f i, x)) l) = l.
Proof. revert f. induction l as [|x l IH]; intros f; [done|]. simpl. f_equal. apply (IH (fun i => f (S i))). Qed.

Section switching.
Context (rs : RubySystem) (Hrs : ruby_system_ok rs) (rnd warm : bool) (rt : Z → Z)
  (env : ClockEnv) (ordered : list bool) (rng : Z → Z → Z).

Abbreviation switch_state := (PerfectSwitch * WeightBased * Buffers)%type.

(** What a wakeup relies on. *)
Record sw_inv (st : switch_state) : Prop := {
  si_links : links_wf rs (m_links (snd (fst st)));
  si_wf h d : present (snd st) h d → netdest_wf rs d;
  si_groups v h : in_group (fst (fst st)) v h → vnet_at (snd st) h = v
}.

Record switched_with (st st' : switch_state) (out inn : list (Z * NetDest)) : Prop := {
  sx_effect : effect (snd st) (snd st') out inn;
  sx_shape : ps_shape (fst (fst st')) = ps_shape (fst (fst st));
  sx_links : same_links (snd (fst st)) (snd (fst st'));
  sx_pending v : m_pending_message_count (fst (fst st')) !! v =
    (fun n => n - lsum (from_vnet (snd st) (Z.of_nat v)) out) <$> m_pending_message_count (fst (fst st)) !! v;
  sx_from : Forall (fun p => ∃ v, in_group (fst (fst st)) v (fst p)) out;
  sx_balance x : 0 ≤ snd x → lsum (bound_for x) out = lsum (bound_for x) inn;
  sx_routed : Forall (routed rs (fst (fst st)) (snd (fst st))) inn
}.
Definition switched (st st' : switch_state) : Prop := ∃ out inn, switched_with st st' out inn.

Lemma switched_quiet (s s' : PerfectSwitch) wb wb' w w' :
  effect w w' [] [] → ps_shape s' = ps_shape s → same_links wb wb' →
  m_pending_message_count s' = m_pending_message_count s → switched (s, wb, w) (s', wb', w').
Proof using.
  intros He Hs Hl Hp. exists [], []. split; simpl; [done..| |constructor|done|constructor].
  intros v. rewrite Hp. destruct (_ !! v); simpl; [|done]. f_equal. lia.
Qed.

Lemma switched_refl st : switched st st.
Proof using. destruct st as [[s wb] w]. apply switched_quiet; [apply effect_refl|done|by unfold same_links|done]. Qed.

Lemma in_group_shape s s' v h : ps_shape s' = ps_shape s → in_group s' v h ↔ in_group s v h.
Proof using. unfold in_group. intros [= _ _ _ E _]. by rewrite E. Qed.

Lemma routed_shape s s' wb wb' p :
  ps_shape s' = ps_shape s → same_links wb wb' → routed rs s' wb' p → routed rs s wb p.
Proof using.
  intros [= _ E _ _ _] Hl (Hw & l' & port & Hl' & Hp & Hb & Hx). split; [done|].
  destruct (same_links_elem wb wb' l' Hl Hl') as (l & Hin & [= E1 E2 E3 E4]).
  exists l, port. rewrite <- E, E1. split_and!; [done..|]. intros x H0 H. unfold serves. rewrite E2. by apply Hx.
Qed.

Lemma switched_trans st1 st2 st3 : switched st1 st2 → switched st2 st3 → switched st1 st3.
Proof using.
  intros (o1 & i1 & [E1 S1 L1 P1 F1 B1 R1]) (o2 & i2 & [E2 S2 L2 P2 F2 B2 R2]). exists (o1 ++ o2), (i1 ++ i2). split.
  - by eapply effect_trans.
  - congruence.
  - unfold same_links in *. by rewrite L2.
  - intros v. rewrite P2, P1, <- option_fmap_compose. apply option_fmap_ext. intros n. simpl. rewrite lsum_app.
    rewrite (lsum_ext (from_vnet (snd st2) (Z.of_nat v)) (from_vnet (snd st1) (Z.of_nat v))); [lia|].
    intros p _. unfold from_vnet. by rewrite (ef_vnets _ _ _ _ E1).
  - apply Forall_app. split; [done|]. eapply Forall_impl; [exact F2|]. intros p [v Hv]. exists v.
    by rewrite <- (in_group_shape _ _ _ _ S1).
  - intros x Hx. by rewrite !lsum_app, B1, B2.
  - apply Forall_app. split; [done|]. eapply Forall_impl; [exact R2|]. intros p. by apply routed_shape.
Qed.

Lemma sw_inv_switched st st' : sw_inv st → switched st st' → sw_inv st'.
Proof using.
  intros [L W G] (out & inn & [E S Hl P F B R]). split.
  - by eapply same_links_wf.
  - intros h d [Hp|Hin]%(ef_present _ _ _ _ E); [by eapply W|]. rewrite Forall_forall in R. by apply (R _ Hin).
  - intros v h Hg. rewrite (ef_vnets _ _ _ _ E). apply G. by rewrite <- (in_group_shape _ _ _ _ S).
Qed.

(** A loop whose turns, from states in order, are moves of the switch. *)
Lemma fold_switched {A} (f : A → switch_state → res switch_state) l st st' :
  (∀ x t t', x ∈ l → sw_inv t → ps_shape (fst (fst t)) = ps_shape (fst (fst st)) → f x t = Ok t' → switched t t') →
  sw_inv st → fold_res f l st = Ok st' → switched st st'.
Proof using.
  revert st. induction l as [|x l IH]; intros st Hf Hi H; simpl in H; [simplify_eq; apply switched_refl|].
  apply rbind_ok in H as (t & Ht & H). assert (switched st t) as H1 by (eapply Hf; [by left|done..]).
  eapply switched_trans; [exact H1|]. apply IH; [|by eapply sw_inv_switched|done].
  destruct H1 as (o & i & H1). intros y u u' Hy Hu Hs. apply Hf; [by right|done|]. rewrite Hs. apply (sx_shape _ _ _ _ H1).
Qed.

(** ** Sending along the routes *)

Lemma enough_room_effect s v routes w r w' : enough_room env s v routes w = Ok (r, w') → effect w w' [] [].
Proof using.
  apply (fold_quiet snd). intros x [k u] [k' u'] H. apply rbind_ok in H as ([h lat] & _ & H).
  apply rbind_ok in H as ([ok u1] & Hs & H). simplify_eq. by eapply slots_effect.
Qed.

Definition placed (s : PerfectSwitch) (v : Z) (r : SwRoute) (p : Z * NetDest) : Prop :=
  (∃ lat, out_buffer s v r = Ok (fst p, lat)) ∧ snd p = rt_destinations r.

Lemma send_route_effect s v m u i r w w' :
  send_route rnd warm rt env s v m u i r w = Ok w' → ∃ p, effect w w' [] [p] ∧ placed s v r p.
Proof using.
  unfold send_route. intros ([h lat] & Ho & H)%rbind_ok.
  destruct (match i with O => (m, w) | S _ => clone_message u w end) as [m1 w1] eqn:E.
  apply enqueue_effect in H. exists (h, rt_destinations r). split; [|by split; [exists lat|]].
  eapply effect_quiet; [|exact H]. destruct i; [simplify_eq; apply effect_refl|]. by apply clone_effect in E as [E _].
Qed.

Lemma send_routes_effect s v m u routes w w' :
  send_routes rnd warm rt env s v m u routes w = Ok w' →
  ∃ inn, effect w w' [] inn ∧ Forall2 (placed s v) routes inn.
Proof using.
  unfold send_routes. pose proof (imap_snd (fun i => i) routes) as Hm. cbn beta in Hm. revert Hm.
  generalize (imap (fun i r => (i, r)) routes). intros l <-. revert w.
  induction l as [|[i r] l IH]; intros w H; cbn [fold_res] in H.
  { simplify_eq. exists []. split; [apply effect_refl|constructor]. }
  apply rbind_ok in H as (w1 & H1 & H). destruct (send_route_effect _ _ _ _ _ _ _ _ H1) as (p & Hp & Hpl).
  destruct (IH w1 H) as (inn & Hi & H2). exists (p :: inn). split; [exact (effect_trans _ _ _ _ _ _ _ Hp Hi)|by constructor].
Qed.

Lemma placed_count s v routes inn x :
  Forall2 (placed s v) routes inn → lsum (bound_for x) inn = Z.of_nat (length (copies x routes)).
Proof using.
  induction 1 as [|r p routes inn [_ Hd] _ IH]; [done|]. unfold copies, carries in *. simpl. rewrite IH. unfold bound_for.
  rewrite Hd. destruct (has (rt_destinations r) _ _); simpl; lia.
Qed.

Lemma placed_routed s wb v routes inn :
  Forall (sound_route rs (m_links wb)) routes → Forall2 (placed s v) routes inn → Forall (routed rs s wb) inn.
Proof using.
  intros Hs H. induction H as [|r p routes inn [[lat Ho] Hd] _ IH]; [constructor|]. inversion Hs as [|? ? Hr Hrs']; subst.
  constructor; [|by apply IH]. destruct Hr as (Hw & _ & l & Hl & Hid & Hx). rewrite <- Hd in Hw. split; [done|].
  unfold out_buffer in Ho. apply rbind_ok in Ho as (port & Hp & Ho). apply rbind_ok in Ho as (h & Hh & Ho). simplify_eq.
  exists l, port. rewrite <- Hid. split_and!; [done|done| |].
  - apply vec_get_ok in Hh as [_ Hh]. apply list_elem_of_lookup_2 in Hh. by destruct p; simplify_eq/=.
  - intros x Hx0. rewrite Hd. by apply Hx.
Qed.

(** ** One message *)

Lemma route_message v h msg det s wb w routes wb1 w1 w2 m w3 p w4 unmod :
  sw_inv (s, wb, w) → in_group s v h → present w h (msg_destination msg) →
  route rs (clockEdge env 0) (rng (msg_handle msg)) (msg_destination msg) det wb w = Ok (routes, wb1, w1) →
  effect w1 w2 [] [] → bf_dequeue (curTick env) (clockEdge env 0) h w2 = Ok (m, w3) →
  msg_destination m = msg_destination msg →
  vec_upd (m_pending_message_count s) v (fun n => Ok (n - 1)) = Ok p →
  send_routes rnd warm rt env (ps_run s (ps_wakeups_wo_switch s) p (ps_consumer s)) v m unmod routes w3 = Ok w4 →
  switched (s, wb, w) (ps_run s (ps_wakeups_wo_switch s) p (ps_consumer s), wb1, w4).
Proof using Hrs.
  intros [L W G] Hg Hpr Hr He Hd Hm Hp Hs. simpl in *.
  apply route_effect in Hr as (E1 & Hsl & _ & _ & Hf).
  apply dequeue_effect in Hd. rewrite Hm in Hd.
  destruct (send_routes_effect _ _ _ _ _ _ _ Hs) as (inn & Hi & Hpl).
  pose proof (same_links_wf rs _ _ Hsl L) as L1.
  destruct (findRoute_spec rs Hrs wb1 _ (W _ _ Hpr) L1) as [_ Hspec].
  destruct (Hspec routes Hf) as (Hcop & Hsome & Hsound).
  exists [(h, msg_destination msg)], inn. split; simpl.
  - eapply effect_quiet; [exact E1|]. eapply effect_quiet; [exact He|]. exact (effect_trans _ _ _ _ _ _ _ Hd Hi).
  - done.
  - done.
  - intros k. apply vec_upd_ok in Hp as (n & n' & [Hv Hn]%vec_get_ok & [= <-] & ->).
    unfold from_vnet. simpl. rewrite (G v h Hg). zcase; subst.
    + rewrite Nat2Z.id in *. rewrite list_lookup_insert_eq by (by eapply lookup_lt_Some). rewrite Hn. done.
    + rewrite list_lookup_insert_ne by lia. destruct (_ !! k); simpl; [|done]. f_equal; lia.
  - constructor; [by exists v|constructor].
  - intros x Hx. rewrite (placed_count _ _ _ _ x Hpl), (Hcop x Hx). unfold bound_for. simpl. specialize (Hsome x Hx).
    destruct (has (msg_destination msg) _ _); simpl; [|done]. destruct (Hsome eq_refl) as [l ->]. done.
  - apply (placed_routed _ wb v routes); [|done]. eapply Forall_impl; [exact Hsound|]. intros r. by apply sound_route_same.
Qed.

(** ** The loops *)

Lemma peek_present h w b msg : bf_get h w = Ok b → peek b = Ok msg → present w h (msg_destination msg).
Proof using.
  intros Hb%bf_get_ok Hp. exists b, msg. unfold peek in Hp. destruct (m_prio_heap b) as [|x l] eqn:E; [done|]. simplify_eq.
  split_and!; [done|by left|done].
Qed.

(** The message that is taken is the one that was looked at. *)
Lemma dequeue_peeked h w b msg w' cur now m w'' :
  bf_get h w = Ok b → peek b = Ok msg → effect w w' [] [] → bf_dequeue cur now h w' = Ok (m, w'') →
  msg_destination m = msg_destination msg.
Proof using.
  intros Hb%bf_get_ok Hp He Hd. unfold bf_dequeue in Hd. apply rbind_ok in Hd as (b' & Hb'%bf_get_ok & Hd).
  apply rbind_ok in Hd as ([[[m' d] cb] b2] & Hd & H). injection H as -> _.
  apply dequeue_ok in Hd as (_ & m0 & heap & Hh & _ & _ & -> & _).
  pose proof (ef_idle _ _ _ _ He h eq_refl eq_refl) as Hsame. rewrite Hb, Hb' in Hsame. injection Hsame as Hsame.
  unfold peek in Hp. rewrite <- Hsame, Hh in Hp. by injection Hp as ->.
Qed.

Lemma operate_loop_switched fuel h v st st' :
  sw_inv st → in_group (fst (fst st)) v h →
  operate_loop rs rnd warm rt env ordered rng fuel h v st = Ok st' → switched st st'.
Proof using Hrs.
  revert st. induction fuel as [|fuel IH]; intros st Hi Hg H; [simpl in H; simplify_eq; apply switched_refl|].
  destruct st as [[s wb] w]. cbn [operate_loop] in H. apply rbind_ok in H as ([ready w0] & Hready & H).
  apply isReady_effect in Hready.
  assert (switched (s, wb, w) (s, wb, w0)) as H0 by (apply switched_quiet; [done|done|by unfold same_links|done]).
  destruct ready; [|by simplify_eq]. eapply switched_trans; [exact H0|]. apply (sw_inv_switched _ _ Hi) in H0 as Hi0.
  simpl in Hg. clear Hi H0 Hready w. apply rbind_ok in H as (b & Hb & H). apply rbind_ok in H as (msg & Hmsg & H).
  apply rbind_ok in H as (det & _ & H). apply rbind_ok in H as ([[routes wb1] w1] & Hr & H).
  apply rbind_ok in H as ([enough w2] & He & H). apply enough_room_effect in He.
  pose proof (route_effect _ _ _ _ _ _ _ _ _ _ Hr) as (E1 & Hsl & _).
  destruct enough.
  - destruct (if (1 <? length routes)%nat then _ else _) as [unmod w3] eqn:Ec.
    assert (effect w2 w3 [] []) as E3.
    { destruct (1 <? length routes)%nat; [by apply clone_effect in Ec as [? _]|]. simplify_eq. apply effect_refl. }
    apply rbind_ok in H as ([m w4] & Hd & H). apply rbind_ok in H as (p & Hp & H). apply rbind_ok in H as (w5 & Hs & H).
    assert (switched (s, wb, w0) (ps_run s (ps_wakeups_wo_switch s) p (ps_consumer s), wb1, w5)) as H1.
    { eapply (route_message v h msg det s wb w0 routes wb1 w1 w3 m w4 p w5 unmod); try done.
      - by eapply peek_present.
      - by eapply effect_quiet.
      - eapply (dequeue_peeked h w0 b msg w3); [done|done| |done]. eapply effect_quiet; [exact E1|]. by eapply effect_quiet. }
    eapply switched_trans; [exact H1|]. by eapply IH; [eapply sw_inv_switched|..].
  - apply rbind_ok in H as (k & _ & H). simplify_eq. apply switched_quiet; [|done..]. by eapply effect_quiet.
Qed.

Lemma operateVnet_switched v st st' :
  sw_inv st → ps_operateVnet rs rnd warm rt env ordered rng v st = Ok st' → switched st st'.
Proof using Hrs.
  unfold ps_operateVnet. intros Hi (n & _ & H)%rbind_ok. destruct (n =? 0); [simplify_eq; apply switched_refl|].
  apply rbind_ok in H as (gs & Hgs & H). revert H. apply fold_switched; [|done].
  intros g t t' Hg Ht Hsh H. unfold operate_group in H. apply rbind_ok in H as (start & _ & H). revert H.
  apply fold_switched; [|done]. intros h u u' Hh Hu Hsu H. unfold operateMessageBuffer in H.
  apply rbind_ok in H as (b & _ & H). revert H. apply operate_loop_switched; [done|].
  rewrite (in_group_shape _ _ _ _ Hsu), (in_group_shape _ _ _ _ Hsh). exists gs, g. split_and!; [done..|].
  rewrite <- (take_drop start g). apply elem_of_app in Hh as [?|?]; apply elem_of_app; [by right|by left].
Qed.

(** The wakeup of a perfect switch. *)
Lemma ps_wakeup_switched st st' :
  sw_inv st → ps_wakeup rs rnd warm rt env ordered rng st = Ok st' → switched st st'.
Proof using Hrs.
  destruct st as [[s wb] w]. unfold ps_wakeup. cbv zeta. intros Hi H.
  match type of H with fold_res _ _ (?s1, _, _) = _ =>
    assert (switched (s, wb, w) (s1, wb, w)) as H0 by (apply switched_quiet; [apply effect_refl|done|by unfold same_links|done]) end.
  eapply switched_trans; [exact H0|]. revert H. apply fold_switched; [|by eapply sw_inv_switched].
  intros v t t' _ Ht _. by apply operateVnet_switched.
Qed.

End switching.

(** ** Throttles *)

(** Messages that went from the input to the output of a vnet of the throttle. *)
Record lane := { ln_from : Z; ln_to : Z; ln_dest : NetDest }.
Definition taken_of (l : lane) : Z * NetDest := (ln_from l, ln_dest l).
Definition given_of (l : lane) : Z * NetDest := (ln_to l, ln_dest l).
Definition on_lane (t : Throttle) (l : lane) : Prop :=
  ∃ v, vec_get (th_in t) v = Ok (ln_from l) ∧ vec_get (th_out t) v = Ok (Some (ln_to l)).

Definition th_shape (t : Throttle) :=
  (th_in t, th_out t, th_vnets t, (m_physical_vnets t, m_link_bandwidth_multiplier t, m_vnet_channels t), m_link_latency t,
   m_endpoint_bandwidth t).

Definition throttled (t t' : Throttle) (w w' : Buffers) : Prop :=
  th_shape t' = th_shape t ∧
  ∃ ls, effect w w' (map taken_of ls) (map given_of ls) ∧ Forall (on_lane t) ls.

Lemma throttled_quiet t t' w w' : th_shape t' = th_shape t → effect w w' [] [] → throttled t t' w w'.
Proof. intros Hs He. split; [done|]. by exists []. Qed.

Lemma throttled_trans t1 t2 t3 w1 w2 w3 : throttled t1 t2 w1 w2 → throttled t2 t3 w2 w3 → throttled t1 t3 w1 w3.
Proof.
  intros (S1 & l1 & E1 & F1) (S2 & l2 & E2 & F2). split; [congruence|]. exists (l1 ++ l2). rewrite !map_app.
  split; [by eapply effect_trans|]. apply Forall_app. split; [done|]. eapply Forall_impl; [exact F2|].
  intros l (v & Hi & Ho). injection S1 as E3 E4 _ _ _ _ _ _. exists v. by rewrite <- E3, <- E4.
Qed.

Section throttle.
Context (rnd warm : bool) (rt : Z → Z) (ctrl data : Z) (env : ClockEnv) (latency : Z).

Lemma pending_effect h f r f' : hasPendingWork (clockEdge env 0) h f = Ok (r, f') → effect (fl_world f) (fl_world f') [] [].
Proof using. unfold hasPendingWork. intros ([r1 w] & H%isReady_effect & H')%rbind_ok. by simplify_eq. Qed.

Lemma move_effect v h o f f' :
  move_message rnd warm rt ctrl data env latency v h o f = Ok f' →
  ∃ d, effect (fl_world f) (fl_world f') [(h, d)] [(o, d)].
Proof using.
  unfold move_message. intros (b & _ & H)%rbind_ok. apply rbind_ok in H as (m & _ & H).
  apply rbind_ok in H as ([m' w] & Hd%dequeue_effect & H). apply rbind_ok in H as (w' & He%enqueue_effect & H). simplify_eq.
  exists (msg_destination m'). exact (effect_trans _ _ _ _ _ _ _ Hd He).
Qed.

Lemma turn_effect v h o f f' :
  flow_turn rnd warm rt ctrl data env latency v h o f = Ok f' →
  ∃ ds, effect (fl_world f) (fl_world f') (map (pair h) ds) (map (pair o) ds).
Proof using.
  unfold flow_turn. intros ([ready f1] & H1 & H)%rbind_ok. apply rbind_ok in H as (f2 & H2 & H). simplify_eq. simpl.
  assert (effect (fl_world f) (fl_world f1) [] []) as E1.
  { destruct (fl_units f =? 0); [|simplify_eq; apply effect_refl].
    apply rbind_ok in H1 as ([r w] & Hr%isReady_effect & H1). by simplify_eq. }
  destruct ready; [|simplify_eq; by exists []].
  destruct (move_effect _ _ _ _ _ H2) as [d Hd]. exists [d]. simpl. by eapply effect_quiet.
Qed.

Lemma loop_effect fuel v h o f f' :
  flow_loop rnd warm rt ctrl data env latency fuel v h o f = Ok f' →
  ∃ ds, effect (fl_world f) (fl_world f') (map (pair h) ds) (map (pair o) ds).
Proof using.
  revert f. induction fuel as [|fuel IH]; intros f H; cbn [flow_loop] in H; [simplify_eq; exists []; apply effect_refl|].
  destruct (0 <? fl_bw f); [|simplify_eq; exists []; apply effect_refl].
  apply rbind_ok in H as ([p f1] & E1%pending_effect & H). destruct p; [|simplify_eq; by exists []].
  apply rbind_ok in H as ([r w] & E2%slots_effect & H).
  assert (effect (fl_world f) (fl_world (fl_with f1 w)) [] []) as E by by eapply effect_quiet.
  destruct r; [|simplify_eq; by exists []]. apply rbind_ok in H as (f2 & (d1 & E3)%turn_effect & H).
  destruct (IH f2 H) as (d2 & E4). exists (d1 ++ d2). rewrite !map_app. eapply effect_quiet; [exact E|]. by eapply effect_trans.
Qed.

Lemma flags_effect h o f c c' w : flow_flags env h o f c = Ok (c', w) → effect (fl_world f) w [] [].
Proof using.
  unfold flow_flags. intros ([p f1] & E1%pending_effect & H)%rbind_ok. destruct p; [|by simplify_eq].
  apply rbind_ok in H as ([room w1] & H1 & H). apply rbind_ok in H as (? & _ & H). apply rbind_ok in H as ([bl w2] & H2 & H).
  simplify_eq. eapply effect_quiet; [exact E1|].
  assert (effect (fl_world f1) w1 [] []) as E2.
  { destruct (fl_bw f1 =? 0); [simplify_eq; apply effect_refl|by eapply slots_effect]. }
  eapply effect_quiet; [exact E2|]. destruct (cy_blocked c); [simplify_eq; apply effect_refl|].
  apply rbind_ok in H2 as ([r w3] & H2%slots_effect & H3). by simplify_eq.
Qed.

Lemma set_units_shape t v c u st t' : set_units t v c u st = Ok t' → th_shape t' = th_shape t.
Proof using. unfold set_units. intros (us & _ & H)%rbind_ok. by simplify_eq. Qed.

Lemma operate_throttled v c t cy w t' cy' w' :
  th_operateVnet rnd warm rt ctrl data env latency v c (t, cy, w) = Ok (t', cy', w') → throttled t t' w w'.
Proof using.
  unfold th_operateVnet. intros (h & Hh & H)%rbind_ok. apply rbind_ok in H as (out & Ho & H). destruct out as [o|].
  2:{ simplify_eq. apply throttled_quiet; [done|apply effect_refl]. }
  apply rbind_ok in H as (units & _ & H). apply rbind_ok in H as (? & _ & H). apply rbind_ok in H as (bw & _ & H).
  apply rbind_ok in H as (fuel & _ & H). apply rbind_ok in H as (f & Hf & H).
  do 3 apply rbind_ok in H as (? & _ & H). apply rbind_ok in H as ([c1 w1] & Hc%flags_effect & H).
  apply rbind_ok in H as (t1 & Ht%set_units_shape & H). injection H as <- <- <-.
  destruct (loop_effect _ _ _ _ _ _ Hf) as (ds & E). split; [done|].
  exists (map (fun d => {| ln_from := h; ln_to := o; ln_dest := d |}) ds). rewrite !map_map.
  split; [by eapply effect_then_quiet|]. apply Forall_forall. intros l (d & -> & _)%list_elem_of_fmap. by exists v.
Qed.

(** The wakeup of a throttle. *)
Lemma th_wakeup_throttled t w t' w' :
  th_wakeup rnd warm rt ctrl data env latency t w = Ok (t', w') → throttled t t' w w'.
Proof using.
  unfold th_wakeup. cbv zeta. intros (bw & _ & H)%rbind_ok. apply rbind_ok in H as (? & _ & H).
  apply rbind_ok in H as ([[t1 c] w1] & Hf & H). apply rbind_ok in H as (k & _ & H). simplify_eq.
  enough (throttled t t1 w w') as (S1 & ls & H1) by (split; [exact S1|by exists ls]).
  apply (fold_res_keeps (fun s => throttled t (fst (fst s)) w (snd s))) in Hf; [done| |].
  2:{ apply throttled_quiet; [done|apply effect_refl]. }
  intros v [[t2 c2] w2] [[t3 c3] w3] _ H2 H3. unfold th_channels in H3. apply rbind_ok in H3 as (n & _ & H3).
  apply (for_range_inv (fun _ s => throttled t (fst (fst s)) w (snd s))) in H3; [done|done|].
  intros i [[t4 c4] w4] [[t5 c5] w5] _ H4 H5. eapply throttled_trans; [exact H4|]. by eapply operate_throttled.
Qed.

End throttle.

(** ** A perfect switch does not forget work *)

(** The length of a buffer, as a sum. *)
Definition at_buffer (h : Z) : Z → Z → NetDest → Z := fun k _ _ => if k =? h then 1 else 0.

Lemma held_length w h b : bf_store w !! h = Some b → held (at_buffer h) w = Z.of_nat (length (m_prio_heap b)).
Proof.
  intros Hb. unfold held. rewrite <- (insert_id _ _ _ Hb), <- (insert_delete_eq (bf_store w) h b), map_to_list_insert by apply lookup_delete_eq.
  simpl. rewrite (lsum_zero (buffer_held _) (map_to_list _)).
  - unfold buffer_held, at_buffer. simpl. rewrite Z.eqb_refl. induction (m_prio_heap b); simpl; lia.
  - apply Forall_forall. intros [k b'] Hk%elem_of_map_to_list. assert (k ≠ h) as Hne by (intros ->; by rewrite lookup_delete_eq in Hk).
    unfold buffer_held. apply lsum_zero, Forall_forall. intros m _. unfold at_buffer. simpl. by rewrite (proj2 (Z.eqb_neq _ _) Hne).
Qed.

Lemma effect_store w w' out inn h b : effect w w' out inn → bf_store w !! h = Some b → out = [] → inn = [] →
  ∃ b', bf_store w' !! h = Some b' ∧ m_prio_heap b' = m_prio_heap b.
Proof.
  intros He Hb -> ->. pose proof (ef_idle _ _ _ _ He h eq_refl eq_refl) as H. rewrite Hb in H.
  apply fmap_Some in H as (b' & Hb' & E). by exists b'.
Qed.

Lemma scheduleNextWakeup_ticks env c c' : scheduleNextWakeup env c = Ok c' → m_wakeup_ticks c' = m_wakeup_ticks c.
Proof. unfold scheduleNextWakeup. intros H. repeat case_match; inv_res; done. Qed.

Lemma scheduleEvent_next env c c' : consumer_inv c → scheduleEvent env 1 c = Ok c' → clockEdge env 1 ∈ m_wakeup_ticks c'.
Proof.
  unfold scheduleEvent. intros Hi H%scheduleNextWakeup_ticks. rewrite H. simpl. apply insertSorted_elem; [done|by left].
Qed.

(** A call on a consumer does not change what a buffer answers. *)
Lemma isReady_again now h w w' : bf_isReady now h w = Ok (false, w') → ∃ w'', bf_isReady now h w' = Ok (false, w'').
Proof.
  unfold bf_isReady. intros (b & Hb & H)%rbind_ok. apply rbind_ok in H as ([r c] & Hr & H). injection H as -> <-.
  assert (bf_get h (if c then bf_call (SwRetry h) w else w) = Ok b) as -> by by destruct c. cbn [rbind]. rewrite Hr. cbn [rbind]. by eexists.
Qed.

Section liveness.
Context (rs : RubySystem) (rnd warm : bool) (rt : Z → Z) (env : ClockEnv) (ordered : list bool) (rng : Z → Z → Z).

(** The buffer is not one of the outputs. *)
Definition not_output (s : PerfectSwitch) (h : Z) : Prop := ∀ i port, vec_get (ps_out s) i = Ok port → (h ∉ so_buffers port).

(** A message goes out and the buffer is one shorter. *)
Lemma sent_shorter s v m u routes w w' h d w0 b0 :
  not_output s h → effect w0 w [(h, d)] [] → send_routes rnd warm rt env s v m u routes w = Ok w' →
  bf_store w0 !! h = Some b0 → ∀ b', bf_store w' !! h = Some b' → (length (m_prio_heap b') < length (m_prio_heap b0))%nat.
Proof using.
  intros Hno Hd Hs Hb0 b' Hb'. destruct (send_routes_effect _ _ _ _ _ _ _ _ _ _ _ Hs) as (inn & Hi & Hpl).
  pose proof (held_length _ _ _ Hb') as H1. pose proof (held_length _ _ _ Hb0) as H0.
  rewrite (ef_held _ _ _ _ Hi), (ef_held _ _ _ _ Hd) in H1. simpl in H1.
  rewrite (lsum_zero _ inn) in H1.
  - unfold weigh, at_buffer in H1. simpl in H1. rewrite Z.eqb_refl in H1. unfold at_buffer in *. lia.
  - apply Forall_forall. intros p (i & Hp)%list_elem_of_lookup. destruct (Forall2_lookup_r _ _ _ _ _ Hpl Hp) as (r & _ & ([lat Ho] & _)).
    unfold out_buffer in Ho. apply rbind_ok in Ho as (port & Hport & Ho). apply rbind_ok in Ho as (k & Hk & Ho). injection Ho as Ek _.
    unfold weigh, at_buffer. rewrite <- Ek. destruct (Z.eqb_spec k h) as [->|]; [|done]. destruct (Hno _ _ Hport).
    apply vec_get_ok in Hk as [_ Hk]. by eapply list_elem_of_lookup_2.
Qed.

(** The loop ends because nothing in the buffer is ready, or with the switch
    scheduled for the next cycle. *)
Lemma operate_loop_done fuel h v s wb w s' wb' w' :
  (∃ b, bf_store w !! h = Some b ∧ (length (m_prio_heap b) < fuel)%nat) → not_output s h → consumer_inv (ps_consumer s) →
  operate_loop rs rnd warm rt env ordered rng fuel h v (s, wb, w) = Ok (s', wb', w') →
  (∃ w'', bf_isReady (clockEdge env 0) h w' = Ok (false, w'')) ∨ clockEdge env 1 ∈ m_wakeup_ticks (ps_consumer s').
Proof using.
  revert s wb w. induction fuel as [|fuel IH]; intros s wb w (b0 & Hb0 & Hfuel) Hno Hinv H; [lia|].
  cbn [operate_loop] in H. apply rbind_ok in H as ([r w0] & Hready & H). destruct r; [|injection H as <- <- <-; left; by eapply isReady_again].
  apply isReady_effect in Hready. apply rbind_ok in H as (b & Hb & H). apply rbind_ok in H as (msg & Hmsg & H).
  apply rbind_ok in H as (det & _ & H). apply rbind_ok in H as ([[routes wb1] w1] & Hr & H).
  apply rbind_ok in H as ([enough w2] & He & H). apply enough_room_effect in He. apply route_effect in Hr as (E1 & _).
  destruct enough; cycle 1.
  { apply rbind_ok in H as (k & Hk & H). injection H as <- <- <-. right. by eapply scheduleEvent_next. }
  destruct (if (1 <? length routes)%nat then _ else _) as [unmod w3] eqn:Ec.
  assert (effect w2 w3 [] []) as E3.
  { destruct (1 <? length routes)%nat; [by apply clone_effect in Ec as [? _]|]. simplify_eq. apply effect_refl. }
  apply rbind_ok in H as ([m w4] & Hd%dequeue_effect & H). apply rbind_ok in H as (p & Hp & H). apply rbind_ok in H as (w5 & Hs & H).
  assert (effect w w4 [(h, msg_destination m)] []) as Hd4.
  { eapply effect_quiet; [exact Hready|]. eapply effect_quiet; [exact E1|]. eapply effect_quiet; [exact He|]. by eapply effect_quiet. }
  apply (IH (ps_run s (ps_wakeups_wo_switch s) p (ps_consumer s)) wb1 w5); [|exact Hno|exact Hinv|exact H].
  destruct (bf_store w5 !! h) as [b5|] eqn:Hb5.
  - exists b5. split; [done|]. pose proof (sent_shorter (ps_run s (ps_wakeups_wo_switch s) p (ps_consumer s)) v m unmod routes w4 w5 h _ w b0 Hno Hd4 Hs Hb0 b5 Hb5). lia.
  - destruct (send_routes_effect _ _ _ _ _ _ _ _ _ _ _ Hs) as (inn & Hi & _).
    rewrite (ef_dom _ _ _ _ Hi), (ef_dom _ _ _ _ Hd4) in Hb5. congruence.
Qed.

End liveness.

(** C27: [operateMessageBuffer] always comes to an end of its own: the loop over
    the messages of a buffer stops only when no message in the buffer is ready, or
    when a message found no room on one of its links, and then the switch is
    scheduled for the next cycle. *)
Theorem operateMessageBuffer_done rs rnd warm rt env ordered rng v h s wb w s' wb' w' :
  not_output s h → consumer_inv (ps_consumer s) →
  operateMessageBuffer rs rnd warm rt env ordered rng v h (s, wb, w) = Ok (s', wb', w') →
  (∃ w'', bf_isReady (clockEdge env 0) h w' = Ok (false, w'')) ∨ clockEdge env 1 ∈ m_wakeup_ticks (ps_consumer s').
Proof.
  intros Hno Hi H. unfold operateMessageBuffer in H. apply rbind_ok in H as (b & Hb%bf_get_ok & H).
  eapply operate_loop_done; [|exact Hno|exact Hi|exact H]. exists b. split; [done|lia].
Qed.

(** A switch with one port of two slots, and three messages in buffer 1. *)
Definition ex_queue : MessageBuffer :=
  let m k := {| msg_handle := k; msg_time := 0; m_LastEnqueueTime := 10; m_DelayedTicks := 0; msg_counter := k;
                msg_destination := ex_dest 1 0; msg_size_type := Control |} in
  upd_times (new_MessageBuffer 0 0 true disabled false) [m 1; m 2; m 3] 0 0 0 10 0 0 3 3 false.
Definition ex_switch : PerfectSwitch :=
  {| ps_in := [[Some 1]]; ps_out := [{| so_latency := 10; so_buffers := [2] |}]; m_in_prio := [[1]]; m_in_prio_groups := [[[1]]];
     ps_virtual_networks := 1; ps_wakeups_wo_switch := 0; m_pending_message_count := [3]; ps_consumer := new_Consumer |}.
Definition ex_routing : WeightBased :=
  {| adaptive_routing := false;
     m_links := [{| li_link_id := 0; li_routing_entry := ex_dest 1 0; li_out_buffers := [2]; li_order := 0; li_weight := 1 |}] |}.
Definition ex_store : Buffers :=
  {| bf_store := list_to_map [(1, ex_queue); (2, new_MessageBuffer 2 0 true disabled false)]; bf_calls := []; bf_next_message := 10 |}.

Definition ex_operated : res (PerfectSwitch * WeightBased * Buffers) :=
  operateMessageBuffer ex_rs false false (fun _ => 0) {| curTick := 20; clockPeriod := 10 |} [true] (fun _ _ => 0) 0 1 (ex_switch, ex_routing, ex_store).

Lemma ex_operated_ok : match ex_operated with Ok (s, _, _) => bool_decide (m_pending_message_count s = [1]) | Err _ => false end = true.
Proof. by vm_compute. Qed.

(** Two messages leave, the third is blocked. *)
Lemma operateMessageBuffer_done_witness :
  ∃ s wb w, ex_operated = Ok (s, wb, w) ∧ m_pending_message_count s = [1] ∧
    ((∃ w', bf_isReady (clockEdge {| curTick := 20; clockPeriod := 10 |} 0) 1 w = Ok (false, w')) ∨
     clockEdge {| curTick := 20; clockPeriod := 10 |} 1 ∈ m_wakeup_ticks (ps_consumer s)).
Proof.
  pose proof ex_operated_ok as H. destruct ex_operated as [[[s wb] w]|] eqn:E; [|done]. apply bool_decide_eq_true in H.
  exists s, wb, w. split_and!; [done|done|].
  eapply (operateMessageBuffer_done ex_rs false false (fun _ => 0) _ [true] (fun _ _ => 0) 0 1 ex_switch ex_routing ex_store);
    [|constructor|exact E].
  intros i port [Hi Hp]%vec_get_ok. simpl in Hp. destruct (Z.to_nat i); [|done]. injection Hp as <-. simpl. set_solver.
Defined.
