(* ===== verification/Bandwidth.v ===== *)
(** * Throttles keep to the bandwidth and do not forget work

    The wakeup of a throttle between buffers in order succeeds: none of its
    assertions, nor those of the buffers it moves messages between, can fail. The loop of [operateVnet] ends,
    the bandwidth of the link is not exceeded, and if anything is left to do the
    throttle is scheduled for the next cycle. *)

From S2P Require Import Prelude IntMath Clocked Consumer NetDest MessageBuffer SimpleNetwork SimpleRouting SimpleFlow Switching.

(** ** Buffers a throttle reads and writes *)

(** The result of [isReady]. *)
Definition ready (now : Z) (b : MessageBuffer) : bool :=
  ((m_max_dequeue_rate b =? 0) || (m_time_last_time_pop b <? now) || (m_dequeues_this_cy b <? m_max_dequeue_rate b)) &&
  match m_prio_heap b with [] => false | m :: _ => m_LastEnqueueTime m <=? now end.

Definition has_room (now : Z) (b : MessageBuffer) : bool := fst (areNSlotsAvailable 1 now b).

(** A buffer that in-order traffic without random delays can be put into. *)
Record sink_ok (now delta : Z) (b : MessageBuffer) : Prop := {
  sk_burst : burst_ok now delta b;
  sk_over : no_overcommit now b;
  sk_stall : 0 ≤ m_stall_map_size b;
  sk_range : m_max_size b = 0 ∨ (0 ≤ visible_size now b < 2 ^ 32 - 1 ∧ m_max_size b < 2 ^ 32 - 1)
}.

Section buffers.
Context (now delta : Z).

Lemma slots_same b r b' :
  areNSlotsAvailable 1 now b = (r, b') →
  m_prio_heap b' = m_prio_heap b ∧ has_room now b' = r ∧ (sink_ok now delta b → sink_ok now delta b').
Proof using.
  intros H. assert (b' = b ∨ b' = upd_counts b (m_not_avail_count b + 1) (m_msg_count b) (m_buf_msgs b) (m_stall_time b) (m_stall_count b)) as Hb.
  { unfold areNSlotsAvailable in H. repeat case_match; simplify_eq; auto. }
  assert (has_room now b = r) as <- by (unfold has_room; by rewrite H).
  destruct Hb as [->| ->]; [done|]. split_and!; [done| |].
  - unfold has_room, areNSlotsAvailable, visible_size, heap_size. simpl. by repeat case_match.
  - intros [[H1 H2 H3 H4] [K1 K2 K3 K4] S R]. by split.
Qed.

Lemma room_free b :
  sink_ok now delta b → has_room now b = true →
  areNSlotsAvailable 1 now b = (true, b) ∧ (m_max_size b = 0 ∨ occupancy b + 1 ≤ m_max_size b ∧ visible_size now b + 1 ≤ m_max_size b).
Proof using.
  intros [_ [_ _ _ Hs] _ Hr] Hroom. specialize (Hs now ltac:(lia)). unfold has_room, areNSlotsAvailable in *.
  destruct (Z.eqb_spec (m_max_size b) 0) as [Hz|Hz]; [by split; [|left]|].
  destruct Hr as [?|[Hr Hm]]; [done|]. unfold u32 in *. rewrite Z.mod_small in * by lia.
  destruct (Z.leb_spec (visible_size now b + 1) (m_max_size b)); [|done]. split; [done|]. right. lia.
Qed.

Lemma sink_enqueue rt m warm byp b :
  sink_ok now delta b → has_room now b = true → m_LastEnqueueTime m ≤ now →
  ∃ b' a, enqueue rt m now delta false warm byp b = Ok (b', a) ∧ sink_ok now delta b'.
Proof using.
  intros Hk Hroom Hm. destruct (room_free b Hk Hroom) as [_ Hcap]. destruct Hk as [Hb Ho Hst Hr].
  destruct (enqueue_succeeds rt m now delta warm byp b Hb Hm) as (b' & He & Hb' & _ & Hmax); [lia|].
  exists b', (now + delta). split; [done|]. split; [done|by eapply no_overcommit_enqueue| |].
  { by apply enqueue_ok in He as (_ & _ & _ & -> & _). }
  rewrite Hmax.
  destruct (decide (m_max_size b = 0)) as [Hz|Hz]; [by left|]. right. destruct Hcap as [?|[_ Hv]]; [done|].
  destruct Hr as [?|[Hr Hm']]; [done|]. split; [|done].
  apply enqueue_ok in He as (_ & _ & _ & -> & _). destruct Ho as [O1 O2 O3 O4]. revert Hr Hv.
  unfold visible_size, heap_size. simpl. rewrite heap_push_length. repeat zcase; lia.
Qed.

(** Time passes. *)
Lemma sink_later now' b :
  sink_ok now delta b → now ≤ now' → now' + delta < 2 ^ 64 → sink_ok now' delta b.
Proof using.
  intros [[B1 B2 B3 B4] Ho Hst Hr] Hle Hlt. split; [split; [done|done|lia|lia]|by eapply no_overcommit_later|done|].
  destruct Hr as [?|[Hv Hm]]; [by left|right]. split; [|done]. destruct Ho as [_ Hp _ Hs].
  specialize (Hs now ltac:(lia)). revert Hs Hv. unfold visible_size, occupancy, heap_size.
  repeat zcase; lia.
Qed.

(** A message that is ready can be taken. *)
Lemma source_dequeue cur b :
  m_time_last_time_pop b ≤ now → ready now b = true →
  ∃ m0 m d cb b', peek b = Ok m0 ∧ dequeue cur now true b = Ok (m, d, cb, b') ∧ m_prio_heap b = m0 :: m_prio_heap b' ∧
    m_LastEnqueueTime m ≤ now ∧ msg_size_type m = msg_size_type m0 ∧ m_time_last_time_pop b' ≤ now.
Proof using.
  intros Hp Hr. unfold ready in Hr. apply andb_true_iff in Hr as [Hcan Hready].
  unfold dequeue, isReady, peek, updateDelayedTicks, assert_. rewrite (proj2 (Z.leb_le _ _) Hp). simpl. rewrite Hcan.
  destruct (m_prio_heap b) as [|m0 h] eqn:Eh; [done|]. rewrite Hready. simpl.
  apply Z.leb_le in Hready. eexists m0, _, _, _, _. split; [done|]. split; [done|]. simpl. split; [done|]. split; [done|].
  split; [done|]. zcase; lia.
Qed.

Lemma isReady_ready b : m_time_last_time_pop b ≤ now → ∃ c, isReady now b = Ok (ready now b, c).
Proof using. intros Hp. unfold isReady, assert_. rewrite (proj2 (Z.leb_le _ _) Hp). simpl. by eexists. Qed.

End buffers.

(** ** The loop of operateVnet *)

Section lane.
Context (ctrl data : Z) (env : ClockEnv) (latency : Z).
Context (Hctrl : 0 ≤ ctrl * MESSAGE_SIZE_MULTIPLIER < 2 ^ 31) (Hdata : 0 ≤ data * MESSAGE_SIZE_MULTIPLIER < 2 ^ 31).
Abbreviation now := (clockEdge env 0).
Abbreviation delta := (cyclesToTicks env latency).
(** What [getWarmupEnabled] returns, and [random_time], which is not asked. *)
Context (warm : bool) (rt : Z → Z).

(** The input and the output of a vnet. *)
Record lane_st (h o : Z) (w : Buffers) (bh bo : MessageBuffer) : Prop := {
  la_ne : h ≠ o;
  la_in : bf_store w !! h = Some bh;
  la_out : bf_store w !! o = Some bo;
  la_pop : m_time_last_time_pop bh ≤ now;
  la_sink : sink_ok now delta bo
}.

Definition elsewhere (h o : Z) (w w' : Buffers) : Prop := ∀ k, k ≠ h → k ≠ o → bf_store w' !! k = bf_store w !! k.

Lemma elsewhere_refl h o w : elsewhere h o w w.
Proof using. by intros k. Qed.

Lemma elsewhere_trans h o w1 w2 w3 : elsewhere h o w1 w2 → elsewhere h o w2 w3 → elsewhere h o w1 w3.
Proof using. intros H1 H2 k Hk Hk'. by rewrite H2, H1. Qed.

Lemma get_ok h w b : bf_store w !! h = Some b → bf_get h w = Ok b.
Proof using. unfold bf_get. by intros ->. Qed.

Lemma lane_isReady h o w bh bo :
  lane_st h o w bh bo → ∃ w', bf_isReady now h w = Ok (ready now bh, w') ∧ bf_store w' = bf_store w.
Proof using.
  intros [Hne Hh Ho Hp Hs]. unfold bf_isReady. rewrite (get_ok _ _ _ Hh). simpl.
  destruct (isReady_ready now bh Hp) as [c ->]. simpl. destruct c; by eexists.
Qed.

Lemma lane_store h o w w' bh bo : lane_st h o w bh bo → bf_store w' = bf_store w → lane_st h o w' bh bo.
Proof using. intros [Hne Hh Ho Hp Hs] E. split; [done|by rewrite E..|done|done]. Qed.

Lemma lane_slots h o w bh bo :
  lane_st h o w bh bo →
  ∃ w' bo', bf_slots now o w = Ok (has_room now bo, w') ∧ lane_st h o w' bh bo' ∧ has_room now bo' = has_room now bo ∧
            elsewhere h o w w'.
Proof using.
  intros [Hne Hh Ho Hp Hs]. unfold bf_slots. rewrite (get_ok _ _ _ Ho). simpl.
  destruct (areNSlotsAvailable 1 now bo) as [r bo'] eqn:E. destruct (slots_same now delta _ _ _ E) as (Hheap & Hroom & Hk).
  assert (has_room now bo = r) as Hr by (unfold has_room; by rewrite E).
  eexists _, bo'. rewrite Hr. split_and!; [done| |done|].
  - split; simpl; [done|by rewrite lookup_insert_ne by done|by rewrite lookup_insert_eq|done|by apply Hk].
  - intros k Hk1 Hk2. simpl. by rewrite lookup_insert_ne by done.
Qed.

Lemma size_bound m : 0 ≤ MessageSizeType_to_int ctrl data (msg_size_type m) * MESSAGE_SIZE_MULTIPLIER < 2 ^ 31.
Proof using Hctrl Hdata. by destruct (msg_size_type m). Qed.

(** No message is too long for an [int]. *)
Lemma size_units_exact m :
  network_message_to_size ctrl data m = MessageSizeType_to_int ctrl data (msg_size_type m) * MESSAGE_SIZE_MULTIPLIER.
Proof using Hctrl Hdata.
  pose proof (size_bound m) as Hm. unfold network_message_to_size, MESSAGE_SIZE_MULTIPLIER in *. cbv zeta.
  rewrite (s32_small (MessageSizeType_to_int _ _ _)) by lia. apply s32_small. lia.
Qed.

(** The bytes counted, in units. *)
Definition counted (st : ThrottleStats) : Z := total_msg_bytes st * MESSAGE_SIZE_MULTIPLIER.

(** A message is moved. *)
Lemma lane_move v h o f bh bo :
  lane_st h o (fl_world f) bh bo → ready now bh = true → has_room now bo = true →
  ∃ f' bh' bo', move_message false warm rt ctrl data env latency v h o f = Ok f' ∧ lane_st h o (fl_world f') bh' bo' ∧
    elsewhere h o (fl_world f) (fl_world f') ∧ length (m_prio_heap bh) = S (length (m_prio_heap bh')) ∧
    fl_bw f' = fl_bw f ∧ fl_total f' = fl_total f ∧ 0 ≤ fl_units f' ∧
    counted (fl_stats f') = counted (fl_stats f) + fl_units f'.
Proof using Hctrl Hdata.
  intros [Hne Hh Ho Hp Hs] Hr Hroom. unfold move_message, bf_dequeue, bf_enqueue. rewrite !(get_ok _ _ _ Hh). cbn [rbind].
  destruct (source_dequeue now (curTick env) bh Hp Hr) as (m0 & m & d & cb & bh' & -> & -> & Hheap & Hlast & _ & Hp').
  cbn [rbind]. destruct (sink_enqueue now delta (rt (msg_handle m)) m warm false bo Hs Hroom Hlast) as (bo' & a & He & Hs').
  set (w1 := if cb : bool then _ else _). assert (bf_store w1 = <[h := bh']> (bf_store (fl_world f))) as Hw1 by by destruct cb.
  assert (bf_get o w1 = Ok bo) as Hget. { apply get_ok. by rewrite Hw1, lookup_insert_ne. }
  rewrite Hget. cbn [rbind]. rewrite He. cbn [rbind]. eexists _, bh', bo'. split; [done|]. split_and!; try done.
  - split; simpl; rewrite ?Hw1; [done| | |done|done].
    + by rewrite lookup_insert_ne, lookup_insert_eq.
    + by rewrite lookup_insert_eq.
  - intros k Hk1 Hk2. simpl. by rewrite Hw1, !lookup_insert_ne.
  - by rewrite Hheap.
  - cbn [fl_units]. rewrite size_units_exact. apply size_bound.
  - unfold counted, count_message. simpl. rewrite size_units_exact. pose proof (size_bound m0) as Hm.
    unfold u32 at 1. rewrite Z.mod_small; unfold MESSAGE_SIZE_MULTIPLIER in *; lia.
Qed.

(** What is spent is what was left of the message at hand or counted anew. *)
Record acct (f f' : Flow) : Prop := {
  ac_units : 0 ≤ fl_units f';
  ac_bw : 0 ≤ fl_bw f' ≤ fl_bw f;
  ac_total : fl_total f' = fl_total f - (fl_bw f - fl_bw f');
  ac_spent : fl_units f' + (fl_bw f - fl_bw f') = fl_units f + (counted (fl_stats f') - counted (fl_stats f))
}.

Lemma acct_refl f : 0 ≤ fl_units f → 0 ≤ fl_bw f → acct f f.
Proof using. intros. split; lia. Qed.

Lemma acct_trans f1 f2 f3 : acct f1 f2 → acct f2 f3 → acct f1 f3.
Proof using. intros [] []. split; lia. Qed.

Lemma acct_with f w f' : acct (fl_with f w) f' → acct f f'.
Proof using. intros []. by split. Qed.

(** One turn makes progress. *)
Lemma lane_turn v h o f bh bo :
  lane_st h o (fl_world f) bh bo → 0 ≤ fl_units f → 0 < fl_bw f → ready now bh || (0 <? fl_units f) = true →
  has_room now bo = true →
  ∃ f' bh' bo', flow_turn false warm rt ctrl data env latency v h o f = Ok f' ∧ lane_st h o (fl_world f') bh' bo' ∧
    elsewhere h o (fl_world f) (fl_world f') ∧ acct f f' ∧
    (length (m_prio_heap bh') + Z.to_nat (fl_bw f') < length (m_prio_heap bh) + Z.to_nat (fl_bw f))%nat.
Proof using Hctrl Hdata.
  intros Hl Hu Hb Hpend Hroom. unfold flow_turn. destruct (Z.eqb_spec (fl_units f) 0) as [Hz|Hz].
  - destruct (lane_isReady h o _ bh bo Hl) as (w1 & -> & Hw1). cbn [rbind].
    assert (ready now bh = true) as Hr. { rewrite Hz in Hpend. by rewrite orb_false_r in Hpend. } rewrite Hr.
    destruct (lane_move v h o (fl_with f w1) bh bo) as (f1 & bh' & bo' & -> & Hl' & He & Hlen & H1 & H2 & H3 & H4);
      [by eapply lane_store|done|done|]. cbn [rbind]. simpl in *. eexists _, bh', bo'. split; [done|]. simpl. split_and!; [done| | |].
    + intros k Hk1 Hk2. by rewrite He, Hw1.
    + split; simpl; lia.
    + lia.
  - cbn [rbind]. eexists _, bh, bo. split; [done|]. simpl. split_and!; [done|apply elsewhere_refl| |lia].
    split; simpl; lia.
Qed.

(** The loop ends for lack of bandwidth, work or room. *)
Lemma lane_loop fuel v h o f bh bo :
  (length (m_prio_heap bh) + Z.to_nat (fl_bw f) < fuel)%nat →
  lane_st h o (fl_world f) bh bo → 0 ≤ fl_units f → 0 ≤ fl_bw f →
  ∃ f' bh' bo', flow_loop false warm rt ctrl data env latency fuel v h o f = Ok f' ∧ lane_st h o (fl_world f') bh' bo' ∧
    elsewhere h o (fl_world f) (fl_world f') ∧ acct f f' ∧
    (fl_bw f' = 0 ∨ ready now bh' || (0 <? fl_units f') = false ∨ has_room now bo' = false).
Proof using Hctrl Hdata.
  revert f bh bo. induction fuel as [|fuel IH]; intros f bh bo Hfuel Hl Hu Hb; [lia|]. cbn [flow_loop].
  destruct (Z.ltb_spec 0 (fl_bw f)) as [Hpos|Hnp].
  2:{ exists f, bh, bo. split_and!; [done|done|apply elsewhere_refl|by apply acct_refl|left; lia]. }
  unfold hasPendingWork. destruct (lane_isReady h o _ bh bo Hl) as (w1 & -> & Hw1). cbn [rbind].
  assert (lane_st h o w1 bh bo) as Hl1 by by eapply lane_store.
  assert (elsewhere h o (fl_world f) w1) as He1 by (intros k _ _; by rewrite Hw1).
  destruct (ready now bh || (0 <? fl_units f)) eqn:Hpend; cycle 1.
  { eexists _, bh, bo. split; [done|]. simpl. split_and!; [done|done|split; simpl; lia|]. right. by left. }
  cbn [fl_world fl_with]. destruct (lane_slots h o w1 bh bo Hl1) as (w2 & bo2 & -> & Hl2 & Hr2 & He2). cbn [rbind].
  assert (elsewhere h o (fl_world f) w2) as He by by eapply elsewhere_trans.
  destruct (has_room now bo) eqn:Hroom; cycle 1.
  { eexists _, bh, bo2. split; [done|]. simpl. split_and!; [done|done|split; simpl; lia|]. right. by right. }
  destruct (lane_turn v h o (fl_with (fl_with f w1) w2) bh bo2) as (f3 & bh3 & bo3 & -> & Hl3 & He3 & Ha3 & Hm3);
    [done|done|done|done|done|]. cbn [rbind]. simpl in Hm3, He3.
  destruct (IH f3 bh3 bo3) as (f4 & bh4 & bo4 & H4 & Hl4 & He4 & Ha4 & Hexit); [lia|done|apply (ac_units _ _ Ha3)|apply (ac_bw _ _ Ha3)|].
  exists f4, bh4, bo4. split_and!; [done|done| |by eapply acct_with, acct_with, acct_trans|done].
  eapply elsewhere_trans; [exact He|]. by eapply elsewhere_trans.
Qed.

(** The flags tell what is left to do. *)
Lemma lane_flags h o f c bh bo :
  lane_st h o (fl_world f) bh bo → 0 ≤ fl_units f →
  (fl_bw f = 0 ∨ ready now bh || (0 <? fl_units f) = false ∨ has_room now bo = false) →
  ∃ c' w' bo', flow_flags env h o f c = Ok (c', w') ∧ lane_st h o w' bh bo' ∧ elsewhere h o (fl_world f) w' ∧
    cy_total c' = fl_total f ∧
    (cy_saturated c || cy_blocked c = true → cy_saturated c' || cy_blocked c' = true) ∧
    (ready now bh || (0 <? fl_units f) = true → cy_saturated c' || cy_blocked c' = true).
Proof using.
  intros Hl Hu Hexit. unfold flow_flags, hasPendingWork. destruct (lane_isReady h o _ bh bo Hl) as (w1 & -> & Hw1). cbn [rbind].
  assert (lane_st h o w1 bh bo) as Hl1 by by eapply lane_store.
  assert (elsewhere h o (fl_world f) w1) as He1 by (intros k _ _; by rewrite Hw1).
  destruct (ready now bh || (0 <? fl_units f)) eqn:Hpend; cycle 1.
  { eexists _, _, bo. split; [done|]. simpl. by split_and!. }
  cbn [fl_bw fl_with fl_world fl_total]. destruct (lane_slots h o w1 bh bo Hl1) as (w2 & bo2 & Hs2 & Hl2 & Hr2 & He2).
  destruct (Z.eqb_spec (fl_bw f) 0) as [Hz|Hz]; cbn [rbind assert_ orb].
  - destruct (cy_blocked c) eqn:Ec.
    + cbn [rbind]. eexists _, _, bo. split; [done|]. simpl. split_and!; [done|done|done| |]; intros; by rewrite orb_true_r.
    + rewrite Hs2. cbn [rbind]. eexists _, _, bo2. split; [done|]. simpl. split_and!; [done|by eapply elsewhere_trans|done| |];
        intros; by rewrite orb_true_r.
  - destruct Hexit as [?|[?|Hroom]]; [done..|]. rewrite Hs2, Hroom. cbn [rbind negb assert_]. rewrite Hroom in Hr2.
    assert (∃ w3 bo3, (if cy_blocked c then Ok (true, w2) else let* ' (r, w) := bf_slots now o w2 in Ok (negb r, w)) = Ok (true, w3) ∧
              lane_st h o w3 bh bo3 ∧ elsewhere h o w2 w3) as (w3 & bo3 & -> & Hl3 & He3).
    { destruct (cy_blocked c); [exists w2, bo2; split_and!; [done|done|apply elsewhere_refl]|].
      destruct (lane_slots h o w2 bh bo2 Hl2) as (w3 & bo3 & -> & Hl3 & _ & He3). rewrite Hr2. cbn [rbind negb]. by exists w3, bo3. }
    cbn [rbind]. eexists _, _, bo3. split; [done|]. simpl. split_and!; [done| |done| |]; [|intros; by rewrite orb_true_r..].
    eapply elsewhere_trans; [exact He1|]. by eapply elsewhere_trans.
Qed.

(** ** All vnets and channels *)

Definition lane_of (t : Throttle) (v h o : Z) : Prop := vec_get (th_in t) v = Ok h ∧ vec_get (th_out t) v = Ok (Some o).

(** The bandwidth and the channels of a vnet. *)
Definition link_bw (t : Throttle) (v : Z) : Z :=
  m_endpoint_bandwidth t * default 0 (m_link_bandwidth_multiplier t !! Z.to_nat (if m_physical_vnets t then v else 0)).
Definition channel_cnt (t : Throttle) (v : Z) : Z :=
  if m_physical_vnets t then default 0 (m_vnet_channels t !! Z.to_nat v) else 1.

(** The bandwidth of the whole link. *)
Definition total_bw (t : Throttle) : Z :=
  lsum (fun v => link_bw t v * channel_cnt t v) (seqZ 0 (if m_physical_vnets t then th_vnets t else 1)).

(** A throttle with its links, between buffers that are in order. *)
Record throttle_ok (t : Throttle) (w : Buffers) : Prop := {
  tk_vnets : 0 < th_vnets t ∧ th_vnets t = Z.of_nat (length (th_in t)) ∧ length (th_out t) = length (th_in t) ∧
             length (m_units_remaining t) = length (th_in t);
  tk_units v us : vec_get (m_units_remaining t) v = Ok us →
    Z.of_nat (length us) = channel_cnt t v ∧ Forall (fun u => 0 ≤ u) us;
  tk_bw v : 0 ≤ v < th_vnets t → getLinkBandwidth v t = Ok (link_bw t v) ∧ getChannelCnt v t = Ok (channel_cnt t v) ∧
    0 < link_bw t v ∧ 0 < channel_cnt t v;
  tk_total : total_bw t < 2 ^ 31;
  tk_lane v h o : lane_of t v h o → ∃ bh bo, lane_st h o w bh bo;
  tk_apart v v' h o h' o' : v ≠ v' → lane_of t v h o → lane_of t v' h' o' → h ≠ h' ∧ h ≠ o' ∧ h' ≠ o ∧ o ≠ o'
}.

Definition units_sum (t : Throttle) : Z := lsum (lsum (fun u => u)) (m_units_remaining t).
Definition flagged (c : Cycle) : bool := cy_saturated c || cy_blocked c.

(** What a vnet may take from the bandwidth that is left, whatever the others took. *)
Definition reserve (t : Throttle) (v : Z) : Z := if m_physical_vnets t then link_bw t v else 0.

(** Vnet [v] still has something to send on channel [ch]. *)
Definition has_work (t : Throttle) (w : Buffers) (v ch : Z) : Prop :=
  ∃ h o bh us u, lane_of t v h o ∧ bf_store w !! h = Some bh ∧ vec_get (m_units_remaining t) v = Ok us ∧ vec_get us ch = Ok u ∧
    (ready now bh = true ∨ 0 < u).

(** The state of the loops over vnets and channels: [D] are done, [R] is reserved. *)
Record serving (t0 : Throttle) (total0 : Z) (D : Z → Z → Prop) (R : Z) (st : Throttle * Cycle * Buffers) : Prop := {
  sg_shape : th_shape (fst (fst st)) = th_shape t0;
  sg_consumer : th_consumer (fst (fst st)) = th_consumer t0;
  sg_ok : throttle_ok (fst (fst st)) (snd st);
  sg_reserve : 0 ≤ R ≤ cy_total (snd (fst st)) ∧ cy_total (snd (fst st)) ≤ total0;
  sg_spent : units_sum (fst (fst st)) + (total0 - cy_total (snd (fst st)))
             = units_sum t0 + (counted (throttleStats (fst (fst st))) - counted (throttleStats t0));
  sg_units v ch h o us u : D v ch → lane_of (fst (fst st)) v h o → vec_get (m_units_remaining (fst (fst st))) v = Ok us →
    vec_get us ch = Ok u → 0 < u → flagged (snd (fst st)) = true;
  sg_ready v ch h o bh : D v ch → lane_of (fst (fst st)) v h o → bf_store (snd st) !! h = Some bh → ready now bh = true →
    flagged (snd (fst st)) = true
}.

Lemma shape_lane t t' v h o : th_shape t' = th_shape t → lane_of t' v h o ↔ lane_of t v h o.
Proof using. unfold lane_of. intros [= E1 E2 _ _ _ _ _ _]. by rewrite E1, E2. Qed.

(** The throttle after one channel: new units, new counters; the lanes kept. *)
Lemma throttle_ok_step t w v h o ch t' w' bh bo units st :
  throttle_ok t w → lane_of t v h o → set_units t v ch units st = Ok t' → 0 ≤ units →
  lane_st h o w' bh bo → elsewhere h o w w' → throttle_ok t' w'.
Proof using.
  intros [V U B T L A] Hl Hset Hu Hst He. pose proof (set_units_shape _ _ _ _ _ _ Hset) as Hsh.
  unfold set_units in Hset. apply rbind_ok in Hset as (us & Hus & Hset). injection Hset as <-.
  split.
  - simpl. apply vec_upd_ok in Hus as (x & y & _ & _ & ->). by rewrite length_insert.
  - intros v' us' Hv'. simpl in Hv'. change (channel_cnt _ v') with (channel_cnt t v').
    unfold vec_upd in Hus. apply rbind_ok in Hus as (x & Hx & Hus). apply rbind_ok in Hus as (y & Hy & Hus).
    destruct (decide (v' = v)) as [->|Hne].
    + rewrite (vec_get_set_eq _ _ _ _ Hus) in Hv'. injection Hv' as <-. destruct (U v x Hx) as [H1 H2].
      rewrite (vec_set_length _ _ _ _ Hy). split; [done|]. apply vec_set_ok in Hy as [_ ->]. by apply Forall_insert.
    + rewrite (vec_get_set_ne _ _ _ v' _ Hus) in Hv' by done. by apply U.
  - done.
  - done.
  - intros v' h' o' Hl'. rewrite (shape_lane _ _ _ _ _ Hsh) in Hl'. destruct (decide (v' = v)) as [->|Hne].
    + destruct Hl as [E1 E2], Hl' as [E1' E2']. rewrite E1 in E1'. rewrite E2 in E2'. simplify_eq. by exists bh, bo.
    + destruct (L v' h' o' Hl') as (bh' & bo' & [K1 K2 K3 K4 K5]). destruct (A v' v h' o' h o Hne Hl' Hl) as (N1 & N2 & N3 & N4).
      exists bh', bo'. split; [done|by rewrite He..|done|done].
  - intros v1 v2 h1 o1 h2 o2 Hne H1 H2. by apply (A v1 v2).
Qed.

Lemma units_sum_set t v ch units st t' us u :
  set_units t v ch units st = Ok t' → vec_get (m_units_remaining t) v = Ok us → vec_get us ch = Ok u →
  units_sum t' = units_sum t - u + units.
Proof using.
  unfold set_units, units_sum. intros (l & Hl & H)%rbind_ok Hus Hu. injection H as <-. simpl.
  destruct (lsum_vec_upd (lsum (fun u => u)) _ _ _ _ Hl) as (x & y & Hx & Hy & ->). rewrite Hus in Hx. injection Hx as <-.
  rewrite (lsum_vec_set (fun u => u) _ _ _ _ _ Hu Hy). lia.
Qed.

Lemma set_units_get t v ch units st t' v' ch' us' u' :
  set_units t v ch units st = Ok t' → vec_get (m_units_remaining t') v' = Ok us' → vec_get us' ch' = Ok u' →
  (v' = v ∧ ch' = ch ∧ u' = units) ∨
  ((v' ≠ v ∨ ch' ≠ ch) ∧ ∃ us, vec_get (m_units_remaining t) v' = Ok us ∧ vec_get us ch' = Ok u').
Proof using.
  unfold set_units, vec_upd. intros (l & Hl & H)%rbind_ok Hus Hu. injection H as <-. simpl in Hus.
  apply rbind_ok in Hl as (x & Hx & Hl). apply rbind_ok in Hl as (y & Hy & Hl).
  destruct (decide (v' = v)) as [->|Hne].
  - rewrite (vec_get_set_eq _ _ _ _ Hl) in Hus. injection Hus as <-. destruct (decide (ch' = ch)) as [->|Hne'].
    + rewrite (vec_get_set_eq _ _ _ _ Hy) in Hu. injection Hu as <-. by left.
    + right. split; [by right|]. exists x. split; [done|]. by rewrite <- (vec_get_set_ne _ _ _ ch' _ Hy).
  - right. split; [by left|]. exists us'. split; [|done]. by rewrite <- (vec_get_set_ne _ _ _ v' _ Hl).
Qed.

(** One call of [operateVnet] on a lane. *)
Lemma operate_lane t c w v ch h o us u :
  throttle_ok t w → lane_of t v h o → vec_get (m_units_remaining t) v = Ok us → vec_get us ch = Ok u → 0 ≤ u →
  0 ≤ v < th_vnets t → reserve t v ≤ cy_total c → 0 ≤ cy_total c →
  ∃ t' c' w' bh' bo' spent units', th_operateVnet false warm rt ctrl data env latency v ch (t, c, w) = Ok (t', c', w') ∧
    set_units t v ch units' (throttleStats t') = Ok t' ∧ 0 ≤ units' ∧
    lane_st h o w' bh' bo' ∧ elsewhere h o w w' ∧
    cy_total c' = cy_total c - spent ∧ 0 ≤ spent ≤ (if m_physical_vnets t then link_bw t v else cy_total c) ∧
    units' + spent = u + (counted (throttleStats t') - counted (throttleStats t)) ∧
    (flagged c = true → flagged c' = true) ∧ (ready now bh' || (0 <? units') = true → flagged c' = true).
Proof using Hctrl Hdata.
  intros Ht [Hh Ho] Hus Hu Hu0 Hv Hres Htot. unfold th_operateVnet. rewrite Hh, Ho. cbn [rbind]. rewrite Hus. cbn [rbind].
  rewrite Hu. cbn [rbind]. rewrite (proj2 (Z.leb_le 0 u) Hu0). cbn [rbind assert_].
  destruct (tk_bw _ _ Ht v Hv) as (Hbw & _ & Hpos & _).
  set (bw := if m_physical_vnets t then link_bw t v else cy_total c).
  assert ((if m_physical_vnets t then getLinkBandwidth v t else Ok (cy_total c)) = Ok bw) as ->.
  { unfold bw. rewrite Hbw. by destruct (m_physical_vnets t). }
  assert (0 ≤ bw ≤ cy_total c) as Hb. { unfold bw, reserve in *. destruct (m_physical_vnets t); lia. }
  destruct (tk_lane _ _ Ht v h o (conj Hh Ho)) as (bh & bo & Hl). cbn [rbind]. unfold flow_fuel.
  rewrite (get_ok _ _ _ (la_in _ _ _ _ _ Hl)). cbn [rbind].
  set (f0 := {| fl_units := u; fl_bw := bw; fl_total := cy_total c; fl_stats := throttleStats t; fl_world := w |}).
  destruct (lane_loop (length (m_prio_heap bh) + Z.to_nat bw + 1) v h o f0 bh bo) as (f & bh' & bo' & -> & Hl1 & He1 & [A1 A2 A3 A4] & Hexit);
    [simpl; lia|done|done|simpl; lia|]. cbn [rbind]. simpl in A2, A3, A4.
  rewrite (proj2 (Z.leb_le 0 (fl_units f)) A1), (proj2 (Z.leb_le 0 (fl_bw f))), (proj2 (Z.leb_le 0 (fl_total f))) by lia.
  cbn [rbind assert_]. destruct (lane_flags h o f c bh' bo' Hl1 A1 Hexit) as (c' & w' & bo2 & -> & Hl2 & He2 & Hct & Hk & Hp). cbn [rbind].
  assert (∃ t', set_units t v ch (fl_units f) (fl_stats f) = Ok t' ∧ throttleStats t' = fl_stats f) as (t' & Hset & Hst).
  { unfold set_units, vec_upd. rewrite Hus. cbn [rbind]. rewrite (vec_set_in_range us) by (by eapply vec_get_range).
    cbn [rbind]. rewrite vec_set_in_range by (by eapply vec_get_range). cbn [rbind]. by eexists. }
  rewrite Hset. cbn [rbind]. exists t', c', w', bh', bo2, (bw - fl_bw f), (fl_units f). rewrite Hst.
  split_and!; [done|done|done|done|by eapply elsewhere_trans|lia|lia|lia|lia|done|done].
Qed.

Lemma operate_total t0 total0 D R t c w v ch :
  serving t0 total0 D (reserve t v + R) (t, c, w) → 0 ≤ R → (m_physical_vnets t = false → R = 0) → 0 ≤ v < th_vnets t → 0 ≤ ch < channel_cnt t v →
  ∃ st', th_operateVnet false warm rt ctrl data env latency v ch (t, c, w) = Ok st' ∧
         serving t0 total0 (fun v' ch' => D v' ch' ∨ (v' = v ∧ ch' = ch)) R st'.
Proof using Hctrl Hdata.
  intros [S C K Rv Sp Ju Jr] HR HR0 Hv Hch. cbn [fst snd] in S, C, K, Rv, Sp, Ju, Jr.
  destruct (tk_vnets _ _ K) as (_ & Hn & Hlo & Hlu).
  destruct (vec_get_in_range (th_in t) v) as [h Hh]; [lia|]. destruct (vec_get_in_range (th_out t) v) as [out Ho]; [lia|].
  destruct out as [o|]; cycle 1.
  { exists (t, c, w). split; [unfold th_operateVnet; rewrite Hh, Ho; done|].
    assert (0 ≤ reserve t v) as Hres. { unfold reserve. pose proof (tk_bw _ _ K v Hv). destruct (m_physical_vnets t); lia. }
    split; simpl; [done..|lia|done| |].
    - intros v' ch' h' o' us' u' [HD|[-> ->]] Hl'; [by eapply Ju|]. destruct Hl' as [_ Hl']. congruence.
    - intros v' ch' h' o' bh' [HD|[-> ->]] Hl'; [by eapply Jr|]. destruct Hl' as [_ Hl']. congruence. }
  destruct (vec_get_in_range (m_units_remaining t) v) as [us Hus]; [lia|]. destruct (tk_units _ _ K v us Hus) as [Hlen Hnn].
  destruct (vec_get_in_range us ch) as [u Hu]; [lia|].
  assert (0 ≤ u) as Hu0. { apply vec_get_ok in Hu as [_ Hu]. by apply (Forall_lookup_1 _ _ _ _ Hnn Hu). }
  destruct (operate_lane t c w v ch h o us u) as (t' & c' & w' & bh' & bo' & spent & un' & -> & Hset & Hun & Hl' & He & Hc & Hsp & Hac & Hk & Hp);
    try done; [lia..|]. exists (t', c', w'). split; [done|].
  pose proof (set_units_shape _ _ _ _ _ _ Hset) as Hsh.
  assert (th_consumer t' = th_consumer t) as Hcons. { unfold set_units in Hset. apply rbind_ok in Hset as (l & _ & Hset). by injection Hset as <-. }
  split; simpl.
  - congruence.
  - congruence.
  - by eapply throttle_ok_step.
  - unfold reserve in *. destruct (m_physical_vnets t); [lia|]. rewrite HR0 by done. lia.
  - rewrite (units_sum_set _ _ _ _ _ _ _ _ Hset Hus Hu). lia.
  - intros v1 ch1 h1 o1 us1 u1 HD Hl1 Hus1 Hu1 Hpos. rewrite (shape_lane _ _ _ _ _ Hsh) in Hl1.
    destruct (set_units_get _ _ _ _ _ _ _ _ _ _ Hset Hus1 Hu1) as [(-> & -> & ->)|(Hne & us2 & Hus2 & Hu2)].
    + apply Hp. rewrite (proj2 (Z.ltb_lt 0 un') Hpos). apply orb_true_r.
    + destruct HD as [HD|[-> ->]]; [|by destruct Hne]. apply Hk. by eapply Ju.
  - intros v1 ch1 h1 o1 b1 HD Hl1 Hb1 Hr1. rewrite (shape_lane _ _ _ _ _ Hsh) in Hl1. destruct (decide (v1 = v)) as [->|Hne].
    + destruct Hl1 as [E1 _]. rewrite Hh in E1. injection E1 as <-. rewrite (la_in _ _ _ _ _ Hl') in Hb1. injection Hb1 as <-.
      apply Hp. by rewrite Hr1.
    + destruct HD as [HD|[-> _]]; [|done]. apply Hk. destruct (tk_apart _ _ K v1 v h1 o1 h o Hne Hl1 (conj Hh Ho)) as (N1 & N2 & _).
      eapply Jr; [exact HD|exact Hl1| |exact Hr1]. by rewrite <- He.
Qed.

Lemma serving_weaken t0 total0 D D' R R' st :
  (∀ v ch, D' v ch → D v ch) → 0 ≤ R' ≤ R → serving t0 total0 D R st → serving t0 total0 D' R' st.
Proof using.
  intros HD HR [S C K Rv Sp Ju Jr]. split; [done..|lia|done| |].
  - intros v ch h o us u H. apply (Ju v ch h o us u). by apply HD.
  - intros v ch h o bh H. apply (Jr v ch h o bh). by apply HD.
Qed.

(** What depends on the shape of a throttle only. *)
Lemma shape_facts t t' v :
  th_shape t' = th_shape t →
  reserve t' v = reserve t v ∧ channel_cnt t' v = channel_cnt t v ∧ th_vnets t' = th_vnets t ∧ m_physical_vnets t' = m_physical_vnets t.
Proof using.
  intros E. injection E as E1 E2 E3 E4 E5 E6 E7 E8. unfold reserve, channel_cnt, link_bw. by rewrite E3, E4, E5, E6, E8.
Qed.

(** The rest of a vnet's reservation. *)
Definition vnet_reserve (t : Throttle) (v : Z) : Z := reserve t v * channel_cnt t v.

Lemma reserve_nonneg t w v : throttle_ok t w → 0 ≤ v < th_vnets t → 0 ≤ reserve t v ∧ 0 < channel_cnt t v.
Proof using. intros K Hv. destruct (tk_bw _ _ K v Hv) as (_ & _ & ? & ?). unfold reserve. destruct (m_physical_vnets t); lia. Qed.

Lemma channels_total t0 total0 D R t c w v :
  serving t0 total0 D (vnet_reserve t0 v + R) (t, c, w) → 0 ≤ R → (m_physical_vnets t0 = false → R = 0) → 0 ≤ v < th_vnets t0 →
  ∃ st', th_channels false warm rt ctrl data env latency v (t, c, w) = Ok st' ∧
         serving t0 total0 (fun v' ch' => D v' ch' ∨ (v' = v ∧ 0 ≤ ch' < channel_cnt t0 v)) R st'.
Proof using Hctrl Hdata.
  intros Hs HR HR0 Hv. unfold th_channels. cbn [fst].
  pose proof (sg_shape _ _ _ _ _ Hs) as Hsh. pose proof (sg_ok _ _ _ _ _ Hs) as K. cbn [fst snd] in Hsh, K.
  destruct (shape_facts _ _ v Hsh) as (Er & Ec & En & Ep). rewrite <- En in Hv.
  destruct (tk_bw _ _ K v Hv) as (_ & -> & _). destruct (reserve_nonneg _ _ _ K Hv) as [Hr0 Hc0]. rewrite Er in Hr0. rewrite Ec in Hc0.
  cbn [rbind]. rewrite Ec. set (n := channel_cnt t0 v) in *.
  destruct (for_range_ok (fun i st => serving t0 total0 (fun v' ch' => D v' ch' ∨ (v' = v ∧ 0 ≤ ch' < i)) (reserve t0 v * (n - i) + R) st)
    0 (Z.to_nat n) (th_operateVnet false warm rt ctrl data env latency v) (t, c, w)) as (st' & Hst & H).
  - eapply serving_weaken; [| |exact Hs]; [|unfold vnet_reserve; fold n; nia]. intros v' ch' [?|[_ ?]]; [done|lia].
  - intros i [[t1 c1] w1] Hi H1. pose proof (sg_shape _ _ _ _ _ H1) as Hsh1. cbn [fst snd] in Hsh1.
    destruct (shape_facts _ _ v Hsh1) as (Er1 & Ec1 & En1 & Ep1).
    destruct (operate_total t0 total0 (fun v' ch' => D v' ch' ∨ (v' = v ∧ 0 ≤ ch' < i)) (reserve t0 v * (n - (i + 1)) + R) t1 c1 w1 v i)
      as (st' & Hst & H).
    + rewrite Er1. eapply serving_weaken; [| |exact H1]; [done|nia].
    + nia.
    + intros Hp. rewrite Ep1 in Hp. unfold reserve. rewrite Hp, HR0 by done. lia.
    + lia.
    + rewrite Ec1. fold n. lia.
    + exists st'. split; [done|]. eapply serving_weaken; [| |exact H]; [|nia].
      intros v' ch' [?|[-> ?]]; [by left; left|]. destruct (decide (ch' = i)) as [->|Hne]; [by right|]. left. right. lia.
  - exists st'. split; [done|]. eapply serving_weaken; [| |exact H]; [|nia]. intros v' ch' [?|[-> ?]]; [by left|]. right. lia.
Qed.

Lemma vnets_total t0 total0 order st :
  serving t0 total0 (fun _ _ => False) (lsum (vnet_reserve t0) order) st →
  (∀ v, v ∈ order → 0 ≤ v < th_vnets t0) → (m_physical_vnets t0 = false → ∀ v, vnet_reserve t0 v = 0) →
  (∀ v, v ∈ order → 0 ≤ vnet_reserve t0 v) →
  ∃ st', fold_res (th_channels false warm rt ctrl data env latency) order st = Ok st' ∧
         serving t0 total0 (fun v ch => v ∈ order ∧ 0 ≤ ch < channel_cnt t0 v) 0 st'.
Proof using Hctrl Hdata.
  intros Hs Hord Hshared Hnn.
  assert (∀ l, (∀ v, v ∈ l → v ∈ order) → 0 ≤ lsum (vnet_reserve t0) l) as Hpos.
  { intros l Hl. induction l as [|x l IH]; simpl; [lia|]. pose proof (Hnn x ltac:(apply Hl; by left)).
    pose proof (IH ltac:(intros; apply Hl; by right)). lia. }
  destruct (fold_res_ok (fun k st => serving t0 total0 (fun v ch => v ∈ take k order ∧ 0 ≤ ch < channel_cnt t0 v)
    (lsum (vnet_reserve t0) (drop k order)) st) (th_channels false warm rt ctrl data env latency) order st) as (st' & Hst & H).
  - eapply serving_weaken; [| |exact Hs]; [by intros v ch [?%elem_of_nil _]|]. rewrite drop_0. split; [by apply Hpos|done].
  - intros k v [[t1 c1] w1] Hk H1. rewrite (drop_S _ _ _ Hk) in H1. simpl in H1.
    assert (v ∈ order) as Hin by by eapply list_elem_of_lookup_2.
    assert (0 ≤ lsum (vnet_reserve t0) (drop (S k) order)) as Hrest.
    { apply Hpos. intros x Hx. apply list_elem_of_lookup in Hx as (j & Hj). rewrite lookup_drop in Hj. by eapply list_elem_of_lookup_2. }
    destruct (channels_total t0 total0 _ _ t1 c1 w1 v H1 Hrest) as (st' & Hst & H); [|by apply Hord|].
    { intros Hp. apply lsum_zero, Forall_forall. intros x _. by apply Hshared. }
    exists st'. split; [done|]. eapply serving_weaken; [| |exact H]; [|lia].
    intros v' ch' [Hv' Hch']. rewrite (take_S_r _ _ _ Hk) in Hv'. apply elem_of_app in Hv' as [?| ->%list_elem_of_singleton]; [by left|by right].
  - exists st'. split; [done|]. rewrite take_ge, drop_ge in H by lia. done.
Qed.

Lemma total_terms t w l :
  throttle_ok t w → (∀ v, v ∈ l → 0 ≤ v < th_vnets t) → 0 ≤ lsum (fun v => link_bw t v * channel_cnt t v) l.
Proof using.
  intros K. induction l as [|x l IH]; intros Hl; simpl; [lia|]. destruct (tk_bw _ _ K x ltac:(apply Hl; by left)) as (_ & _ & ? & ?).
  pose proof (IH ltac:(intros; apply Hl; by right)). nia.
Qed.

(** The sum that [getTotalLinkBandwidth] computes does not overflow. *)
Lemma total_exact t w : throttle_ok t w → getTotalLinkBandwidth t = Ok (total_bw t).
Proof using.
  intros K. destruct (tk_vnets _ _ K) as (Hn & _). pose proof (tk_total _ _ K) as Htot. unfold getTotalLinkBandwidth, total_bw in *.
  set (f := fun v => link_bw t v * channel_cnt t v) in *.
  destruct (tk_bw _ _ K 0 ltac:(lia)) as (-> & -> & Hb & Hc). cbn [rbind].
  assert (∀ i, 0 ≤ i ≤ th_vnets t → 0 ≤ lsum f (seqZ 0 i)) as Hpos.
  { intros i Hi. apply (total_terms t w); [done|]. intros v Hv%elem_of_seqZ. lia. }
  destruct (m_physical_vnets t); cycle 1.
  { rewrite seqZ_cons in Htot |- * by lia. simpl in Htot |- *. unfold f in *. rewrite s32_small; [f_equal|]; nia. }
  assert (∀ i, 0 ≤ i < th_vnets t → lsum f (seqZ 0 (i + 1)) = lsum f (seqZ 0 i) + f i ∧ 0 ≤ f i ∧ lsum f (seqZ 0 (i + 1)) < 2 ^ 31) as Hsum.
  { intros i Hi. assert (0 ≤ f i) as Hfi. { unfold f. destruct (tk_bw _ _ K i Hi) as (_ & _ & ? & ?). nia. }
    assert (lsum f (seqZ 0 (i + 1)) = lsum f (seqZ 0 i) + f i) as E.
    { rewrite seqZ_app, lsum_app, (seqZ_cons (0 + i) 1) by lia. change (seqZ _ (Z.pred 1)) with (@nil Z). rewrite Z.add_0_l. simpl. lia. }
    split_and!; [done|done|]. replace (th_vnets t) with (i + 1 + (th_vnets t - i - 1)) in Htot by lia.
    rewrite seqZ_app, lsum_app in Htot by lia.
    pose proof (total_terms t w (seqZ (0 + (i + 1)) (th_vnets t - i - 1)) K ltac:(intros v Hv%elem_of_seqZ; lia)) as Hrest. fold f in Hrest. lia. }
  assert (s32 (link_bw t 0 * channel_cnt t 0) = lsum f (seqZ 0 1)) as ->.
  { destruct (Hsum 0 ltac:(lia)) as (E & ? & ?). change (0 + 1) with 1 in *.
    assert (lsum f (seqZ 0 1) = f 0) as E0 by apply Z.add_0_r. rewrite E0 in *. fold (f 0). apply s32_small. lia. }
  destruct (for_range_ok (fun i s => s = lsum f (seqZ 0 i)) 1 (Z.to_nat (th_vnets t) - 1)
    (fun i sum => let* x := (let* bw := getLinkBandwidth i t in let* c := getChannelCnt i t in Ok (s32 (bw * c))) in Ok (s32 (sum + x)))
    (lsum f (seqZ 0 1))) as (s & -> & ->); [done| |do 3 f_equal; lia].
  intros i s Hi ->. destruct (tk_bw _ _ K i ltac:(lia)) as (-> & -> & _). cbn [rbind]. eexists. split; [done|].
  destruct (Hsum i ltac:(lia)) as (-> & Hfi & Hlt). pose proof (Hpos i ltac:(lia)). fold (f i). rewrite (s32_small (f i)) by lia. apply s32_small. lia.
Qed.

Lemma total_bandwidth t w :
  throttle_ok t w →
  ∃ bw, getTotalLinkBandwidth t = Ok bw ∧ 0 < bw ∧ lsum (vnet_reserve t) (seqZ 0 (th_vnets t)) ≤ bw.
Proof using.
  intros K. exists (total_bw t). split; [by eapply total_exact|]. destruct (tk_vnets _ _ K) as (Hn & _).
  destruct (tk_bw _ _ K 0 ltac:(lia)) as (_ & _ & Hb & Hc).
  assert (seqZ 0 (th_vnets t) = 0 :: seqZ 1 (th_vnets t - 1)) as Eseq. { rewrite seqZ_cons by lia. f_equal. }
  unfold total_bw, vnet_reserve, reserve. destruct (m_physical_vnets t).
  - split; [|done]. rewrite Eseq. simpl.
    pose proof (total_terms t w (seqZ 1 (th_vnets t - 1)) K ltac:(intros v Hv%elem_of_seqZ; lia)). nia.
  - change (seqZ 0 1) with [0]. split; [simpl; nia|]. rewrite lsum_zero by (apply Forall_forall; intros; lia). simpl. nia.
Qed.

(** ** The wakeup *)

Lemma next_cycle_scheduled c :
  clock_ok env → consumer_inv c →
  ∃ c', scheduleEvent env 1 c = Ok c' ∧ clockEdge env 1 ∈ m_wakeup_ticks c' ∧
        ∃ e, m_wakeup_event c' = Some e ∧ e ≤ clockEdge env 1.
Proof using.
  intros Hck Hi. unfold scheduleEvent. set (c1 := with_ticks c _).
  destruct (scheduleNextWakeup_covers env c1 Hck) as (c' & -> & Ht & Hcov); [by apply insertSorted_sorted|].
  assert (clockEdge env 1 ∈ m_wakeup_ticks c') as Hin. { rewrite Ht. simpl. apply insertSorted_elem; [done|by left]. }
  exists c'. split_and!; [done|done|]. apply Hcov; [done|]. destruct Hck as (Hp & Hc & Ho). destruct (edge_spec env Hp) as [He _].
  unfold clockEdge. rewrite !u64_small by lia. lia.
Qed.

Lemma throttle_ok_state t w n st k : throttle_ok t w → throttle_ok (th_state t n st k) w.
Proof using. by intros [V U B T L A]. Qed.

Lemma vnet_order_elem invert n v : v ∈ vnet_order invert n ↔ 0 ≤ v < n.
Proof using. unfold vnet_order. destruct invert; rewrite ?elem_of_reverse, elem_of_seqZ; lia. Qed.

Lemma vnet_order_sum (g : Z → Z) invert n : lsum g (vnet_order invert n) = lsum g (seqZ 0 n).
Proof using. unfold vnet_order. destruct invert; [done|]. by rewrite reverse_Permutation. Qed.

Lemma vnet_reserve_nonneg t w v : throttle_ok t w → 0 ≤ v < th_vnets t → 0 ≤ vnet_reserve t v.
Proof using. intros K Hv. destruct (reserve_nonneg t w v K Hv). unfold vnet_reserve. nia. Qed.

(** Before the first vnet. *)
Lemma serving_start t w bw invert :
  throttle_ok t w → lsum (vnet_reserve t) (seqZ 0 (th_vnets t)) ≤ bw →
  serving t bw (fun _ _ => False) (lsum (vnet_reserve t) (vnet_order invert (th_vnets t)))
    (t, {| cy_total := bw; cy_saturated := false; cy_blocked := false |}, w).
Proof using.
  intros K Hres. split; cbn [fst snd cy_total]; [done|done|done| |lia|by intros ?????? []|by intros ????? []].
  rewrite vnet_order_sum. split; [|done]. split; [|exact Hres].
  assert (∀ l, (∀ v, v ∈ l → 0 ≤ v < th_vnets t) → 0 ≤ lsum (vnet_reserve t) l) as Hpos.
  { induction l as [|x l IH]; intros Hl; simpl; [lia|]. pose proof (vnet_reserve_nonneg t w x K ltac:(apply Hl; by left)).
    pose proof (IH ltac:(intros; apply Hl; by right)). lia. }
  apply Hpos. intros v Hv%elem_of_seqZ. lia.
Qed.

Lemma wakeup_serves t w :
  clock_ok env → consumer_inv (th_consumer t) → throttle_ok t w →
  ∃ bw t' w' spent, getTotalLinkBandwidth t = Ok bw ∧
    th_wakeup false warm rt ctrl data env latency t w = Ok (t', w') ∧ throttle_ok t' w' ∧
    0 ≤ spent ≤ bw ∧ units_sum t' + spent = units_sum t + (counted (throttleStats t') - counted (throttleStats t)) ∧
    ∀ v ch, has_work t' w' v ch →
      clockEdge env 1 ∈ m_wakeup_ticks (th_consumer t') ∧ ∃ e, m_wakeup_event (th_consumer t') = Some e ∧ e ≤ clockEdge env 1.
Proof using Hctrl Hdata.
  intros Hck Hcons K. destruct (total_bandwidth t w K) as (bw & Hbw & Hpos & Hres). exists bw. unfold th_wakeup. rewrite Hbw. cbn [rbind].
  rewrite (proj2 (Z.ltb_lt 0 bw) Hpos). cbn [rbind assert_]. cbv zeta.
  set (invert := PRIORITY_SWITCH_LIMIT <? th_wakeups_wo_switch t + 1). set (t0 := th_state t _ _ _).
  set (c0 := {| cy_total := bw; cy_saturated := false; cy_blocked := false |}).
  assert (throttle_ok t0 w) as K0 by by apply throttle_ok_state.
  destruct (vnets_total t0 bw (vnet_order invert (th_vnets t0)) (t0, c0, w)) as ([[t1 c1] w1] & Hrun & Hs);
    [by apply (serving_start t0 w)|intros v; apply vnet_order_elem|..].
  { intros Hp v. unfold vnet_reserve, reserve. rewrite Hp. lia. }
  { intros v Hv%vnet_order_elem. by apply (vnet_reserve_nonneg t0 w). }
  rewrite Hrun. cbn [rbind]. destruct Hs as [S1 S2 S3 S4 S5 S6 S7]. cbn [fst snd] in S1, S2, S3, S4, S5, S6, S7.
  assert (∀ v ch, has_work t1 w1 v ch → flagged c1 = true) as Hflag.
  { intros v ch (h & o & bh & us & u & Hl & Hb & Hus & Hu & Hwork).
    assert (v ∈ vnet_order invert (th_vnets t0) ∧ 0 ≤ ch < channel_cnt t0 v) as HD.
    { destruct (shape_facts _ _ v S1) as (_ & E2 & E3 & _). rewrite vnet_order_elem, <- E2, <- E3.
      destruct (tk_vnets _ _ S3) as (_ & -> & _ & Hlu). pose proof (vec_get_range _ _ _ Hus). pose proof (vec_get_range _ _ _ Hu).
      destruct (tk_units _ _ S3 v us Hus) as [Hlen _]. lia. }
    destruct Hwork as [Hr|Hu0]; [by eapply S7|by eapply S6]. }
  fold (flagged c1). assert (consumer_inv (th_consumer t1)) as Hc1 by by rewrite S2.
  destruct (next_cycle_scheduled (th_consumer t1) Hck Hc1) as (k & Hk & Hk1 & Hk2).
  set (k1 := if flagged c1 then k else th_consumer t1).
  assert ((if flagged c1 then scheduleEvent env 1 (th_consumer t1) else Ok (th_consumer t1)) = Ok k1) as ->.
  { unfold k1. destruct (flagged c1); [done|done]. }
  cbn [rbind]. eexists _, w1, (bw - cy_total c1). split; [done|]. split; [done|].
  split_and!; [by apply throttle_ok_state|lia|lia| |].
  - change (units_sum (th_state _ _ _ _)) with (units_sum t1). change (counted (throttleStats (th_state _ _ _ _))) with (counted (throttleStats t1)).
    change (units_sum t) with (units_sum t0). change (counted (throttleStats t)) with (counted (throttleStats t0)). exact S5.
  - intros v ch Hw. specialize (Hflag v ch Hw). unfold k1. rewrite Hflag. by split.
Qed.

End lane.

(** ** From wakeup to wakeup *)

(** A throttle left alone stays in order as time passes. *)
Lemma throttle_later env env' latency t w :
  clockPeriod env' = clockPeriod env → clockEdge env 0 ≤ clockEdge env' 0 →
  clockEdge env' 0 + cyclesToTicks env latency < 2 ^ 64 →
  throttle_ok env latency t w → throttle_ok env' latency t w.
Proof.
  intros Hper Hle Hlt [V U B T L A]. split; [done..| |done]. intros v h o Hl.
  destruct (L v h o Hl) as (bh & bo & [K1 K2 K3 K4 K5]). exists bh, bo. split; [done|done|done|lia|].
  assert (cyclesToTicks env' latency = cyclesToTicks env latency) as -> by (unfold cyclesToTicks; by rewrite Hper).
  by eapply sink_later.
Qed.

(** *** Constructed throttles *)

(** A new buffer that does not ask for random delays on its own. *)
Definition fresh_buffer (b : MessageBuffer) : Prop :=
  ∃ size rate ordered rand zero, b = new_MessageBuffer size rate ordered rand zero ∧ rand ≠ enabled ∧ 0 ≤ size < 2 ^ 32 - 1.

Lemma fresh_sink now delta b :
  fresh_buffer b → 0 < delta → 0 ≤ now → now + delta < 2 ^ 64 → sink_ok now delta b.
Proof.
  intros (size & rate & ordered & rand & zero & -> & Hr & Hs) Hd Hn Hlt. split.
  - split; simpl; [done|lia..].
  - apply (no_overcommit_later 0); [|done]. apply reachable_no_overcommit, BR_new.
  - done.
  - right. simpl. split; [|lia]. unfold visible_size, heap_size. simpl. repeat zcase; lia.
Qed.

(** The parameters of a throttle before its links are added. *)
Definition throttle_made (t0 : Throttle) : Prop :=
  ∃ lat ep, (∃ mult, throttle_shared lat mult ep = Ok t0) ∨ (∃ channels mults, throttle_physical lat channels mults ep = Ok t0).

Lemma made_positive t0 :
  throttle_made t0 →
  Forall (fun m => 0 < m) (m_link_bandwidth_multiplier t0) ∧ Forall (fun c => 0 < c) (m_vnet_channels t0) ∧
  m_units_remaining t0 = [] ∧ th_in t0 = [] ∧ th_out t0 = [] ∧
  (m_physical_vnets t0 = true → length (m_link_bandwidth_multiplier t0) = length (m_vnet_channels t0)).
Proof.
  intros (lat & ep & [(mult & H)|(channels & mults & H)]).
  - unfold throttle_shared, assert_ in H. destruct (Z.ltb_spec 0 mult); [|done]. injection H as <-. simpl.
    split_and!; [by repeat constructor|constructor|done|done|done|done].
  - unfold throttle_physical, assert_ in H. destruct (forallb (Z.ltb 0) mults) eqn:E1; [|done]. cbn [rbind] in H.
    destruct (forallb (Z.ltb 0) channels) eqn:E2; [|done]. cbn [rbind] in H.
    destruct (Nat.eqb_spec (length mults) (length channels)) as [E3|]; [|done]. injection H as <-. simpl.
    rewrite forallb_forall in E1, E2.
    split_and!; [apply List.Forall_forall; intros x Hx; by apply Z.ltb_lt, E1|apply List.Forall_forall; intros x Hx; by apply Z.ltb_lt, E2|done..].
Qed.

Lemma addLinks_units t0 ins outs t :
  m_units_remaining t0 = [] → addLinks ins outs t0 = Ok t →
  ∀ v us, vec_get (m_units_remaining t) v = Ok us → us = replicate (Z.to_nat (channel_cnt t v)) 0.
Proof.
  unfold addLinks. intros Hnil (_ & _ & (units & Hu & (_ & _ & [= <-])%rbind_ok)%rbind_ok)%rbind_ok v us Hv. simpl in Hv.
  apply (for_range_inv (fun i us => Z.of_nat (length us) = i ∧
    ∀ v x, vec_get us v = Ok x → x = replicate (Z.to_nat (channel_cnt t0 v)) 0)) in Hu as [_ Hall].
  - by apply (Hall v us).
  - rewrite Hnil. split; [done|]. intros v' x [_ Hx]%vec_get_ok. done.
  - intros i us1 us2 _ [Hlen Hall] (c & Hc & [= <-])%rbind_ok. split; [rewrite length_app; simpl; lia|].
    intros v' x [Hv' [Hx|[Hge Hx]]%lookup_app_Some]%vec_get_ok; [apply Hall; by apply vec_get_ok|].
    apply list_lookup_singleton_Some in Hx as [Hz <-]. assert (v' = i) as -> by lia. f_equal. f_equal.
    unfold getChannelCnt in Hc. unfold channel_cnt. destruct (m_physical_vnets t0); [|congruence].
    apply vec_get_ok in Hc as [_ ->]. done.
Qed.

Lemma lsum_member {A} (f : A → Z) l x : (∀ y, y ∈ l → 0 ≤ f y) → x ∈ l → f x ≤ lsum f l.
Proof.
  intros Hpos. induction 1 as [x l|x y l Hx IH].
  - assert (0 ≤ lsum f l); [|simpl; lia]. clear -Hpos. induction l as [|y l IH]; simpl; [done|].
    pose proof (Hpos y ltac:(set_solver)). pose proof (IH ltac:(intros z [-> |?]%elem_of_cons; apply Hpos; set_solver)). lia.
  - simpl. pose proof (Hpos y ltac:(by left)). pose proof (IH ltac:(intros; apply Hpos; by right)). lia.
Qed.

Lemma omap_NoDup_inj {A} (l : list (option A)) i j x :
  NoDup (omap id l) → l !! i = Some (Some x) → l !! j = Some (Some x) → i = j.
Proof.
  revert i j. induction l as [|y l IH]; intros i j Hnd Hi Hj; [done|].
  assert (∀ k, l !! k = Some (Some x) → x ∈ omap id l) as Hin.
  { intros k Hk. apply list_elem_of_omap. exists (Some x). split; [by eapply list_elem_of_lookup_2|done]. }
  destruct i as [|i], j as [|j]; simplify_eq/=; [done| | |].
  - apply NoDup_cons in Hnd as [Hn _]. by destruct (Hn (Hin j Hj)).
  - apply NoDup_cons in Hnd as [Hn _]. by destruct (Hn (Hin i Hi)).
  - f_equal. apply IH; [|done|done]. destruct y; simpl in Hnd; [by apply NoDup_cons in Hnd as [_ ?]|done].
Qed.

(** The throttle a switch makes for a link is in order when its buffers are new and
    distinct and its bandwidth is positive and fits an [int]. *)
Lemma constructed_throttle_ok env t0 ins outs t w :
  throttle_made t0 → addLinks ins outs t0 = Ok t → ins ≠ [] → 0 < m_endpoint_bandwidth t0 → total_bw t < 2 ^ 31 →
  NoDup (ins ++ omap id outs) →
  (∀ h, h ∈ ins ++ omap id outs → ∃ b, bf_store w !! h = Some b ∧ fresh_buffer b) →
  0 ≤ clockEdge env 0 → 0 < cyclesToTicks env (m_link_latency t) →
  clockEdge env 0 + cyclesToTicks env (m_link_latency t) < 2 ^ 64 →
  throttle_ok env (m_link_latency t) t w.
Proof.
  intros Hmade Hadd Hne Hep Htot Hnd Hfresh Hnow Hdelta Hlt.
  destruct (made_positive t0 Hmade) as (Hm & Hc & Hu0 & Hi0 & Ho0 & Hlen).
  pose proof (addLinks_units t0 ins outs t Hu0 Hadd) as Hunits.
  unfold addLinks in Hadd. apply rbind_ok in Hadd as (u0 & Hl & (units & Hu & Hadd)%rbind_ok).
  apply rbind_ok in Hadd as (u1 & Hsz & Ht). unfold assert_ in Hl, Hsz. rewrite Hi0, Ho0, Hu0 in *. simpl in Ht.
  destruct (Nat.eqb_spec (length ins) (length outs)) as [Hlio|]; [|done].
  destruct (Z.eqb_spec (Z.of_nat (length (m_link_bandwidth_multiplier t0))) (if m_physical_vnets t0 then Z.of_nat (length ins) else 1))
    as [Hsize|]; [|done].
  apply (for_range_inv (fun i us => Z.of_nat (length us) = i)) in Hu;
    [|done|intros i us1 us2 _ Hlen1 (c & _ & [= <-])%rbind_ok; rewrite length_app; simpl; lia].
  assert (0 < Z.of_nat (length ins)) as Hpos by (destruct ins; [done|simpl; lia]).
  assert (∀ v, 0 ≤ v < th_vnets t → (∃ m, vec_get (m_link_bandwidth_multiplier t) (if m_physical_vnets t then v else 0) = Ok m ∧
      link_bw t v = m_endpoint_bandwidth t * m ∧ 0 < m) ∧ getChannelCnt v t = Ok (channel_cnt t v) ∧ 0 < channel_cnt t v) as Hv.
  { injection Ht as <-. intros v Hv. unfold link_bw, channel_cnt, getChannelCnt. simpl in *. destruct (m_physical_vnets t0) eqn:Ep.
    - destruct (vec_get_in_range (m_link_bandwidth_multiplier t0) v) as [m Hgm]; [lia|].
      destruct (vec_get_in_range (m_vnet_channels t0) v) as [c Hgc]; [rewrite Hlen in Hsize by done; lia|].
      rewrite Hgm, Hgc. apply vec_get_ok in Hgm as [_ Hgm], Hgc as [_ Hgc]. rewrite Hgm, Hgc. simpl.
      split_and!; [exists m; split_and!; [done|done|by eapply Forall_lookup_1 in Hm]|done|by eapply Forall_lookup_1 in Hc].
    - destruct (vec_get_in_range (m_link_bandwidth_multiplier t0) 0) as [m Hgm]; [lia|].
      rewrite Hgm. apply vec_get_ok in Hgm as [_ Hgm]. rewrite Hgm. simpl.
      split_and!; [exists m; split_and!; [done|done|by eapply Forall_lookup_1 in Hm]|done|lia]. }
  assert (th_in t = ins ∧ th_out t = outs ∧ th_vnets t = Z.of_nat (length ins) ∧ length (m_units_remaining t) = length ins ∧
    m_endpoint_bandwidth t = m_endpoint_bandwidth t0) as (Ei & Eo & En & Eu & Ee) by (injection Ht as <-; simpl; split_and!; [done..|lia|done]).
  clear Ht. assert (∀ v, 0 ≤ v < th_vnets t → 0 < link_bw t v < 2 ^ 31) as Hbw.
  { intros v Hvr. destruct (Hv v Hvr) as ((m & _ & Hlb & Hmp) & _ & Hcp). split; [rewrite Hlb, Ee; nia|].
    eapply Z.le_lt_trans; [|exact Htot]. set (v' := if m_physical_vnets t then v else 0).
    assert (link_bw t v ≤ link_bw t v' * channel_cnt t v') as Hle.
    { unfold v'. destruct (m_physical_vnets t) eqn:Ep; [rewrite Hlb, Ee; nia|]. unfold channel_cnt, link_bw. rewrite Ep. lia. }
    etrans; [exact Hle|]. apply (lsum_member (fun v => link_bw t v * channel_cnt t v)).
    - intros y Hy%elem_of_seqZ. destruct (Hv y) as ((m' & _ & Hlb' & Hmp') & _ & Hcp'); [destruct (m_physical_vnets t); lia|].
      rewrite Hlb', Ee. nia.
    - apply elem_of_seqZ. unfold v'. destruct (m_physical_vnets t); lia. }
  split.
  - rewrite Ei, Eo, En. split_and!; [lia|done|lia|done].
  - intros v us Hus. rewrite (Hunits v us Hus), length_replicate. apply vec_get_range in Hus. rewrite Eu, <-En in Hus.
    destruct (Hv v Hus) as (_ & _ & Hcp). split; [lia|]. apply Forall_replicate. lia.
  - intros v Hvr. destruct (Hv v Hvr) as ((m & Hgm & Hlb & Hmp) & Hgc & Hcp). specialize (Hbw v Hvr).
    split_and!; [|done|lia|done]. unfold getLinkBandwidth. rewrite Hgm. cbn [rbind]. unfold assert_.
    rewrite (proj2 (Z.ltb_lt 0 m) Hmp). cbn [rbind]. rewrite <-Hlb, s32_small by lia. done.
  - done.
  - intros v h o [Hh Ho]. rewrite Ei in Hh. rewrite Eo in Ho. apply vec_get_ok in Hh as [_ Hh], Ho as [_ Ho].
    assert (h ∈ ins) as Hin by by eapply list_elem_of_lookup_2.
    assert (o ∈ omap id outs) as Hout by (apply list_elem_of_omap; exists (Some o); split; [by eapply list_elem_of_lookup_2|done]).
    destruct (Hfresh h) as (bh & Hbh & Hfh); [set_solver|]. destruct (Hfresh o) as (bo & Hbo & Hfo); [set_solver|].
    exists bh, bo. apply NoDup_app in Hnd as (_ & Hdis & _). split; [intros ->; by apply (Hdis o)|done|done| |by apply fresh_sink].
    destruct Hfh as (? & ? & ? & ? & ? & -> & _). simpl. lia.
  - intros v v' h o h' o' Hvv [Hh Ho] [Hh' Ho']. rewrite Ei in Hh, Hh'. rewrite Eo in Ho, Ho'.
    apply vec_get_ok in Hh as [? Hh], Ho as [? Ho], Hh' as [? Hh'], Ho' as [? Ho']. apply NoDup_app in Hnd as (Hni & Hdis & Hno).
    assert (∀ w x, outs !! w = Some (Some x) → x ∈ omap id outs) as Hom.
    { intros j x Hx. apply list_elem_of_omap. exists (Some x). split; [by eapply list_elem_of_lookup_2|done]. }
    split_and!.
    + intros ->. pose proof (NoDup_lookup _ _ _ _ Hni Hh Hh'). lia.
    + intros ->. apply (Hdis o'); [by eapply list_elem_of_lookup_2|by eapply Hom].
    + intros ->. apply (Hdis o); [by eapply list_elem_of_lookup_2|by eapply Hom].
    + intros ->. pose proof (omap_NoDup_inj outs (Z.to_nat v) (Z.to_nat v') o' Hno Ho Ho'). lia.
Qed.

(** C15: The wakeup of a throttle of a simple network between buffers in order
    succeeds, whatever the messages are: the loops end and no assertion of the
    throttle or of the buffers fails. "In order" ([throttle_ok]) asks that the
    bandwidths are positive and fit an [int], that the buffers of different vnets
    are distinct and the source was not popped in the future, and of each output
    buffer ([sink_ok]) that it does not ask for random delays on its own (the
    system-wide switch is off; [disabled] or the default [ruby_system]), that the
    link latency is positive, and that no message in it arrives later than one sent
    now. A throttle just constructed is in order ([constructed_throttle_ok]), the
    wakeup keeps it so, and time alone does too. The wakeup spends no more than the
    bandwidth of the link, and what it spends is exactly the change of the units in
    transit plus a thousand units per byte counted in [total_msg_bytes]. If a vnet
    still has a message that is ready, or one in transit, on any channel, the
    throttle is scheduled for the next cycle and its event comes no later. *)
Theorem throttle_serves ctrl data env warm rt t w :
  0 ≤ ctrl * MESSAGE_SIZE_MULTIPLIER < 2 ^ 31 → 0 ≤ data * MESSAGE_SIZE_MULTIPLIER < 2 ^ 31 → clock_ok env → consumer_inv (th_consumer t) →
  throttle_ok env (m_link_latency t) t w →
  ∃ bw t' w' spent, getTotalLinkBandwidth t = Ok bw ∧
    th_wakeup false warm rt ctrl data env (m_link_latency t) t w = Ok (t', w') ∧
    throttle_ok env (m_link_latency t) t' w' ∧
    (∀ env', clockPeriod env' = clockPeriod env → clockEdge env 0 ≤ clockEdge env' 0 →
       clockEdge env' 0 + cyclesToTicks env (m_link_latency t) < 2 ^ 64 → throttle_ok env' (m_link_latency t) t' w') ∧
    0 ≤ spent ≤ bw ∧
    units_sum t' + spent = units_sum t + (counted (throttleStats t') - counted (throttleStats t)) ∧
    ∀ v ch, has_work env t' w' v ch →
      clockEdge env 1 ∈ m_wakeup_ticks (th_consumer t') ∧ ∃ e, m_wakeup_event (th_consumer t') = Some e ∧ e ≤ clockEdge env 1.
Proof.
  intros Hctrl Hdata Hck Hcons Ht.
  destruct (wakeup_serves ctrl data env (m_link_latency t) Hctrl Hdata warm rt t w Hck Hcons Ht)
    as (bw & t' & w' & spent & Hbw & Hw & Hok & Hrest).
  exists bw, t', w', spent. split_and!; [done|done|done| |apply Hrest..]. intros env' Hper Hle Hlt. by eapply throttle_later.
Qed.

(** One vnet between buffers 400 and 300; a control message waits. *)
Definition ex_waiting : MessageBuffer :=
  upd_times (new_MessageBuffer 4 0 true disabled false)
    [{| msg_handle := 1; msg_time := 0; m_LastEnqueueTime := 10; m_DelayedTicks := 0; msg_counter := 1; msg_destination := [];
        msg_size_type := Control |}] 0 0 0 10 0 0 1 1 false.
Definition ex_sink : MessageBuffer := new_MessageBuffer 4 0 true disabled false.
Definition ex_lane : Buffers :=
  {| bf_store := list_to_map [(400, ex_waiting); (300, ex_sink)]; bf_calls := []; bf_next_message := 100 |}.
Definition ex_throttle : Throttle :=
  {| th_in := [400]; th_out := [Some 300]; th_vnets := 1; m_units_remaining := [[0]]; m_physical_vnets := false;
     m_link_bandwidth_multiplier := [2]; m_vnet_channels := []; m_link_latency := 1; th_wakeups_wo_switch := 0;
     m_endpoint_bandwidth := 1000; throttleStats := new_ThrottleStats; th_consumer := new_Consumer |}.
Definition ex_clock : ClockEnv := {| curTick := 20; clockPeriod := 10 |}.

Lemma ex_sink_ok : sink_ok (clockEdge ex_clock 0) (cyclesToTicks ex_clock 1) ex_sink.
Proof.
  split; [by split; vm_compute| |by vm_compute|right; by vm_compute].
  apply (no_overcommit_later 0); [|by vm_compute]. apply reachable_no_overcommit, BR_new.
Qed.

Lemma ex_throttle_ok : throttle_ok ex_clock (m_link_latency ex_throttle) ex_throttle ex_lane.
Proof.
  assert (∀ v h o, lane_of ex_throttle v h o → v = 0 ∧ h = 400 ∧ o = 300) as Hlane.
  { intros v h o [[Hv H1]%vec_get_ok [_ H2]%vec_get_ok]. simpl in H1, H2. destruct (Z.to_nat v) as [|n] eqn:E; [|done].
    simplify_eq/=. lia. }
  split.
  - done.
  - intros v us [Hv H]%vec_get_ok. simpl in H. destruct (Z.to_nat v); [|done]. injection H as <-. split; [done|]. by repeat constructor.
  - intros v Hv. simpl in Hv. assert (v = 0) as -> by lia. by vm_compute.
  - by vm_compute.
  - intros v h o (_ & -> & ->)%Hlane. exists ex_waiting, ex_sink. split; [done|done|done|by vm_compute|apply ex_sink_ok].
  - intros v v' h o h' o' Hne (-> & _)%Hlane (-> & _)%Hlane. done.
Qed.

(** The message moves, takes 8000 units of 2000 per cycle, and the throttle is
    scheduled again. *)
Lemma throttle_serves_witness :
  ∃ t' w', th_wakeup false false (fun _ => 0) 8 72 ex_clock 1 ex_throttle ex_lane = Ok (t', w') ∧
           m_units_remaining t' = [[6000]] ∧ clockEdge ex_clock 1 ∈ m_wakeup_ticks (th_consumer t').
Proof.
  destruct (throttle_serves 8 72 ex_clock false (fun _ => 0) ex_throttle ex_lane) as (bw & t' & w' & spent & Hbw & Hw & _ & _ & _ & _ & Hwork);
    [by vm_compute|by vm_compute|by vm_compute|constructor|exact ex_throttle_ok|].
  exists t', w'. split; [exact Hw|]. change (m_link_latency ex_throttle) with 1 in Hw.
  assert (m_units_remaining t' = [[6000]] ∧ th_in t' = [400] ∧ th_out t' = [Some 300] ∧ is_Some (bf_store w' !! 400)) as (Hu & Hi & Ho & [b Hb]).
  { vm_compute in Hw. injection Hw as <- <-. split_and!; [done|done|done|by eexists]. }
  split; [done|]. apply (Hwork 0 0). exists 400, 300, b, [6000], 6000. unfold lane_of. rewrite Hu, Hi, Ho.
  split_and!; [done|done|done|done|done|right; lia].
Defined.

(** The message waited from tick 10 to tick 20; [dequeue] and [enqueue] both add the
    ten ticks to its delay. *)
Example forwarded_delay_counted_twice :
  match th_wakeup false false (fun _ => 0) 8 72 ex_clock 1 ex_throttle ex_lane with
  | Ok (_, w) => map m_DelayedTicks (default [] (m_prio_heap <$> bf_store w !! 300)) = [20]
  | Err _ => False
  end.
Proof. by vm_compute. Qed.
