(* ===== verification/SimpleRun.v ===== *)
(** * Runs of the simple network

    Wakeups of perfect switches and throttles, messages sent and received by the
    controllers, in any order. What a switch counts as pending is what waits in
    its input buffers; messages for a destination are neither lost nor
    duplicated, and only come to a controller over links that lead to all their
    destinations. *)

From stdpp Require Import sorting.
From S2P Require Import Prelude IntMath Clocked Consumer NetDest MessageBuffer Topology Construction SimpleNetwork SimpleRouting SimpleFlow Switching.

Section invariant.
Context (rs : RubySystem).

(** ** The invariant *)

(** The wiring of a switch. *)
Record sw_ok (cs : gmap Z sw_consumer) (vnet : Z → Z) (id : Z) (s : Switch) : Prop := {
  so_groups v h : in_group (perfectSwitch s) v h → cs !! h = Some (SwPerfect id) ∧ vnet h = v;
  so_inputs i t h : vec_get (throttles s) i = Ok t → h ∈ th_in t → cs !! h = Some (SwThrottle id i);
  so_ports i port : vec_get (ps_out (perfectSwitch s)) i = Ok port →
    ∃ t, vec_get (throttles s) i = Ok t ∧ th_in t = so_buffers port;
  so_outputs i t v o : vec_get (throttles s) i = Ok t → vec_get (th_out t) v = Ok (Some o) →
    ∀ id' i', cs !! o ≠ Some (SwThrottle id' i');
  so_wf : links_wf rs (m_links (m_routing_unit s))
}.

(** The messages that wait in the inputs of a vnet of a switch. *)
Definition waits (cs : gmap Z sw_consumer) (id v : Z) : Z → Z → NetDest → Z := fun h vn _ =>
  if bool_decide (cs !! h = Some (SwPerfect id)) && (vn =? v) then 1 else 0.

(** The calls that announce them. *)
Definition announced (cs : gmap Z sw_consumer) (w : Buffers) (id v : Z) (calls : list sw_call) : Z :=
  lsum (fun h => waits cs id v h (vnet_at w h) []) (arrivals calls).

(** A link of the switch that leads to all destinations. *)
Definition leads (s : Switch) (i : Z) (d : NetDest) : Prop :=
  ∃ l, l ∈ m_links (m_routing_unit s) ∧ li_link_id l = i ∧
       ∀ x, 0 ≤ snd x → has d (fst x) (snd x) = true → serves x l = true.

(** The invariant, with [calls] still to be made. *)
Record sn_inv (calls : list sw_call) (n : SimpleNet) : Prop := {
  sv_switch id s : m_switches n !! id = Some s → sw_ok (sn_consumers n) (vnet_at (sn_world n)) id s;
  sv_wf h d : present (sn_world n) h d → netdest_wf rs d;
  sv_pending id s v c : m_switches n !! id = Some s → vec_get (m_pending_message_count (perfectSwitch s)) v = Ok c →
    c + announced (sn_consumers n) (sn_world n) id v calls = held (waits (sn_consumers n) id v) (sn_world n);
  sv_middle h d id i : present (sn_world n) h d → sn_consumers n !! h = Some (SwThrottle id i) →
    ∃ s, m_switches n !! id = Some s ∧ leads s i d;
  sv_delivered h d k : present (sn_world n) h d → sn_consumers n !! h = Some (SwController k) →
    ∃ id s i t v, m_switches n !! id = Some s ∧ vec_get (throttles s) i = Ok t ∧ vec_get (th_out t) v = Ok (Some h) ∧ leads s i d
}.

(** ** Switches whose wiring is the same *)

(** The links of the routing unit up to order; the wiring of the throttles. *)
Record sw_same (s s' : Switch) : Prop := {
  ss_ps : ps_shape (perfectSwitch s') = ps_shape (perfectSwitch s);
  ss_links : same_links (m_routing_unit s) (m_routing_unit s');
  ss_throttles i : th_shape <$> throttles s' !! i = th_shape <$> throttles s !! i
}.

Lemma sw_same_throttle s s' i t' :
  sw_same s s' → vec_get (throttles s') i = Ok t' → ∃ t, vec_get (throttles s) i = Ok t ∧ th_shape t' = th_shape t.
Proof using.
  intros [_ _ H] [Hi Ht]%vec_get_ok. specialize (H (Z.to_nat i)). rewrite Ht in H.
  destruct (throttles s !! Z.to_nat i) as [t|] eqn:E; [|done]. exists t. injection H as H. split; [by apply vec_get_ok|].
  unfold th_shape. congruence.
Qed.

Lemma sw_same_sym s s' : sw_same s s' → sw_same s' s.
Proof using. intros [H1 H2 H3]. split; [done|unfold same_links in *; by symmetry|done]. Qed.

Lemma leads_same s s' i d : sw_same s s' → leads s i d → leads s' i d.
Proof using.
  intros Hs (l & Hl & Hi & Hx). destruct (same_links_elem _ _ l (ss_links _ _ (sw_same_sym _ _ Hs)) Hl) as (l' & Hl' & [= E1 E2 E3 E4]).
  exists l'. split_and!; [done|congruence|]. intros x Hx0 H. unfold serves. rewrite E2. by apply Hx.
Qed.

Lemma sw_ok_same cs vnet id s s' : sw_same s s' → sw_ok cs vnet id s → sw_ok cs vnet id s'.
Proof using.
  intros Hs [G I P O W]. split.
  - intros v h H. apply G. by rewrite <- (in_group_shape _ _ _ _ (ss_ps _ _ Hs)).
  - intros i t' h Ht Hh. destruct (sw_same_throttle _ _ _ _ Hs Ht) as (t & Ht0 & [= E1 _ _ _ _ _ _ _]). apply (I i t h Ht0). by rewrite <- E1.
  - intros i port Hp. destruct (P i port) as (t & Ht & E).
    { pose proof (ss_ps _ _ Hs) as [= _ E _ _ _]. by rewrite <- E. }
    destruct (sw_same_throttle _ _ _ _ (sw_same_sym _ _ Hs) Ht) as (t' & Ht' & [= E1 _ _ _ _ _ _ _]). exists t'. split; [done|congruence].
  - intros i t' v o Ht Ho. destruct (sw_same_throttle _ _ _ _ Hs Ht) as (t & Ht0 & [= _ E2 _ _ _ _ _ _]). apply (O i t v o Ht0). by rewrite <- E2.
  - eapply same_links_wf; [apply (ss_links _ _ Hs)|done].
Qed.

(** The switches of [n'] are those of [n], rewired at most in the order of their
    links. *)
Record sn_frame (n n' : SimpleNet) : Prop := {
  fr_consumers : sn_consumers n' = sn_consumers n;
  fr_old id s : m_switches n !! id = Some s → ∃ s', m_switches n' !! id = Some s' ∧ sw_same s s';
  fr_new id s' : m_switches n' !! id = Some s' → ∃ s, m_switches n !! id = Some s ∧ sw_same s s'
}.

Lemma sw_same_refl s : sw_same s s.
Proof using. split; [done|by unfold same_links|done]. Qed.

Lemma sw_same_trans s1 s2 s3 : sw_same s1 s2 → sw_same s2 s3 → sw_same s1 s3.
Proof using.
  intros [A1 B1 C1] [A2 B2 C2]. split; [congruence| |intros i; congruence]. unfold same_links in *. by rewrite B2.
Qed.

Lemma sn_frame_refl n n' : sn_consumers n' = sn_consumers n → m_switches n' = m_switches n → sn_frame n n'.
Proof using. intros Hc Hs. split; [done|..]; rewrite Hs; intros id s H; exists s; (split; [done|apply sw_same_refl]). Qed.

Lemma sn_frame_trans n1 n2 n3 : sn_frame n1 n2 → sn_frame n2 n3 → sn_frame n1 n3.
Proof using.
  intros [A1 B1 C1] [A2 B2 C2]. split; [congruence|..].
  - intros id s (s' & (s'' & H & ?)%B2 & ?)%B1. exists s''. split; [done|by eapply sw_same_trans].
  - intros id s (s' & (s'' & H & ?)%C1 & ?)%C2. exists s''. split; [done|by eapply sw_same_trans].
Qed.

(** One switch changes. *)
Lemma sn_frame_switch n id s s' n' :
  m_switches n !! id = Some s → sw_same s s' → sn_consumers n' = sn_consumers n → m_switches n' = <[id := s']> (m_switches n) →
  sn_frame n n'.
Proof using.
  intros Hs Hss Hc Hsw. split; [done|..]; rewrite Hsw; intros k u Hu; destruct (decide (k = id)) as [->|Hne].
  - simplify_eq. exists s'. by rewrite lookup_insert_eq.
  - rewrite lookup_insert_ne by done. exists u. split; [done|apply sw_same_refl].
  - rewrite lookup_insert_eq in Hu. simplify_eq. by exists s.
  - rewrite lookup_insert_ne in Hu by done. exists u. split; [done|apply sw_same_refl].
Qed.

(** ** Moves of messages keep the invariant *)

Record moved (n n' : SimpleNet) (out inn : list (Z * NetDest)) : Prop := {
  mv_frame : sn_frame n n';
  mv_effect : effect (sn_world n) (sn_world n') out inn;
  mv_pending id s s' v c' : m_switches n !! id = Some s → m_switches n' !! id = Some s' →
    vec_get (m_pending_message_count (perfectSwitch s')) v = Ok c' →
    vec_get (m_pending_message_count (perfectSwitch s)) v = Ok (c' + lsum (weigh (waits (sn_consumers n) id v) (sn_world n)) out);
  mv_wf h d : (h, d) ∈ inn → netdest_wf rs d;
  mv_middle h d id i : (h, d) ∈ inn → sn_consumers n !! h = Some (SwThrottle id i) →
    ∃ s, m_switches n !! id = Some s ∧ leads s i d;
  mv_delivered h d k : (h, d) ∈ inn → sn_consumers n !! h = Some (SwController k) →
    ∃ id s i t v, m_switches n !! id = Some s ∧ vec_get (throttles s) i = Ok t ∧ vec_get (th_out t) v = Ok (Some h) ∧ leads s i d
}.

Lemma announced_effect cs w w' out inn id v :
  effect w w' out inn → bf_calls w = [] →
  announced cs w' id v (bf_calls w') = lsum (weigh (waits cs id v) w) inn.
Proof using.
  intros [Hv _ (k & Hk & Ha) _ _ _ _] Hc. unfold announced. rewrite Hk, Hc. simpl. rewrite Ha. clear Hk Ha.
  induction inn as [|p inn IH]; [done|]. simpl. rewrite IH, Hv. done.
Qed.

(** Buffers to which a link leads lead there in every network with the same wiring. *)
Lemma delivered_frame n n' h d :
  sn_frame n n' →
  (∃ id s i t v, m_switches n !! id = Some s ∧ vec_get (throttles s) i = Ok t ∧ vec_get (th_out t) v = Ok (Some h) ∧ leads s i d) →
  ∃ id s i t v, m_switches n' !! id = Some s ∧ vec_get (throttles s) i = Ok t ∧ vec_get (th_out t) v = Ok (Some h) ∧ leads s i d.
Proof using.
  intros Hf (id & s & i & t & v & Hs & Ht & Ho & Hl). destruct (fr_old _ _ Hf id s Hs) as (s' & Hs' & Hss).
  destruct (sw_same_throttle _ _ _ _ (sw_same_sym _ _ Hss) Ht) as (t' & Ht' & E). injection E as _ E2 _ _ _ _ _ _.
  exists id, s', i, t', v. rewrite <- E2. split_and!; [done..|]. by eapply leads_same.
Qed.

Lemma moved_inv n n' out inn :
  sn_inv [] n → bf_calls (sn_world n) = [] → moved n n' out inn → sn_inv (bf_calls (sn_world n')) n'.
Proof using.
  intros [S W P M D] Hc [Hf E Hp HW HM HD]. pose proof (fr_consumers _ _ Hf) as Hcs. split; try rewrite Hcs.
  - intros id s' Hs'. destruct (fr_new _ _ Hf id s' Hs') as (s & Hs & Hss). eapply sw_ok_same; [exact Hss|].
    destruct (S id s Hs) as [G I Q O L]. split; [|done..]. intros v h Hg. rewrite (ef_vnets _ _ _ _ E). by apply G.
  - intros h d [?|?]%(ef_present _ _ _ _ E); [by eapply W|by eapply HW].
  - intros id s' v c' Hs' Hv. destruct (fr_new _ _ Hf id s' Hs') as (s & Hs & _).
    pose proof (P id s v _ Hs (Hp id s s' v c' Hs Hs' Hv)) as HP. rewrite (announced_effect _ _ _ _ _ id v E Hc).
    rewrite (ef_held _ _ _ _ E). unfold announced in HP. simpl in HP. lia.
  - intros h d id i Hpr Hk. assert (∃ s, m_switches n !! id = Some s ∧ leads s i d) as (s & Hs & Hl).
    { apply (ef_present _ _ _ _ E) in Hpr as [?|?]; [by eapply M|by eapply HM]. }
    destruct (fr_old _ _ Hf id s Hs) as (s' & Hs' & Hss). exists s'. split; [done|by eapply leads_same].
  - intros h d k Hpr Hk. apply (delivered_frame _ _ _ _ Hf).
    apply (ef_present _ _ _ _ E) in Hpr as [?|?]; [by eapply D|by eapply HD].
Qed.

(** ** The calls on consumers *)

(** The invariant only depends on the wiring, the messages and the counts. *)
Lemma inv_frame calls calls' n n' :
  sn_inv calls n → sn_frame n n' → bf_store (sn_world n') = bf_store (sn_world n) →
  (∀ id s s' v c', m_switches n !! id = Some s → m_switches n' !! id = Some s' →
     vec_get (m_pending_message_count (perfectSwitch s')) v = Ok c' →
     ∃ c, vec_get (m_pending_message_count (perfectSwitch s)) v = Ok c ∧
          c' + announced (sn_consumers n) (sn_world n) id v calls' = c + announced (sn_consumers n) (sn_world n) id v calls) →
  sn_inv calls' n'.
Proof using.
  intros [S W P M D] Hf Hw Hp. pose proof (fr_consumers _ _ Hf) as Hcs.
  assert (∀ h d, present (sn_world n') h d ↔ present (sn_world n) h d) as Hpr by (intros; unfold present; by rewrite Hw).
  assert (∀ h, vnet_at (sn_world n') h = vnet_at (sn_world n) h) as Hv by (intros; unfold vnet_at; by rewrite Hw).
  split; try rewrite Hcs.
  - intros id s' Hs'. destruct (fr_new _ _ Hf id s' Hs') as (s & Hs & Hss). eapply sw_ok_same; [exact Hss|].
    destruct (S id s Hs) as [G I Q O L]. split; [|done..]. intros v h Hg. rewrite Hv. by apply G.
  - intros h d. rewrite Hpr. apply W.
  - intros id s' v c' Hs' Hc. destruct (fr_new _ _ Hf id s' Hs') as (s & Hs & _).
    destruct (Hp id s s' v c' Hs Hs' Hc) as (c & Hc0 & E).
    assert (announced (sn_consumers n) (sn_world n') id v calls' = announced (sn_consumers n) (sn_world n) id v calls') as ->.
    { apply lsum_ext. intros h _. by rewrite Hv. }
    unfold held. rewrite E, Hw. by apply (P id s v c).
  - intros h d id i. rewrite Hpr. intros H1 H2. destruct (M h d id i H1 H2) as (s & Hs & Hl).
    destruct (fr_old _ _ Hf id s Hs) as (s' & Hs' & Hss). exists s'. split; [done|by eapply leads_same].
  - intros h d k. rewrite Hpr. intros H1 H2. apply (delivered_frame _ _ _ _ Hf). by eapply D.
Qed.

(** A call that announces a message. *)
Lemma announced_cons cs w id v c calls :
  announced cs w id v (c :: calls) =
  (match c with SwArrival h _ => waits cs id v h (vnet_at w h) [] | _ => 0 end) + announced cs w id v calls.
Proof using. by destruct c. Qed.

Lemma storeEventInfo_ok info p p' :
  storeEventInfo info p = Ok p' →
  ps_shape p' = ps_shape p ∧
  ∀ v c', vec_get (m_pending_message_count p') v = Ok c' →
    ∃ c, vec_get (m_pending_message_count p) v = Ok c ∧ c' = c + (if info =? v then 1 else 0).
Proof using.
  unfold storeEventInfo. intros (l & Hl & H)%rbind_ok. simplify_eq. split; [done|]. intros v c' Hc. simpl in Hc.
  apply vec_upd_ok in Hl as (x & y & Hx & [= <-] & ->). pose proof (vec_get_range _ _ _ Hx) as Hr. zcase; subst.
  - exists x. split; [done|]. apply vec_get_ok in Hc as [_ Hc]. rewrite list_lookup_insert_eq in Hc by lia. by simplify_eq.
  - exists c'. split; [|lia]. apply vec_get_ok in Hc as [Hv Hc]. rewrite list_lookup_insert_ne in Hc by (apply vec_get_ok in Hx; lia).
    by apply vec_get_ok.
Qed.

(** One switch gets a new count or new throttle states. *)
Lemma inv_switch calls calls' n id s s' :
  sn_inv calls n → m_switches n !! id = Some s → sw_same s s' →
  (∀ v c', vec_get (m_pending_message_count (perfectSwitch s')) v = Ok c' →
     ∃ c, vec_get (m_pending_message_count (perfectSwitch s)) v = Ok c ∧
          c' + announced (sn_consumers n) (sn_world n) id v calls' = c + announced (sn_consumers n) (sn_world n) id v calls) →
  (∀ id' v, id' ≠ id → announced (sn_consumers n) (sn_world n) id' v calls' = announced (sn_consumers n) (sn_world n) id' v calls) →
  sn_inv calls' (sn_set_switch n id s') ∧ sn_frame n (sn_set_switch n id s').
Proof using.
  intros Hi Hs Hss Hp Ha. assert (sn_frame n (sn_set_switch n id s')) as Hf by by eapply sn_frame_switch.
  split; [|done]. eapply (inv_frame calls); [done..|]. intros k u u' v c' Hu Hu' Hc'. simpl in Hu'.
  destruct (decide (k = id)) as [->|Hne].
  - rewrite lookup_insert_eq in Hu'. simplify_eq. by apply Hp.
  - rewrite lookup_insert_ne in Hu' by done. simplify_eq. exists c'. by rewrite Ha.
Qed.

Lemma get_switch_ok id n s : get_switch id n = Ok s → m_switches n !! id = Some s.
Proof using. unfold get_switch. destruct (m_switches n !! id); by intros [= ->]. Qed.

(** The buffer that makes a call. *)
Definition caller (c : sw_call) : Z := match c with SwArrival h _ | SwRetry h | SwCallback h => h end.

(** A call only announces a message to the switch that consumes the buffer. *)
Lemma announced_other cs w c calls id v :
  cs !! caller c ≠ Some (SwPerfect id) → announced cs w id v (c :: calls) = announced cs w id v calls.
Proof using.
  intros Hne. rewrite announced_cons. destruct c as [h t|h|h]; [|lia..]. unfold waits. simpl in Hne.
  rewrite bool_decide_false by done. simpl. lia.
Qed.

Lemma vec_upd_shape {A B} (g : A → B) l i f l' :
  (∀ x y, f x = Ok y → g y = g x) → vec_upd l i f = Ok l' → ∀ k, g <$> l' !! k = g <$> l !! k.
Proof using.
  intros Hg (x & y & [_ Hx]%vec_get_ok & Hy & ->)%vec_upd_ok k. destruct (decide (k = Z.to_nat i)) as [->|Hne].
  - rewrite list_lookup_insert_eq by (by eapply lookup_lt_Some). rewrite Hx. simpl. f_equal. by apply Hg.
  - by rewrite list_lookup_insert_ne.
Qed.

Lemma call_inv env c calls n n' :
  sn_inv (c :: calls) n → sn_call env c n = Ok n' → sn_inv calls n' ∧ sn_frame n n' ∧ sn_world n' = sn_world n.
Proof using.
  intros Hi H. unfold sn_call in H. fold (caller c) in H. set (cs := sn_consumers n) in *.
  destruct (cs !! caller c) as [[id|id port|k]|] eqn:Hcs.
  - apply rbind_ok in H as (s & Hs%get_switch_ok & H). apply rbind_ok in H as (k & _ & H). apply rbind_ok in H as (p & Hp & H).
    injection H as <-. apply Logic.and_assoc. split; [|done]. eapply (inv_switch (c :: calls) calls n id s); [done|done|..].
    + split; [|by unfold same_links|done]. destruct c; [|by simplify_eq..].
      apply rbind_ok in Hp as (b & _ & Hp). by apply storeEventInfo_ok in Hp as [Hp _].
    + intros v c' Hc'. simpl in Hc'. rewrite announced_cons. fold cs. destruct c as [h t|h|h]; simpl in Hcs.
      * apply rbind_ok in Hp as (b & Hb%bf_get_ok & Hp). apply storeEventInfo_ok in Hp as [_ Hp].
        destruct (Hp v c' Hc') as (c0 & Hc0 & ->). exists c0. split; [done|]. unfold waits, vnet_at. simpl in Hb.
        rewrite Hb, Hcs, bool_decide_true by done. simpl. destruct (m_vnet_id b =? v); lia.
      * simplify_eq. exists c'. split; [done|lia].
      * simplify_eq. exists c'. split; [done|lia].
    + intros id' v Hne. symmetry. apply announced_other. fold cs. rewrite Hcs. congruence.
  - apply rbind_ok in H as (s & Hs%get_switch_ok & H). apply rbind_ok in H as (ts & Hts & H). injection H as <-.
    apply Logic.and_assoc. split; [|done]. eapply (inv_switch (c :: calls) calls n id s); [done|done|..].
    + split; [done|by unfold same_links|]. eapply vec_upd_shape; [|exact Hts].
      intros t t' Ht. apply rbind_ok in Ht as (k & _ & Ht). by injection Ht as <-.
    + intros v c' Hc'. exists c'. split; [done|]. rewrite announced_other; [done|]. fold cs. by rewrite Hcs.
    + intros id' v _. symmetry. apply announced_other. fold cs. by rewrite Hcs.
  - injection H as <-. split_and!; [|by apply sn_frame_refl|done]. eapply (inv_frame (c :: calls)); [done|by apply sn_frame_refl|done|].
    intros id s s' v c' Hs Hs' Hc'. simplify_eq. exists c'. split; [done|]. rewrite announced_other; [done|]. fold cs. by rewrite Hcs.
  - destruct c as [| |h']; [done..|]. injection H as <-. split_and!; [|by apply sn_frame_refl|done].
    eapply (inv_frame (SwCallback h' :: calls)); [done|by apply sn_frame_refl|done|].
    intros id s s' v c' Hs Hs' Hc'. simplify_eq. by exists c'.
Qed.

Lemma calls_inv env calls n n' :
  sn_inv calls n → fold_res (sn_call env) calls n = Ok n' → sn_inv [] n' ∧ sn_frame n n' ∧ sn_world n' = sn_world n.
Proof using.
  revert n. induction calls as [|c calls IH]; intros n Hi H; cbn [fold_res] in H.
  { simplify_eq. split_and!; [done|by apply sn_frame_refl|done]. }
  apply rbind_ok in H as (n1 & H1 & H). destruct (call_inv env c calls n n1 Hi H1) as (Hi1 & Hf1 & Hw1).
  destruct (IH n1 Hi1 H) as (Hi2 & Hf2 & Hw2). split_and!; [done|by eapply sn_frame_trans|congruence].
Qed.

(** A move followed by the calls it caused. *)
Definition sn_idle (n : SimpleNet) : Prop := sn_inv [] n ∧ bf_calls (sn_world n) = [].

Lemma settle_inv env n n1 n' out inn :
  sn_idle n → moved n n1 out inn → sn_settle env n1 = Ok n' →
  sn_idle n' ∧ sn_frame n n' ∧ ∀ F, held F (sn_world n') = held F (sn_world n) - lsum (weigh F (sn_world n)) out + lsum (weigh F (sn_world n)) inn.
Proof using.
  intros [Hi Hc] Hm H. pose proof (moved_inv _ _ _ _ Hi Hc Hm) as H1. unfold sn_settle in H.
  assert (sn_inv (bf_calls (sn_world n1)) (sn_set_world n1 (no_calls (sn_world n1)))) as H2.
  { eapply inv_frame; [exact H1|by apply sn_frame_refl|done|]. intros id s s' v c' Hs Hs' Hc'. simpl in Hs'. simplify_eq. by exists c'. }
  destruct (calls_inv env _ _ _ H2 H) as (H3 & Hf & Hw). split_and!.
  - split; [done|by rewrite Hw].
  - eapply sn_frame_trans; [apply (mv_frame _ _ _ _ Hm)|]. eapply sn_frame_trans; [|exact Hf]. by apply sn_frame_refl.
  - intros F. rewrite Hw, <- (ef_held _ _ _ _ (mv_effect _ _ _ _ Hm)). done.
Qed.

(** ** The moves of the network *)

Lemma weigh_zero F w l : Forall (fun p => weigh F w p = 0) l → lsum (weigh F w) l = 0.
Proof using. apply lsum_zero. Qed.

(** Buffers that another consumer reads are not among the inputs of a switch. *)
Lemma waits_other cs id v h vn d : cs !! h ≠ Some (SwPerfect id) → waits cs id v h vn d = 0.
Proof using. intros H. unfold waits. by rewrite bool_decide_false. Qed.

(** If nothing waits, every input buffer is empty. *)
Lemma waits_zero cs w id v h b :
  held (waits cs id v) w ≤ 0 → cs !! h = Some (SwPerfect id) → bf_store w !! h = Some b → m_vnet_id b = v → m_prio_heap b = [].
Proof using.
  intros Hz Hk Hb <-. assert (∀ p, 0 ≤ buffer_held (waits cs id (m_vnet_id b)) p) as Hpos.
  { intros p. apply lsum_nonneg. intros m. unfold waits. by destruct (_ && _). }
  pose proof (lsum_zero_each _ _ Hpos Hz) as Hall. rewrite Forall_forall in Hall.
  specialize (Hall (h, b) (proj2 (elem_of_map_to_list _ _ _) Hb)). unfold buffer_held, waits in Hall. simpl in Hall.
  rewrite bool_decide_true, Z.eqb_refl in Hall by done. simpl in Hall. destruct (m_prio_heap b) as [|m l]; [done|].
  simpl in Hall. pose proof (lsum_nonneg (fun _ : Message => 1) l ltac:(done)). lia.
Qed.

Lemma perfect_moved n id s p wb w out inn :
  sn_inv [] n → m_switches n !! id = Some s →
  switched_with rs (perfectSwitch s, m_routing_unit s, sn_world n) (p, wb, w) out inn →
  moved n (sn_set_world (sn_set_switch n id (sw_parts s p wb (throttles s) (m_num_connected_buffers s))) w) out inn.
Proof using.
  intros [S W P M D] Hs [E Hsh Hl Hp Hfrom _ Hr]. simpl in *. destruct (S id s Hs) as [G I Q O L].
  assert (∀ h d, (h, d) ∈ out → sn_consumers n !! h = Some (SwPerfect id)) as Hout.
  { intros h d Hin. rewrite Forall_forall in Hfrom. destruct (Hfrom _ Hin) as [v Hv]. by apply (G v). }
  assert (∀ h d, (h, d) ∈ inn → ∃ i, sn_consumers n !! h = Some (SwThrottle id i) ∧ leads s i d) as Hin.
  { intros h d Hin. rewrite Forall_forall in Hr. destruct (Hr _ Hin) as (_ & l & port & Hl1 & Hport & Hh & Hx).
    destruct (Q _ _ Hport) as (t & Ht & Eq). exists (li_link_id l). split; [|by exists l].
    apply (I _ t); [done|]. by rewrite Eq. }
  split.
  - eapply (sn_frame_switch n id s); [done| |done|done]. by split.
  - done.
  - intros k u u' v c' Hu Hu' Hc'. simpl in Hu'. destruct (decide (k = id)) as [->|Hne].
    + rewrite lookup_insert_eq in Hu'. simplify_eq. simpl in Hc'. apply vec_get_ok in Hc' as [Hv Hc'].
      rewrite Hp in Hc'. apply fmap_Some in Hc' as (c & Hc & ->). apply vec_get_ok. split; [done|]. rewrite Hc. f_equal.
      rewrite Z2Nat.id by done. rewrite (lsum_ext (weigh _ _) (from_vnet (sn_world n) v)); [lia|].
      intros [h d] Hin0. unfold weigh, from_vnet, waits. simpl. by rewrite bool_decide_true by by eapply Hout.
    + rewrite lookup_insert_ne in Hu' by done. simplify_eq. rewrite Hc'. f_equal.
      rewrite weigh_zero; [lia|]. apply Forall_forall. intros [h d] Hin0. apply waits_other. simpl. rewrite (Hout _ _ Hin0). congruence.
  - intros h d Hin0. rewrite Forall_forall in Hr. by apply (Hr _ Hin0).
  - intros h d id' i Hin0 Hk. destruct (Hin h d Hin0) as (j & Hj & Hld). rewrite Hj in Hk. simplify_eq. by exists s.
  - intros h d k Hin0 Hk. destruct (Hin h d Hin0) as (j & Hj & _). congruence.
Qed.

Lemma throttle_moved n id port s t t' ts w :
  sn_inv [] n → m_switches n !! id = Some s → vec_get (throttles s) port = Ok t → throttled t t' (sn_world n) w →
  vec_set (throttles s) port t' = Ok ts →
  ∃ ls, moved n (sn_set_world (sn_set_switch n id (sw_parts s (perfectSwitch s) (m_routing_unit s) ts (m_num_connected_buffers s))) w)
          (map taken_of ls) (map given_of ls).
Proof using.
  intros [S W P M D] Hs Ht (Hsh & ls & E & Hls) Hts. exists ls. destruct (S id s Hs) as [G I Q O L].
  rewrite Forall_forall in Hls.
  assert (∀ l, l ∈ ls → sn_consumers n !! ln_from l = Some (SwThrottle id port)) as Hfrom.
  { intros l Hl. destruct (Hls l Hl) as (v & [_ Hv]%vec_get_ok & _). eapply (I port t); [done|]. by eapply list_elem_of_lookup_2. }
  assert (∀ l id' i', l ∈ ls → sn_consumers n !! ln_to l ≠ Some (SwThrottle id' i')) as Hto.
  { intros l id' i' Hl. destruct (Hls l Hl) as (v & _ & Hv). by eapply (O port t v). }
  assert (∀ l, l ∈ ls → present (sn_world n) (ln_from l) (ln_dest l)) as Hpr.
  { intros l Hl. destruct (ef_taken _ _ _ _ E (ln_from l) (ln_dest l)) as [?|Hin]; [|done|].
    - by apply (list_elem_of_fmap_2 taken_of ls l).
    - apply list_elem_of_fmap in Hin as (l' & [= E1 _] & Hl'). destruct (Hto l' id port Hl'). rewrite <- E1. by apply Hfrom. }
  split.
  - eapply (sn_frame_switch n id s); [done| |done|done]. split; [done|by unfold same_links|]. intros i. simpl.
    apply vec_set_ok in Hts as [Hr ->]. apply vec_get_ok in Ht as [_ Ht]. destruct (decide (i = Z.to_nat port)) as [->|Hne].
    + rewrite list_lookup_insert_eq by lia. rewrite Ht. simpl. by rewrite Hsh.
    + by rewrite list_lookup_insert_ne.
  - done.
  - intros k u u' v c' Hu Hu' Hc'. assert (vec_get (m_pending_message_count (perfectSwitch u)) v = Ok c') as ->.
    { simpl in Hu'. destruct (decide (k = id)) as [->|Hne].
      - rewrite lookup_insert_eq in Hu'. by simplify_eq.
      - rewrite lookup_insert_ne in Hu' by done. by simplify_eq. }
    f_equal. rewrite weigh_zero; [lia|]. apply Forall_forall. intros p (l & -> & Hl)%list_elem_of_fmap.
    apply waits_other. simpl. by rewrite Hfrom.
  - intros h d (l & [= -> ->] & Hl)%list_elem_of_fmap. eapply W. by apply Hpr.
  - intros h d id' i (l & [= -> ->] & Hl)%list_elem_of_fmap Hk. by destruct (Hto l id' i Hl).
  - intros h d k (l & [= -> ->] & Hl)%list_elem_of_fmap _. destruct (Hls l Hl) as (v & _ & Hv).
    destruct (M _ _ id port (Hpr l Hl) (Hfrom l Hl)) as (s0 & Hs0 & Hld). rewrite Hs in Hs0. injection Hs0 as <-. by exists id, s, port, t, v.
Qed.

(** The clock, the generators and the settings are free in every step. *)
Inductive sn_step (n n' : SimpleNet) : list NetDest → list (Z * NetDest) → Prop :=
  | SS_perfect rnd warm rt env rng id :
      sn_wake_perfect rs rnd warm rt env rng id n = Ok n' → sn_step n n' [] []
  | SS_throttle rnd warm rt env ctrl data id port :
      sn_wake_throttle rnd warm rt env ctrl data id port n = Ok n' → sn_step n n' [] []
  | SS_send rnd warm rt env delta h m id :
      sn_consumers n !! h = Some (SwPerfect id) → netdest_wf rs (msg_destination m) →
      sn_send rnd warm rt env delta h m n = Ok n' → sn_step n n' [msg_destination m] []
  | SS_receive env k h m : sn_receive env k h n = Ok (m, n') → sn_step n n' [] [(h, msg_destination m)].

Inductive sn_run : SimpleNet → SimpleNet → list NetDest → list (Z * NetDest) → Prop :=
  | SR_nil n : sn_run n n [] []
  | SR_step n1 n2 n3 s1 s2 r1 r2 : sn_step n1 n2 s1 r1 → sn_run n2 n3 s2 r2 → sn_run n1 n3 (s1 ++ s2) (r1 ++ r2).

(** The copies for a machine that are in the buffers. *)
Definition outstanding (x : Z * Z) (n : SimpleNet) : Z := held (fun h _ d => bound_for x (h, d)) (sn_world n).
Definition addressed (x : Z * Z) (d : NetDest) : Z := if has d (fst x) (snd x) then 1 else 0.

(** A buffer behind a link that leads to all the destinations. *)
Definition behind (n : SimpleNet) (p : Z * NetDest) : Prop :=
  ∃ id s i t v, m_switches n !! id = Some s ∧ vec_get (throttles s) i = Ok t ∧ vec_get (th_out t) v = Ok (Some (fst p)) ∧
                leads s i (snd p).

Lemma weigh_bound x w l : lsum (weigh (fun h _ d => bound_for x (h, d)) w) l = lsum (bound_for x) l.
Proof using. apply lsum_ext. by intros []. Qed.

Lemma bound_lanes x ls : lsum (bound_for x) (map taken_of ls) = lsum (bound_for x) (map given_of ls).
Proof using. induction ls as [|l ls IH]; [done|]. simpl. by rewrite IH. Qed.

(** What a step does: the invariant stays, received messages came over links that
    lead to their destinations, and the copies for every machine are accounted for. *)
Definition accounted (n n' : SimpleNet) (sent : list NetDest) (recv : list (Z * NetDest)) : Prop :=
  sn_idle n' ∧ sn_frame n n' ∧ Forall (behind n) recv ∧
  ∀ x, 0 ≤ snd x → outstanding x n' + lsum (bound_for x) recv = outstanding x n + lsum (addressed x) sent.

Lemma perfect_step (Hrs : ruby_system_ok rs) rnd warm rt env rng id n n' :
  sn_idle n → sn_wake_perfect rs rnd warm rt env rng id n = Ok n' → accounted n n' [] [].
Proof using.
  intros Hn H. destruct (Hn) as [Hi Hc]. unfold sn_wake_perfect in H. apply rbind_ok in H as (s & Hs%get_switch_ok & H).
  apply rbind_ok in H as ([[p wb] w] & Hw & H).
  assert (sw_inv rs (perfectSwitch s, m_routing_unit s, sn_world n)) as Hsi.
  { destruct (sv_switch _ _ Hi id s Hs) as [G _ _ _ L]. split; [done|apply (sv_wf _ _ Hi)|]. intros v h Hg. by apply G. }
  destruct (ps_wakeup_switched rs Hrs _ _ _ _ _ _ _ _ Hsi Hw) as (out & inn & Hx).
  pose proof (perfect_moved n id s p wb w out inn Hi Hs Hx) as Hm.
  destruct (settle_inv _ _ _ _ _ _ Hn Hm H) as (Hn' & Hf & Hh). split_and!; [done|done|constructor|].
  intros x Hx0. pose proof (sx_balance _ _ _ _ _ Hx x Hx0) as Hb. unfold outstanding. rewrite Hh, !weigh_bound. simpl. lia.
Qed.

Lemma throttle_step rnd warm rt env ctrl data id port n n' :
  sn_idle n → sn_wake_throttle rnd warm rt env ctrl data id port n = Ok n' → accounted n n' [] [].
Proof using.
  intros Hn H. destruct (Hn) as [Hi Hc].
  unfold sn_wake_throttle in H. apply rbind_ok in H as (s & Hs%get_switch_ok & H). apply rbind_ok in H as (t & Ht & H).
  apply rbind_ok in H as ([t' w] & Hw%th_wakeup_throttled & H). apply rbind_ok in H as (ts & Hts & H).
  destruct (throttle_moved n id port s t t' ts w Hi Hs Ht Hw Hts) as (ls & Hm).
  destruct (settle_inv _ _ _ _ _ _ Hn Hm H) as (Hn' & Hf & Hh). split_and!; [done|done|constructor|].
  intros x Hx0. unfold outstanding. rewrite Hh, !weigh_bound, bound_lanes. simpl. lia.
Qed.

Lemma send_step rnd warm rt env delta h m id n n' :
  sn_idle n → sn_consumers n !! h = Some (SwPerfect id) → netdest_wf rs (msg_destination m) →
  sn_send rnd warm rt env delta h m n = Ok n' → accounted n n' [msg_destination m] [].
Proof using.
  intros Hn Hh Hm H. unfold sn_send in H. apply rbind_ok in H as (w & Hw%enqueue_effect & H).
  assert (moved n (sn_set_world n w) [] [(h, msg_destination m)]) as Hmv.
  { split; [by apply sn_frame_refl|done|..].
    - intros k s s' v c' Hs Hs' Hc'. simpl in Hs'. simplify_eq. rewrite Hc'. f_equal. simpl. lia.
    - by intros h' d [= -> ->]%list_elem_of_singleton.
    - intros h' d id' i [= -> ->]%list_elem_of_singleton Hk. congruence.
    - intros h' d k [= -> ->]%list_elem_of_singleton Hk. congruence. }
  destruct (settle_inv _ _ _ _ _ _ Hn Hmv H) as (Hn' & Hf & Hheld). split_and!; [done|done|constructor|].
  intros x Hx0. unfold outstanding. rewrite Hheld. unfold weigh, bound_for, addressed. simpl. lia.
Qed.

Lemma receive_step env k h m n n' :
  sn_idle n → sn_receive env k h n = Ok (m, n') → accounted n n' [] [(h, msg_destination m)].
Proof using.
  intros Hn H. destruct (Hn) as [Hi Hc].
  unfold sn_receive in H. apply rbind_ok in H as (u & Hk%assert_ok & H). apply bool_decide_eq_true in Hk.
  apply rbind_ok in H as ([m' w] & Hw%dequeue_effect & H). apply rbind_ok in H as (n1 & Hset & H). injection H as <- <-.
  assert (present (sn_world n) h (msg_destination m')) as Hpr.
  { destruct (ef_taken _ _ _ _ Hw h (msg_destination m')) as [?|?%elem_of_nil]; [by apply list_elem_of_singleton|done|done]. }
  assert (moved n (sn_set_world n w) [(h, msg_destination m')] []) as Hmv.
  { split; [by apply sn_frame_refl|done| |by intros ?? ?%elem_of_nil|by intros ???? ?%elem_of_nil|by intros ??? ?%elem_of_nil].
    intros id s s' v c' Hs Hs' Hc'. simpl in Hs'. simplify_eq. rewrite Hc'. f_equal. simpl.
    unfold weigh. rewrite waits_other; [lia|]. simpl. congruence. }
  destruct (settle_inv _ _ _ _ _ _ Hn Hmv Hset) as (Hn' & Hf & Hheld). split_and!; [done|done| |].
  - constructor; [|constructor]. by apply (sv_delivered _ _ Hi _ _ k).
  - intros x Hx0. unfold outstanding. rewrite Hheld. unfold weigh, bound_for. simpl. lia.
Qed.

Lemma step_ok (Hrs : ruby_system_ok rs) n n' sent recv : sn_idle n → sn_step n n' sent recv → accounted n n' sent recv.
Proof using.
  intros Hn []; [by eapply perfect_step|by eapply throttle_step|by eapply send_step|by eapply receive_step].
Qed.

Lemma behind_frame n n' p : sn_frame n n' → behind n' p → behind n p.
Proof using.
  intros Hf (id & s' & i & t' & v & Hs' & Ht' & Hv & Hl). destruct (fr_new _ _ Hf id s' Hs') as (s & Hs & Hss).
  destruct (sw_same_throttle _ _ _ _ Hss Ht') as (t & Ht & E). injection E as _ E2 _ _ _ _ _ _.
  exists id, s, i, t, v. rewrite <- E2. split_and!; [done..|]. eapply leads_same; [|exact Hl]. by apply sw_same_sym.
Qed.

Lemma run_ok (Hrs : ruby_system_ok rs) n n' sent recv :
  sn_idle n → sn_run n n' sent recv → accounted n n' sent recv.
Proof using.
  intros Hn H. induction H as [n|n1 n2 n3 s1 s2 r1 r2 H1 H2 IH].
  { split_and!; [done|by apply sn_frame_refl|constructor|done]. }
  destruct (step_ok Hrs _ _ _ _ Hn H1) as (Hn2 & Hf2 & Hb2 & Hx2). destruct (IH Hn2) as (Hn3 & Hf3 & Hb3 & Hx3).
  split_and!; [done|by eapply sn_frame_trans| |].
  - apply Forall_app. split; [done|]. eapply Forall_impl; [exact Hb3|]. intros p. by apply behind_frame.
  - intros x Hx. rewrite !lsum_app. specialize (Hx2 x Hx). specialize (Hx3 x Hx). lia.
Qed.

End invariant.
