(* ===== verification/SimpleBuild.v ===== *)
(** * Construction of the simple network

    The links the topology asks for connect switches so that the invariant of
    the runs holds: every input buffer of a switch has the switch as consumer and
    the vnet it is read for, every port has its throttle. *)

From stdpp Require Import sorting.
From S2P Require Import Prelude IntMath Clocked Consumer NetDest MessageBuffer Topology Construction SimpleNetwork SimpleRouting SimpleFlow Switching SimpleRun.

(** ** Priority groups *)

Definition in_prio (s : PerfectSwitch) (v h : Z) : Prop := ∃ bufs, vec_get (m_in_prio s) v = Ok bufs ∧ h ∈ bufs.

Section groups.
Context (prio : Z → Z).

Lemma group_step_concat cur gs b : concat (group_step prio cur gs b) = concat gs ++ [b].
Proof using.
  unfold group_step. set (gs' := if negb _ then _ else _).
  assert (concat gs' = concat gs) as <-.
  { subst gs'. destruct (negb _); [|done]. by rewrite concat_app, app_nil_r. }
  destruct (reverse gs') as [|g l] eqn:E.
  - apply (f_equal reverse) in E. rewrite reverse_involutive in E. by rewrite E.
  - apply (f_equal reverse) in E. rewrite reverse_involutive, reverse_cons in E. rewrite E, !concat_app. simpl.
    by rewrite !app_nil_r, app_assoc.
Qed.

(** The groups are the buffers in order of priority. *)
Lemma prio_groups_concat bufs : concat (prio_groups prio bufs) = bufs.
Proof using.
  destruct bufs as [|b bufs]; [done|]. unfold prio_groups. generalize (prio b) (b :: bufs). clear b bufs. intros cur l.
  assert (∀ gs, concat (foldl (group_step prio cur) gs l) = concat gs ++ l) as H.
  { induction l as [|x l IH]; intros gs; simpl; [by rewrite app_nil_r|]. by rewrite IH, group_step_concat, <- app_assoc. }
  by rewrite H.
Qed.

(** The current priority is never updated: buffers 2 and 3 have the same priority
    and get a group each, so the older of their messages is not looked for. *)
Example equal_priorities_split : prio_groups (fun h => if h =? 1 then 0 else 1) [1; 2; 3] = [[1]; [2]; [3]].
Proof using. reflexivity. Qed.

Lemma resize_to_get {A} (x : A) n l v y : vec_get (resize_to x n l) v = Ok y → vec_get l v = Ok y ∨ y = x.
Proof using.
  intros [Hv H]%vec_get_ok. unfold resize_to in H. apply lookup_app_Some in H as [?|[_ H]].
  - left. by apply vec_get_ok.
  - right. by apply lookup_replicate in H as [-> _].
Qed.

Lemma resize_to_length {A} (x : A) n l : (n ≤ length (resize_to x n l))%nat.
Proof using. unfold resize_to. rewrite length_app, length_replicate. lia. Qed.

Definition groups_in_prio (s : PerfectSwitch) : Prop := ∀ v h, in_group s v h → in_prio s v h.

Lemma insert_get {A} (l : list A) i x v y :
  (i < length l)%nat → vec_get (<[i := x]> l) v = Ok y → (v = Z.of_nat i ∧ y = x) ∨ (v ≠ Z.of_nat i ∧ vec_get l v = Ok y).
Proof using.
  intros Hi [Hv H]%vec_get_ok. destruct (decide (Z.to_nat v = i)) as [<-|Hne].
  - left. rewrite list_lookup_insert_eq in H by done. injection H as <-. split; [lia|done].
  - right. rewrite list_lookup_insert_ne in H by done. split; [lia|by apply vec_get_ok].
Qed.

Lemma insert_get_eq {A} (l : list A) i x : (i < length l)%nat → vec_get (<[i := x]> l) (Z.of_nat i) = Ok x.
Proof using. intros Hi. apply vec_get_ok. split; [lia|]. rewrite Nat2Z.id. by apply list_lookup_insert_eq. Qed.

(** [updatePriorityGroups] adds one buffer, and regroups its vnet. *)
Lemma update_groups i buf s :
  groups_in_prio s →
  groups_in_prio (updatePriorityGroups prio i buf s) ∧
  ∀ v h, in_prio (updatePriorityGroups prio i buf s) v h → in_prio s v h ∨ (v = Z.of_nat i ∧ h = buf).
Proof using.
  intros Hg. set (P := resize_to [] (S i) (m_in_prio s)). set (G := resize_to [] (S i) (m_in_prio_groups s)).
  set (sorted := merge_sort (prio_le prio) (default [] (P !! i) ++ [buf])).
  change (updatePriorityGroups prio i buf s) with (ps_ports s (ps_in s) (ps_out s) (<[i := sorted]> P) (<[i := prio_groups prio sorted]> G)).
  assert (i < length P)%nat as HP by apply (resize_to_length [] (S i) (m_in_prio s)).
  assert (i < length G)%nat as HG by apply (resize_to_length [] (S i) (m_in_prio_groups s)).
  assert (∀ v h, v ≠ Z.of_nat i → in_prio s v h → ∃ bufs, vec_get (<[i := sorted]> P) v = Ok bufs ∧ h ∈ bufs) as Hold.
  { intros v h Hv (bufs & [Hv0 Hb]%vec_get_ok & Hh). exists bufs. split; [|done]. apply vec_get_ok. split; [done|].
    rewrite list_lookup_insert_ne by lia. by apply lookup_app_l_Some. }
  split.
  - intros v h (gs & g & Hgs & Hgin & Hh). simpl in Hgs. apply insert_get in Hgs as [[-> ->]|[Hne Hgs]]; [| |done].
    + exists sorted. split; [by apply insert_get_eq|]. rewrite <- (prio_groups_concat sorted).
      apply list_elem_of_In, in_concat. exists g. by rewrite <- !list_elem_of_In.
    + apply resize_to_get in Hgs as [Hgs| ->]; [|by apply elem_of_nil in Hgin]. apply Hold; [done|]. apply Hg. by exists gs, g.
  - intros v h (bufs & Hb & Hh). simpl in Hb. apply insert_get in Hb as [[-> ->]|[Hne Hb]]; [| |done].
    + unfold sorted in Hh. rewrite merge_sort_Permutation in Hh. apply elem_of_app in Hh as [Hh| ->%list_elem_of_singleton]; [|by right].
      left. destruct (P !! i) as [bufs|] eqn:E; [|by apply elem_of_nil in Hh]. simpl in Hh.
      assert (vec_get P (Z.of_nat i) = Ok bufs) as HE by (apply vec_get_ok; rewrite Nat2Z.id; split; [lia|done]).
      apply resize_to_get in HE as [HE| ->]; [by exists bufs|by apply elem_of_nil in Hh].
    + left. apply resize_to_get in Hb as [Hb| ->]; [by exists bufs|by apply elem_of_nil in Hh].
Qed.

Definition in_step (s : PerfectSwitch) (p : nat * option Z) : PerfectSwitch :=
  match snd p with Some h => updatePriorityGroups prio (fst p) h s | None => s end.

Lemma addInPort_loop l s :
  groups_in_prio s →
  let s' := foldl in_step s l in
  groups_in_prio s' ∧ ps_out s' = ps_out s ∧ m_pending_message_count s' = m_pending_message_count s ∧
  ∀ v h, in_prio s' v h → in_prio s v h ∨ ∃ i, v = Z.of_nat i ∧ (i, Some h) ∈ l.
Proof using.
  revert s. induction l as [|[i o] l IH]; intros s Hg; simpl; [by split_and!; try left|].
  destruct o as [b|]; unfold in_step at 2 4 6 8; simpl.
  - destruct (update_groups i b s Hg) as [Hg1 H1]. destruct (IH _ Hg1) as (H2 & H3 & H4 & H5).
    split_and!; [done..|]. intros v h Hh. destruct (H5 v h Hh) as [Hp|(k & -> & Hk)].
    + destruct (H1 v h Hp) as [?|[-> ->]]; [by left|]. right. exists i. split; [done|by left].
    + right. exists k. split; [done|by right].
  - destruct (IH s Hg) as (H2 & H3 & H4 & H5). split_and!; [done..|]. intros v h Hh.
    destruct (H5 v h Hh) as [?|(k & -> & Hk)]; [by left|]. right. exists k. split; [done|by right].
Qed.

Lemma ps_addInPort_spec ins s :
  groups_in_prio s →
  let s' := ps_addInPort prio ins s in
  groups_in_prio s' ∧ ps_out s' = ps_out s ∧ m_pending_message_count s' = m_pending_message_count s ∧
  ∀ v h, in_prio s' v h → in_prio s v h ∨ ∃ i, v = Z.of_nat i ∧ (i, Some h) ∈ imap (fun i h => (i, h)) ins.
Proof using.
  intros Hg. unfold ps_addInPort. cbv zeta.
  exact (addInPort_loop (imap (fun i h => (i, h)) ins) (ps_ports s (ps_in s ++ [ins]) (ps_out s) (m_in_prio s) (m_in_prio_groups s)) Hg).
Qed.

End groups.

Section build.
Context (rs : RubySystem).

(** ** The wiring as it grows *)

Record sw_built (cs : gmap Z sw_consumer) (vnet : Z → Z) (id : Z) (s : Switch) : Prop := {
  sb_prio v h : in_prio (perfectSwitch s) v h → cs !! h = Some (SwPerfect id) ∧ vnet h = v;
  sb_groups : groups_in_prio (perfectSwitch s);
  sb_inputs i t h : vec_get (throttles s) i = Ok t → h ∈ th_in t → cs !! h = Some (SwThrottle id i);
  sb_ports : map th_in (throttles s) = map so_buffers (ps_out (perfectSwitch s));
  sb_outputs i t v o : vec_get (throttles s) i = Ok t → vec_get (th_out t) v = Ok (Some o) →
    ∃ c, cs !! o = Some c ∧ ∀ id' i', c ≠ SwThrottle id' i';
  sb_wf : links_wf rs (m_links (m_routing_unit s));
  sb_pending : Forall (eq 0) (m_pending_message_count (perfectSwitch s))
}.

Lemma sw_built_ok cs vnet id s : sw_built cs vnet id s → sw_ok rs cs vnet id s.
Proof using.
  intros [Hp Hg Hi Hports Ho Hw Hz]. split; [|done| | |done].
  - intros v h H%Hg. by apply Hp.
  - intros i port [Hi0 Hport]%vec_get_ok. assert (map so_buffers (ps_out (perfectSwitch s)) !! Z.to_nat i = Some (so_buffers port)) as H.
    { apply list_lookup_fmap_Some. by exists port. }
    rewrite <- Hports in H. apply list_lookup_fmap_Some in H as (t & E & Ht). exists t. split; [by apply vec_get_ok|done].
  - intros i t v o Ht Hv id' i' Hk. destruct (Ho i t v o Ht Hv) as (c & Hc & Hne). rewrite Hk in Hc. injection Hc as <-. by apply (Hne id' i').
Qed.

Definition all_empty (n : SimpleNet) : Prop := ∀ h b, bf_store (sn_world n) !! h = Some b → m_prio_heap b = [].

Record sn_built (n : SimpleNet) : Prop := {
  bt_switch id s : m_switches n !! id = Some s → sw_built (sn_consumers n) (vnet_at (sn_world n)) id s;
  bt_empty : all_empty n;
  bt_calls : bf_calls (sn_world n) = [];
  bt_queues q h : q ∈ m_fromNetQueues (sn_base n) → Some h ∈ q → ∃ k, sn_consumers n !! h = Some (SwController k)
}.

Lemma empty_held F w : (∀ h b, bf_store w !! h = Some b → m_prio_heap b = []) → held F w = 0.
Proof using.
  intros H. apply lsum_zero, Forall_forall. intros [h b] Hb%elem_of_map_to_list. unfold buffer_held. simpl. by rewrite (H h b Hb).
Qed.

Lemma sn_built_idle n : sn_built n → sn_idle rs n.
Proof using.
  intros [Hs He Hc _]. assert (∀ h d, ¬ present (sn_world n) h d) as Hno.
  { intros h d (b & m & Hb & Hm & _). rewrite (He h b Hb) in Hm. by apply elem_of_nil in Hm. }
  split; [|done]. split; [|by intros h d ?%Hno| |by intros h d ? ? ?%Hno|by intros h d ? ?%Hno].
  - intros id s H. by apply sw_built_ok, Hs.
  - intros id s v c H Hv. rewrite empty_held by done. unfold announced. simpl.
    apply vec_get_ok in Hv as [_ Hv]. pose proof (sb_pending _ _ _ _ (Hs id s H)) as Hz.
    pose proof (Forall_lookup_1 _ _ _ _ Hz Hv). lia.
Qed.

(** Buffers keep their consumers, and those that have one keep their vnet. *)
Record grows (cs cs' : gmap Z sw_consumer) (v v' : Z → Z) : Prop :=
  { gr_keep h c : cs !! h = Some c → cs' !! h = Some c ∧ v' h = v h }.

Lemma grows_refl cs v : grows cs cs v v.
Proof using. by split. Qed.

Lemma grows_trans c1 c2 c3 v1 v2 v3 : grows c1 c2 v1 v2 → grows c2 c3 v2 v3 → grows c1 c3 v1 v3.
Proof using. intros [H1] [H2]. split. intros h c [Hc Hv]%H1. destruct (H2 h c Hc) as [? ?]. split; [done|congruence]. Qed.

Lemma sw_built_grows cs cs' v v' id s : grows cs cs' v v' → sw_built cs v id s → sw_built cs' v' id s.
Proof using.
  intros [Hk] [Hp Hg Hi Hports Ho Hw Hz]. split; [|done| |done| |done|done].
  - intros x h [Hc Hv]%Hp. destruct (Hk h _ Hc) as [? ->]. done.
  - intros i t h Ht Hh. by apply Hk, (Hi i t).
  - intros i t x o Ht Hx. destruct (Ho i t x o Ht Hx) as (c & Hc & Hne). exists c. split; [|done]. by apply Hk.
Qed.

Lemma setConsumer_ok c h n n' :
  setConsumer c h n = Ok n' →
  sn_consumers n !! h = None ∧ n' = sn_parts n (sn_base n) (m_switches n) (sn_world n) (<[h := c]> (sn_consumers n)) (m_int_link_buffers n).
Proof using. unfold setConsumer. destruct (sn_consumers n !! h); [done|]. by intros [= <-]. Qed.

Lemma grows_insert cs v h c : cs !! h = None → grows cs (<[h := c]> cs) v v.
Proof using. intros Hn. split. intros h' c' Hc. split; [|done]. rewrite lookup_insert_ne; [done|]. congruence. Qed.

(** ** Input ports *)

(** What connecting buffers leaves alone. *)
Record wired (n n' : SimpleNet) : Prop := {
  wi_base : sn_base n' = sn_base n;
  wi_switches : m_switches n' = m_switches n;
  wi_calls : bf_calls (sn_world n') = bf_calls (sn_world n);
  wi_empty : all_empty n → all_empty n';
  wi_grows : grows (sn_consumers n) (sn_consumers n') (vnet_at (sn_world n)) (vnet_at (sn_world n'))
}.

Lemma wired_refl n : wired n n.
Proof using. split; [done..|apply grows_refl]. Qed.

Lemma wired_trans n1 n2 n3 : wired n1 n2 → wired n2 n3 → wired n1 n3.
Proof using. intros [A1 B1 C1 D1 E1] [A2 B2 C2 D2 E2]. split; [congruence..|auto|by eapply grows_trans]. Qed.

Lemma connect_inputs id l n n' :
  fold_res (fun p n =>
    match snd p with
    | None => Ok n
    | Some h =>
        let* n := setConsumer (SwPerfect id) h n in
        let* b := bf_get h (sn_world n) in
        Ok (sn_set_world n (bf_set h (with_vnet (Z.of_nat (fst p)) b) (sn_world n)))
    end) l n = Ok n' →
  wired n n' ∧
  ∀ i h, (i, Some h) ∈ l → sn_consumers n' !! h = Some (SwPerfect id) ∧ vnet_at (sn_world n') h = Z.of_nat i.
Proof using.
  revert n. induction l as [|[i o] l IH]; intros n H; cbn [fold_res fst snd] in H.
  { injection H as <-. split; [apply wired_refl|]. by intros ?? ?%elem_of_nil. }
  destruct o as [h|]; cycle 1.
  { simpl in H. destruct (IH n H) as [Hw Hin]. split; [done|]. intros k h' [[=]|Hk]%elem_of_cons. by apply Hin. }
  apply rbind_ok in H as (n1 & H1 & H). apply rbind_ok in H1 as (n0 & [Hnone ->]%setConsumer_ok & H1).
  apply rbind_ok in H1 as (b & Hb%bf_get_ok & H1). simpl in Hb. injection H1 as <-.
  destruct (IH _ H) as [Hw Hin]. clear IH H. match type of Hw with wired ?m _ => set (n1 := m) in * end.
  assert (wired n n1 ∧ sn_consumers n1 !! h = Some (SwPerfect id) ∧ vnet_at (sn_world n1) h = Z.of_nat i) as (Hw1 & Hc1 & Hv1).
  { unfold n1. split_and!.
    - split; simpl; [done..| |].
      + intros He h' b'. simpl. destruct (decide (h' = h)) as [->|Hne].
        * rewrite lookup_insert_eq. intros [= <-]. simpl. by apply (He h).
        * rewrite lookup_insert_ne by done. apply He.
      + split. intros h' c' Hc'. assert (h' ≠ h) by congruence. unfold vnet_at. simpl. by rewrite !lookup_insert_ne.
    - simpl. apply lookup_insert_eq.
    - unfold vnet_at. simpl. by rewrite lookup_insert_eq. }
  split; [by eapply wired_trans|]. intros k h' [[= -> ->]|Hk]%elem_of_cons; [|by apply Hin].
  destruct (gr_keep _ _ _ _ (wi_grows _ _ Hw) h _ Hc1) as [? ->]. done.
Qed.

Lemma elem_imap {A} (l : list A) x : x ∈ l → ∃ i, (i, x) ∈ imap (fun i y => (i, y)) l.
Proof using.
  intros (i & Hi)%list_elem_of_lookup. exists i. apply (list_elem_of_lookup_2 _ i). by rewrite list_lookup_imap, Hi.
Qed.

Lemma addInPort_built prio id ins n n' :
  sn_built n → sn_addInPort prio id ins n = Ok n' →
  sn_built n' ∧ sn_base n' = sn_base n ∧ grows (sn_consumers n) (sn_consumers n') (vnet_at (sn_world n)) (vnet_at (sn_world n')) ∧
  ∀ h, Some h ∈ ins → sn_consumers n' !! h = Some (SwPerfect id).
Proof using.
  intros [Hsw He Hc Hq] H. unfold sn_addInPort in H. apply rbind_ok in H as (s & Hs%get_switch_ok & H). cbv zeta in H.
  destruct (connect_inputs _ _ _ _ H) as [[W1 W2 W3 W4 W5] Hin]. clear H. simpl in *.
  destruct (Hsw id s Hs) as [Sp Sg Si Spo So Sw Sz].
  destruct (ps_addInPort_spec prio ins (perfectSwitch s) Sg) as (Pg & Po & Pp & Pin).
  split_and!; [|done|done|by intros h (i & Hi)%elem_imap; apply (Hin i)]. split.
  - intros k u Hu. rewrite W2 in Hu. destruct (decide (k = id)) as [->|Hne].
    + rewrite lookup_insert_eq in Hu. injection Hu as <-. split; simpl; [|done| |by rewrite Po| |done|by rewrite Pp].
      * intros v h [[Hk Hv]%Sp|(i & -> & Hi)]%Pin; [|by apply Hin].
        destruct (gr_keep _ _ _ _ W5 h _ Hk) as [? ->]. done.
      * intros i t h Ht Hh. by apply (gr_keep _ _ _ _ W5), (Si i t).
      * intros i t v o Ht Hv. destruct (So i t v o Ht Hv) as (c & Hk & Hne). exists c. split; [|done]. by apply (gr_keep _ _ _ _ W5).
    + rewrite lookup_insert_ne in Hu by done. eapply sw_built_grows; [exact W5|]. by apply Hsw.
  - by apply W4.
  - by rewrite W3.
  - rewrite W1. intros q h Hq1 Hq2. destruct (Hq q h Hq1 Hq2) as [k Hk]. exists k. by apply (gr_keep _ _ _ _ W5).
Qed.

(** ** Output ports *)

Lemma make_throttle_empty ps outs lat bw t : make_throttle ps outs lat bw = Ok t → th_in t = [] ∧ th_out t = [].
Proof using.
  unfold make_throttle, throttle_physical, throttle_shared. destruct (_ && _); intros H; inv_res; done.
Qed.

Lemma addLinks_ok ins outs t t' :
  addLinks ins outs t = Ok t' → th_in t' = th_in t ++ ins ∧ th_out t' = th_out t ++ outs.
Proof using. unfold addLinks. intros H. inv_res. done. Qed.

Lemma sw_addOutPort_ok ps env outs entry lat weight bw ext s s' hs :
  sw_addOutPort ps env outs entry lat weight bw ext s = Ok (s', hs) →
  ∃ t wb', throttles s' = throttles s ++ [t] ∧ th_in t = hs ∧ th_out t = outs ∧
  (∃ port, ps_out (perfectSwitch s') = ps_out (perfectSwitch s) ++ [port] ∧ so_buffers port = hs) ∧
  m_in_prio (perfectSwitch s') = m_in_prio (perfectSwitch s) ∧
  m_in_prio_groups (perfectSwitch s') = m_in_prio_groups (perfectSwitch s) ∧
  m_pending_message_count (perfectSwitch s') = m_pending_message_count (perfectSwitch s) ∧
  m_routing_unit s' = wb' ∧
  m_links wb' ≡ₚ m_links (m_routing_unit s) ++
    [{| li_link_id := Z.of_nat (length (ps_out (perfectSwitch s))); li_routing_entry := entry; li_out_buffers := hs;
        li_order := 0; li_weight := weight |}].
Proof using.
  unfold sw_addOutPort. intros (t & [Ht1 Ht2]%make_throttle_empty & H)%rbind_ok. apply rbind_ok in H as ([hs1 conn] & _ & H).
  apply rbind_ok in H as ([p wb] & Hp & H). apply rbind_ok in H as (t1 & [Hi Ho]%addLinks_ok & H). injection H as <- <-.
  unfold ps_addOutPort in Hp. apply rbind_ok in Hp as (wb1 & Hwb & Hp). injection Hp as <- <-.
  unfold wb_addOutPort in Hwb. apply rbind_ok in Hwb as (? & _ & Hwb). injection Hwb as <-.
  rewrite Ht1 in Hi. rewrite Ht2 in Ho. simpl. exists t1, (sortLinks {| adaptive_routing := adaptive_routing (m_routing_unit s);
    m_links := m_links (m_routing_unit s) ++ [{| li_link_id := Z.of_nat (length (ps_out (perfectSwitch s))); li_routing_entry := entry;
      li_out_buffers := hs1; li_order := 0; li_weight := weight |}] |}).
  split_and!; try done; [by eexists|]. apply sortLinks_spec.
Qed.

Lemma connect_outputs id port hs n n' :
  fold_res (setConsumer (SwThrottle id port)) hs n = Ok n' →
  wired n n' ∧ ∀ h, h ∈ hs → sn_consumers n' !! h = Some (SwThrottle id port).
Proof using.
  revert n. induction hs as [|h hs IH]; intros n H; cbn [fold_res] in H.
  { injection H as <-. split; [apply wired_refl|]. by intros ? ?%elem_of_nil. }
  apply rbind_ok in H as (n1 & [Hnone ->]%setConsumer_ok & H). destruct (IH _ H) as [Hw Hin].
  match type of Hw with wired ?m _ => set (n1 := m) in * end.
  assert (wired n n1) as Hw1 by (split; [done..|by apply grows_insert]). split; [by eapply wired_trans|].
  intros h' [->|Hh]%elem_of_cons; [|by apply Hin]. eapply (gr_keep _ _ _ _ (wi_grows _ _ Hw) h). simpl. apply lookup_insert_eq.
Qed.

Lemma vec_get_snoc {A} (l : list A) x i y : vec_get (l ++ [x]) i = Ok y → vec_get l i = Ok y ∨ (i = Z.of_nat (length l) ∧ y = x).
Proof using.
  intros [Hi [H|[Hl H]]%lookup_app_Some]%vec_get_ok; [left; by apply vec_get_ok|]. right.
  destruct (Z.to_nat i - length l)%nat as [|k] eqn:E; [|done]. injection H as <-. split; [lia|done].
Qed.

Lemma addOutPort_built ps env id outs entry lat weight bw ext n n' :
  sn_built n → netdest_wf rs entry →
  (∀ o, Some o ∈ outs → ∃ c, sn_consumers n !! o = Some c ∧ ∀ id' i', c ≠ SwThrottle id' i') →
  sn_addOutPort ps env id outs entry lat weight bw ext n = Ok n' → sn_built n' ∧ sn_base n' = sn_base n.
Proof using.
  intros [Hsw He Hc Hq] Hentry Houts H. unfold sn_addOutPort in H. apply rbind_ok in H as (s & Hs%get_switch_ok & H). cbv zeta in H.
  apply rbind_ok in H as ([s' hs] & Hp & H). destruct (connect_outputs _ _ _ _ _ H) as [[W1 W2 W3 W4 W5] Hin]. clear H. simpl in *.
  destruct (sw_addOutPort_ok _ _ _ _ _ _ _ _ _ _ _ Hp) as (t & wb & Et & Ei & Eo & (port & Eps & Epb) & Epr & Egr & Epe & Ewb & El).
  destruct (Hsw id s Hs) as [Sp Sg Si Spo So Sw Sz]. split; [|done]. split.
  - intros k u Hu. rewrite W2 in Hu. destruct (decide (k = id)) as [->|Hne].
    + rewrite lookup_insert_eq in Hu. injection Hu as <-. split.
      * intros v h (bufs & Hb & Hh). rewrite Epr in Hb. destruct (Sp v h) as [Hk Hv]; [by exists bufs|].
        destruct (gr_keep _ _ _ _ W5 h _ Hk) as [? ->]. done.
      * intros v h (gs & g & Hg1 & Hg2). rewrite Egr in Hg1. destruct (Sg v h) as (bufs & Hb & Hh); [by exists gs, g|].
        exists bufs. by rewrite Epr.
      * intros i t0 h Ht Hh. rewrite Et in Ht. apply vec_get_snoc in Ht as [Ht|[-> ->]].
        -- by apply (gr_keep _ _ _ _ W5), (Si i t0).
        -- apply Hin. by rewrite <- Ei.
      * rewrite Et, Eps, !map_app, Spo. simpl. by rewrite Ei, Epb.
      * intros i t0 v o Ht Hv. rewrite Et in Ht. apply vec_get_snoc in Ht as [Ht|[-> ->]].
        -- destruct (So i t0 v o Ht Hv) as (c & Hk & Hne). exists c. split; [|done]. by apply (gr_keep _ _ _ _ W5).
        -- rewrite Eo in Hv. apply vec_get_ok in Hv as [_ Hv%list_elem_of_lookup_2]. destruct (Houts o Hv) as (c & Hk & Hne).
           exists c. split; [|done]. by apply (gr_keep _ _ _ _ W5).
      * unfold links_wf. rewrite Ewb, El. apply Forall_app. split; [done|]. by constructor.
      * by rewrite Epe.
    + rewrite lookup_insert_ne in Hu by done. eapply sw_built_grows; [exact W5|]. by apply Hsw.
  - by apply W4.
  - by rewrite W3.
  - rewrite W1. intros q h Hq1 Hq2. destruct (Hq q h Hq1 Hq2) as [k Hk]. exists k. by apply (gr_keep _ _ _ _ W5).
Qed.

(** ** The links of the topology *)

(** The routing entries are in shape. *)
Definition request_wf (req : link_request) : Prop :=
  match req with
  | MakeExtInLink _ _ _ _ => True
  | MakeExtOutLink _ _ _ entry | MakeInternalLink _ _ _ entry _ _ => Forall (netdest_wf rs) entry
  end.

Lemma vec_get_Forall {A} (P : A → Prop) l i x : Forall P l → vec_get l i = Ok x → P x.
Proof using. intros H [_ Hx]%vec_get_ok. by eapply Forall_lookup_1. Qed.

Lemma extOut_queues n local_dest q qs x h :
  sn_built n → vec_get (m_fromNetQueues (sn_base n)) local_dest = Ok q →
  vec_set (m_fromNetQueues (sn_base n)) local_dest (q ++ replicate x None) = Ok qs →
  ∀ q', q' ∈ qs → Some h ∈ q' → ∃ k, sn_consumers n !! h = Some (SwController k).
Proof using.
  intros Hb Hq [_ ->]%vec_set_ok q' Hq' Hh. apply vec_get_ok in Hq as [_ Hq].
  apply list_elem_of_lookup in Hq' as (i & Hi). apply list_lookup_insert_Some in Hi as [(_ & <- & _)|[_ Hi]].
  - apply elem_of_app in Hh as [Hh|[[=] _]%elem_of_replicate]. eapply (bt_queues n Hb); [|exact Hh]. by eapply list_elem_of_lookup_2.
  - eapply (bt_queues n Hb); [|exact Hh]. by eapply list_elem_of_lookup_2.
Qed.

Lemma make_link_built ps env prio objects req n n' :
  sn_built n → request_wf req → sn_make_link ps env prio objects req n = Ok n' → sn_built n'.
Proof using.
  intros Hb Hr H. destruct req as [src dest link entry|src dest link entry|src dest link entry so di]; cbn [sn_make_link] in H.
  - unfold sn_makeExtInLink in H. apply rbind_ok in H as (ls & _ & H). apply rbind_ok in H as (? & _ & H).
    apply rbind_ok in H as (q & _ & H). by apply (addInPort_built _ _ _ _ _ Hb) in H as [? _].
  - unfold sn_makeExtOutLink in H. apply rbind_ok in H as (ld & _ & H). apply rbind_ok in H as (? & _ & H).
    apply rbind_ok in H as (? & _ & H). apply rbind_ok in H as (l & _ & H). cbv zeta in H.
    apply rbind_ok in H as (q & Hq & H). apply rbind_ok in H as (? & _ & H). apply rbind_ok in H as (qs & Hqs & H).
    apply rbind_ok in H as (rte & Hrte & H). pose proof (vec_get_Forall _ _ _ _ Hr Hrte) as Hw.
    pose proof (fun h => extOut_queues n ld q qs _ h Hb Hq Hqs) as Hqueues.
    apply addOutPort_built in H as [? _]; [done| |done|].
    + destruct Hb as [B1 B2 B3 B4]. split; [done..|]. simpl. intros q' h. apply Hqueues.
    + intros o Ho. simpl. destruct (Hqueues o (q ++ replicate (Z.to_nat (m_virtual_networks (sn_base n)) - length q) None)) as [k Hk]; [|done|].
      * apply vec_set_ok in Hqs as [Hr' ->]. apply (list_elem_of_lookup_2 _ (Z.to_nat ld)). apply list_lookup_insert_eq. lia.
      * by exists (SwController k).
  - unfold sn_makeInternalLink in H. apply rbind_ok in H as (l & _ & H). apply rbind_ok in H as (n1 & H1 & H).
    apply rbind_ok in H as (rte & Hrte & H). apply rbind_ok in H as (n2 & H2 & H). injection H as <-.
    destruct (addInPort_built _ _ _ _ _ Hb H1) as (Hb1 & _ & _ & Hin).
    apply addOutPort_built in H2 as [[B1 B2 B3 B4] _]; [by split|done|by eapply vec_get_Forall|].
    intros o Ho. exists (SwPerfect dest). split; [by apply Hin|done].
Qed.

(** The network before [init]: nothing is connected but the controllers, which
    consume the buffers from the network; no messages. *)
Record sn_fresh (n : SimpleNet) : Prop := {
  fs_switch id s : m_switches n !! id = Some s →
    ∃ vnets int ext adaptive buffers, s = sw_init (new_Switch vnets int ext adaptive buffers);
  fs_empty : all_empty n;
  fs_calls : bf_calls (sn_world n) = [];
  fs_queues q h : q ∈ m_fromNetQueues (sn_base n) → Some h ∈ q → ∃ k, sn_consumers n !! h = Some (SwController k)
}.

Lemma fresh_built n : sn_fresh n → sn_built n.
Proof using.
  intros [Hs He Hc Hq]. split; [|done..]. intros id s H. destruct (Hs id s H) as (vn & i & e & a & b & ->).
  split; simpl.
  - intros v h (bufs & Hb & _). by apply vec_get_ok in Hb as [_ Hb].
  - intros v h (gs & g & Hb & _). by apply vec_get_ok in Hb as [_ Hb].
  - intros k t h [_ Ht]%vec_get_ok. done.
  - done.
  - intros k t v o [_ Ht]%vec_get_ok. done.
  - constructor.
  - by apply Forall_replicate.
Qed.

(** [init] establishes the invariant of the runs. *)
Lemma init_idle ps env prio objects reqs n n' :
  sn_fresh n → Forall request_wf reqs → sn_init ps env prio objects reqs n = Ok n' → sn_idle rs n'.
Proof using.
  intros Hf Hr H. apply sn_built_idle. apply fresh_built in Hf. unfold sn_init in H.
  eapply (fold_res_keeps sn_built); [|exact Hf|exact H]. intros req t t' Hreq Ht. rewrite Forall_forall in Hr.
  by apply make_link_built, Hr.
Qed.

(** There are no messages after [init]. *)
Lemma init_empty ps env prio objects reqs n n' x :
  sn_fresh n → Forall request_wf reqs → sn_init ps env prio objects reqs n = Ok n' → outstanding x n' = 0.
Proof using.
  intros Hf Hr H. apply fresh_built in Hf. unfold sn_init in H. apply empty_held.
  eapply (fold_res_keeps sn_built) in H; [apply (bt_empty _ H)| |exact Hf]. intros req t t' Hreq Ht. rewrite Forall_forall in Hr.
  by apply make_link_built, Hr.
Qed.

End build.
