(* ===== verification/SimpleDelivery.v ===== *)
(** * The simple network from construction to delivery

    The theorems on the whole simple network: what its switches count, and that
    messages for a machine are neither lost nor duplicated. A schedule of wakeups,
    sends and receptions can be executed; the example is a network of two switches
    and three machines. *)

From S2P Require Import Prelude IntMath Clocked Consumer NetDest MessageBuffer Topology Construction SimpleNetwork SimpleRouting SimpleFlow Switching SimpleRun SimpleBuild.

(** ** Schedules *)

Inductive sn_action :=
  | WakePerfect (tick id : Z)
  | WakeThrottle (tick id port : Z)
  | SendMessage (tick h : Z) (m : Message)
  | ReceiveMessage (tick controller h : Z).

Section schedule.
Context (rs : RubySystem) (period ctrl data : Z) (rng : Z → Z → Z).

(** The network, the destinations sent and what was received where. *)
Abbreviation history := (SimpleNet * list NetDest * list (Z * NetDest))%type.

Definition at_tick (tick : Z) : ClockEnv := {| curTick := tick; clockPeriod := period |}.

Definition run_action (a : sn_action) (s : history) : res history :=
  let '(n, sent, recv) := s in
  match a with
  | WakePerfect tick id =>
      let* n := sn_wake_perfect rs false false (fun _ => 0) (at_tick tick) rng id n in Ok (n, sent, recv)
  | WakeThrottle tick id port =>
      let* n := sn_wake_throttle false false (fun _ => 0) (at_tick tick) ctrl data id port n in Ok (n, sent, recv)
  | SendMessage tick h m =>
      let* _ := assert_ "to the network" (match sn_consumers n !! h with Some (SwPerfect _) => true | _ => false end) in
      let* n := sn_send false false (fun _ => 0) (at_tick tick) period h m n in Ok (n, sent ++ [msg_destination m], recv)
  | ReceiveMessage tick k h =>
      let* ' (m, n) := sn_receive (at_tick tick) k h n in Ok (n, sent, recv ++ [(h, msg_destination m)])
  end.

Definition sends_wf (a : sn_action) : Prop := match a with SendMessage _ _ m => netdest_wf rs (msg_destination m) | _ => True end.

Lemma sn_run_snoc n1 n2 n3 s1 s2 r1 r2 :
  sn_run rs n1 n2 s1 r1 → sn_step rs n2 n3 s2 r2 → sn_run rs n1 n3 (s1 ++ s2) (r1 ++ r2).
Proof using.
  intros H Hs. induction H as [n|n n' n'' a1 a2 b1 b2 H1 H2 IH].
  - rewrite <- (app_nil_r s2), <- (app_nil_r r2). simpl. eapply SR_step; [done|constructor].
  - rewrite <- !app_assoc. eapply SR_step; [done|by apply IH].
Qed.

(** A schedule is a run. *)
Lemma run_actions n0 acts n sent recv n' sent' recv' :
  Forall sends_wf acts → sn_run rs n0 n sent recv →
  fold_res run_action acts (n, sent, recv) = Ok (n', sent', recv') → sn_run rs n0 n' sent' recv'.
Proof using.
  intros Hwf Hr H. revert n sent recv Hr H. induction Hwf as [|a acts Ha Hwf IH]; intros n sent recv Hr H; cbn [fold_res] in H.
  { by simplify_eq. }
  apply rbind_ok in H as ([[n1 sent1] recv1] & H1 & H). eapply IH; [|exact H]. clear IH H Hwf.
  destruct a as [tick id|tick id port|tick h m|tick k h]; cbn [run_action] in H1.
  - apply rbind_ok in H1 as (n2 & H1 & E). simplify_eq. rewrite <- (app_nil_r sent1), <- (app_nil_r recv1).
    eapply sn_run_snoc; [done|by eapply SS_perfect].
  - apply rbind_ok in H1 as (n2 & H1 & E). simplify_eq. rewrite <- (app_nil_r sent1), <- (app_nil_r recv1).
    eapply sn_run_snoc; [done|by eapply SS_throttle].
  - apply rbind_ok in H1 as (? & Hc%assert_ok & H1). apply rbind_ok in H1 as (n2 & H1 & E). simplify_eq.
    rewrite <- (app_nil_r recv1). destruct (sn_consumers n !! h) as [[id| |]|] eqn:Eh; [|done..].
    eapply sn_run_snoc; [done|by eapply SS_send].
  - apply rbind_ok in H1 as ([m n2] & H1 & E). simplify_eq. rewrite <- (app_nil_r sent1).
    eapply sn_run_snoc; [done|by eapply SS_receive].
Qed.

End schedule.

(** ** An example

    Machines 0 and 1 of type 0 on switch 0, machine 0 of type 1 on switch 1, one
    vnet. *)

Definition ex_buffer : MessageBuffer := new_MessageBuffer 4 0 true disabled false.
Definition ex_handles : list Z := [100; 101; 104; 200; 201; 204; 300; 310; 400; 401; 402; 410; 411].
Definition ex_links : gmap Z SimpleLink :=
  list_to_map [(1, {| sl_bw_multiplier := 1; sl_buffers := [] |}); (2, {| sl_bw_multiplier := 1; sl_buffers := [300] |});
               (3, {| sl_bw_multiplier := 1; sl_buffers := [310] |})].
Definition ex_link (h weight : Z) : BasicLink := {| bl_handle := h; bl_latency := 1; bl_weight := weight; bl_vnets := [] |}.

Definition ex_base : Network :=
  {| globalToLocalMap := list_to_map [(0, 0); (1, 1); (4, 2)]; m_nodes := 3; m_virtual_networks := 1;
     m_toNetQueues := [[Some 100]; [Some 101]; [Some 104]]; m_fromNetQueues := [[Some 200]; [Some 201]; [Some 204]];
     net_ordered := [true]; m_vnet_type_names := [""] |}.

Definition ex_fresh : SimpleNet :=
  {| sn_base := ex_base;
     m_switches := list_to_map [(0, sw_init (new_Switch 1 1 1 false [400; 401; 402])); (1, sw_init (new_Switch 1 1 1 false [410; 411]))];
     sn_world := {| bf_store := list_to_map (map (fun h => (h, ex_buffer)) ex_handles); bf_calls := []; bf_next_message := 1000 |};
     sn_consumers := list_to_map [(200, SwController 0); (201, SwController 1); (204, SwController 2)];
     m_int_link_buffers := [] |}.

Definition ex_params : SimpleParams := {| physical_vnets_channels := []; physical_vnets_bandwidth := []; endpoint_bandwidth := 1000 |}.

Definition ex_requests : list link_request :=
  [MakeExtInLink 0 0 (ex_link 1 1) [ex_dest 1 0]; MakeExtInLink 1 0 (ex_link 1 1) [ex_dest 2 0];
   MakeExtInLink 4 1 (ex_link 1 1) [ex_dest 0 1];
   MakeExtOutLink 0 0 (ex_link 1 1) [ex_dest 1 0]; MakeExtOutLink 0 1 (ex_link 1 1) [ex_dest 2 0];
   MakeExtOutLink 1 4 (ex_link 1 1) [ex_dest 0 1];
   MakeInternalLink 0 1 (ex_link 2 1) [ex_dest 0 1] EmptyString EmptyString;
   MakeInternalLink 1 0 (ex_link 3 1) [ex_dest 3 0] EmptyString EmptyString].

Definition ex_built : res SimpleNet := sn_init ex_params (at_tick 10 0) (fun _ => 0) ex_links ex_requests ex_fresh.

Definition ex_multicast : Message :=
  {| msg_handle := 7; msg_time := 0; m_LastEnqueueTime := 0; m_DelayedTicks := 0; msg_counter := 0;
     msg_destination := ex_dest 2 1; msg_size_type := Control |}.

(** Machine 0 of type 0 sends to machine 1 of type 0 and machine 0 of type 1. *)
Definition ex_actions : list sn_action :=
  [SendMessage 10 100 ex_multicast; WakePerfect 20 0; WakeThrottle 30 0 1; WakeThrottle 30 0 2; WakePerfect 40 1;
   WakeThrottle 50 1 0; ReceiveMessage 60 1 201].

Lemma ex_fresh_ok : sn_fresh ex_fresh.
Proof.
  split; [| |done|].
  - intros id s H. apply elem_of_list_to_map_2 in H. repeat (apply elem_of_cons in H as [[= -> ->]|H]; [by repeat eexists|]).
    by apply elem_of_nil in H.
  - intros h b H. apply elem_of_list_to_map_2 in H. apply list_elem_of_fmap in H as (k & [= -> ->] & _). done.
  - intros q h Hq Hh. simpl in Hq. repeat (apply elem_of_cons in Hq as [->|Hq];
      [apply list_elem_of_singleton in Hh; injection Hh as ->; by eexists|]). by apply elem_of_nil in Hq.
Qed.

Lemma ex_requests_wf : Forall (request_wf ex_rs) ex_requests.
Proof.
  unfold ex_requests. repeat apply Forall_cons_2; try apply Forall_nil_2; try exact I; apply ex_dest_wf; lia.
Qed.

Lemma ex_sends_wf : Forall (sends_wf ex_rs) ex_actions.
Proof. unfold ex_actions. repeat apply Forall_cons_2; try apply Forall_nil_2; try exact I. simpl. apply ex_dest_wf; lia. Qed.

(** ** The theorems *)

(** C13: In a simple network built by [init] from switches that have no ports yet,
    after any interleaving of wakeups of perfect switches and throttles, sends and
    receptions, at any times and with any random numbers: for every machine, the
    copies for it still in buffers and those received together are exactly the
    messages sent to it, so none is lost and none is duplicated by a multicast;
    and whatever a controller receives arrived over a link whose routing entry
    contains every destination the message still carries. *)
Theorem simple_network_delivers rs ps env prio objects reqs n0 n1 n2 sent recv :
  ruby_system_ok rs → sn_fresh n0 → Forall (request_wf rs) reqs →
  sn_init ps env prio objects reqs n0 = Ok n1 → sn_run rs n1 n2 sent recv →
  (∀ x, 0 ≤ snd x → outstanding x n2 + lsum (bound_for x) recv = lsum (addressed x) sent) ∧
  Forall (behind n1) recv.
Proof.
  intros Hrs Hf Hr Hi Hrun. pose proof (init_idle rs _ _ _ _ _ _ _ Hf Hr Hi) as Hid.
  destruct (run_ok rs Hrs _ _ _ _ Hid Hrun) as (_ & _ & Hb & Hx). split; [|done].
  intros x H0. rewrite (Hx x H0), (init_empty rs _ _ _ _ _ _ _ x Hf Hr Hi). lia.
Qed.

Definition ex_final : res (SimpleNet * list NetDest * list (Z * NetDest)) :=
  let* n := ex_built in fold_res (run_action ex_rs 10 8 72 (fun _ _ => 0)) ex_actions (n, [], []).

#[local] Instance nodeset_eq_dec : EqDecision NodeSet.t.
Proof. solve_decision. Defined.

Definition ex_received (s : res (SimpleNet * list NetDest * list (Z * NetDest))) : bool :=
  match s with Ok (n, sent, recv) => bool_decide (sent = [ex_dest 2 1] ∧ recv = [(201, ex_dest 2 0)]) | Err _ => false end.

Lemma ex_final_received : ex_received ex_final = true.
Proof. by vm_compute. Qed.

(** The multicast was split; one copy was received, the other is on its way. *)
Lemma simple_network_delivers_witness :
  ∃ n2, sn_run ex_rs (default ex_fresh (match ex_built with Ok n => Some n | _ => None end)) n2 [ex_dest 2 1] [(201, ex_dest 2 0)] ∧
        outstanding (1, 0) n2 = 1 ∧ outstanding (0, 1) n2 = 0.
Proof.
  pose proof ex_final_received as Hf. unfold ex_final in Hf.
  destruct ex_built as [n1|] eqn:Hb; [|done]. cbn [rbind] in Hf.
  destruct (fold_res _ ex_actions _) as [[[n2 sent] recv]|] eqn:Hr; [|done].
  unfold ex_received in Hf. apply bool_decide_eq_true in Hf as [-> ->].
  assert (sn_run ex_rs n1 n2 [ex_dest 2 1] [(201, ex_dest 2 0)]) as Hrun.
  { eapply run_actions; [exact ex_sends_wf|constructor|exact Hr]. }
  exists n2. split; [exact Hrun|].
  destruct (simple_network_delivers ex_rs _ _ _ _ _ _ _ _ _ _ ex_rs_ok ex_fresh_ok ex_requests_wf Hb Hrun) as [Hx _].
  pose proof (Hx (1, 0) ltac:(done)) as H1. pose proof (Hx (0, 1) ltac:(done)) as H2.
  change (lsum (bound_for (1, 0)) _) with 0 in H1. change (lsum (addressed (1, 0)) _) with 1 in H1.
  change (lsum (bound_for (0, 1)) _) with 1 in H2. change (lsum (addressed (0, 1)) _) with 1 in H2. lia.
Defined.

(** C14: In every state of such a run, the number of pending messages a perfect
    switch keeps for a vnet is the number of messages in the buffers of that vnet
    it consumes; hence the vnets that [operateVnet] skips because the number is
    zero have only empty input buffers. *)
Theorem pending_counts_exact rs ps env prio objects reqs n0 n1 n2 sent recv id s v c :
  ruby_system_ok rs → sn_fresh n0 → Forall (request_wf rs) reqs →
  sn_init ps env prio objects reqs n0 = Ok n1 → sn_run rs n1 n2 sent recv →
  m_switches n2 !! id = Some s → vec_get (m_pending_message_count (perfectSwitch s)) v = Ok c →
  c = held (waits (sn_consumers n2) id v) (sn_world n2) ∧
  (c = 0 → ∀ h b, in_group (perfectSwitch s) v h → bf_store (sn_world n2) !! h = Some b → m_prio_heap b = []).
Proof.
  intros Hrs Hf Hr Hi Hrun Hs Hc. pose proof (init_idle rs _ _ _ _ _ _ _ Hf Hr Hi) as Hid.
  destruct (run_ok rs Hrs _ _ _ _ Hid Hrun) as ([Hinv _] & _). pose proof (sv_pending _ _ _ Hinv id s v c Hs Hc) as Hp.
  unfold announced in Hp. simpl in Hp. split; [lia|]. intros Hz h b Hg Hb.
  destruct (so_groups _ _ _ _ _ (sv_switch _ _ _ Hinv id s Hs) v h Hg) as [Hk Hv].
  apply (waits_zero (sn_consumers n2) (sn_world n2) id v h b); [lia|done|done|]. unfold vnet_at in Hv. by rewrite Hb in Hv.
Qed.

(** The pending count of a switch. *)
Definition ex_pending (n : SimpleNet) (id v : Z) : option Z :=
  match m_switches n !! id with
  | Some s => match vec_get (m_pending_message_count (perfectSwitch s)) v with Ok c => Some c | Err _ => None end
  | None => None
  end.

Definition ex_first : res (SimpleNet * list NetDest * list (Z * NetDest)) :=
  let* n := ex_built in fold_res (run_action ex_rs 10 8 72 (fun _ _ => 0)) (take 1 ex_actions) (n, [], []).

Lemma ex_first_pending : match ex_first with Ok (n, _, _) => bool_decide (ex_pending n 0 0 = Some 1) | Err _ => false end = true.
Proof. by vm_compute. Qed.

(** After the message was sent, switch 0 counts one message, and one waits. *)
Lemma pending_counts_exact_witness :
  ∃ n2 s, m_switches n2 !! 0 = Some s ∧ vec_get (m_pending_message_count (perfectSwitch s)) 0 = Ok 1 ∧
          held (waits (sn_consumers n2) 0 0) (sn_world n2) = 1.
Proof.
  pose proof ex_first_pending as Hf. unfold ex_first in Hf.
  destruct ex_built as [n1|] eqn:Hb; [|done]. cbn [rbind] in Hf.
  destruct (fold_res _ (take 1 ex_actions) _) as [[[n2 sent] recv]|] eqn:Hr; [|done].
  apply bool_decide_eq_true in Hf. unfold ex_pending in Hf.
  destruct (m_switches n2 !! 0) as [s|] eqn:Hs; [|done].
  destruct (vec_get _ 0) as [c|] eqn:Hc; [|done]. injection Hf as ->.
  exists n2, s. split_and!; [exact Hs|exact Hc|]. symmetry.
  eapply (pending_counts_exact ex_rs _ _ _ _ _ _ _ _ _ _ 0 s 0 1 ex_rs_ok ex_fresh_ok ex_requests_wf Hb); [|exact Hs|exact Hc].
  eapply run_actions; [|constructor|exact Hr]. apply Forall_take, ex_sends_wf.
Defined.
