(* ===== verification/EventQueue.v ===== *)
(** * The event queue: sim/eventq.{hh,cc} and the loop of sim/simulate.cc

    The queue is a linked list of linked lists. Events with the same time and
    priority form a bin, a stack linked by [nextInBin]; the tops of the bins are
    linked by [nextBin] in ascending order, and the [nextBin] pointers below a
    top are stale. Events are objects in a store, reached by handles, and the
    operations update their pointers in place. *)

From S2P Require Import Prelude IntMath.

(** ** Events *)

(** The flags are bits of an unsigned short. *)
Definition PublicWrite : Z := 29.     (* 0x001d *)
Definition Squashed : Z := 1.
Definition Scheduled : Z := 2.
Definition Managed : Z := 4.
Definition IsMainQueue : Z := 32.
Definition IsExitEvent : Z := 16.
Definition Initialized : Z := 31296.   (* 0x7a40 *)
Definition InitMask : Z := 65472.      (* 0xffc0 *)

Definition Default_Pri : Z := 0.

Record Event := {
  nextBin : option Z;
  nextInBin : option Z;
  ev_when : Z;
  ev_priority : Z;
  ev_flags : Z;
  ev_queue : bool   (* whether [queue] points to this queue *)
}.

Definition new_Event (p f : Z) : res Event :=
  let* _ := assert_ "f.noneSet(~PublicWrite)" (Z.ldiff f PublicWrite =? 0) in
  Ok {| nextBin := None; nextInBin := None; ev_when := 0; ev_priority := p; ev_flags := Z.lor Initialized f;
        ev_queue := false |}.

Definition isSet (mask flags : Z) : bool := negb (Z.land flags mask =? 0).
Definition initialized (e : Event) : bool := Z.land (ev_flags e) InitMask =? Initialized.
Definition scheduled (e : Event) : bool := isSet Scheduled (ev_flags e).
Definition squashed (e : Event) : bool := isSet Squashed (ev_flags e).
Definition isExitEvent (e : Event) : bool := isSet IsExitEvent (ev_flags e).

Definition with_links (bin inbin : option Z) (e : Event) : Event :=
  {| nextBin := bin; nextInBin := inbin; ev_when := ev_when e; ev_priority := ev_priority e; ev_flags := ev_flags e;
     ev_queue := ev_queue e |}.
Definition set_nextBin (p : option Z) (e : Event) : Event := with_links p (nextInBin e) e.
Definition set_nextInBin (p : option Z) (e : Event) : Event := with_links (nextBin e) p e.
Definition setWhen (when_ : Z) (e : Event) : Event :=
  {| nextBin := nextBin e; nextInBin := nextInBin e; ev_when := when_; ev_priority := ev_priority e;
     ev_flags := ev_flags e; ev_queue := true |}.
Definition with_flags (f : Z) (e : Event) : Event :=
  {| nextBin := nextBin e; nextInBin := nextInBin e; ev_when := ev_when e; ev_priority := ev_priority e;
     ev_flags := f; ev_queue := ev_queue e |}.
Definition set_flag (mask : Z) (e : Event) : Event := with_flags (Z.lor (ev_flags e) mask) e.
Definition clear_flag (mask : Z) (e : Event) : Event := with_flags (Z.ldiff (ev_flags e) mask) e.
Definition squash (e : Event) : Event := set_flag Squashed e.

(** The comparison operators. *)
Definition ev_lt (l r : Event) : bool :=
  (ev_when l <? ev_when r) || ((ev_when l =? ev_when r) && (ev_priority l <? ev_priority r)).
Definition ev_le (l r : Event) : bool :=
  (ev_when l <? ev_when r) || ((ev_when l =? ev_when r) && (ev_priority l <=? ev_priority r)).
Definition ev_eq (l r : Event) : bool := (ev_when l =? ev_when r) && (ev_priority l =? ev_priority r).

(** ** The queue *)

Record EventQueue := {
  head : option Z;
  eq_curTick : Z;
  async_queue : list Z;
  events : gmap Z Event
}.

Definition new_EventQueue (evs : gmap Z Event) : EventQueue :=
  {| head := None; eq_curTick := 0; async_queue := []; events := evs |}.

Definition with_head (q : EventQueue) (h : option Z) (evs : gmap Z Event) : EventQueue :=
  {| head := h; eq_curTick := eq_curTick q; async_queue := async_queue q; events := evs |}.

(** Dereferencing a handle. *)
Definition get_event (hp : gmap Z Event) (e : Z) : res Event :=
  match hp !! e with Some v => Ok v | None => Err EOutOfRange end.
Definition upd_event (e : Z) (f : Event → Event) (hp : gmap Z Event) : res (gmap Z Event) :=
  let* v := get_event hp e in Ok (<[e := f v]> hp).

(** [Event::insertBefore] returns the event, the new top. *)
Definition insertBefore (event : Z) (curr : option Z) (hp : gmap Z Event) : res (gmap Z Event) :=
  let* ev := get_event hp event in
  match curr with
  | None => upd_event event (with_links None None) hp
  | Some c =>
      let* cv := get_event hp c in
      if ev_lt ev cv then upd_event event (with_links curr None) hp
      else upd_event event (with_links (nextBin cv) curr) hp
  end.

(** The loop that looks for a bin; [fuel] bounds the length of the list. *)
Fixpoint find_bin (fuel : nat) (hp : gmap Z Event) (ev : Event) (prev : Z) (curr : option Z) : res (Z * option Z) :=
  match curr with
  | None => Ok (prev, None)
  | Some c =>
      match fuel with
      | O => Err (EFatal "loop")
      | S fuel =>
          let* cv := get_event hp c in
          if ev_lt cv ev then find_bin fuel hp ev c (nextBin cv) else Ok (prev, Some c)
      end
  end.

Definition eq_insert (event : Z) (q : EventQueue) : res EventQueue :=
  let* ev := get_event (events q) event in
  match head q with
  | None => let* hp := insertBefore event None (events q) in Ok (with_head q (Some event) hp)
  | Some h =>
      let* hv := get_event (events q) h in
      if ev_le ev hv then
        let* hp := insertBefore event (Some h) (events q) in Ok (with_head q (Some event) hp)
      else
        let* ' (prev, curr) := find_bin (size (events q)) (events q) ev h (nextBin hv) in
        let* hp := insertBefore event curr (events q) in
        let* hp := upd_event prev (set_nextBin (Some event)) hp in
        Ok (with_head q (head q) hp)
  end.

(** The search of [removeItem] below the top. *)
Fixpoint find_item (fuel : nat) (hp : gmap Z Event) (event curr : Z) (next : option Z) : res (Z * Z) :=
  match next with
  | None => Err (EPanic "event not found!")
  | Some n =>
      if n =? event then Ok (curr, n)
      else match fuel with
           | O => Err (EFatal "loop")
           | S fuel => let* nv := get_event hp n in find_item fuel hp event n (nextInBin nv)
           end
  end.

(** [Event::removeItem] returns the new top. *)
Definition removeItem (event top : Z) (hp : gmap Z Event) : res (option Z * gmap Z Event) :=
  let* tv := get_event hp top in
  if event =? top then
    match nextInBin tv with
    | None => Ok (nextBin tv, hp)
    | Some n => let* hp := upd_event n (set_nextBin (nextBin tv)) hp in Ok (Some n, hp)
    end
  else
    let* ' (curr, next) := find_item (size hp) hp event top (nextInBin tv) in
    let* nv := get_event hp next in
    let* hp := upd_event curr (set_nextInBin (nextInBin nv)) hp in
    Ok (Some top, hp).

Definition eq_remove (event : Z) (q : EventQueue) : res EventQueue :=
  match head q with
  | None => Err (EPanic "event not found!")
  | Some h =>
      let* hv := get_event (events q) h in
      let* ev := get_event (events q) event in
      let* _ := assert_ "event->queue == this" (ev_queue ev) in
      if ev_eq hv ev then
        let* ' (top, hp) := removeItem event h (events q) in Ok (with_head q top hp)
      else
        let* ' (prev, curr) := find_bin (size (events q)) (events q) ev h (nextBin hv) in
        match curr with
        | None => Err (EPanic "event not found!")
        | Some c =>
            let* cv := get_event (events q) c in
            if negb (ev_eq cv ev) then Err (EPanic "event not found!")
            else
              let* ' (top, hp) := removeItem event c (events q) in
              let* hp := upd_event prev (set_nextBin top) hp in
              Ok (with_head q (head q) hp)
        end
  end.

(** [Event::release]: a managed event that is not scheduled is deleted. *)
Definition release (event : Z) (q : EventQueue) : res EventQueue :=
  let* ev := get_event (events q) event in
  if isSet Managed (ev_flags ev) && negb (scheduled ev)
  then Ok (with_head q (head q) (delete event (events q))) else Ok q.

Definition upd_queue_event (event : Z) (f : Event → Event) (q : EventQueue) : res EventQueue :=
  let* hp := upd_event event f (events q) in Ok (with_head q (head q) hp).

Definition asyncInsert (event : Z) (q : EventQueue) : EventQueue :=
  {| head := head q; eq_curTick := eq_curTick q; async_queue := async_queue q ++ [event]; events := events q |}.

Definition handleAsyncInsertions (q : EventQueue) : res EventQueue :=
  let* q := fold_res eq_insert (async_queue q) q in
  Ok {| head := head q; eq_curTick := eq_curTick q; async_queue := []; events := events q |}.

(** [async] is [inParallelMode && (this != curEventQueue() || global)]. *)
Definition eq_schedule (async : bool) (event when_ : Z) (q : EventQueue) : res EventQueue :=
  let* _ := assert_ "when >= getCurTick()" (eq_curTick q <=? when_) in
  let* ev := get_event (events q) event in
  let* _ := assert_ "!event->scheduled()" (negb (scheduled ev)) in
  let* _ := assert_ "event->initialized()" (initialized ev) in
  let* q := upd_queue_event event (setWhen when_) q in
  let* q := (if async then Ok (asyncInsert event q) else eq_insert event q) in
  upd_queue_event event (set_flag Scheduled) q.

Definition eq_deschedule (event : Z) (q : EventQueue) : res EventQueue :=
  let* ev := get_event (events q) event in
  let* _ := assert_ "event->scheduled()" (scheduled ev) in
  let* _ := assert_ "event->initialized()" (initialized ev) in
  let* q := eq_remove event q in
  let* q := upd_queue_event event (clear_flag Squashed) q in
  let* q := upd_queue_event event (clear_flag Scheduled) q in
  release event q.

Definition eq_reschedule (always : bool) (event when_ : Z) (q : EventQueue) : res EventQueue :=
  let* _ := assert_ "when >= getCurTick()" (eq_curTick q <=? when_) in
  let* ev := get_event (events q) event in
  let* _ := assert_ "always || event->scheduled()" (always || scheduled ev) in
  let* _ := assert_ "event->initialized()" (initialized ev) in
  let* q := (if scheduled ev then eq_remove event q else Ok q) in
  let* q := upd_queue_event event (setWhen when_) q in
  let* q := eq_insert event q in
  let* q := upd_queue_event event (clear_flag Squashed) q in
  upd_queue_event event (set_flag Scheduled) q.

Definition nextTick (q : EventQueue) : res Z :=
  match head q with
  | Some h => let* hv := get_event (events q) h in Ok (ev_when hv)
  | None => Err EOutOfRange
  end.

Definition setCurTick (t : Z) (q : EventQueue) : EventQueue :=
  {| head := head q; eq_curTick := t; async_queue := async_queue q; events := events q |}.

(** The first half of [serviceOne]: the head is taken off. *)
Definition pop_head (q : EventQueue) : res (Z * EventQueue) :=
  match head q with
  | None => Err EOutOfRange
  | Some event =>
      let* q := upd_queue_event event (clear_flag Scheduled) q in
      let* ev := get_event (events q) event in
      match nextInBin ev with
      | Some n =>
          let* hp := upd_event n (set_nextBin (nextBin ev)) (events q) in
          Ok (event, with_head q (Some n) hp)
      | None => Ok (event, with_head q (nextBin ev) (events q))
      end
  end.

(** [EventQueue::serviceOne]; [process] is the virtual method of the events. The
    result is the event if it is an exit event. *)
Definition serviceOne (process : Z → EventQueue → res EventQueue) (q : EventQueue) : res (option Z * EventQueue) :=
  let* ' (event, q) := pop_head q in
  let* ev := get_event (events q) event in
  if negb (squashed ev) then
    let* q := process event (setCurTick (ev_when ev) q) in
    let* ev := get_event (events q) event in
    if isExitEvent ev then
      let* _ := assert_ "would be silly" (negb (isSet Managed (ev_flags ev)) || negb (isSet IsMainQueue (ev_flags ev))) in
      Ok (Some event, q)
    else let* q := release event q in Ok (None, q)
  else
    let* q := upd_queue_event event (clear_flag Squashed) q in
    let* q := release event q in
    Ok (None, q).

(** The loop of [doSimLoop], for [fuel] events; [None] if none of them was an
    exit event. *)
Fixpoint sim_loop (process : Z → EventQueue → res EventQueue) (fuel : nat) (q : EventQueue)
    : res (option Z * EventQueue) :=
  match fuel with
  | O => Ok (None, q)
  | S fuel =>
      let* _ := assert_ "!eventq->empty()" (bool_decide (is_Some (head q))) in
      let* t := nextTick q in
      let* _ := assert_ "event scheduled in the past" (eq_curTick q <=? t) in
      let* ' (exit_event, q) := serviceOne process q in
      match exit_event with
      | Some e => Ok (Some e, q)
      | None => sim_loop process fuel q
      end
  end.

(** The whole of [doSimLoop] for one queue. *)
Definition doSimLoop (process : Z → EventQueue → res EventQueue) (fuel : nat) (q : EventQueue)
    : res (option Z * EventQueue) :=
  let* q := handleAsyncInsertions q in sim_loop process fuel q.

(** ** Representation *)

Definition inlink (hp : gmap Z Event) (e : Z) : option (option Z) := nextInBin <$> hp !! e.
Definition binlink (hp : gmap Z Event) (e : Z) : option (option Z) := nextBin <$> hp !! e.

(** What an event is apart from its links: time, priority, flags, queue. *)
Definition body (hp : gmap Z Event) (e : Z) : option (Z * Z * Z * bool) :=
  (fun v => (ev_when v, ev_priority v, ev_flags v, ev_queue v)) <$> hp !! e.
Definition key (hp : gmap Z Event) (e : Z) : Z * Z :=
  match body hp e with Some (t, p, _, _) => (t, p) | None => (0, 0) end.

(** The lexicographic order of times and priorities. *)
Definition klt (a b : Z * Z) : bool := (fst a <? fst b) || ((fst a =? fst b) && (snd a <? snd b)).

Lemma klt_spec a b : klt a b = true ↔ fst a < fst b ∨ (fst a = fst b ∧ snd a < snd b).
Proof. unfold klt. rewrite orb_true_iff, andb_true_iff, !Z.ltb_lt, Z.eqb_eq. done. Qed.

Lemma klt_false a b : klt a b = false ↔ fst b < fst a ∨ (fst a = fst b ∧ snd b ≤ snd a).
Proof. rewrite <-not_true_iff_false, klt_spec. lia. Qed.

Lemma klt_trans a b c : klt a b = true → klt b c = true → klt a c = true.
Proof. rewrite !klt_spec. lia. Qed.

Lemma klt_antisym a b : klt a b = false → klt b a = false → a = b.
Proof. rewrite !klt_false. destruct a, b. simpl. intros ? ?. f_equal; lia. Qed.

Lemma body_key hp e v : hp !! e = Some v → key hp e = (ev_when v, ev_priority v).
Proof. intros H. unfold key, body. by rewrite H. Qed.

Lemma ev_lt_klt hp a b va vb : hp !! a = Some va → hp !! b = Some vb → ev_lt va vb = klt (key hp a) (key hp b).
Proof. intros Ha Hb. by rewrite (body_key _ _ _ Ha), (body_key _ _ _ Hb). Qed.

Lemma ev_le_klt hp a b va vb : hp !! a = Some va → hp !! b = Some vb → ev_le va vb = negb (klt (key hp b) (key hp a)).
Proof.
  intros Ha Hb. rewrite (body_key _ _ _ Ha), (body_key _ _ _ Hb). unfold ev_le, klt. simpl.
  repeat zcase; simpl; lia.
Qed.

Lemma ev_eq_klt hp a b va vb :
  hp !! a = Some va → hp !! b = Some vb → ev_eq va vb = bool_decide (key hp a = key hp b).
Proof.
  intros Ha Hb. rewrite (body_key _ _ _ Ha), (body_key _ _ _ Hb). unfold ev_eq.
  destruct (Z.eqb_spec (ev_when va) (ev_when vb)), (Z.eqb_spec (ev_priority va) (ev_priority vb)); simpl;
    symmetry; (apply bool_decide_eq_true_2 || apply bool_decide_eq_false_2); congruence.
Qed.

(** A stack linked by [nextInBin]. *)
Fixpoint stack (hp : gmap Z Event) (p : option Z) (l : list Z) : Prop :=
  match l with
  | [] => p = None
  | e :: l => p = Some e ∧ ∃ n, inlink hp e = Some n ∧ stack hp n l
  end.

(** A segment of bins linked by [nextBin], from [p] to [q]. *)
Fixpoint seg (hp : gmap Z Event) (p : option Z) (bs : list (list Z)) (q : option Z) : Prop :=
  match bs with
  | [] => p = q
  | b :: bs => ∃ t r n m, b = t :: r ∧ p = Some t ∧ inlink hp t = Some n ∧ stack hp n r ∧
      binlink hp t = Some m ∧ seg hp m bs q
  end.

Lemma stack_ext hp hp' p l : (∀ e, e ∈ l → inlink hp' e = inlink hp e) → stack hp p l → stack hp' p l.
Proof.
  revert p. induction l as [|e l IH]; intros p Hf; simpl; [done|]. intros [-> (n & Hn & Hs)].
  split; [done|]. exists n. split; [rewrite Hf; [done|by left]|]. apply IH; [|done]. intros x Hx. apply Hf. by right.
Qed.

Lemma seg_ext hp hp' p bs q :
  (∀ e, e ∈ concat bs → inlink hp' e = inlink hp e ∧ binlink hp' e = binlink hp e) → seg hp p bs q → seg hp' p bs q.
Proof.
  revert p. induction bs as [|b bs IH]; intros p Hf; simpl; [done|].
  intros (t & r & n & m & -> & -> & Hn & Hs & Hm & Hseg). simpl in Hf.
  destruct (Hf t) as [H1 H2]; [by left|].
  exists t, r, n, m. split_and!; [done|done|by rewrite H1| |by rewrite H2|].
  - eapply stack_ext; [|done]. intros x Hx. apply Hf. right. apply elem_of_app. by left.
  - apply IH; [|done]. intros x Hx. apply Hf. right. apply elem_of_app. by right.
Qed.

Lemma seg_app hp p bs cs q : seg hp p (bs ++ cs) q ↔ ∃ m, seg hp p bs m ∧ seg hp m cs q.
Proof.
  revert p. induction bs as [|b bs IH]; intros p; simpl; [naive_solver|]. split.
  - intros (t & r & n & m & -> & -> & Hn & Hs & Hm & (m' & H1 & H2)%IH). exists m'. split; [|done].
    exists t, r, n, m. done.
  - intros (m' & (t & r & n & m & -> & -> & Hn & Hs & Hm & H1) & H2).
    exists t, r, n, m. split_and!; try done. apply IH. eauto.
Qed.

(** Changing the link of the last bin. *)
Lemma seg_relink hp hp' p pre t r q q' :
  seg hp p (pre ++ [t :: r]) q →
  (∀ e, e ∈ concat pre → inlink hp' e = inlink hp e ∧ binlink hp' e = binlink hp e) →
  (∀ e, e ∈ t :: r → inlink hp' e = inlink hp e) → binlink hp' t = Some q' → seg hp' p (pre ++ [t :: r]) q'.
Proof.
  rewrite !seg_app. intros (m & H1 & H2) Hpre Htr Ht. exists m. split; [by eapply seg_ext|].
  simpl in H2 |- *. destruct H2 as (t' & r' & n & m' & [= <- <-] & -> & Hn & Hs & Hm & ->).
  exists t, r, n, q'. split_and!; [done|done|rewrite Htr; [done|by left]| |done|done].
  eapply stack_ext; [|done]. intros x Hx. apply Htr. by right.
Qed.

(** The keys: equal within a bin, increasing from bin to bin. *)
Definition bkey (hp : gmap Z Event) (b : list Z) : Z * Z := key hp (List.hd 0 b).
Record ordered (hp : gmap Z Event) (bs : list (list Z)) : Prop := {
  ord_bins b e : b ∈ bs → e ∈ b → key hp e = bkey hp b;
  ord_sorted : StronglySorted (fun b c => klt (bkey hp b) (bkey hp c) = true) bs
}.

(** The queue holds the events of [bs], bin by bin. *)
Record eq_repr (q : EventQueue) (bs : list (list Z)) : Prop := {
  er_seg : seg (events q) (head q) bs None;
  er_nodup : NoDup (concat bs);
  er_ordered : ordered (events q) bs
}.

(** ** Helper lemmas *)

Lemma stack_some hp p l e : stack hp p l → e ∈ l → ∃ v, hp !! e = Some v.
Proof.
  revert p. induction l as [|x l IH]; intros p; simpl; [by intros _ ?%elem_of_nil|].
  intros [-> (n & Hn & Hs)] [->|He]%elem_of_cons; [|by eapply IH].
  unfold inlink in Hn. destruct (hp !! x); [eauto|done].
Qed.

Lemma seg_some hp p bs q e : seg hp p bs q → e ∈ concat bs → ∃ v, hp !! e = Some v.
Proof.
  revert p. induction bs as [|b bs IH]; intros p; simpl; [by intros _ ?%elem_of_nil|].
  intros (t & r & n & m & -> & -> & Hn & Hs & Hm & Hseg). simpl. intros [->|[He|He]%elem_of_app]%elem_of_cons.
  - unfold inlink in Hn. destruct (hp !! t); [eauto|done].
  - by eapply stack_some.
  - by eapply IH.
Qed.

Lemma seg_nonempty hp p bs q b : seg hp p bs q → b ∈ bs → b ≠ [].
Proof.
  revert p. induction bs as [|c bs IH]; intros p; simpl; [by intros _ ?%elem_of_nil|].
  intros (t & r & n & m & -> & _ & _ & _ & _ & Hseg) [->|Hb]%elem_of_cons; [done|by eapply IH].
Qed.

(** The first bin of a segment. *)
Lemma seg_cons hp p b bs q :
  seg hp p (b :: bs) q → ∃ t r v, b = t :: r ∧ p = Some t ∧ hp !! t = Some v ∧ stack hp (nextInBin v) r ∧
    seg hp (nextBin v) bs q.
Proof.
  simpl. intros (t & r & n & m & -> & -> & Hn & Hs & Hm & Hseg). unfold inlink, binlink in *.
  destruct (hp !! t) as [v|] eqn:E; [|done]. simplify_eq/=. eauto 10.
Qed.

Lemma seg_cons_intro hp t r v bs q :
  hp !! t = Some v → stack hp (nextInBin v) r → seg hp (nextBin v) bs q → seg hp (Some t) ((t :: r) :: bs) q.
Proof.
  intros Hv Hs Hseg. exists t, r, (nextInBin v), (nextBin v). unfold inlink, binlink. by rewrite Hv.
Qed.

(** The store is large enough to bound the loops. *)
Lemma fuel_enough (hp : gmap Z Event) (l : list Z) :
  NoDup l → (∀ e, e ∈ l → ∃ v, hp !! e = Some v) → (length l ≤ size hp)%nat.
Proof.
  intros Hnd Hl. rewrite <-size_dom, <-(size_list_to_set (C := gset Z) l Hnd).
  apply subseteq_size. intros e. rewrite elem_of_list_to_set, elem_of_dom. apply Hl.
Qed.

Lemma length_concat_bins hp p bs q : seg hp p bs q → (length bs ≤ length (concat bs))%nat.
Proof.
  revert p. induction bs as [|b bs IH]; intros p; simpl; [lia|].
  intros (t & r & n & m & -> & _ & _ & _ & _ & Hseg%IH). simpl. rewrite length_app. lia.
Qed.

(** Two stores that differ in pointers only. *)
Definition same_bodies (hp hp' : gmap Z Event) : Prop := ∀ e, body hp' e = body hp e.

#[export] Instance same_bodies_equiv : Equivalence same_bodies.
Proof. split; [by intros hp e|by intros h1 h2 H e|]. intros h1 h2 h3 H1 H2 e. by rewrite H2, H1. Qed.

Lemma same_bodies_key hp hp' e : same_bodies hp hp' → key hp' e = key hp e.
Proof. intros H. unfold key. by rewrite H. Qed.

Lemma insert_links_bodies hp e v b i : hp !! e = Some v → same_bodies hp (<[e := with_links b i v]> hp).
Proof.
  intros Hv x. unfold body. destruct (decide (x = e)) as [->|]; [by rewrite lookup_insert_eq, Hv|].
  by rewrite lookup_insert_ne.
Qed.

Lemma ordered_ext hp hp' bs : same_bodies hp hp' → ordered hp bs → ordered hp' bs.
Proof.
  intros Hb [H1 H2]. split.
  - intros b e Hin He. unfold bkey. rewrite !(same_bodies_key _ _ _ Hb). by apply H1.
  - clear H1. induction H2 as [|b bs Hs IH Hf]; constructor; [done|].
    eapply Forall_impl; [exact Hf|]. intros c. unfold bkey. by rewrite !(same_bodies_key _ _ _ Hb).
Qed.

(** Only the keys of the events of the bins matter. *)
Lemma ordered_keys hp hp' bs :
  (∀ e, e ∈ concat bs → key hp' e = key hp e) → ordered hp bs → (∀ b, b ∈ bs → b ≠ []) → ordered hp' bs.
Proof.
  intros Hk Ho Hne. assert (∀ b e, b ∈ bs → e ∈ b → key hp' e = key hp e) as Hk'.
  { intros b e Hb He. apply Hk. rewrite list_elem_of_In, in_concat. exists b. by rewrite <-!list_elem_of_In. }
  assert (∀ b, b ∈ bs → bkey hp' b = bkey hp b) as Hbk.
  { intros [|x b] Hb; [by destruct (Hne [])|]. apply (Hk' (x :: b)); [done|]. by left. }
  destruct Ho as [H1 H2]. split.
  - intros b e Hb He. rewrite Hbk, (Hk' b e) by done. by apply H1.
  - clear Hk Hk' H1 Hne. induction H2 as [|b bs Hs IH Hf]; constructor.
    + apply IH. intros c Hc. apply Hbk. by right.
    + apply Forall_forall. rewrite Forall_forall in Hf. intros c Hc.
      rewrite (Hbk b), (Hbk c) by (by left || by right). by apply Hf.
Qed.

(** ** Insertion *)

(** The specification on bins: below the bins with smaller keys, on top of the
    bin with the same key if there is one. *)
Definition bins_cons (hp : gmap Z Event) (e : Z) (bs : list (list Z)) : list (list Z) :=
  match bs with
  | [] => [[e]]
  | b :: bs' => if klt (key hp e) (bkey hp b) then [e] :: bs else (e :: b) :: bs'
  end.

Fixpoint bins_insert (hp : gmap Z Event) (e : Z) (bs : list (list Z)) : list (list Z) :=
  match bs with
  | [] => bins_cons hp e []
  | b :: bs' => if klt (bkey hp b) (key hp e) then b :: bins_insert hp e bs' else bins_cons hp e bs
  end.

Lemma insertBefore_spec hp e curr bs ev :
  hp !! e = Some ev → seg hp curr bs None → e ∉ concat bs →
  ∃ hp' v', insertBefore e curr hp = Ok hp' ∧ hp' = <[e := v']> hp ∧ same_bodies hp hp' ∧
    seg hp' (Some e) (bins_cons hp e bs) None.
Proof.
  intros Hev Hseg Hni. unfold insertBefore, upd_event, get_event. rewrite Hev. cbn [rbind].
  assert (∀ v', seg (<[e := v']> hp) curr bs None) as Hframe.
  { intros v'. eapply seg_ext; [|exact Hseg]. intros x Hx. unfold inlink, binlink.
    by rewrite lookup_insert_ne by (intros <-; done). }
  destruct bs as [|b bs].
  - simpl in Hseg. subst curr. eexists _, _. split; [done|]. split; [done|].
    split; [by apply insert_links_bodies|]. eapply seg_cons_intro; [apply lookup_insert_eq|done|done].
  - pose proof Hseg as (t & r & tv & -> & -> & Ht & Hst & Hrest)%seg_cons. rewrite Ht. cbn [rbind].
    rewrite (ev_lt_klt hp e t ev tv) by done. unfold bins_cons, bkey. simpl List.hd.
    destruct (klt (key hp e) (key hp t)).
    + eexists _, _. split; [done|]. split; [done|]. split; [by apply insert_links_bodies|].
      eapply seg_cons_intro; [apply lookup_insert_eq|done|]. apply Hframe.
    + eexists _, _. split; [done|]. split; [done|]. split; [by apply insert_links_bodies|].
      specialize (Hframe (with_links (nextBin tv) (Some t) ev)).
      apply seg_cons in Hframe as (t' & r' & v' & [= <- <-] & _ & Hv' & Hs' & Hg').
      eapply seg_cons_intro; [apply lookup_insert_eq| |].
      * simpl. split; [done|]. exists (nextInBin v'). split; [unfold inlink; by rewrite Hv'|done].
      * simpl. rewrite lookup_insert_ne in Hv' by (intros ->; apply Hni; by left). by simplify_eq.
Qed.

(** The search stops at the first bin whose key is not smaller. *)
Lemma find_bin_spec hp e ev prev curr bs fuel :
  hp !! e = Some ev → seg hp curr bs None → (length bs ≤ fuel)%nat →
  ∃ p1 p2 prev' curr', bs = p1 ++ p2 ∧ find_bin fuel hp ev prev curr = Ok (prev', curr') ∧
    seg hp curr p1 curr' ∧ seg hp curr' p2 None ∧
    Forall (fun b => klt (bkey hp b) (key hp e) = true) p1 ∧
    match p2 with [] => True | b :: _ => klt (bkey hp b) (key hp e) = false end ∧
    prev' = List.hd 0 (List.last p1 [prev]).
Proof.
  intros Hev. revert prev curr fuel. induction bs as [|b bs IH]; intros prev curr fuel Hseg Hfuel.
  - simpl in Hseg. subst curr. exists [], [], prev, None. by destruct fuel.
  - destruct fuel as [|fuel]; [simpl in Hfuel; lia|].
    pose proof Hseg as (t & r & tv & -> & -> & Ht & Hst & Hrest)%seg_cons.
    cbn [find_bin]. unfold get_event. rewrite Ht. cbn [rbind]. rewrite (ev_lt_klt hp t e tv ev) by done.
    destruct (klt (key hp t) (key hp e)) eqn:Ek.
    + destruct (IH t (nextBin tv) fuel) as (p1 & p2 & prev' & curr' & -> & Hf & H1 & H2 & Hall & Hhd & Hp);
        [done|simpl in Hfuel; lia|].
      exists ((t :: r) :: p1), p2, prev', curr'. split_and!; try done.
      * by eapply seg_cons_intro.
      * constructor; done.
      * rewrite Hp. destruct p1 as [|b p1]; [done|]. destruct (exists_last (l := b :: p1)) as (l & x & ->); [done|].
        by rewrite app_comm_cons, !last_last.
    + exists [], ((t :: r) :: bs), prev, (Some t). split_and!; done.
Qed.

Lemma bins_insert_app hp e p1 p2 :
  Forall (fun b => klt (bkey hp b) (key hp e) = true) p1 →
  match p2 with [] => True | b :: _ => klt (bkey hp b) (key hp e) = false end →
  bins_insert hp e (p1 ++ p2) = p1 ++ bins_cons hp e p2.
Proof.
  intros Hall Hhd. induction Hall as [|b p1 Hb Hall IH]; simpl.
  - destruct p2 as [|b p2]; [done|]. simpl. by rewrite Hhd.
  - by rewrite Hb, IH.
Qed.

Lemma elem_of_bins_cons hp e bs x : x ∈ concat (bins_cons hp e bs) ↔ x = e ∨ x ∈ concat bs.
Proof.
  unfold bins_cons. destruct bs as [|b bs]; [|destruct (klt _ _)]; simpl; rewrite elem_of_cons, ?elem_of_nil; tauto.
Qed.

Lemma NoDup_bins_cons hp e bs : e ∉ concat bs → NoDup (concat bs) → NoDup (concat (bins_cons hp e bs)).
Proof.
  intros He Hnd. unfold bins_cons. destruct bs as [|b bs]; [by apply NoDup_singleton|].
  destruct (klt (key hp e) (bkey hp b)); simpl; by apply NoDup_cons.
Qed.

(** The last bin of the part before the insertion point starts with [prev]. *)
Lemma last_bin hp p h r p1 q :
  seg hp p ((h :: r) :: p1) q →
  ∃ pre r', (h :: r) :: p1 = pre ++ [List.hd 0 (List.last p1 [h]) :: r'].
Proof.
  intros Hseg. destruct (exists_last (l := (h :: r) :: p1)) as (pre & b & E); [done|].
  assert (b ≠ []) as Hb by (eapply seg_nonempty; [exact Hseg|]; rewrite E; apply elem_of_app; right; by left).
  destruct b as [|t r']; [done|]. exists pre, r'. rewrite E. do 2 f_equal.
  destruct p1 as [|c p1]; [by destruct pre as [|? [|]]; simplify_eq/=|].
  assert (List.last ((h :: r) :: c :: p1) [h] = t :: r') as El by (rewrite E; apply last_last).
  change (List.last (c :: p1) [h] = t :: r') in El. by rewrite El.
Qed.

(** Setting the [nextBin] of the last bin before a segment joins the two. *)
Lemma seg_join hp h r p1 p2 curr curr' :
  let prev := List.hd 0 (List.last p1 [h]) in
  seg hp (Some h) ((h :: r) :: p1) curr' → seg hp curr p2 None → NoDup (concat ((h :: r) :: p1) ++ concat p2) →
  ∃ v, hp !! prev = Some v ∧ seg (<[prev := set_nextBin curr v]> hp) (Some h) ((h :: r) :: p1 ++ p2) None.
Proof.
  intros prev H1 H2 Hnd. destruct (last_bin _ _ _ _ _ _ H1) as (pre & r' & E). fold prev in E. rewrite E in H1, Hnd.
  assert (prev ∈ concat (pre ++ [prev :: r'])) as Hin by (rewrite concat_app, elem_of_app; right; by left).
  destruct (seg_some _ _ _ _ _ H1 Hin) as [v Hv]. exists v. split; [done|].
  rewrite concat_app in Hnd. simpl in Hnd. rewrite app_nil_r in Hnd.
  apply NoDup_app in Hnd as (Hnd & Hdis & _). apply NoDup_app in Hnd as (_ & Hdis2 & _).
  assert (∀ x, x ≠ prev → <[prev := set_nextBin curr v]> hp !! x = hp !! x) as Hne
    by (intros; by apply lookup_insert_ne).
  change ((h :: r) :: p1 ++ p2) with (((h :: r) :: p1) ++ p2). rewrite E, seg_app. exists curr. split.
  - eapply seg_relink; [exact H1|..].
    + intros x Hx. unfold inlink, binlink. rewrite Hne; [done|]. intros ->. apply (Hdis2 prev Hx). by left.
    + intros x Hx. unfold inlink. destruct (decide (x = prev)) as [->|]; [|by rewrite Hne].
      by rewrite lookup_insert_eq, Hv.
    + unfold binlink. by rewrite lookup_insert_eq.
  - eapply seg_ext; [|exact H2]. intros x Hx. unfold inlink, binlink. rewrite Hne; [done|]. intros ->.
    apply (Hdis prev); [|done]. apply elem_of_app. right. by left.
Qed.

Lemma eq_insert_seg q bs e ev :
  seg (events q) (head q) bs None → NoDup (concat bs) → events q !! e = Some ev → e ∉ concat bs →
  ∃ h' hp', eq_insert e q = Ok (with_head q h' hp') ∧ same_bodies (events q) hp' ∧
    seg hp' h' (bins_insert (events q) e bs) None.
Proof.
  intros Hseg Hnd Hev Hni. unfold eq_insert, get_event. rewrite Hev. cbn [rbind].
  destruct bs as [|b bs].
  { simpl in Hseg. rewrite Hseg. destruct (insertBefore_spec _ e None [] ev Hev) as (hp' & v' & -> & _ & Hb & Hs); [done..|].
    cbn [rbind]. eauto. }
  pose proof Hseg as (h & r & hv & -> & Hh & Hhv & Hst & Hrest)%seg_cons. rewrite Hh, Hhv. cbn [rbind].
  rewrite (ev_le_klt (events q) e h ev hv) by done. cbn [bins_insert]. unfold bkey at 1. simpl List.hd.
  destruct (klt (key (events q) h) (key (events q) e)) eqn:Ek; cbn [negb].
  - assert (NoDup (concat bs)) as Hnd' by (simpl in Hnd; apply NoDup_cons in Hnd as [_ Hnd]; by apply NoDup_app in Hnd as (_ & _ & ?)).
    destruct (find_bin_spec (events q) e ev h (nextBin hv) bs (size (events q)))
      as (p1 & p2 & prev & curr & -> & -> & H1 & H2 & Hall & Hhd & ->); [done|done| |].
    { etrans; [by eapply length_concat_bins|]. apply fuel_enough; [done|]. intros x. by eapply seg_some. }
    cbn [rbind]. rewrite bins_insert_app by done.
    simpl in Hnd, Hni. rewrite concat_app in Hnd, Hni.
    destruct (insertBefore_spec _ e curr p2 ev Hev H2) as (hp1 & v1 & -> & -> & Hb1 & Hs1).
    { intros Hx. apply Hni. right. rewrite !elem_of_app. tauto. }
    cbn [rbind]. unfold upd_event, get_event.
    destruct (seg_join (<[e := v1]> (events q)) h r p1 (bins_cons (events q) e p2) (Some e) curr)
      as (v & Hv & Hjoin).
    + eapply (seg_ext (events q)); [|by eapply seg_cons_intro]. intros x Hx. unfold inlink, binlink.
      rewrite lookup_insert_ne; [done|]. intros <-. apply Hni. simpl in Hx.
      apply elem_of_cons in Hx as [->|Hx]; [by left|]. right. rewrite !elem_of_app in *. tauto.
    + done.
    + apply NoDup_app. simpl. change (h :: r ++ concat p1 ++ concat p2) with ((h :: r) ++ concat p1 ++ concat p2) in *.
      rewrite app_assoc in Hnd. apply NoDup_app in Hnd as (Ha & Hdis & Hc). split_and!; [done|..].
      * intros x Hx [->|Hx2]%elem_of_bins_cons; [|by apply (Hdis x)].
        apply Hni. apply elem_of_cons in Hx as [->|Hx]; [by left|]. right. rewrite !elem_of_app in *. tauto.
      * assert (e ∉ concat p2) as He by (intros Hx; apply Hni; right; rewrite !elem_of_app; tauto).
        by apply NoDup_bins_cons.
    + rewrite Hv. cbn [rbind]. eexists _, _. split; [done|]. split; [|exact Hjoin].
      etrans; [exact Hb1|]. by apply insert_links_bodies.
  - destruct (insertBefore_spec _ e (Some h) ((h :: r) :: bs) ev Hev) as (hp' & v' & -> & _ & Hb & Hs);
      [by rewrite <-Hh|done|].
    cbn [rbind]. eauto.
Qed.

(** ** The queue as a sorted list *)

(** The abstract insertion: before the first event that is not earlier. *)
Fixpoint list_insert (k : Z → Z * Z) (e : Z) (l : list Z) : list Z :=
  match l with
  | [] => [e]
  | x :: l' => if klt (k x) (k e) then x :: list_insert k e l' else e :: l
  end.

Lemma ordered_cons hp b bs :
  ordered hp (b :: bs) ↔
  (∀ e, e ∈ b → key hp e = bkey hp b) ∧ Forall (fun c => klt (bkey hp b) (bkey hp c) = true) bs ∧ ordered hp bs.
Proof.
  split.
  - intros [H1 H2]. apply StronglySorted_inv in H2 as [H2 H3]. split_and!; [|done|split; [|done]].
    + intros e. apply H1. by left.
    + intros c e Hc. apply H1. by right.
  - intros (H1 & H2 & [H3 H4]). split; [|by constructor].
    intros c e [->|Hc]%elem_of_cons; [by apply H1|by apply H3].
Qed.

Lemma list_insert_app k e l1 l2 :
  Forall (fun x => klt (k x) (k e) = true) l1 → list_insert k e (l1 ++ l2) = l1 ++ list_insert k e l2.
Proof. induction 1 as [|x l1 Hx _ IH]; simpl; [done|]. by rewrite Hx, IH. Qed.

Lemma concat_bins_insert hp e bs :
  ordered hp bs → (∀ b, b ∈ bs → b ≠ []) → concat (bins_insert hp e bs) = list_insert (key hp) e (concat bs).
Proof.
  induction bs as [|b bs IH]; intros Ho Hne; [done|]. apply ordered_cons in Ho as (Hb & _ & Ho). simpl.
  destruct (klt (bkey hp b) (key hp e)) eqn:Ek.
  - rewrite list_insert_app; [|apply Forall_forall; intros x Hx; by rewrite Hb].
    simpl. f_equal. apply IH; [done|]. intros c Hc. apply Hne. by right.
  - destruct b as [|t r]; [by destruct (Hne []); [left|]|]. unfold bkey in *. simpl in *. rewrite Ek.
    by destruct (klt (key hp e) (key hp t)).
Qed.

Lemma bins_insert_keys hp e bs c :
  c ∈ bins_insert hp e bs → bkey hp c = key hp e ∨ c ∈ bs.
Proof.
  induction bs as [|b bs IH]; simpl; [intros ->%list_elem_of_singleton; by left|].
  destruct (klt (bkey hp b) (key hp e)).
  - intros [->|Hc%IH]%elem_of_cons; [right; by left|]. destruct Hc; [by left|right; by right].
  - destruct (klt (key hp e) (bkey hp b)); intros [->|Hc]%elem_of_cons; [by left|by right|by left|right; by right].
Qed.

Lemma bins_insert_ordered hp e bs : ordered hp bs → ordered hp (bins_insert hp e bs).
Proof.
  induction bs as [|b bs IH]; intros Ho.
  { apply ordered_cons. split_and!; [by intros x ->%list_elem_of_singleton|done|done]. }
  apply ordered_cons in Ho as (Hb & Hall & Ho). simpl. rewrite Forall_forall in Hall.
  destruct (klt (bkey hp b) (key hp e)) eqn:E1.
  - apply ordered_cons. split_and!; [done| |by apply IH]. apply Forall_forall.
    intros c [-> |Hc]%bins_insert_keys; [done|by apply Hall].
  - destruct (klt (key hp e) (bkey hp b)) eqn:E2; apply ordered_cons.
    + split_and!; [by intros x ->%list_elem_of_singleton| |].
      * constructor; [done|]. apply Forall_forall. intros c Hc. eapply klt_trans; [exact E2|]. by apply Hall.
      * apply ordered_cons. split_and!; [done|by apply Forall_forall|done].
    + assert (key hp e = bkey hp b) as Ee by by apply klt_antisym.
      split_and!; [| |done].
      * intros x [->|Hx]%elem_of_cons; [done|]. change (bkey hp (e :: b)) with (key hp e). rewrite Ee. by apply Hb.
      * apply Forall_forall. intros c Hc. change (bkey hp (e :: b)) with (key hp e). rewrite Ee. by apply Hall.
Qed.

Lemma list_insert_perm k e l : list_insert k e l ≡ₚ e :: l.
Proof.
  induction l as [|x l IH]; simpl; [done|]. destruct (klt (k x) (k e)); [|done].
  rewrite IH. apply Permutation_swap.
Qed.

(** Insertion refines the abstract insertion. *)
Lemma eq_insert_repr q bs e ev :
  eq_repr q bs → events q !! e = Some ev → e ∉ concat bs →
  ∃ h' hp' bs', eq_insert e q = Ok (with_head q h' hp') ∧ same_bodies (events q) hp' ∧
    eq_repr (with_head q h' hp') bs' ∧ concat bs' = list_insert (key (events q)) e (concat bs).
Proof.
  intros [Hseg Hnd Ho] Hev Hni.
  destruct (eq_insert_seg q bs e ev Hseg Hnd Hev Hni) as (h' & hp' & Hrun & Hb & Hs).
  assert (concat (bins_insert (events q) e bs) = list_insert (key (events q)) e (concat bs)) as Ec.
  { apply concat_bins_insert; [done|]. intros b. by eapply seg_nonempty. }
  exists h', hp', (bins_insert (events q) e bs). split_and!; [done|done| |done]. split; simpl; [done| |].
  - rewrite Ec, list_insert_perm. by apply NoDup_cons.
  - eapply ordered_ext; [done|]. by apply bins_insert_ordered.
Qed.

(** ** Removal *)

Definition without (e : Z) (l : list Z) : list Z := filter (fun x => x ≠ e) l.

Lemma without_id e l : e ∉ l → without e l = l.
Proof.
  unfold without. induction l as [|x l IH]; intros He; [done|].
  rewrite filter_cons_True by (intros ->; apply He; by left).
  f_equal. apply IH. intros Hl. apply He. by right.
Qed.

Lemma without_cons_eq e l : without e (e :: l) = without e l.
Proof. unfold without. rewrite filter_cons_False; [done|]. intros H. by apply H. Qed.
Lemma without_cons_ne e x l : x ≠ e → without e (x :: l) = x :: without e l.
Proof. intros. unfold without. by rewrite filter_cons_True. Qed.

Lemma elem_of_without e l x : x ∈ without e l ↔ x ≠ e ∧ x ∈ l.
Proof. unfold without. by rewrite list_elem_of_filter. Qed.

(** Unlinking an event from below a given one. *)
Lemma find_item_spec hp e l : ∀ fuel curr p,
  inlink hp curr = Some p → stack hp p l → e ∈ l → NoDup (curr :: l) → (length l ≤ fuel)%nat →
  ∃ curr' v nv, find_item fuel hp e curr p = Ok (curr', e) ∧ hp !! curr' = Some v ∧ hp !! e = Some nv ∧
    curr' ∈ curr :: l ∧
    let hp' := <[curr' := set_nextInBin (nextInBin nv) v]> hp in
    ∃ p', inlink hp' curr = Some p' ∧ stack hp' p' (without e l).
Proof.
  induction l as [|x l IH]; intros fuel curr p Hcurr Hst He Hnd Hfuel; [by apply elem_of_nil in He|].
  destruct Hst as [-> (n & Hn & Hst)]. apply NoDup_cons in Hnd as [Hcx Hnd].
  pose proof Hnd as [Hxl Hnd']%NoDup_cons. unfold inlink in Hcurr, Hn.
  destruct (hp !! curr) as [cv|] eqn:Ec; [|done]. destruct (hp !! x) as [xv|] eqn:Ex; [|done]. simplify_eq/=.
  destruct fuel as [|fuel]; [simpl in Hfuel; lia|]. simpl. destruct (Z.eqb_spec x e) as [->|Hne].
  - exists curr, cv, xv. split_and!; [done|done|done|by left|]. exists (nextInBin xv).
    unfold inlink. rewrite lookup_insert_eq. split; [done|]. rewrite without_cons_eq, without_id by done.
    eapply stack_ext; [|exact Hst]. intros y Hy. unfold inlink. rewrite lookup_insert_ne; [done|].
    intros <-. apply Hcx. by right.
  - apply elem_of_cons in He as [?|He]; [done|]. unfold get_event. rewrite Ex. cbn [rbind].
    destruct (IH fuel x (nextInBin xv)) as (curr' & v & nv & -> & Hv & Hnv & Hin & p' & Hp' & Hst');
      [unfold inlink; by rewrite Ex|done|done|done|simpl in Hfuel; lia|].
    exists curr', v, nv. split_and!; [done|done|done|by right|]. exists (Some x). split.
    + unfold inlink. rewrite lookup_insert_ne by (intros ->; done). rewrite Ec. simpl. by f_equal.
    + rewrite without_cons_ne by done. simpl. split; [done|]. eauto.
Qed.

(** The bins without [e]. *)
Definition bin_del (e : Z) (b : list Z) (post : list (list Z)) : list (list Z) :=
  match without e b with [] => post | b' => b' :: post end.

Lemma removeItem_spec hp e t r post :
  seg hp (Some t) ((t :: r) :: post) None → NoDup ((t :: r) ++ concat post) → e ∈ t :: r →
  ∃ top hp', removeItem e t hp = Ok (top, hp') ∧ same_bodies hp hp' ∧
    (∀ x, x ∉ t :: r → hp' !! x = hp !! x) ∧ seg hp' top (bin_del e (t :: r) post) None.
Proof.
  intros Hseg Hnd He. pose proof Hseg as (t' & r' & tv & [= <- <-] & _ & Ht & Hst & Hpost)%seg_cons.
  apply NoDup_app in Hnd as (Hnd & Hdis & _). pose proof Hnd as [Htr Hndr]%NoDup_cons.
  assert (∀ hp', (∀ x, x ∉ t :: r → hp' !! x = hp !! x) → seg hp' (nextBin tv) post None) as Hfr.
  { intros hp' Hx. eapply seg_ext; [|exact Hpost]. intros y Hy. unfold inlink, binlink.
    rewrite Hx; [done|]. intros Hy'. by apply (Hdis y). }
  unfold removeItem, get_event. rewrite Ht. cbn [rbind]. unfold bin_del.
  destruct (Z.eqb_spec e t) as [->|Hne].
  - rewrite without_cons_eq, without_id by done. destruct r as [|n r].
    + simpl in Hst. rewrite Hst. exists (nextBin tv), hp. split_and!; [done|done|done|by apply Hfr].
    + destruct Hst as [-> (n' & Hn & Hst)]. unfold inlink in Hn. unfold upd_event, get_event.
      destruct (hp !! n) as [nv|] eqn:En; [|done]. simplify_eq/=. eexists _, _. split; [done|].
      apply NoDup_cons in Hndr as [Hnr _].
      split; [by apply insert_links_bodies|]. split.
      * intros x Hx. apply lookup_insert_ne. intros <-. apply Hx. right. by left.
      * eapply seg_cons_intro; [apply lookup_insert_eq| |].
        -- simpl. eapply stack_ext; [|exact Hst]. intros y Hy. unfold inlink.
           by rewrite lookup_insert_ne by (intros <-; done).
        -- simpl. apply Hfr. intros x Hx. apply lookup_insert_ne. intros <-. apply Hx. right. by left.
  - apply elem_of_cons in He as [?|He]; [done|].
    destruct (find_item_spec hp e r (size hp) t (nextInBin tv)) as (curr & v & nv & Hf & Hv & Hnv & Hin & p' & Hp' & Hst');
      [unfold inlink; by rewrite Ht|done|done|done| |].
    { apply fuel_enough; [done|]. intros x. by eapply stack_some. }
    rewrite Hf. cbn [rbind]. rewrite Hnv. cbn [rbind]. unfold upd_event, get_event. rewrite Hv. cbn [rbind].
    rewrite without_cons_ne by done. eexists _, _. split; [done|]. split; [by apply insert_links_bodies|].
    assert (∀ x, x ∉ t :: r → <[curr:=set_nextInBin (nextInBin nv) v]> hp !! x = hp !! x) as Hout
      by (intros x Hx; apply lookup_insert_ne; intros <-; done).
    split; [done|]. specialize (Hfr _ Hout). exists t, (without e r), p', (nextBin tv).
    split_and!; [done|done|exact Hp'|exact Hst'| |done].
    unfold binlink. destruct (decide (curr = t)) as [->|]; [|by rewrite lookup_insert_ne, Ht].
    rewrite lookup_insert_eq. by simplify_eq.
Qed.

(** *** The bin of an event *)

Lemma elem_of_bins (e : Z) (bs : list (list Z)) : e ∈ concat bs ↔ ∃ b, b ∈ bs ∧ e ∈ b.
Proof.
  rewrite list_elem_of_In, in_concat. split; intros (b & H1 & H2); exists b; rewrite !list_elem_of_In in *; done.
Qed.

Lemma ordered_app_r hp bs cs : ordered hp (bs ++ cs) → ordered hp cs.
Proof. induction bs as [|b bs IH]; [done|]. intros (_ & _ & Ho)%ordered_cons. by apply IH. Qed.

(** In a sorted queue the first bin whose key is not smaller is the event's. *)
Lemma in_first_bin hp e p1 p2 :
  ordered hp (p1 ++ p2) → Forall (fun b => klt (bkey hp b) (key hp e) = true) p1 →
  match p2 with [] => True | b :: _ => klt (bkey hp b) (key hp e) = false end →
  e ∈ concat (p1 ++ p2) → ∃ b p2', p2 = b :: p2' ∧ e ∈ b ∧ bkey hp b = key hp e.
Proof.
  intros Ho Hlt Hge (c & Hc & He)%elem_of_bins. pose proof (ord_bins _ _ Ho c e Hc He) as Hk.
  rewrite Forall_forall in Hlt. apply elem_of_app in Hc as [Hc|Hc].
  { specialize (Hlt c Hc). rewrite <-Hk, klt_spec in Hlt. lia. }
  destruct p2 as [|b p2]; [by apply elem_of_nil in Hc|]. exists b, p2.
  apply ordered_app_r, ordered_cons in Ho as (_ & Hall & _). rewrite Forall_forall in Hall.
  apply elem_of_cons in Hc as [->|Hc]; [done|]. specialize (Hall c Hc). congruence.
Qed.

Lemma elem_of_bin_del e b bs c :
  c ∈ bin_del e b bs → c ∈ bs ∨ (c ≠ [] ∧ c = without e b).
Proof.
  unfold bin_del. destruct (without e b) as [|x l] eqn:E; [by left|].
  intros [->|Hc]%elem_of_cons; [by right|by left].
Qed.

Lemma without_bkey hp e b :
  (∀ x, x ∈ b → key hp x = bkey hp b) → without e b ≠ [] → bkey hp (without e b) = bkey hp b.
Proof.
  intros Hb Hne. destruct (without e b) as [|x l] eqn:E; [done|]. apply (Hb x).
  assert (x ∈ without e b) as [_ Hx]%elem_of_without by (rewrite E; by left). done.
Qed.

Lemma ordered_del hp e p1 b p2 : ordered hp (p1 ++ b :: p2) → ordered hp (p1 ++ bin_del e b p2).
Proof.
  induction p1 as [|c p1 IH]; simpl; intros (Hc & Hall & Ho)%ordered_cons; rewrite Forall_forall in Hall.
  - unfold bin_del. destruct (without e b) as [|x l] eqn:E; [done|].
    assert (bkey hp (without e b) = bkey hp b) as Eb by (apply without_bkey; [done|]; by rewrite E).
    rewrite <-E. apply ordered_cons. rewrite Eb. split_and!; [|by apply Forall_forall|done].
    intros y [_ Hy]%elem_of_without. by apply Hc.
  - apply ordered_cons. split_and!; [done| |by apply IH]. apply Forall_forall. intros d [Hd|Hd]%elem_of_app.
    + apply Hall, elem_of_app. by left.
    + apply elem_of_bin_del in Hd as [Hd|[Hne ->]]; [apply Hall, elem_of_app; right; by right|].
      rewrite without_bkey; [|intros x Hx; eapply ord_bins; [exact Ho| |done]; apply elem_of_app; right; by left|done].
      apply Hall, elem_of_app. right. by left.
Qed.

Lemma without_app e l1 l2 : without e (l1 ++ l2) = without e l1 ++ without e l2.
Proof. unfold without. apply filter_app. Qed.

Lemma concat_bin_del e b bs : e ∉ concat bs → concat (bin_del e b bs) = without e (b ++ concat bs).
Proof.
  intros He. rewrite without_app, (without_id e (concat bs)) by done. unfold bin_del.
  by destruct (without e b).
Qed.

(** Removing a queued event takes it out of its bin, and the bin out of the list
    if it was alone there. *)
Lemma eq_remove_seg q bs e ev :
  eq_repr q bs → events q !! e = Some ev → ev_queue ev = true → e ∈ concat bs →
  ∃ p1 b p2 h' hp', bs = p1 ++ b :: p2 ∧ e ∈ b ∧ eq_remove e q = Ok (with_head q h' hp') ∧
    same_bodies (events q) hp' ∧ seg hp' h' (p1 ++ bin_del e b p2) None.
Proof.
  intros [Hseg Hnd Ho] Hev Hq Hin. unfold eq_remove, get_event.
  destruct bs as [|b bs]; [by apply elem_of_nil in Hin|].
  pose proof Hseg as (h & r & hv & -> & Hh & Hhv & Hst & Hrest)%seg_cons.
  rewrite Hh, Hhv, Hev. cbn [rbind]. rewrite Hq. cbn [rbind assert_]. rewrite (ev_eq_klt (events q) h e hv ev) by done.
  destruct (klt (key (events q) h) (key (events q) e)) eqn:E1.
  - rewrite bool_decide_false by (intros Eq; rewrite Eq, klt_spec in E1; lia).
    destruct (find_bin_spec (events q) e ev h (nextBin hv) bs (size (events q)))
      as (p1 & p2 & prev & curr & -> & -> & H1 & H2 & Hall & Hhd & ->); [done|done| |].
    { etrans; [by eapply length_concat_bins|]. apply fuel_enough.
      - simpl in Hnd. by apply NoDup_cons in Hnd as [_ (_ & _ & Hnd)%NoDup_app].
      - intros x. by eapply seg_some. }
    destruct (in_first_bin (events q) e ((h :: r) :: p1) p2) as (b & p2' & -> & Heb & Ek);
      [done|by constructor|done|done|].
    cbn [rbind]. apply seg_cons in H2 as (t & r' & tv & -> & -> & Ht & Hst' & Hp2).
    rewrite Ht. cbn [rbind]. rewrite (ev_eq_klt (events q) t e tv ev) by done.
    rewrite bool_decide_true by done. cbn [negb].
    simpl in Hnd. rewrite concat_app in Hnd. change (h :: r ++ ?l) with ((h :: r) ++ l) in Hnd.
    rewrite app_assoc in Hnd. apply NoDup_app in Hnd as (Ha & Hdis & Hb).
    destruct (removeItem_spec (events q) e t r' p2') as (top & hp1 & -> & Hb1 & Hout & Hs1);
      [by eapply seg_cons_intro|done|done|].
    cbn [rbind]. unfold upd_event, get_event.
    destruct (seg_join hp1 h r p1 (bin_del e (t :: r') p2') top (Some t)) as (v & Hv & Hjoin).
    + eapply (seg_ext (events q)); [|by eapply seg_cons_intro]. intros x Hx. unfold inlink, binlink.
      rewrite Hout; [done|]. intros Hx'. apply (Hdis x Hx). simpl. change (t :: r' ++ ?l) with ((t :: r') ++ l).
      apply elem_of_app. by left.
    + done.
    + rewrite concat_bin_del.
      * apply NoDup_app. split_and!; [done| |by apply NoDup_filter].
        intros x Hx [_ Hx']%elem_of_without. by apply (Hdis x).
      * simpl in Hb. change (t :: r' ++ ?l) with ((t :: r') ++ l) in Hb. apply NoDup_app in Hb as (_ & Hd & _).
        by apply Hd.
    + rewrite Hv. cbn [rbind]. exists ((h :: r) :: p1), (t :: r'), p2'. eexists _, _.
      split_and!; [done|done|done| |exact Hjoin]. etrans; [exact Hb1|]. by apply insert_links_bodies.
  - destruct (in_first_bin (events q) e [] ((h :: r) :: bs)) as (b & p2' & [= <- <-] & Heb & Ek); [done..|].
    rewrite bool_decide_true by done.
    destruct (removeItem_spec (events q) e h r bs) as (top & hp1 & -> & Hb1 & _ & Hs1); [by rewrite <-Hh|done|done|].
    cbn [rbind]. exists [], (h :: r), bs. eauto 10.
Qed.

Lemma eq_remove_repr q bs e ev :
  eq_repr q bs → events q !! e = Some ev → ev_queue ev = true → e ∈ concat bs →
  ∃ h' hp' bs', eq_remove e q = Ok (with_head q h' hp') ∧ same_bodies (events q) hp' ∧
    eq_repr (with_head q h' hp') bs' ∧ concat bs' = without e (concat bs).
Proof.
  intros Hr Hev Hq Hin. destruct (eq_remove_seg q bs e ev Hr Hev Hq Hin) as (p1 & b & p2 & h' & hp' & -> & He & Hrun & Hb & Hs).
  destruct Hr as [_ Hnd Ho]. rewrite concat_app in Hnd |- *. simpl in Hnd |- *.
  assert (concat (p1 ++ bin_del e b p2) = without e (concat p1 ++ b ++ concat p2)) as Ec.
  { apply NoDup_app in Hnd as (_ & Hd1 & (_ & Hd2 & _)%NoDup_app).
    rewrite concat_app, concat_bin_del, (without_app e (concat p1)), (without_id e (concat p1)); [done| |by apply Hd2].
    intros Hx. apply (Hd1 e Hx), elem_of_app. by left. }
  exists h', hp', (p1 ++ bin_del e b p2). split_and!; [done|done| |done]. split; simpl; [done| |].
  - rewrite Ec. by apply NoDup_filter.
  - eapply ordered_ext; [done|]. by apply ordered_del.
Qed.

(** Removing an event that is not queued panics. *)
Lemma find_item_absent hp e l : ∀ fuel curr p,
  stack hp p l → e ∉ l → (length l ≤ fuel)%nat → find_item fuel hp e curr p = Err (EPanic "event not found!").
Proof.
  induction l as [|x l IH]; intros fuel curr p Hst He Hf; [simpl in Hst; subst; by destruct fuel|].
  destruct Hst as [-> (n & Hn & Hst)]. destruct fuel as [|fuel]; [simpl in Hf; lia|]. simpl.
  destruct (Z.eqb_spec x e) as [->|Hne]; [by destruct He; left|]. unfold inlink in Hn. unfold get_event.
  destruct (hp !! x) as [v|]; [|done]. simplify_eq/=. apply IH; [done| |lia]. intros ?. apply He. by right.
Qed.

Lemma removeItem_absent hp e t r v :
  hp !! t = Some v → stack hp (nextInBin v) r → NoDup r → e ∉ t :: r →
  removeItem e t hp = Err (EPanic "event not found!").
Proof.
  intros Ht Hst Hnd He. unfold removeItem, get_event. rewrite Ht. cbn [rbind].
  destruct (Z.eqb_spec e t) as [->|Hne]; [by destruct He; left|]. rewrite (find_item_absent hp e r); [done..| |].
  - intros ?. apply He. by right.
  - apply fuel_enough; [done|]. intros x. by eapply stack_some.
Qed.

Lemma eq_remove_absent q bs e ev :
  eq_repr q bs → events q !! e = Some ev → ev_queue ev = true → e ∉ concat bs →
  eq_remove e q = Err (EPanic "event not found!").
Proof.
  intros [Hseg Hnd Ho] Hev Hq Hin. unfold eq_remove, get_event.
  destruct bs as [|b bs]; [simpl in Hseg; by rewrite Hseg|].
  pose proof Hseg as (h & r & hv & -> & Hh & Hhv & Hst & Hrest)%seg_cons.
  rewrite Hh, Hhv, Hev. cbn [rbind]. rewrite Hq. cbn [rbind assert_]. pose proof Hnd as Hnd0. change (concat ((h :: r) :: bs)) with ((h :: r) ++ concat bs) in Hnd, Hin.
  apply NoDup_app in Hnd as ([_ Hr]%NoDup_cons & _ & Hnd). rewrite elem_of_app in Hin.
  destruct (ev_eq hv ev).
  { by rewrite (removeItem_absent (events q) e h r hv) by tauto. }
  destruct (find_bin_spec (events q) e ev h (nextBin hv) bs (size (events q)))
    as (p1 & p2 & prev & curr & -> & -> & H1 & H2 & Hall & Hhd & ->); [done|done| |].
  { etrans; [by eapply length_concat_bins|]. apply fuel_enough; [done|]. intros x. by eapply seg_some. }
  cbn [rbind]. destruct p2 as [|b p2]; [simpl in H2; by subst|].
  apply seg_cons in H2 as (t & r' & tv & -> & -> & Ht & Hst' & Hp2). rewrite Ht. cbn [rbind].
  destruct (ev_eq tv ev); [simpl|done].
  rewrite concat_app in Hnd, Hin. change (concat ((t :: r') :: p2)) with ((t :: r') ++ concat p2) in Hnd, Hin.
  rewrite !elem_of_app in Hin. apply NoDup_app in Hnd as (_ & _ & ([_ Hr']%NoDup_cons & _ & _)%NoDup_app).
  rewrite (removeItem_absent (events q) e t r' tv); [done..|tauto].
Qed.
