(* ===== verification/EventSpec.v ===== *)
(** * The event queue refines a sorted list

    The abstract queue is the list of the pending events in the order in which
    they will run, and the store of the events without their links. The linked
    bins of [EventQueue] implement it: every operation has the result of the
    abstract one, errors included, and [doSimLoop] runs the events in the order
    of the list. *)

From S2P Require Import Prelude IntMath EventQueue.

(** ** The specification *)

Record AQueue := {
  a_now : Z;
  a_pending : list Z;
  a_async : list Z;
  a_store : gmap Z Event
}.

Definition strip (v : Event) : Event := with_links None None v.

Definition a_upd (f : list Z → list Z) (st : gmap Z Event) (a : AQueue) : AQueue :=
  {| a_now := a_now a; a_pending := f (a_pending a); a_async := a_async a; a_store := st |}.

(** Insertion before the first event that is not earlier. *)
Definition a_insert (e : Z) (v : Event) (a : AQueue) : AQueue :=
  let st := <[e := v]> (a_store a) in a_upd (list_insert (key st) e) st a.

Definition a_remove (e : Z) (a : AQueue) : res AQueue :=
  if decide (e ∈ a_pending a) then Ok (a_upd (without e) (a_store a) a) else Err (EPanic "event not found!").

Definition a_release (e : Z) (a : AQueue) : res AQueue :=
  let* v := get_event (a_store a) e in
  if isSet Managed (ev_flags v) && negb (scheduled v) then Ok (a_upd id (delete e (a_store a)) a) else Ok a.

Definition a_asyncInsert (e : Z) (v : Event) (a : AQueue) : AQueue :=
  {| a_now := a_now a; a_pending := a_pending a; a_async := a_async a ++ [e]; a_store := <[e := v]> (a_store a) |}.

Definition a_schedule (async : bool) (e when_ : Z) (a : AQueue) : res AQueue :=
  let* _ := assert_ "when >= getCurTick()" (a_now a <=? when_) in
  let* v := get_event (a_store a) e in
  let* _ := assert_ "!event->scheduled()" (negb (scheduled v)) in
  let* _ := assert_ "event->initialized()" (initialized v) in
  let v := set_flag Scheduled (setWhen when_ v) in
  Ok (if async then a_asyncInsert e v a else a_insert e v a).

Definition a_deschedule (e : Z) (a : AQueue) : res AQueue :=
  let* v := get_event (a_store a) e in
  let* _ := assert_ "event->scheduled()" (scheduled v) in
  let* _ := assert_ "event->initialized()" (initialized v) in
  let* a := a_remove e a in
  a_release e (a_upd id (<[e := clear_flag Scheduled (clear_flag Squashed v)]> (a_store a)) a).

Definition a_reschedule (always : bool) (e when_ : Z) (a : AQueue) : res AQueue :=
  let* _ := assert_ "when >= getCurTick()" (a_now a <=? when_) in
  let* v := get_event (a_store a) e in
  let* _ := assert_ "always || event->scheduled()" (always || scheduled v) in
  let* _ := assert_ "event->initialized()" (initialized v) in
  let* a := (if scheduled v then a_remove e a else Ok a) in
  Ok (a_insert e (set_flag Scheduled (clear_flag Squashed (setWhen when_ v))) a).

(** The loop runs the first event of the list. It has no check that the event is
    not in the past. *)
Definition a_serviceOne (process : Z → AQueue → res AQueue) (a : AQueue) : res (option Z * AQueue) :=
  match a_pending a with
  | [] => Err (EAssert "!eventq->empty()")
  | e :: l =>
      let* v := get_event (a_store a) e in
      let v := clear_flag Scheduled v in
      let a := a_upd (fun _ => l) (<[e := v]> (a_store a)) a in
      if squashed v then
        let* a := a_release e (a_upd id (<[e := clear_flag Squashed v]> (a_store a)) a) in Ok (None, a)
      else
        let* a := process e {| a_now := ev_when v; a_pending := l; a_async := a_async a; a_store := a_store a |} in
        let* v := get_event (a_store a) e in
        if isExitEvent v then
          let* _ := assert_ "would be silly" (negb (isSet Managed (ev_flags v)) || negb (isSet IsMainQueue (ev_flags v))) in
          Ok (Some e, a)
        else let* a := a_release e a in Ok (None, a)
  end.

Fixpoint a_sim_loop (process : Z → AQueue → res AQueue) (fuel : nat) (a : AQueue) : res (option Z * AQueue) :=
  match fuel with
  | O => Ok (None, a)
  | S fuel =>
      let* ' (exit_event, a) := a_serviceOne process a in
      match exit_event with Some e => Ok (Some e, a) | None => a_sim_loop process fuel a end
  end.

Definition a_handleAsyncInsertions (a : AQueue) : AQueue :=
  {| a_now := a_now a; a_pending := fold_left (fun l e => list_insert (key (a_store a)) e l) (a_async a) (a_pending a);
     a_async := []; a_store := a_store a |}.

Definition a_doSimLoop (process : Z → AQueue → res AQueue) (fuel : nat) (a : AQueue) : res (option Z * AQueue) :=
  a_sim_loop process fuel (a_handleAsyncInsertions a).

(** ** The relation *)

(** The bins of the queue hold the list, and the stores agree but for the links. *)
Record linked (q : EventQueue) (a : AQueue) : Prop := {
  lk_store : a_store a = strip <$> events q;
  lk_now : a_now a = eq_curTick q;
  lk_async : a_async a = async_queue q;
  lk_bins : ∃ bs, eq_repr q bs ∧ a_pending a = concat bs
}.

(** The events of the list are those whose flag says so, they belong to the queue
    and none of them is in the past. *)
Record a_inv (a : AQueue) : Prop := {
  inv_nodup : NoDup (a_pending a ++ a_async a);
  inv_sched e : e ∈ a_pending a ++ a_async a ↔ ∃ v, a_store a !! e = Some v ∧ scheduled v = true;
  inv_queue e v : a_store a !! e = Some v → scheduled v = true → ev_queue v = true;
  inv_time e v : e ∈ a_pending a → a_store a !! e = Some v → a_now a ≤ ev_when v
}.

Definition eq_rel (q : EventQueue) (a : AQueue) : Prop := linked q a ∧ a_inv a.

(** Same error, or related results. *)
Definition res_rel {A B} (R : A → B → Prop) (x : res A) (y : res B) : Prop :=
  match x, y with Ok a, Ok b => R a b | Err e, Err f => e = f | _, _ => False end.

Lemma res_rel_bind {A B C D} (R : A → B → Prop) (S : C → D → Prop) x y f g :
  res_rel R x y → (∀ a b, R a b → res_rel S (f a) (g b)) → res_rel S (rbind x f) (rbind y g).
Proof. destruct x, y; simpl; naive_solver. Qed.

Lemma res_rel_assert {A B} (R : A → B → Prop) site b x y :
  (b = true → res_rel R x y) →
  res_rel R (rbind (assert_ site b) (fun _ => x)) (rbind (assert_ site b) (fun _ => y)).
Proof. destruct b; simpl; auto. Qed.

(** *** Stores without links *)

Lemma strip_idemp_lookup q a e : linked q a → a_store a !! e = strip <$> events q !! e.
Proof. intros H. by rewrite (lk_store _ _ H), lookup_fmap. Qed.

Lemma linked_lookup q a e v : linked q a → a_store a !! e = Some v → ∃ w, events q !! e = Some w ∧ v = strip w.
Proof.
  intros H. rewrite (strip_idemp_lookup _ _ _ H). destruct (events q !! e) as [w|]; simpl; [|done].
  intros [= <-]. eauto.
Qed.

Lemma key_strip hp e : key (strip <$> hp) e = key hp e.
Proof. unfold key, body. rewrite lookup_fmap. by destruct (hp !! e). Qed.

Lemma strip_eq_body v w :
  strip v = strip w ↔
  (ev_when v, ev_priority v, ev_flags v, ev_queue v) = (ev_when w, ev_priority w, ev_flags w, ev_queue w).
Proof. unfold strip, with_links. split; intros [= -> -> -> ->]; done. Qed.

Lemma same_bodies_strip hp hp' : same_bodies hp hp' → strip <$> hp' = strip <$> hp.
Proof.
  intros H. apply map_eq. intros e. rewrite !lookup_fmap. specialize (H e). unfold body in H.
  destruct (hp !! e), (hp' !! e); simplify_eq/=; [|done]. f_equal. apply strip_eq_body. congruence.
Qed.

Lemma key_store q a e : linked q a → key (a_store a) e = key (events q) e.
Proof. intros H. by rewrite (lk_store _ _ H), key_strip. Qed.

Lemma list_insert_ext k k' e l : k e = k' e → (∀ x, x ∈ l → k x = k' x) → list_insert k e l = list_insert k' e l.
Proof.
  intros He. induction l as [|x l IH]; intros Hl; simpl; [done|]. rewrite He, (Hl x) by by left.
  destruct (klt _ _); [|done]. f_equal. apply IH. intros y Hy. apply Hl. by right.
Qed.

(** *** Updates of one event *)

(** A function that leaves the links alone. *)
Definition keeps_links (f : Event → Event) : Prop :=
  ∀ v, nextBin (f v) = nextBin v ∧ nextInBin (f v) = nextInBin v ∧ strip (f v) = f (strip v).
Definition keeps_key (f : Event → Event) : Prop :=
  ∀ v, ev_when (f v) = ev_when v ∧ ev_priority (f v) = ev_priority v.

Create HintDb events discriminated.
Lemma setWhen_links w : keeps_links (setWhen w). Proof. done. Qed.
Lemma set_flag_links m : keeps_links (set_flag m). Proof. done. Qed.
Lemma clear_flag_links m : keeps_links (clear_flag m). Proof. done. Qed.
Lemma set_flag_key m : keeps_key (set_flag m). Proof. done. Qed.
Lemma clear_flag_key m : keeps_key (clear_flag m). Proof. done. Qed.
#[export] Hint Resolve setWhen_links set_flag_links clear_flag_links set_flag_key clear_flag_key : events.

Lemma eq_repr_upd q bs e v f :
  eq_repr q bs → events q !! e = Some v → keeps_links f → (e ∈ concat bs → keeps_key f) →
  eq_repr (with_head q (head q) (<[e := f v]> (events q))) bs.
Proof.
  intros [Hs Hnd Ho] Hv Hl Hk. destruct (Hl v) as (Hb & Hi & _). split; simpl; [|done|].
  - eapply seg_ext; [|exact Hs]. intros x _. unfold inlink, binlink.
    destruct (decide (x = e)) as [->|]; [|by rewrite lookup_insert_ne]. rewrite lookup_insert_eq, Hv. simpl.
    by rewrite Hb, Hi.
  - assert (∀ x, x ∈ concat bs → key (<[e := f v]> (events q)) x = key (events q) x) as Hkey.
    { intros x Hx. unfold key, body. destruct (decide (x = e)) as [->|]; [|by rewrite lookup_insert_ne].
      rewrite lookup_insert_eq, Hv. simpl. by destruct (Hk Hx v) as [-> ->]. }
    eapply ordered_keys; [|exact Ho|by intros b; eapply seg_nonempty]. done.
Qed.

Lemma linked_upd q a e v f :
  linked q a → a_store a !! e = Some v → keeps_links f → (e ∈ a_pending a → keeps_key f) →
  ∃ q', upd_queue_event e f q = Ok q' ∧ linked q' (a_upd id (<[e := f v]> (a_store a)) a).
Proof.
  intros Hl Hv Hf Hk. destruct (linked_lookup _ _ _ _ Hl Hv) as (w & Hw & ->).
  unfold upd_queue_event, upd_event, get_event. rewrite Hw. eexists. split; [done|].
  destruct Hl as [Hs Hn Ha (bs & Hr & Hp)]. split; simpl; [|done|done|].
  - rewrite fmap_insert, Hs. by destruct (Hf w) as (_ & _ & ->).
  - exists bs. split; [|done]. apply eq_repr_upd; [done..|]. by rewrite <-Hp.
Qed.

Lemma linked_insert q a e v :
  linked q a → a_store a !! e = Some v → e ∉ a_pending a →
  ∃ q', eq_insert e q = Ok q' ∧ linked q' (a_upd (list_insert (key (a_store a)) e) (a_store a) a).
Proof.
  intros Hl Hv He. destruct (linked_lookup _ _ _ _ Hl Hv) as (w & Hw & ->).
  pose proof Hl as [Hs Hn Ha (bs & Hr & Hp)]. rewrite Hp in He.
  destruct (eq_insert_repr q bs e w Hr Hw He) as (h' & hp' & bs' & -> & Hb & Hr' & Hc).
  eexists. split; [done|]. split; simpl; [|done|done|].
  - by rewrite (same_bodies_strip _ _ Hb).
  - exists bs'. split; [done|]. rewrite Hc, Hp. apply list_insert_ext; intros; by apply key_store.
Qed.

Lemma linked_remove q a e v :
  linked q a → a_store a !! e = Some v → ev_queue v = true → res_rel linked (eq_remove e q) (a_remove e a).
Proof.
  intros Hl Hv Hq. destruct (linked_lookup _ _ _ _ Hl Hv) as (w & Hw & ->).
  pose proof Hl as [Hs Hn Ha (bs & Hr & Hp)]. unfold a_remove. rewrite Hp. case_decide as Hin.
  - destruct (eq_remove_repr q bs e w Hr Hw Hq Hin) as (h' & hp' & bs' & -> & Hb & Hr' & Hc).
    split; simpl; [|done|done|].
    + by rewrite (same_bodies_strip _ _ Hb).
    + exists bs'. split; [done|]. by rewrite Hp.
  - by rewrite (eq_remove_absent q bs e w).
Qed.

Lemma linked_release q a e :
  linked q a → (∀ v, a_store a !! e = Some v → scheduled v = false → e ∉ a_pending a) →
  res_rel linked (release e q) (a_release e a).
Proof.
  intros Hl He. unfold release, a_release, get_event. rewrite (strip_idemp_lookup _ _ _ Hl).
  destruct (events q !! e) as [w|] eqn:Ew; [|done]. cbn [rbind fmap option_fmap option_map].
  change (ev_flags (strip w)) with (ev_flags w). change (scheduled (strip w)) with (scheduled w).
  destruct (_ && _) eqn:E; [|done]. apply andb_true_iff in E as [_ E%negb_true_iff].
  specialize (He (strip w)). rewrite (strip_idemp_lookup _ _ _ Hl), Ew in He. specialize (He eq_refl E).
  destruct Hl as [Hs Hn Ha (bs & Hr & Hp)]. split; simpl; [|done|done|].
  - by rewrite fmap_delete, Hs.
  - rewrite Hp in He. exists bs. split; [|done]. destruct Hr as [Hseg Hnd Ho].
    assert (∀ x, x ∈ concat bs → delete e (events q) !! x = events q !! x) as Hx.
    { intros x Hx. apply lookup_delete_ne. by intros <-. }
    split; simpl; [|done|].
    + eapply seg_ext; [|exact Hseg]. intros x Hin. unfold inlink, binlink. by rewrite Hx.
    + eapply ordered_keys; [|exact Ho|by intros b; eapply seg_nonempty].
      intros x Hin. unfold key, body. by rewrite Hx.
Qed.

(** Taking the head off. *)
Lemma pop_head_removeItem q e v :
  head q = Some e → events q !! e = Some v →
  pop_head q =
    let* q := upd_queue_event e (clear_flag Scheduled) q in
    let* ' (top, hp) := removeItem e e (events q) in Ok (e, with_head q top hp).
Proof.
  intros Hh Hv. unfold pop_head, upd_queue_event, upd_event, removeItem, get_event. rewrite Hh, Hv. simpl.
  rewrite lookup_insert_eq, Z.eqb_refl. simpl. destruct (nextInBin v) as [n|]; [|done].
  unfold upd_event, get_event. by destruct (<[e := clear_flag Scheduled v]> (events q) !! n).
Qed.

Lemma linked_pop q a e l v :
  linked q a → a_pending a = e :: l → a_store a !! e = Some v →
  ∃ q', pop_head q = Ok (e, q') ∧
    linked q' (a_upd (fun _ => l) (<[e := clear_flag Scheduled v]> (a_store a)) a).
Proof.
  intros Hl Hp Hv. destruct (linked_lookup _ _ _ _ Hl Hv) as (w & Hw & ->).
  assert (head q = Some e) as Hh.
  { destruct Hl as [_ _ _ ([|b bs] & [Hseg _ _] & Ec)]; [by rewrite Hp in Ec|].
    apply seg_cons in Hseg as (t & r & ? & -> & -> & _). rewrite Hp in Ec. by simplify_eq/=. }
  rewrite (pop_head_removeItem q e w) by done.
  destruct (linked_upd q a e (strip w) (clear_flag Scheduled)) as (q1 & Hq1 & Hl1); [by auto with events..|].
  rewrite Hq1. cbn [rbind]. pose proof Hl1 as [Hs Hn Ha (bs & [Hseg Hnd Ho] & Ec)]. simpl in Ec. rewrite Hp in Ec.
  assert (head q1 = Some e) as Hh1.
  { unfold upd_queue_event, upd_event, get_event in Hq1. rewrite Hw in Hq1. by simplify_eq/=. }
  destruct bs as [|b bs]; [done|]. rewrite Hh1 in Hseg.
  pose proof Hseg as (t & r & tv & -> & [= <-] & Ht & Hst & Hrest)%seg_cons. simplify_eq/=.
  pose proof Hnd as [Her Hnd']%NoDup_cons. rewrite elem_of_app in Her.
  destruct (removeItem_spec (events q1) e e r bs) as (top & hp' & -> & Hb & _ & Hs'); [done|done|by left|].
  cbn [rbind]. eexists. split; [done|]. split; simpl; [|done|done|].
  - rewrite (same_bodies_strip _ _ Hb). by rewrite <-Hs.
  - exists (bin_del e (e :: r) bs).
    assert (concat (bin_del e (e :: r) bs) = r ++ concat bs) as Ed.
    { rewrite concat_bin_del by tauto. simpl. rewrite without_cons_eq. apply without_id. by rewrite elem_of_app. }
    split; [|done]. split; simpl; [done|by rewrite Ed|].
    eapply ordered_ext; [exact Hb|]. by apply (ordered_del _ _ []).
Qed.

(** *** The list is sorted *)

Lemma ordered_concat hp bs :
  ordered hp bs → StronglySorted (fun x y => klt (key hp y) (key hp x) = false) (concat bs).
Proof.
  induction bs as [|b bs IH]; simpl; [constructor|]. intros (Hb & Hall & Ho)%ordered_cons.
  rewrite Forall_forall in Hall.
  assert (∀ x y, x ∈ b → y ∈ concat bs → klt (key hp y) (key hp x) = false) as Hcross.
  { intros x y Hx (c & Hc & Hy)%elem_of_bins. rewrite (Hb x Hx), (ord_bins _ _ Ho c y Hc Hy).
    specialize (Hall c Hc). apply klt_false. rewrite klt_spec in Hall. lia. }
  assert (∀ x y, x ∈ b → y ∈ b → klt (key hp y) (key hp x) = false) as Hin.
  { intros x y Hx Hy. rewrite (Hb x Hx), (Hb y Hy). apply klt_false. lia. }
  clear Hb Hall. induction b as [|x b IHb]; [by apply IH|]. simpl. constructor.
  - apply IHb; intros; [apply Hcross|apply Hin]; by try right.
  - apply Forall_forall. intros y [Hy|Hy]%elem_of_app; [apply Hin|apply Hcross]; try done; by constructor.
Qed.

Lemma linked_sorted q a :
  linked q a → StronglySorted (fun x y => klt (key (a_store a) y) (key (a_store a) x) = false) (a_pending a).
Proof.
  intros Hl. pose proof Hl as [_ _ _ (bs & Hr & ->)]. destruct Hr as [Hseg _ Ho].
  apply ordered_concat. eapply ordered_keys; [|exact Ho|by intros b; eapply seg_nonempty].
  intros e _. by apply key_store.
Qed.

(** *** Flags *)

Lemma isSet_bit k f : 0 ≤ k → isSet (2 ^ k) f = Z.testbit f k.
Proof.
  intros Hk. unfold isSet. destruct (Z.testbit f k) eqn:E.
  - destruct (Z.eqb_spec (Z.land f (2 ^ k)) 0) as [E0|]; [|done].
    assert (Z.testbit (Z.land f (2 ^ k)) k = true) as E1 by (by rewrite Z.land_spec, E, Z.pow2_bits_true).
    by rewrite E0, Z.bits_0 in E1.
  - replace (Z.land f (2 ^ k)) with 0; [done|]. apply Z.bits_inj'. intros n Hn.
    rewrite Z.bits_0, Z.land_spec, Z.pow2_bits_eqb by done.
    destruct (Z.eqb_spec k n) as [<-|]; [by rewrite E|by rewrite andb_false_r].
Qed.

Lemma scheduled_bit v : scheduled v = Z.testbit (ev_flags v) 1.
Proof. apply (isSet_bit 1). lia. Qed.
Lemma scheduled_set v : scheduled (set_flag Scheduled v) = true.
Proof. rewrite scheduled_bit. unfold squash, set_flag, clear_flag, with_flags; cbn [ev_flags]. rewrite Z.lor_spec. apply orb_true_r. Qed.
Lemma scheduled_clear v : scheduled (clear_flag Scheduled v) = false.
Proof. rewrite scheduled_bit. unfold squash, set_flag, clear_flag, with_flags; cbn [ev_flags]. rewrite Z.ldiff_spec. apply andb_false_r. Qed.
Lemma scheduled_clear_squashed v : scheduled (clear_flag Squashed v) = scheduled v.
Proof. rewrite !scheduled_bit. unfold squash, set_flag, clear_flag, with_flags; cbn [ev_flags]. rewrite Z.ldiff_spec. apply andb_true_r. Qed.
Lemma scheduled_squash v : scheduled (squash v) = scheduled v.
Proof. rewrite !scheduled_bit. unfold squash, set_flag, clear_flag, with_flags; cbn [ev_flags]. rewrite Z.lor_spec. apply orb_false_r. Qed.
Create Rewrite HintDb event_flags.
#[export] Hint Rewrite scheduled_set scheduled_clear scheduled_clear_squashed scheduled_squash : event_flags.

(** *** The invariant *)

(** The invariant for the events other than [e], which is not in the queue. *)
Record inv_but (e : Z) (a : AQueue) : Prop := {
  but_nodup : NoDup (a_pending a ++ a_async a);
  but_out : e ∉ a_pending a ++ a_async a;
  but_sched x : x ≠ e → x ∈ a_pending a ++ a_async a ↔ ∃ v, a_store a !! x = Some v ∧ scheduled v = true;
  but_queue x v : x ≠ e → a_store a !! x = Some v → scheduled v = true → ev_queue v = true;
  but_time x v : x ∈ a_pending a → a_store a !! x = Some v → a_now a ≤ ev_when v
}.

Lemma inv_but_intro a e v : a_inv a → a_store a !! e = Some v → scheduled v = false → inv_but e a.
Proof.
  intros [Hnd Hs Hq Ht] Hv Hsc. split; [done| |by intros x _|by intros x w _; apply Hq|done].
  intros (w & Hw & E)%Hs. congruence.
Qed.

Lemma inv_but_elim a e : inv_but e a → (∀ v, a_store a !! e = Some v → scheduled v = false) → a_inv a.
Proof.
  intros [Hnd Ho Hs Hq Ht] He. split; [done|..|done].
  - intros x. destruct (decide (x = e)) as [->|]; [|by apply Hs]. split; [done|].
    intros (v & Hv & E). rewrite (He v Hv) in E. done.
  - intros x v Hv Hsc. destruct (decide (x = e)) as [->|]; [|by eapply Hq]. rewrite (He v Hv) in Hsc. done.
Qed.

Lemma inv_but_remove a e : a_inv a → e ∈ a_pending a → inv_but e (a_upd (without e) (a_store a) a).
Proof.
  intros [Hnd Hs Hq Ht] He. pose proof Hnd as (H1 & H2 & H3)%NoDup_app. split; simpl.
  - apply NoDup_app. split_and!; [by apply NoDup_filter| |done]. intros x [_ Hx]%elem_of_without. by apply H2.
  - rewrite elem_of_app, elem_of_without. intros [[? _]|Ha]; [done|]. by apply (H2 e).
  - intros x Hx. rewrite <-Hs, !elem_of_app, elem_of_without. tauto.
  - intros x v _. apply Hq.
  - intros x v [_ Hx]%elem_of_without. by apply Ht.
Qed.

Lemma inv_but_store a e st :
  inv_but e a → (∀ x, x ≠ e → st !! x = a_store a !! x) → inv_but e (a_upd id st a).
Proof.
  intros [Hnd Ho Hs Hq Ht] Hst. split; simpl; [done|done|..].
  - intros x Hx. rewrite Hst by done. by apply Hs.
  - intros x v Hx. rewrite Hst by done. by apply Hq.
  - intros x v Hx. rewrite Hst; [by apply Ht|]. intros ->. apply Ho, elem_of_app. by left.
Qed.

Lemma inv_insert a e v :
  inv_but e a → scheduled v = true → ev_queue v = true → a_now a ≤ ev_when v → a_inv (a_insert e v a).
Proof.
  intros [Hnd Ho Hs Hq Ht] Hsc Hqu Hw. unfold a_insert. set (st := <[e := v]> (a_store a)).
  assert (∀ x, x ∈ list_insert (key st) e (a_pending a) ↔ x = e ∨ x ∈ a_pending a) as Hin.
  { intros x. by rewrite list_insert_perm, elem_of_cons. }
  split; simpl.
  - rewrite list_insert_perm. simpl. by apply NoDup_cons.
  - intros x. rewrite elem_of_app, Hin. destruct (decide (x = e)) as [->|Hx].
    + split; [|by auto]. intros _. exists v. unfold st. by rewrite lookup_insert_eq.
    + unfold st. rewrite lookup_insert_ne, <-Hs, elem_of_app by done. tauto.
  - intros x w. destruct (decide (x = e)) as [->|Hx]; unfold st; [rewrite lookup_insert_eq; by intros [= <-]|].
    rewrite lookup_insert_ne by done. by apply Hq.
  - intros x w. rewrite Hin. destruct (decide (x = e)) as [->|Hx]; unfold st; [rewrite lookup_insert_eq; by intros _ [= <-]|].
    rewrite lookup_insert_ne by done. intros [?|?]; [done|by apply Ht].
Qed.

Lemma inv_asyncInsert a e v :
  inv_but e a → scheduled v = true → ev_queue v = true → a_inv (a_asyncInsert e v a).
Proof.
  intros [Hnd Ho Hs Hq Ht] Hsc Hqu. split; simpl.
  - rewrite app_assoc, Permutation_app_comm. simpl. by apply NoDup_cons.
  - intros x. rewrite app_assoc, elem_of_app, list_elem_of_singleton. destruct (decide (x = e)) as [->|Hx].
    + split; [|by auto]. intros _. exists v. by rewrite lookup_insert_eq.
    + rewrite lookup_insert_ne, <-Hs by done. tauto.
  - intros x w. destruct (decide (x = e)) as [->|Hx]; [rewrite lookup_insert_eq; by intros [= <-]|].
    rewrite lookup_insert_ne by done. by apply Hq.
  - intros x w Hx. rewrite lookup_insert_ne; [by apply Ht|]. intros <-. apply Ho, elem_of_app. by left.
Qed.

Lemma inv_release a e :
  a_inv a → match a_release e a with Ok a' => a_inv a' | Err _ => True end.
Proof.
  intros Hi. unfold a_release, get_event. destruct (a_store a !! e) as [v|] eqn:Ev; [|done]. simpl.
  destruct (_ && _) eqn:E; [|done]. apply andb_true_iff in E as [_ E%negb_true_iff].
  eapply inv_but_elim; [eapply inv_but_store|].
  - by eapply inv_but_intro.
  - intros x Hx. by apply lookup_delete_ne.
  - simpl. intros w. by rewrite lookup_delete_eq.
Qed.

Lemma inv_unscheduled a e v : a_inv a → a_store a !! e = Some v → scheduled v = false → e ∉ a_pending a.
Proof.
  intros Hi Hv Hs He. destruct (proj1 (inv_sched _ Hi e)) as (w & Hw & E); [apply elem_of_app; by left|]. congruence.
Qed.

(** ** Simulation *)

Lemma rel_release q a e : eq_rel q a → res_rel eq_rel (release e q) (a_release e a).
Proof.
  intros [Hl Hi]. assert (res_rel linked (release e q) (a_release e a)) as H.
  { apply linked_release; [done|]. intros v. by apply inv_unscheduled. }
  pose proof (inv_release a e Hi) as Hr. destruct (release e q), (a_release e a); simpl in *; done.
Qed.

Lemma rel_get q a e :
  linked q a → (∃ v w, events q !! e = Some w ∧ a_store a !! e = Some v ∧ v = strip w) ∨
    (events q !! e = None ∧ a_store a !! e = None).
Proof. intros H. rewrite (strip_idemp_lookup _ _ _ H). destruct (events q !! e); [left; eauto 10|by right]. Qed.

(** One event is updated in place. *)
Lemma a_upd_store_twice f st st' a : a_upd id st' (a_upd f st a) = a_upd f st' a.
Proof. done. Qed.

Lemma key_insert_ne st e v x : x ≠ e → key (<[e := v]> st) x = key st x.
Proof. intros. unfold key, body. by rewrite lookup_insert_ne. Qed.
Lemma key_insert_eq st e v : key (<[e := v]> st) e = (ev_when v, ev_priority v).
Proof. unfold key, body. by rewrite lookup_insert_eq. Qed.

(** Insertion of an event whose flags are set afterwards. *)
Lemma a_insert_later e v v' a :
  ev_when v' = ev_when v → ev_priority v' = ev_priority v →
  a_insert e v' a =
  let st := <[e := v]> (a_store a) in a_upd id (<[e := v']> st) (a_upd (list_insert (key st) e) st a).
Proof.
  intros Hw Hp. unfold a_insert, a_upd. simpl. rewrite insert_insert_eq. f_equal. apply list_insert_ext.
  - by rewrite !key_insert_eq, Hw, Hp.
  - intros x _. destruct (decide (x = e)) as [->|]; [by rewrite !key_insert_eq, Hw, Hp|by rewrite !key_insert_ne].
Qed.

Lemma rel_schedule q a async e w : eq_rel q a → res_rel eq_rel (eq_schedule async e w q) (a_schedule async e w a).
Proof.
  intros [Hl Hi]. unfold eq_schedule, a_schedule, get_event. rewrite <-(lk_now _ _ Hl).
  apply res_rel_assert. intros Hw%Z.leb_le.
  destruct (rel_get _ _ e Hl) as [(v & w' & -> & Hv & ->)|[-> ->]]; [|done]. rewrite Hv. cbn [rbind].
  apply (res_rel_assert _ _ (negb (scheduled w'))). intros Hs%negb_true_iff.
  apply (res_rel_assert _ _ (initialized w')). intros _.
  pose proof (inv_but_intro _ _ _ Hi Hv Hs) as Hbut.
  assert (e ∉ a_pending a) as Hout by by eapply inv_unscheduled.
  destruct (linked_upd q a e (strip w') (setWhen w)) as (q1 & -> & Hl1); [by auto with events..|]. cbn [rbind].
  set (v1 := setWhen w (strip w')) in *.
  destruct async.
  - destruct (linked_upd (asyncInsert e q1) (a_asyncInsert e v1 a) e v1 (set_flag Scheduled))
      as (q2 & Hq2 & Hl2); [|by apply lookup_insert_eq|by auto with events..|].
    { destruct Hl1 as [H1 H2 H3 (bs & Hr & H4)]. split; simpl; [done|done|by f_equal|].
      exists bs. split; [|done]. by destruct Hr. }
    cbn [rbind]. rewrite Hq2. split.
    + unfold a_asyncInsert, a_upd in Hl2. simpl in Hl2. by rewrite insert_insert_eq in Hl2.
    + apply inv_asyncInsert; [done|by autorewrite with event_flags|done].
  - destruct (linked_insert q1 _ e v1 Hl1) as (q2 & -> & Hl2); [by apply lookup_insert_eq|done|]. cbn [rbind].
    destruct (linked_upd q2 _ e v1 (set_flag Scheduled) Hl2) as (q3 & -> & Hl3);
      [by apply lookup_insert_eq|by auto with events..|].
    split.
    + by rewrite (a_insert_later e v1).
    + apply inv_insert; [done|by autorewrite with event_flags|done|done].
Qed.

Lemma rel_squash q a e :
  eq_rel q a →
  res_rel eq_rel (upd_queue_event e squash q)
    (let* v := get_event (a_store a) e in Ok (a_upd id (<[e := squash v]> (a_store a)) a)).
Proof.
  intros [Hl Hi]. destruct (rel_get _ _ e Hl) as [(v & w' & Hw & Hv & ->)|[H1 H2]].
  - destruct (linked_upd q a e (strip w') squash) as (q1 & -> & Hl1); [done..|]. unfold get_event. rewrite Hv. split; [done|].
    destruct Hi as [Hnd Hs Hq Ht]. split; simpl; [done|..].
    + intros x. rewrite Hs. destruct (decide (x = e)) as [->|]; [|by rewrite lookup_insert_ne].
      rewrite lookup_insert_eq, Hv. split; intros (? & [= <-] & Hx); eexists; (split; [done|]); [by rewrite scheduled_squash|].
      by rewrite <-(scheduled_squash (strip w')).
    + intros x v. destruct (decide (x = e)) as [->|]; [|rewrite lookup_insert_ne by done; apply Hq].
      rewrite lookup_insert_eq. intros [= <-] Hx. apply (Hq _ _ Hv). by rewrite <-(scheduled_squash (strip w')).
    + intros x v Hx. destruct (decide (x = e)) as [->|]; [|rewrite lookup_insert_ne by done; by apply Ht].
      rewrite lookup_insert_eq. intros [= <-]. by apply (Ht _ _ Hx Hv).
  - unfold upd_queue_event, upd_event, get_event. by rewrite H1, H2.
Qed.

Lemma rel_remove q a e v :
  eq_rel q a → a_store a !! e = Some v → scheduled v = true →
  res_rel (fun q' a' => linked q' a' ∧ inv_but e a' ∧ a_store a' = a_store a ∧ a_now a' = a_now a)
    (eq_remove e q) (a_remove e a).
Proof.
  intros [Hl Hi] Hv Hs. pose proof (linked_remove q a e v Hl Hv (inv_queue _ Hi _ _ Hv Hs)) as H.
  unfold a_remove in *. case_decide as Hin; destruct (eq_remove e q); simpl in *; try done.
  split_and!; [done|by apply inv_but_remove|done|done].
Qed.

Lemma rel_deschedule q a e : eq_rel q a → res_rel eq_rel (eq_deschedule e q) (a_deschedule e a).
Proof.
  intros Hr. pose proof Hr as [Hl Hi]. unfold eq_deschedule, a_deschedule. unfold get_event at 1 2.
  destruct (rel_get _ _ e Hl) as [(v & w' & -> & Hv & ->)|[-> ->]]; [|done]. rewrite Hv. cbn [rbind].
  apply (res_rel_assert _ _ (scheduled w')). intros Hs.
  apply (res_rel_assert _ _ (initialized w')). intros _.
  eapply res_rel_bind; [by eapply rel_remove|]. intros q1 a1 (Hl1 & Hb & Hst & _).
  destruct (linked_upd q1 a1 e (strip w') (clear_flag Squashed)) as (q2 & -> & Hl2);
    [done|by rewrite Hst|by auto with events..|]. cbn [rbind].
  destruct (linked_upd q2 _ e (clear_flag Squashed (strip w')) (clear_flag Scheduled) Hl2) as (q3 & -> & Hl3);
    [by apply lookup_insert_eq|by auto with events..|]. cbn [rbind].
  rewrite a_upd_store_twice in Hl3. simpl in Hl3. rewrite insert_insert_eq in Hl3.
  apply rel_release. split; [done|]. eapply inv_but_elim; [eapply inv_but_store; [done|]|].
  - intros x Hx. by apply lookup_insert_ne.
  - simpl. intros v. rewrite lookup_insert_eq. intros [= <-]. by autorewrite with event_flags.
Qed.

Lemma rel_reschedule q a always e w :
  eq_rel q a → res_rel eq_rel (eq_reschedule always e w q) (a_reschedule always e w a).
Proof.
  intros Hr. pose proof Hr as [Hl Hi]. unfold eq_reschedule, a_reschedule, get_event. rewrite <-(lk_now _ _ Hl).
  apply res_rel_assert. intros Hw%Z.leb_le.
  destruct (rel_get _ _ e Hl) as [(v & w' & -> & Hv & ->)|[-> ->]]; [|done]. rewrite Hv. cbn [rbind].
  apply (res_rel_assert _ _ (always || scheduled w')). intros _.
  apply (res_rel_assert _ _ (initialized w')). intros _. change (scheduled (strip w')) with (scheduled w').
  eapply (res_rel_bind (fun q' a' => linked q' a' ∧ inv_but e a' ∧ a_store a' = a_store a ∧ a_now a' = a_now a)).
  { destruct (scheduled w') eqn:Es; [by eapply rel_remove|]. simpl. split_and!; [done| |done|done].
    by eapply inv_but_intro. }
  intros q1 a1 (Hl1 & Hb & Hst & Hnow).
  assert (e ∉ a_pending a1) as Hout by (intros Hx; apply (but_out _ _ Hb), elem_of_app; by left).
  destruct (linked_upd q1 a1 e (strip w') (setWhen w)) as (q2 & -> & Hl2);
    [done|by rewrite Hst|by auto with events..|]. cbn [rbind]. set (v1 := setWhen w (strip w')) in *.
  destruct (linked_insert q2 _ e v1 Hl2) as (q3 & -> & Hl3); [by apply lookup_insert_eq|done|]. cbn [rbind].
  destruct (linked_upd q3 _ e v1 (clear_flag Squashed) Hl3) as (q4 & -> & Hl4);
    [by apply lookup_insert_eq|by auto with events..|]. cbn [rbind].
  destruct (linked_upd q4 _ e (clear_flag Squashed v1) (set_flag Scheduled) Hl4) as (q5 & -> & Hl5);
    [by apply lookup_insert_eq|by auto with events..|].
  split.
  - rewrite (a_insert_later e v1) by done. simpl in Hl5 |- *. by rewrite insert_insert_eq in Hl5.
  - apply inv_insert; [done|by autorewrite with event_flags|done|by rewrite Hnow].
Qed.

Lemma linked_insert_all l : ∀ q a,
  linked q a → NoDup (a_pending a ++ l) → (∀ e, e ∈ l → ∃ v, a_store a !! e = Some v) →
  ∃ q', fold_res eq_insert l q = Ok q' ∧
    linked q' (a_upd (fold_left (fun l e => list_insert (key (a_store a)) e l) l) (a_store a) a).
Proof.
  induction l as [|e l IH]; intros q a Hl Hnd Hst; simpl.
  { exists q. split; [done|]. by destruct a. }
  assert (e ∉ a_pending a) as He.
  { apply NoDup_app in Hnd as (_ & Hd & _). intros Hx. apply (Hd e Hx). by left. }
  destruct (Hst e) as [v Hv]; [by left|]. destruct (linked_insert q a e v Hl Hv He) as (q1 & -> & Hl1). simpl.
  destruct (IH q1 _ Hl1) as (q' & -> & Hl'); simpl.
  - rewrite list_insert_perm. simpl. by rewrite Permutation_middle.
  - intros x Hx. apply Hst. by right.
  - exists q'. by split.
Qed.

Lemma fold_insert_perm k l p : fold_left (fun l e => list_insert k e l) l p ≡ₚ p ++ l.
Proof.
  revert p. induction l as [|e l IH]; intros p; simpl; [by rewrite app_nil_r|].
  rewrite IH, list_insert_perm. simpl. by rewrite Permutation_middle.
Qed.

Lemma rel_handleAsync q a :
  eq_rel q a → (∀ e v, e ∈ a_async a → a_store a !! e = Some v → a_now a ≤ ev_when v) →
  ∃ q', handleAsyncInsertions q = Ok q' ∧ eq_rel q' (a_handleAsyncInsertions a).
Proof.
  intros [Hl Hi] Ht. unfold handleAsyncInsertions. rewrite <-(lk_async _ _ Hl).
  destruct (linked_insert_all (a_async a) q a Hl (inv_nodup _ Hi)) as (q' & -> & Hl').
  { intros e He. destruct (proj1 (inv_sched _ Hi e)) as (v & Hv & _); [apply elem_of_app; by right|eauto]. }
  cbn [rbind]. eexists. split; [done|]. split.
  - destruct Hl' as [H1 H2 H3 (bs & [Hs Hn Ho] & H4)]. split; simpl; [done|done|done|]. exists bs. by split.
  - destruct Hi as [Hnd Hs Hq Hti]. split; simpl.
    + by rewrite fold_insert_perm, app_nil_r.
    + intros e. by rewrite fold_insert_perm, app_nil_r.
    + done.
    + intros e v. rewrite fold_insert_perm, elem_of_app. intros [?|?]; [by apply Hti|by apply Ht].
Qed.

(** ** Servicing an event *)

Lemma inv_pop a e l v f :
  a_inv a → a_pending a = e :: l → a_store a !! e = Some v → inv_but e (a_upd (fun _ => l) (<[e := f v]> (a_store a)) a).
Proof.
  intros [Hnd Hs Hq Ht] Hp Hv. rewrite Hp in *. simpl in Hnd. apply NoDup_cons in Hnd as [He Hnd]. split; simpl; [done|done|..].
  - intros x Hx. rewrite lookup_insert_ne, <-Hs by done. simpl. rewrite elem_of_cons. tauto.
  - intros x w Hx. rewrite lookup_insert_ne by done. by apply Hq.
  - intros x w Hx. rewrite lookup_insert_ne; [apply Ht; by right|]. intros <-. apply He, elem_of_app. by left.
Qed.

(** No pending event is earlier than the first. *)
Lemma first_is_earliest q a e l v x w :
  linked q a → a_pending a = e :: l → a_store a !! e = Some v → x ∈ l → a_store a !! x = Some w →
  ev_when v ≤ ev_when w.
Proof.
  intros Hl Ep Hv Hx Hw. pose proof (linked_sorted _ _ Hl) as Hsort. rewrite Ep in Hsort.
  apply StronglySorted_inv in Hsort as [_ Hsort]. rewrite Forall_forall in Hsort. specialize (Hsort x Hx).
  rewrite (body_key _ _ _ Hv), (body_key _ _ _ Hw), klt_false in Hsort. simpl in Hsort. lia.
Qed.

Lemma res_rel_get {A B} (R : A → B → Prop) q a e f g :
  linked q a → (∀ w, a_store a !! e = Some (strip w) → res_rel R (f w) (g (strip w))) →
  res_rel R (rbind (get_event (events q) e) f) (rbind (get_event (a_store a) e) g).
Proof.
  intros Hl H. unfold get_event. destruct (rel_get _ _ e Hl) as [(v & w' & -> & Hv & ->)|[-> ->]]; [|done].
  rewrite Hv. simpl. by apply H.
Qed.

(** The same exit event, and related queues. *)
Definition same_exit (x : option Z * EventQueue) (y : option Z * AQueue) : Prop :=
  fst x = fst y ∧ eq_rel (snd x) (snd y).

Section service.
Context (process : Z → EventQueue → res EventQueue) (aprocess : Z → AQueue → res AQueue).
Hypothesis process_ok : ∀ e q a, eq_rel q a → res_rel eq_rel (process e q) (aprocess e a).

Lemma rel_release_none q a e :
  eq_rel q a →
  res_rel same_exit (let* q := release e q in Ok (None, q)) (let* a := a_release e a in Ok (None, a)).
Proof. intros H. eapply res_rel_bind; [by apply rel_release|]. by intros q' a' H'. Qed.

Lemma rel_serviceOne q a :
  eq_rel q a → a_pending a ≠ [] → res_rel same_exit (serviceOne process q) (a_serviceOne aprocess a).
Proof using process_ok.
  intros [Hl Hi] Hne. unfold serviceOne, a_serviceOne. destruct (a_pending a) as [|e l] eqn:Ep; [done|].
  destruct (proj1 (inv_sched _ Hi e)) as (v & Hv & Hs); [rewrite Ep; by left|].
  unfold get_event at 3. rewrite Hv. cbn [rbind].
  destruct (linked_pop q a e l v Hl Ep Hv) as (q1 & -> & Hl1). cbn [rbind].
  pose proof (inv_pop a e l v (clear_flag Scheduled) Hi Ep Hv) as Hb. set (v1 := clear_flag Scheduled v) in *.
  destruct (linked_lookup q1 _ e v1 Hl1) as (w & Hw & Ew); [by apply lookup_insert_eq|].
  unfold get_event at 1. rewrite Hw. cbn [rbind].
  change (squashed w) with (squashed (strip w)). rewrite <-Ew. destruct (squashed v1); cbn [negb].
  - destruct (linked_upd q1 _ e v1 (clear_flag Squashed) Hl1) as (q2 & -> & Hl2);
      [by apply lookup_insert_eq|by auto with events..|]. cbn [rbind]. apply rel_release_none. split; [done|].
    eapply inv_but_elim; [eapply inv_but_store; [exact Hb|]|].
    + intros x Hx. simpl. by rewrite lookup_insert_ne.
    + simpl. intros x. rewrite lookup_insert_eq. intros [= <-]. rewrite scheduled_clear_squashed. apply scheduled_clear.
  - eapply (res_rel_bind eq_rel).
    + apply process_ok. change (ev_when w) with (ev_when (strip w)). rewrite <-Ew. split.
      * destruct Hl1 as [H1 H2 H3 (bs & Hr & H4)]. split; simpl; [done|done|done|]. exists bs.
        split; [by destruct Hr|done].
      * assert (a_inv (a_upd (fun _ => l) (<[e:=v1]> (a_store a)) a)) as [I1 I2 I3 I4].
        { apply (inv_but_elim _ e Hb). simpl. intros x. rewrite lookup_insert_eq. intros [= <-]. apply scheduled_clear. }
        split; simpl; [done|done|done|]. intros x vx Hx Hvx.
        assert (x ≠ e) as Hxe by (intros ->; apply (but_out _ _ Hb), elem_of_app; by left).
        rewrite lookup_insert_ne in Hvx by done. by apply (first_is_earliest q a e l v x vx).
    + intros q2 a2 Hr. apply res_rel_get; [apply Hr|]. intros w2 _. change (isExitEvent (strip w2)) with (isExitEvent w2).
      destruct (isExitEvent w2); [|by apply rel_release_none].
      apply (res_rel_assert _ _ (negb (isSet Managed (ev_flags w2)) || negb (isSet IsMainQueue (ev_flags w2)))). done.
Qed.

Lemma linked_head q a e l : linked q a → a_pending a = e :: l → head q = Some e.
Proof.
  intros [_ _ _ ([|b bs] & [Hseg _ _] & Ec)] Hp; [by rewrite Hp in Ec|].
  apply seg_cons in Hseg as (t & r & ? & -> & -> & _). rewrite Hp in Ec. by simplify_eq/=.
Qed.

Lemma linked_empty q a : linked q a → a_pending a = [] → head q = None.
Proof.
  intros [_ _ _ ([|b bs] & [Hseg _ _] & Ec)] Hp; [done|].
  apply seg_cons in Hseg as (t & r & ? & -> & _). rewrite Hp in Ec. done.
Qed.

Lemma rel_sim_loop fuel : ∀ q a,
  eq_rel q a → res_rel same_exit (sim_loop process fuel q) (a_sim_loop aprocess fuel a).
Proof using process_ok.
  induction fuel as [|fuel IH]; intros q a Hr; [by split|]. pose proof Hr as [Hl Hi].
  cbn [sim_loop a_sim_loop]. destruct (a_pending a) as [|e l] eqn:Ep.
  { rewrite (linked_empty _ _ Hl Ep). unfold a_serviceOne. by rewrite Ep. }
  rewrite (linked_head _ _ _ _ Hl Ep). rewrite bool_decide_true by done. cbn [rbind assert_].
  destruct (proj1 (inv_sched _ Hi e)) as (v & Hv & Hs); [rewrite Ep; by left|].
  assert (nextTick q = Ok (ev_when v)) as ->.
  { destruct (linked_lookup _ _ _ _ Hl Hv) as (w & Hw & ->). unfold nextTick, get_event.
    by rewrite (linked_head _ _ _ _ Hl Ep), Hw. }
  cbn [rbind]. rewrite (proj2 (Z.leb_le _ _)); cbn [rbind assert_].
  - eapply res_rel_bind; [apply rel_serviceOne; [done|by rewrite Ep]|].
    intros [x q'] [y a'] [Hxy Hr']. simpl in Hxy, Hr'. subst y. destruct x; [by split|by apply IH].
  - rewrite <-(lk_now _ _ Hl). apply (inv_time _ Hi e); [rewrite Ep; by left|done].
Qed.
End service.

(** ** Sequences of operations *)

(** The calls that a process function makes. *)
Inductive QueueOp :=
  | OpSchedule (async : bool) (event when_ : Z)
  | OpDeschedule (event : Z)
  | OpReschedule (always : bool) (event when_ : Z)
  | OpSquash (event : Z).

Definition run_op (o : QueueOp) (q : EventQueue) : res EventQueue :=
  match o with
  | OpSchedule async e w => eq_schedule async e w q
  | OpDeschedule e => eq_deschedule e q
  | OpReschedule always e w => eq_reschedule always e w q
  | OpSquash e => upd_queue_event e squash q
  end.

Definition a_run_op (o : QueueOp) (a : AQueue) : res AQueue :=
  match o with
  | OpSchedule async e w => a_schedule async e w a
  | OpDeschedule e => a_deschedule e a
  | OpReschedule always e w => a_reschedule always e w a
  | OpSquash e => let* v := get_event (a_store a) e in Ok (a_upd id (<[e := squash v]> (a_store a)) a)
  end.

Lemma rel_run_op o q a : eq_rel q a → res_rel eq_rel (run_op o q) (a_run_op o a).
Proof. destruct o; [apply rel_schedule|apply rel_deschedule|apply rel_reschedule|apply rel_squash]. Qed.

Lemma rel_run_ops os : ∀ q a, eq_rel q a → res_rel eq_rel (fold_res run_op os q) (fold_res a_run_op os a).
Proof.
  induction os as [|o os IH]; intros q a Hr; [done|]. simpl.
  eapply res_rel_bind; [by apply rel_run_op|]. intros q' a' Hr'. by apply IH.
Qed.

Definition a_new (evs : gmap Z Event) : AQueue :=
  {| a_now := 0; a_pending := []; a_async := []; a_store := strip <$> evs |}.

(** A new queue, with events that have not been scheduled. *)
Lemma rel_new evs : (∀ e v, evs !! e = Some v → scheduled v = false) → eq_rel (new_EventQueue evs) (a_new evs).
Proof.
  intros Hev. split.
  - split; [done..|]. exists []. split; [|done]. split; [done|by constructor|]. split; [by intros ? ? ?%elem_of_nil|constructor].
  - assert (∀ e v, strip <$> evs !! e = Some v → scheduled v = false) as Hs.
    { intros e v. destruct (evs !! e) as [w|] eqn:E; simpl; [|done]. intros [= <-]. exact (Hev e w E). }
    split; simpl.
    + constructor.
    + intros e. rewrite elem_of_nil, lookup_fmap. split; [done|]. intros (v & Hv & E). rewrite (Hs e v Hv) in E. done.
    + intros e v. rewrite lookup_fmap. intros Hv E. rewrite (Hs e v Hv) in E. done.
    + by intros e v ?%elem_of_nil.
Qed.

(** The precondition of an operation: its assertions, and that an event to take
    off the queue is not still waiting in the asynchronous queue. *)
Definition op_ok (o : QueueOp) (q : EventQueue) : bool :=
  match o with
  | OpSchedule _ e w =>
      (eq_curTick q <=? w) &&
      match events q !! e with Some v => negb (scheduled v) && initialized v | None => false end
  | OpDeschedule e =>
      match events q !! e with
      | Some v => scheduled v && initialized v && bool_decide (e ∉ async_queue q)
      | None => false
      end
  | OpReschedule always e w =>
      (eq_curTick q <=? w) &&
      match events q !! e with
      | Some v => (always || scheduled v) && initialized v && (negb (scheduled v) || bool_decide (e ∉ async_queue q))
      | None => false
      end
  | OpSquash e => bool_decide (is_Some (events q !! e))
  end.

Definition is_ok {A} (x : res A) : bool := match x with Ok _ => true | Err _ => false end.

Lemma is_ok_rel {A B} (R : A → B → Prop) x y : res_rel R x y → is_ok x = is_ok y.
Proof. by destruct x, y. Qed.

Lemma is_ok_assert {A} site b (f : unit → res A) : is_ok (rbind (assert_ site b) f) = b && is_ok (f tt).
Proof. by destruct b. Qed.

(** A scheduled event is in the list unless it is in the asynchronous queue. *)
Lemma inv_where a e v :
  a_inv a → a_store a !! e = Some v → scheduled v = true →
  bool_decide (e ∈ a_pending a) = bool_decide (e ∉ a_async a).
Proof.
  intros [Hnd Hs _ _] Hv Hsc. apply bool_decide_ext. apply NoDup_app in Hnd as (_ & Hd & _).
  split; [by apply Hd|]. intros Hn. assert (e ∈ a_pending a ++ a_async a) as [?|?]%elem_of_app by (apply Hs; eauto); done.
Qed.

Lemma is_ok_remove a e : is_ok (a_remove e a) = bool_decide (e ∈ a_pending a).
Proof. unfold a_remove. by case_decide; [rewrite bool_decide_true|rewrite bool_decide_false]. Qed.

Lemma is_ok_bind {A B} (x : res A) (f : A → res B) : (∀ a, is_ok (f a) = true) → is_ok (rbind x f) = is_ok x.
Proof. intros H. destruct x; simpl; auto. Qed.

Lemma is_ok_release a e v : is_ok (a_release e (a_upd id (<[e := v]> (a_store a)) a)) = true.
Proof. unfold a_release, get_event. simpl. rewrite lookup_insert_eq. simpl. by destruct (_ && _). Qed.

Lemma is_ok_a_run_op o q a : eq_rel q a → is_ok (a_run_op o a) = op_ok o q.
Proof.
  intros [Hl Hi]. destruct o as [async e w|e|always e w|e]; cbn [a_run_op op_ok];
    unfold a_schedule, a_deschedule, a_reschedule; rewrite <-?(lk_now _ _ Hl), <-?(lk_async _ _ Hl), ?is_ok_assert;
    unfold get_event at 1; destruct (rel_get _ _ e Hl) as [(v & w' & -> & Hv & ->)|[-> Hv]];
    rewrite Hv; cbn [rbind]; rewrite ?is_ok_assert; try done;
    change (scheduled (strip w')) with (scheduled w'); change (initialized (strip w')) with (initialized w').
  - by rewrite andb_true_r.
  - rewrite is_ok_bind, is_ok_remove by (intros; apply is_ok_release).
    destruct (scheduled w') eqn:Es; [|done]. simpl. by rewrite (inv_where _ _ _ Hi Hv Es).
  - rewrite is_ok_bind by done. destruct (scheduled w') eqn:Es; simpl.
    + rewrite is_ok_remove, (inv_where _ _ _ Hi Hv Es). by destruct always, (initialized w').
    + by rewrite !andb_true_r.
Qed.

(** ** Main theorems *)

(** C35: from a new queue, any sequence of [schedule], [deschedule], [reschedule]
    and [squash] has the result of the same sequence on the sorted list: it fails
    with the same error, or the linked bins hold the list. *)
Theorem event_queue_refines (evs : gmap Z Event) (os : list QueueOp) :
  (∀ e v, evs !! e = Some v → scheduled v = false) →
  res_rel eq_rel (fold_res run_op os (new_EventQueue evs)) (fold_res a_run_op os (a_new evs)).
Proof. intros Hev. by apply rel_run_ops, rel_new. Qed.

(** C36: after any sequence of operations on a new queue, an operation succeeds
    exactly if its precondition holds. In particular the search in the bins never
    panics on an event that the queue holds, dereferences no stale pointer and
    ends. *)
Theorem queue_op_errors (evs : gmap Z Event) (os : list QueueOp) (q : EventQueue) (o : QueueOp) :
  (∀ e v, evs !! e = Some v → scheduled v = false) → fold_res run_op os (new_EventQueue evs) = Ok q →
  is_ok (run_op o q) = op_ok o q.
Proof.
  intros Hev Hq. pose proof (rel_run_ops os _ _ (rel_new evs Hev)) as H. rewrite Hq in H.
  destruct (fold_res a_run_op os (a_new evs)) as [a|]; [|done].
  rewrite <-(is_ok_a_run_op o q a H). by eapply is_ok_rel, rel_run_op.
Qed.

(** C37: [doSimLoop] runs the events in the order of the sorted list, whatever the
    events do, and none of them is in the past: the loop has the result of the
    abstract loop, which lacks that assertion. *)
Theorem sim_loop_in_order process aprocess (fuel : nat) (q : EventQueue) (a : AQueue) :
  (∀ e q a, eq_rel q a → res_rel eq_rel (process e q) (aprocess e a)) → eq_rel q a →
  (∀ e v, e ∈ a_async a → a_store a !! e = Some v → a_now a ≤ ev_when v) →
  res_rel same_exit (doSimLoop process fuel q) (a_doSimLoop aprocess fuel a).
Proof.
  intros Hp Hr Ha. unfold doSimLoop, a_doSimLoop. destruct (rel_handleAsync q a Hr Ha) as (q' & -> & Hr').
  by apply rel_sim_loop.
Qed.

(** *** Witnesses *)

(** Two events of the default priority, one that runs after them, and an exit
    event. The first schedules the second for its own tick, and moves the third. *)
Definition ex_event (p f : Z) : Event :=
  match new_Event p f with
  | Ok v => v
  | Err _ => {| nextBin := None; nextInBin := None; ev_when := 0; ev_priority := 0; ev_flags := 0; ev_queue := false |}
  end.
Definition ex_events : gmap Z Event :=
  <[1 := ex_event Default_Pri 0]> (<[2 := ex_event Default_Pri Managed]>
    (<[3 := ex_event 1 0]> (<[4 := ex_event 100 IsExitEvent]> ∅))).

Definition ex_setup : list QueueOp :=
  [OpSchedule false 4 9; OpSchedule false 3 5; OpSchedule false 1 5; OpReschedule false 3 7].
Definition ex_program (e : Z) : list QueueOp :=
  if e =? 1 then [OpSchedule false 2 5; OpReschedule true 3 6] else [].

Lemma ex_events_new e v : ex_events !! e = Some v → scheduled v = false.
Proof.
  assert (map_Forall (fun _ v => scheduled v = false) ex_events) as H
    by (apply (bool_decide_unpack _); vm_compute; exact I).
  apply H.
Qed.

Lemma event_queue_refines_witness :
  is_ok (fold_res a_run_op ex_setup (a_new ex_events)) = true ∧
  res_rel eq_rel (fold_res run_op ex_setup (new_EventQueue ex_events)) (fold_res a_run_op ex_setup (a_new ex_events)).
Proof. split; [vm_compute; reflexivity|]. apply event_queue_refines. apply ex_events_new. Defined.

(** The event is already scheduled. *)
Lemma queue_op_errors_witness :
  ∃ q, fold_res run_op ex_setup (new_EventQueue ex_events) = Ok q ∧
    is_ok (run_op (OpSchedule false 1 8) q) = op_ok (OpSchedule false 1 8) q ∧
    op_ok (OpSchedule false 1 8) q = false ∧ op_ok (OpDeschedule 1) q = true.
Proof.
  eexists. split; [vm_compute; reflexivity|]. split; [|split; vm_compute; reflexivity].
  apply (queue_op_errors ex_events ex_setup _ (OpSchedule false 1 8) ex_events_new). vm_compute; reflexivity.
Defined.

Definition ex_queue : EventQueue :=
  match fold_res run_op ex_setup (new_EventQueue ex_events) with Ok q => q | Err _ => new_EventQueue ∅ end.
Definition ex_aqueue : AQueue :=
  match fold_res a_run_op ex_setup (a_new ex_events) with Ok a => a | Err _ => a_new ∅ end.

Lemma ex_queue_rel : eq_rel ex_queue ex_aqueue.
Proof.
  unfold ex_queue, ex_aqueue. pose proof (rel_run_ops ex_setup _ _ (rel_new ex_events ex_events_new)) as H.
  destruct (fold_res run_op ex_setup _), (fold_res a_run_op ex_setup _); simpl in H; try done. by apply rel_new.
Qed.

(** Events 1, 2, 3 and 4 run in this order, and the last one ends the loop. *)
Lemma sim_loop_in_order_witness :
  (∃ q, doSimLoop (fun e => fold_res run_op (ex_program e)) 4 ex_queue = Ok (Some 4, q)) ∧
  res_rel same_exit
    (doSimLoop (fun e => fold_res run_op (ex_program e)) 4 ex_queue)
    (a_doSimLoop (fun e => fold_res a_run_op (ex_program e)) 4 ex_aqueue).
Proof.
  split; [eexists; vm_compute; reflexivity|]. apply sim_loop_in_order.
  - intros e q a. apply rel_run_ops.
  - apply ex_queue_rel.
  - intros e v He. vm_compute in He. inversion He.
Defined.
