(* ===== verification/SyntheticTraffic.v ===== *)
(** * The synthetic traffic generator

    cpu/testers/garnet_synthetic_traffic/GarnetSyntheticTraffic.{hh,cc}: a tester
    that makes the messages with which the network is measured. The values of the
    random generator and the answer of the port to a request are arguments. *)

From Stdlib Require Import QArith.
From S2P Require Import Prelude IntMath Clocked.

Local Open Scope Z_scope.

(** ** Data *)

Inductive TrafficType :=
  | BIT_COMPLEMENT_ | BIT_REVERSE_ | BIT_ROTATION_ | NEIGHBOR_ | SHUFFLE_ | TORNADO_ | TRANSPOSE_ | UNIFORM_RANDOM_.

#[export] Instance TrafficType_eq_dec : EqDecision TrafficType.
Proof. solve_decision. Defined.

Definition trafficStringToEnum (s : string) : option TrafficType :=
  if bool_decide (s = "bit_complement"%string) then Some BIT_COMPLEMENT_
  else if bool_decide (s = "bit_reverse"%string) then Some BIT_REVERSE_
  else if bool_decide (s = "bit_rotation"%string) then Some BIT_ROTATION_
  else if bool_decide (s = "neighbor"%string) then Some NEIGHBOR_
  else if bool_decide (s = "shuffle"%string) then Some SHUFFLE_
  else if bool_decide (s = "tornado"%string) then Some TORNADO_
  else if bool_decide (s = "transpose"%string) then Some TRANSPOSE_
  else if bool_decide (s = "uniform_random"%string) then Some UNIFORM_RANDOM_
  else None.

Inductive Command := ReadReq | WriteReq.

Record Packet := {
  pkt_paddr : Z;
  pkt_cmd : Command;
  pkt_inst_fetch : bool;
  pkt_context : Z
}.

Record GarnetSyntheticTraffic := {
  gt_id : Z;
  blockSizeBits : Z;
  numDestinations : Z;
  simCycles : Z;
  numPacketsMax : Z;
  singleSender : Z;
  singleDest : Z;
  gt_traffic : TrafficType;
  injRate : Q;
  injVnet : Z;
  precision : Z;
  responseLimit : Z;
  (* state *)
  retryPkt : option Packet;
  numPacketsSent : Z;
  noResponseCycles : Z;
  tickEvent : option Z
}.

Definition with_tester (g : GarnetSyntheticTraffic) (retry : option Packet) (sent no_resp : Z) (ev : option Z)
    : GarnetSyntheticTraffic :=
  {| gt_id := gt_id g; blockSizeBits := blockSizeBits g; numDestinations := numDestinations g; simCycles := simCycles g;
     numPacketsMax := numPacketsMax g; singleSender := singleSender g; singleDest := singleDest g;
     gt_traffic := gt_traffic g; injRate := injRate g; injVnet := injVnet g; precision := precision g;
     responseLimit := responseLimit g; retryPkt := retry; numPacketsSent := sent; noResponseCycles := no_resp;
     tickEvent := ev |}.

(** The constructor and [init]; [tester_network] is the static counter. *)
Definition new_GarnetSyntheticTraffic (tester_network block_offset num_dest sim_cycles num_packets_max single_sender
    single_dest : Z) (traffic_type : string) (inj_rate : Q) (inj_vnet prec response_limit : Z)
    : res (GarnetSyntheticTraffic * Z) :=
  match trafficStringToEnum traffic_type with
  | None => Err (EFatal "Unknown Traffic Type")
  | Some t =>
      Ok ({| gt_id := tester_network; blockSizeBits := block_offset; numDestinations := num_dest;
             simCycles := sim_cycles; numPacketsMax := num_packets_max; singleSender := single_sender;
             singleDest := single_dest; gt_traffic := t; injRate := inj_rate; injVnet := inj_vnet;
             precision := prec; responseLimit := response_limit; retryPkt := None; numPacketsSent := 0;
             noResponseCycles := 0; tickEvent := Some 0 |}, tester_network + 1)
  end.

(** ** Destinations *)

(** The loop of the bit reversal: [n] turns. *)
Fixpoint reverse_loop (n : nat) (straight reverse : Z) : Z :=
  match n with
  | O => reverse
  | S n =>
      let reverse := u32 (Z.shiftl reverse 1) in
      let straight := Z.shiftr straight 1 in
      reverse_loop n straight (Z.lor reverse (Z.land straight 1))
  end.

(** The destination of node [source] among [n]; [random_dest] is the value drawn
    for uniform random traffic. The square root and the logarithm are rounded
    down; quotients and remainders are those of ints. *)
Definition traffic_destination (t : TrafficType) (n source random_dest : Z) : Z :=
  let radix := Z.sqrt n in
  let src_x := Z.rem source radix in
  let src_y := Z.quot source radix in
  u32 match t with
      | UNIFORM_RANDOM_ => random_dest
      | BIT_COMPLEMENT_ => (radix - src_y - 1) * radix + (radix - src_x - 1)
      | BIT_REVERSE_ => reverse_loop (Z.to_nat (Z.log2 n - 1)) source (Z.land source 1)
      | BIT_ROTATION_ => if Z.rem source 2 =? 0 then Z.quot source 2 else Z.quot source 2 + Z.quot n 2
      | NEIGHBOR_ => src_y * radix + Z.rem (src_x + 1) radix
      | SHUFFLE_ => if source <? Z.quot n 2 then source * 2 else source * 2 - n + 1
      | TRANSPOSE_ => src_x * radix + src_y
      | TORNADO_ => src_y * radix + Z.rem (src_x + Z.quot radix 2 - 1) radix
      end.

(** The coordinates of the source are computed first: without destinations that
    is a division by zero. *)
Definition gt_destination (g : GarnetSyntheticTraffic) (random_dest : Z) : res Z :=
  if Z.sqrt (numDestinations g) =? 0 then Err (EFatal "division by zero")
  else if 0 <=? singleDest g then Ok (u32 (singleDest g))
  else Ok (traffic_destination (gt_traffic g) (numDestinations g) (gt_id g) random_dest).

(** The packet for a destination; [random_vnet] is drawn if no virtual network is
    configured. *)
Definition make_packet (g : GarnetSyntheticTraffic) (destination random_vnet : Z) : Packet :=
  let paddr := u64 (Z.shiftl destination (blockSizeBits g)) in
  let injReqType := if (injVnet g <? 0) || (2 <? injVnet g) then random_vnet else injVnet g in
  {| pkt_paddr := paddr; pkt_cmd := if (injReqType =? 0) || (injReqType =? 1) then ReadReq else WriteReq;
     pkt_inst_fetch := injReqType =? 1; pkt_context := gt_id g |}.

(** ** Operations *)

(** [accepted] is the answer of [sendTimingReq]. *)
Definition sendPkt (accepted : bool) (pkt : Packet) (g : GarnetSyntheticTraffic) : GarnetSyntheticTraffic :=
  with_tester g (if accepted then retryPkt g else Some pkt) (numPacketsSent g + 1) (noResponseCycles g) (tickEvent g).

Definition generatePkt (random_dest random_vnet : Z) (accepted : bool) (g : GarnetSyntheticTraffic)
    : res (Packet * GarnetSyntheticTraffic) :=
  let* destination := gt_destination g random_dest in
  let pkt := make_packet g destination random_vnet in
  Ok (pkt, sendPkt accepted pkt g).

Definition completeRequest (isResponse : bool) (g : GarnetSyntheticTraffic) : res GarnetSyntheticTraffic :=
  let* _ := assert_ "pkt->isResponse()" isResponse in
  Ok (with_tester g (retryPkt g) (numPacketsSent g) 0 (tickEvent g)).

Definition doRetry (accepted : bool) (g : GarnetSyntheticTraffic) : res (option Packet * GarnetSyntheticTraffic) :=
  match retryPkt g with
  | None => Err EUninit
  | Some pkt =>
      Ok (Some pkt, if accepted then with_tester g None (numPacketsSent g) (noResponseCycles g) (tickEvent g) else g)
  end.

(** The random number that decides whether a packet is sent is below the rate. *)
Definition sendAllowed (g : GarnetSyntheticTraffic) (trySending : Z) : bool :=
  negb (Qle_bool (injRate g * inject_Z (10 ^ precision g)) (inject_Z trySending)).

Definition senderEnable (g : GarnetSyntheticTraffic) : bool :=
  negb ((0 <=? numPacketsMax g) && (numPacketsMax g <=? numPacketsSent g)) &&
  negb ((0 <=? singleSender g) && negb (gt_id g =? singleSender g)).

(** [tick], run by the tick event, which is no longer scheduled then. The result
    has the packet offered to the port, if any, and whether the loop is left. *)
Definition tick (env : ClockEnv) (trySending random_dest random_vnet : Z) (accepted : bool) (g : GarnetSyntheticTraffic)
    : res (option Packet * bool * GarnetSyntheticTraffic) :=
  let g := with_tester g (retryPkt g) (numPacketsSent g) (u64 (noResponseCycles g + 1)) None in
  if responseLimit g <=? noResponseCycles g then Err (EFatal "deadlocked")
  else
    let* ' (pkt, g) :=
      (if sendAllowed g trySending && senderEnable g then
         let* ' (pkt, g) := generatePkt random_dest random_vnet accepted g in Ok (Some pkt, g)
       else Ok (None, g)) in
    if simCycles g <=? curTick env then Ok (pkt, true, g)
    else
      let ev := match tickEvent g with Some t => Some t | None => Some (clockEdge env 1) end in
      Ok (pkt, false, with_tester g (retryPkt g) (numPacketsSent g) (noResponseCycles g) ev).

(** ** Properties *)

(** The numbers of nodes for which a pattern is meant: squares for the patterns
    on a grid, even numbers for rotation and shuffle, powers of two for the bit
    reversal. *)
Definition pattern_fits (t : TrafficType) (n : Z) : Prop :=
  match t with
  | BIT_COMPLEMENT_ | NEIGHBOR_ | TRANSPOSE_ | TORNADO_ => ∃ r, 0 < r ∧ n = r * r
  | BIT_ROTATION_ | SHUFFLE_ => 0 < n ∧ n mod 2 = 0
  | BIT_REVERSE_ => ∃ k, 0 < k ∧ n = 2 ^ k
  | UNIFORM_RANDOM_ => False
  end.

Lemma grid_inj r a b a' b' : 0 ≤ b < r → 0 ≤ b' < r → a * r + b = a' * r + b' → a = a' ∧ b = b'.
Proof. intros. assert (a = a') by nia. subst. lia. Qed.

Lemma grid_range r a b : 0 ≤ a < r → 0 ≤ b < r → 0 ≤ a * r + b < r * r.
Proof. nia. Qed.

Lemma grid_split r s : 0 < r → 0 ≤ s < r * r →
  ∃ x y, s = y * r + x ∧ 0 ≤ x < r ∧ 0 ≤ y < r ∧ Z.rem s r = x ∧ Z.quot s r = y.
Proof.
  intros Hr Hs. exists (s mod r), (s / r). pose proof (Z.mod_pos_bound s r Hr). pose proof (Z.div_mod s r ltac:(lia)).
  rewrite Z.rem_mod_nonneg, Z.quot_div_nonneg by lia. split_and!; nia || done.
Qed.

(** Moving along a row of the grid by a fixed distance. *)
Lemma shift_inj r d x x' : 0 < r → 0 ≤ x < r → 0 ≤ x' < r → (x + d) mod r = (x' + d) mod r → x = x'.
Proof.
  intros Hr Hx Hx' E. pose proof (Z.div_mod (x + d) r ltac:(lia)). pose proof (Z.div_mod (x' + d) r ltac:(lia)).
  rewrite E in *. assert ((x + d) / r = (x' + d) / r) by nia. nia.
Qed.

(** *** Bit reversal *)

Lemma reverse_loop_spec n : ∀ j source reverse,
  0 ≤ j → j + Z.of_nat n < 32 → 0 ≤ source →
  (∀ i, 0 ≤ i → Z.testbit reverse i = (i <=? j) && Z.testbit source (j - i)) →
  ∀ i, 0 ≤ i →
    Z.testbit (reverse_loop n (Z.shiftr source j) reverse) i =
    (i <=? j + Z.of_nat n) && Z.testbit source (j + Z.of_nat n - i).
Proof.
  induction n as [|n IH]; intros j source reverse Hj Hn Hs Hrev i Hi; [by rewrite Nat2Z.inj_0, Z.add_0_r; apply Hrev|].
  cbn [reverse_loop]. rewrite Z.shiftr_shiftr by lia.
  replace (j + Z.of_nat (S n)) with (j + 1 + Z.of_nat n) by lia. apply IH; [lia|lia|done| |done].
  clear i Hi. intros i Hi. rewrite Z.lor_spec, Z.land_spec. unfold u32.
  rewrite Z.shiftr_spec by done.
  destruct (Z.eq_dec i 0) as [->|Hi0].
  - rewrite Z.mod_pow2_bits_low, Z.shiftl_spec_low by lia. simpl. rewrite andb_true_r.
    rewrite (proj2 (Z.leb_le 0 (j + 1))) by lia. simpl. f_equal. lia.
  - rewrite (Z.bits_above_log2 1 i) by (simpl; lia). rewrite andb_false_r, orb_false_r.
    destruct (Z.lt_ge_cases i 32).
    + rewrite Z.mod_pow2_bits_low, Z.shiftl_spec, Hrev by lia. f_equal; [|f_equal; lia]. 
      destruct (Z.leb_spec (i - 1) j), (Z.leb_spec i (j + 1)); lia.
    + rewrite Z.mod_pow2_bits_high by lia. symmetry. rewrite (proj2 (Z.leb_gt i (j + 1))) by lia. done.
Qed.

(** Bit [i] of the reversal of a [k]-bit number is bit [k - 1 - i]. *)
Lemma reverse_bits k s i :
  0 < k < 32 → 0 ≤ s → 0 ≤ i →
  Z.testbit (reverse_loop (Z.to_nat (k - 1)) s (Z.land s 1)) i = (i <? k) && Z.testbit s (k - 1 - i).
Proof.
  intros Hk Hs Hi. rewrite <-(Z.shiftr_0_r s) at 1. rewrite (reverse_loop_spec _ 0 s); [|lia..| |done].
  - rewrite Z2Nat.id, Z.add_0_l by lia. f_equal. destruct (Z.leb_spec i (k - 1)), (Z.ltb_spec i k); lia.
  - intros j Hj. rewrite Z.land_spec. destruct (Z.eq_dec j 0) as [->|]; [simpl; by rewrite andb_true_r|].
    rewrite (Z.bits_above_log2 1 j) by (simpl; lia). rewrite andb_false_r. rewrite (proj2 (Z.leb_gt j 0)) by lia. done.
Qed.

Lemma reverse_range k s : 0 < k < 32 → 0 ≤ s → 0 ≤ reverse_loop (Z.to_nat (k - 1)) s (Z.land s 1) < 2 ^ k.
Proof.
  intros Hk Hs. set (v := reverse_loop _ _ _). assert (v = v mod 2 ^ k) as ->.
  - apply Z.bits_inj'. intros i Hi. destruct (Z.lt_ge_cases i k).
    + by rewrite Z.mod_pow2_bits_low by lia.
    + rewrite Z.mod_pow2_bits_high by lia. unfold v. rewrite reverse_bits by lia.
      by rewrite (proj2 (Z.ltb_ge i k)) by lia.
  - apply Z.mod_pos_bound. lia.
Qed.

Lemma reverse_inj k s s' :
  0 < k < 32 → 0 ≤ s < 2 ^ k → 0 ≤ s' < 2 ^ k →
  reverse_loop (Z.to_nat (k - 1)) s (Z.land s 1) = reverse_loop (Z.to_nat (k - 1)) s' (Z.land s' 1) → s = s'.
Proof.
  intros Hk Hs Hs' E. apply Z.bits_inj'. intros i Hi. destruct (Z.lt_ge_cases i k).
  - assert (Z.testbit (reverse_loop (Z.to_nat (k - 1)) s (Z.land s 1)) (k - 1 - i) =
            Z.testbit (reverse_loop (Z.to_nat (k - 1)) s' (Z.land s' 1)) (k - 1 - i)) as Eb by by rewrite E.
    rewrite !reverse_bits, (proj2 (Z.ltb_lt (k - 1 - i) k)) in Eb by lia. simpl in Eb.
    by replace (k - 1 - (k - 1 - i)) with i in Eb by lia.
  - rewrite <-(Z.mod_small s (2 ^ k)), <-(Z.mod_small s' (2 ^ k)) by done. by rewrite !Z.mod_pow2_bits_high by lia.
Qed.

(** *** Permutations of the nodes *)

Definition permutes (n : Z) (f : Z → Z) : Prop :=
  (∀ s, 0 ≤ s < n → 0 ≤ f s < n) ∧ (∀ s s', 0 ≤ s < n → 0 ≤ s' < n → f s = f s' → s = s').

Lemma permutes_ext n f g : (∀ s, 0 ≤ s < n → f s = g s) → permutes n f → permutes n g.
Proof.
  intros E [H1 H2]. split; [intros s Hs; rewrite <-E by done; by apply H1|].
  intros s s' Hs Hs'. rewrite <-!E by done. by apply H2.
Qed.

Lemma permutes_u32 n f : n ≤ 2 ^ 32 → permutes n f → permutes n (fun s => u32 (f s)).
Proof.
  intros Hn [H1 H2]. apply (permutes_ext n f); [|by split]. intros s Hs. specialize (H1 s Hs).
  symmetry. apply Z.mod_small. lia.
Qed.

Lemma permutes_perm n f : permutes n f → map f (seqZ 0 n) ≡ₚ seqZ 0 n.
Proof.
  intros [H1 H2]. assert (NoDup (map f (seqZ 0 n))) as Hnd.
  { apply NoDup_fmap_2_strong; [|apply NoDup_seqZ]. intros s s'. rewrite !elem_of_seqZ. intros Hs Hs'. apply H2; lia. }
  apply submseteq_length_Permutation; [|by rewrite length_map]. apply NoDup_submseteq; [done|].
  intros x (s & -> & Hs)%list_elem_of_fmap. rewrite elem_of_seqZ in *. specialize (H1 s). lia.
Qed.

(** A function on a grid, given by its effect on the coordinates. *)
Lemma grid_permutes r f gx gy :
  0 < r →
  (∀ x y, 0 ≤ x < r → 0 ≤ y < r → 0 ≤ gx x y < r ∧ 0 ≤ gy x y < r) →
  (∀ x y x' y', 0 ≤ x < r → 0 ≤ y < r → 0 ≤ x' < r → 0 ≤ y' < r → gx x y = gx x' y' → gy x y = gy x' y' → x = x' ∧ y = y') →
  (∀ s, 0 ≤ s < r * r → f s = gy (Z.rem s r) (Z.quot s r) * r + gx (Z.rem s r) (Z.quot s r)) →
  permutes (r * r) f.
Proof.
  intros Hr Hg Hinj Hf. split.
  - intros s Hs. rewrite Hf by done. destruct (grid_split r s Hr Hs) as (x & y & _ & Hx & Hy & -> & ->).
    destruct (Hg x y Hx Hy). by apply grid_range.
  - intros s s' Hs Hs'. rewrite !Hf by done.
    destruct (grid_split r s Hr Hs) as (x & y & -> & Hx & Hy & -> & ->).
    destruct (grid_split r s' Hr Hs') as (x' & y' & -> & Hx' & Hy' & -> & ->).
    destruct (Hg x y Hx Hy), (Hg x' y' Hx' Hy'). intros E. apply grid_inj in E as [E1 E2]; [|done..].
    by destruct (Hinj x y x' y') as [-> ->].
Qed.

(** Moving along the rows by a fixed distance. *)
Lemma row_shift_permutes r d f :
  0 < r → 0 ≤ d ∨ r = 1 →
  (∀ s, 0 ≤ s < r * r → f s = Z.quot s r * r + Z.rem (Z.rem s r + d) r) → permutes (r * r) f.
Proof.
  intros Hr Hd Hf. apply (grid_permutes r f (fun x y => (x + d) mod r) (fun x y => y)); [done|..].
  - intros x y Hx Hy. split; [by apply Z.mod_pos_bound|done].
  - intros x y x' y' Hx Hy Hx' Hy' E1 ->. split; [by eapply (shift_inj r d)|done].
  - intros s Hs. rewrite Hf by done. f_equal. destruct Hd as [Hd| ->]; [|by rewrite Z.rem_1_r, Z.mod_1_r].
    apply Z.rem_mod_nonneg; [|done]. assert (0 ≤ Z.rem s r) by (apply Z.rem_nonneg; lia). lia.
Qed.

Lemma even_half n : n mod 2 = 0 → 0 < n → n = 2 * Z.quot n 2.
Proof. intros Hm Hn. rewrite Z.quot_div_nonneg by lia. pose proof (Z.div_mod n 2). lia. Qed.

Lemma rotation_permutes n :
  0 < n → n mod 2 = 0 →
  permutes n (fun s => if Z.rem s 2 =? 0 then Z.quot s 2 else Z.quot s 2 + Z.quot n 2).
Proof.
  intros Hn Hm. pose proof (even_half n Hm Hn). split.
  - intros s Hs. pose proof (Z.quot_rem s 2). pose proof (Z.rem_bound_pos s 2). case_match; lia.
  - intros s s' Hs Hs'. pose proof (Z.quot_rem s 2). pose proof (Z.rem_bound_pos s 2).
    pose proof (Z.quot_rem s' 2). pose proof (Z.rem_bound_pos s' 2).
    destruct (Z.eqb_spec (Z.rem s 2) 0), (Z.eqb_spec (Z.rem s' 2) 0); lia.
Qed.

Lemma shuffle_permutes n :
  0 < n → n mod 2 = 0 → permutes n (fun s => if s <? Z.quot n 2 then s * 2 else s * 2 - n + 1).
Proof.
  intros Hn Hm. pose proof (even_half n Hm Hn). split.
  - intros s Hs. destruct (Z.ltb_spec s (Z.quot n 2)); lia.
  - intros s s' Hs Hs'. destruct (Z.ltb_spec s (Z.quot n 2)), (Z.ltb_spec s' (Z.quot n 2)); lia.
Qed.

Lemma pattern_permutes t n rd :
  pattern_fits t n → n < 2 ^ 31 → permutes n (fun s => traffic_destination t n s rd).
Proof.
  intros Hfit Hn. apply permutes_u32; [lia|]. destruct t; simpl in Hfit; try done.
  - destruct Hfit as (r & Hr & ->). rewrite Z.sqrt_square by lia.
    apply (grid_permutes r _ (fun x y => r - x - 1) (fun x y => r - y - 1)); [done|lia..|done].
  - destruct Hfit as (k & Hk & ->). rewrite Z.log2_pow2 by lia.
    assert (k < 32) by (apply (Z.pow_lt_mono_r_iff 2); lia). split.
    + intros s Hs. apply reverse_range; lia.
    + intros s s' Hs Hs'. apply reverse_inj; lia.
  - destruct Hfit. by apply rotation_permutes.
  - destruct Hfit as (r & Hr & ->). rewrite Z.sqrt_square by lia. by apply (row_shift_permutes r 1); [|left|].
  - destruct Hfit. by apply shuffle_permutes.
  - destruct Hfit as (r & Hr & ->). rewrite Z.sqrt_square by lia.
    apply (row_shift_permutes r (Z.quot r 2 - 1)); [done| |intros s _; by rewrite Z.add_sub_assoc].
    rewrite Z.quot_div_nonneg by lia. pose proof (Z.div_mod r 2). pose proof (Z.mod_pos_bound r 2). lia.
  - destruct Hfit as (r & Hr & ->). rewrite Z.sqrt_square by lia.
    apply (grid_permutes r _ (fun x y => y) (fun x y => x)); [done|done|naive_solver|done].
Qed.

(** C40: each deterministic traffic pattern is a permutation of the nodes on the
    network sizes it is made for: every node sends to a node, and every node is
    the destination of exactly one. *)
Theorem traffic_is_permutation t n rd :
  pattern_fits t n → n < 2 ^ 31 →
  map (fun s => traffic_destination t n s rd) (seqZ 0 n) ≡ₚ seqZ 0 n.
Proof. intros Hfit Hn. by apply permutes_perm, pattern_permutes. Qed.

Lemma traffic_is_permutation_witness :
  map (fun s => traffic_destination TORNADO_ 16 s 0) (seqZ 0 16) ≡ₚ seqZ 0 16 ∧
  traffic_destination TORNADO_ 16 6 0 = 7 ∧ traffic_destination BIT_REVERSE_ 16 6 0 = 6.
Proof.
  split; [|split; vm_compute; reflexivity]. apply (traffic_is_permutation TORNADO_ 16 0).
  - exists 4. lia.
  - lia.
Defined.

(** A port that refuses two packets in a row: the second takes the place of the
    first, which is never sent, though both are counted. *)
Example refused_packet_is_lost :
  (let* ' (g, _) := new_GarnetSyntheticTraffic 1 6 16 1000 (-1) (-1) (-1) "uniform_random" 1 0 3 100 in
   let* ' (p1, _, g) := tick {| curTick := 0; clockPeriod := 1 |} 0 5 0 false g in
   let* ' (p2, _, g) := tick {| curTick := 1; clockPeriod := 1 |} 0 9 0 false g in
   let* ' (sent, g) := doRetry true g in
   Ok (pkt_paddr <$> p1, pkt_paddr <$> sent, retryPkt g, numPacketsSent g)) = Ok (Some 320, Some 576, None, 2).
Proof. vm_compute. reflexivity. Qed.

(** The distance of tornado traffic in a row of 5 is 1, not the 2 of rounding up
    half of the row. *)
Example tornado_rounds_down : traffic_destination TORNADO_ 25 0 0 = 1.
Proof. reflexivity. Qed.
